(* ===== verification/_CoqProject ===== *)
-Q . S2P
Prelude.v
Word.v
Mem.v
Bitmap.v
TestBitmap.v
CString.v
BootInfo.v
FrameAlloc.v
RefAlloc.v
Pmm.v
Paging.v
Isr.v
Vmm.v
AddressSpace.v
VmmCalls.v
Demand.v
Heap.v
Stack.v
Spinlock.v
Sched.v
Thread.v
Printf.v
Acpi.v
Madt.v
Io.v
Keyboard.v
Font.v
Console.v
Serial.v
Log.v
Panic.v
Gdt.v
Idt.v
IsrStubs.v
Ioapic.v
Lapic.v
Timer.v
Preempt.v
Syscall.v
BootConsole.v
BootDevices.v
Main.v
Kmain.v
Entry.v
System.v
SystemRun.v
BootErrors.v
