(* ===== verification/Prelude.v ===== *)
(** * Quin kernel: verification library (root file)

    The repository is a small x86-64 kernel in C and assembly, booted by
    Limine. This library models its own code under kernel/ as Rocq functions
    translated from the source, and proves what each component promises and that
    the components fit together. Every theorem about an operation says that it
    returns ([Ok]), so memory safety and termination are part of it, unless it
    states the panic or the undefined behaviour the code has.

    ** The program

    [kernel_entry] (boot/entry.c) checks the bootloader's base revision and calls [kmain]
    (main.c), which brings up the serial port and the framebuffer console, the
    segment and interrupt tables, the physical memory manager (PMM), the
    virtual memory manager (VMM), the heap, ACPI, the interrupt controllers,
    the scheduler, the timer, the keyboard and system calls, and then runs
    demonstration threads. The state that components share is memory: the PMM's
    bitmap and frames and the VMM's page tables in the direct map, the heap's
    headers and its clients' data in one range, thread stacks, the framebuffer.
    Calls go downwards: threads use the heap, the VMM and the scheduler; the
    heap and the stacks use the VMM; the VMM uses the PMM; log and panic use
    [kvprintf], the serial port and the console. Calls from below are the
    page-fault, timer and keyboard handlers, reached through the stubs and the
    dispatcher.

    ** Files

    Foundations:
    - Prelude.v: outcomes (a [Panic] carries the call that ended the run: the
      format and arguments of [panic], or the frame given to [panic_exception]),
      the monad, counted loops and their rules, automation;
    - Word.v: integers of include/kernel.h and C, with wrap-around;
    - Mem.v, Stack.v: byte-addressed memory; push and pop.
    Libraries:
    - Bitmap.v (lib/bitmap.c), CString.v (lib/string.c), Printf.v (lib/printf.c);
      TestBitmap.v: the repository's unit tests (tests/unit), run on the model.
    Memory:
    - BootInfo.v (boot/limine_requests.c, include/boot_info.h);
    - FrameAlloc.v: the class the VMM is written against; Pmm.v (mm/pmm.c)
      discharges it, RefAlloc.v is its smallest model;
    - Paging.v: entry encoding of arch/x86_64/mm/vmm.c, the processor's walk and
      well-formed table trees; Vmm.v: the operations of vmm.c and their
      specifications; AddressSpace.v: its theorems; VmmCalls.v: any sequence of
      calls; Demand.v: lazy regions as memory;
    - Heap.v (mm/heap.c), over Demand.v: the first header of [heap_init] is
      stored through the page tables, and its page faults in there.
    Processor (arch/x86_64/cpu):
    - Gdt.v (gdt.c, gdt_flush.S), Idt.v (idt.c), IsrStubs.v (isr_stubs.S), Isr.v
      (isr.c), Syscall.v (syscall.c, syscall_entry.S), Lapic.v (lapic.c,
      lapic_timer.c), Ioapic.v (ioapic.c), Panic.v (panic.c), Io.v (io.h: classes
      of device access).
    Threads:
    - Spinlock.v (sched/spinlock.c), Sched.v (sched/sched.c, context_switch.S, the
      tick handler of drivers/timer/timer.c), Thread.v (sched/thread.c).
    Devices and output:
    - Serial.v, Keyboard.v, Font.v and Console.v, Timer.v (drivers/), Log.v
      (lib/log.c), Acpi.v and Madt.v (acpi/).
    Composition:
    - Preempt.v: a timer interrupt through stub, dispatcher, scheduler and back;
    - main.c in the order of [kmain]: BootConsole.v (serial port, screen, banner),
      Main.v (the memory managers; also the ring 3 demonstration), BootDevices.v
      (ACPI, interrupt controllers, timer, keyboard, system calls), Kmain.v (the
      whole up to the first [sched_yield], with the four threads);
    - Entry.v: what never returns (boot/entry.c, cpu/halt.c, boot/qemu_exit.c, the
      check of boot/limine_requests.c, the end of [kmain], the threads of main.c)
      as interaction trees over the events of the processor;
    - System.v: the processor that runs these programs and the ring 3 program one
      at a time, switching through the scheduler of Sched.v; SystemRun.v: its run
      from power-on to the last [hlt], and the checks of
      tests/integration/smoke_test.sh on it;
    - BootErrors.v: the answers of the bootloader and the ACPI tables that end the
      start in [panic].

    Definitions keep the source's names. A C function is a Rocq function from
    the state it reads to [res] of its result and the state it leaves; static
    variables are the fields of a record ([pmm], [vmm], [sched], [keyboard],
    [framebuffer], [log]); the fields of packed structures are loads and stores
    at their offsets; a loop that does not count is a Fixpoint on fuel.

    ** What the theorems show

    - Frames: [pmm_init] puts the bitmap in the first region that can hold it
      ([bitmap_place]), frees exactly the usable frames and panics when there is no
      such region; allocation and freeing on every branch; no interleaving of
      clients hands a frame out twice.
    - Address space: [vmm_map], [vmm_unmap], [vmm_alloc_guarded] and the
      page-fault handler change exactly the translations they should, judged by
      the processor's walk (over the manual's bit fields, [indices]), keep the
      tree of tables well-formed, take exactly one frame per data page and per
      missing table ([missing]) and fail only for want of frames; a lazy region
      refines plain zero-initialised memory.
    - Heap: blocks tile the range; [kmalloc] is first fit, [kfree] the abstract
      release; no interleaving of clients makes blocks overlap or touches
      another block's bytes.
    - Threads: mutual exclusion of the lock under every interleaving; a switch
      saves and resumes contexts exactly and keeps the invariant of the ring;
      round robin with exact slices, over any sequence of ticks, yields and new
      threads; a created thread enters its function.
    - Interrupts and system calls: tables as the processor reads them; an
      interrupt is transparent; a system call returns to ring 3 as it left.
    - Devices: console, keyboard, serial line, interrupt controllers and timer
      refine a text grid, a bounded queue, a character stream, a redirection
      table and a count calibrated by what the APIC counted in the interval.
    - Text: [kvprintf] is equal to a reference rendering; numbers read back;
      [ksnprintf] stays in its buffer; log lines and panic reports come out in
      full and change no other memory (the stack trace of a panic needs a chain of
      frames that can be read).
    - ACPI: the search and the MADT parser against reference functions;
      termination on any bytes.
    - Preemption: a thread taken off the processor by the timer comes back with
      every register, its flags and its stack, whatever the others do meanwhile.
    - Start: on one machine with all the components, [kmain] runs to its first
      yield without a fault, establishes together the invariants that the other
      theorems assume, and prints exactly its lines, with the number of frames
      left after the heap's first page fault; the memory part is a theorem of its
      own.
    - Errors: the first fault in the bootloader's answers or the ACPI tables, in
      the order in which the code comes to them, decides the panic that ends the
      start, with its format and arguments; without one the start succeeds.
    - Whole machine: from [kernel_entry] on, the boot thread, the ring 3 program
      and the three demonstration threads take turns, through yields and timer
      ticks, print exactly their lines in order, and the machine comes to rest;
      the smoke test passes.
    - Control flow: [kernel_entry] never returns, on either branch of its check; a
      demonstration thread logs its lines in order and then waits for ever.

    ** Bounds and fuel

    A counted loop runs its count, so it needs no fuel. Elsewhere:
    - [heap_fuel] is one more than the headers the heap's range can hold;
    - [mem_fuel] is one more than the bytes of memory, hence than any string;
    - the MADT loop has one step per byte of the table's length, and one more;
    - [lock_fuel] is 1: a free lock is taken at once, and a lock nobody can
      release is never taken with any fuel;
    - polling loops (serial transmitter, PIT) take a fuel above the bound the
      device's class promises;
    - [digits_loop] has the 32 slots of the C array, [numeral] 64;
    - [access_fuel] is 2: one page fault per access;
    - the stack trace visits 16 frames, as the code does;
    - [Entry.run] takes one unit per event and per round of a loop: 16 are enough
      to bring the entry point and the demonstration thread to their last wait,
      4 the ring 3 thread, and what is left then waits for ever ([idle], without
      fuel);
    - [run_system] takes one unit per step of the machine; that some number of
      steps is enough, and then any larger one, is part of its theorem.

    ** Assumptions and abstractions

    Code that is not in the repository is a parameter. The bootloader's
    answers are data, its memory map and page tables well-formed where a
    theorem says so ([memmap_ok], [boot_tables]). Devices are classes of laws
    ([Uart], [IoApicDev], [LocalApic], [Pit], [MsrFile]), each with a concrete
    instance. The processor's rules (page walk, descriptors, gates, [iretq],
    [syscall], [sysretq], page-fault error codes) are definitions from the
    manual, used as the specification of what the C code prepares.

    - [struct thread] objects live in a typed store instead of the heap's bytes.
    - [heap_init] stores its first header twice: in the heap's range as its users
      see it, and through the page tables, where it faults and takes a frame and
      the missing tables; C9 is that both show the same bytes afterwards. Later
      stores to the heap and to the stacks of [thread_create] are made in the
      first of these views; what [kmain] allocates there, with the headers of all
      blocks, lies in the page that the first header has faulted in
      ([boot_heap_page]), so that no store of the run faults in another one. That
      any later access to the range works through the page tables is Demand.v, and
      that [vmm_alloc_guarded] hands out zeroed pages is AddressSpace.v.
    - The registers at a page fault are a parameter (class [Trap]), of which the
      handler reads only the error code, unless it panics.
    - The registers at the jump to ring 3 are a parameter, of which
      [jump_to_ring3] changes [%ax] and the data segments.
    - System.v lets a tick arrive where the processor waits or the ring 3 program
      jumps, and never in the middle of a kernel function; a thread does not
      notice a tick there (Preempt.v), but the order of the lines would change
      with one. The stack in the TSS joins the kernel's view of the stacks at the
      jump to ring 3, before which nothing uses it.
    - The TLB appears as the log of [invlpg]; large pages are excluded by
      hypothesis, as vmm.c does not know them.
    - String literals are byte lists, or addresses with the bytes in memory.
    - The memory of [kmain] is in three parts that the kernel reaches through
      disjoint addresses: the console's (screen and string literals), the direct
      map with the static objects, and the heap's range with the stacks.
    - No timer or keyboard interrupt is taken during [kmain_start], although they
      are on for its last two lines and the creation of the threads; what a tick
      does to the thread it interrupts is Preempt.v.
    - The events of Entry.v perform a call as a whole; what the others do while a
      thread has yielded is a parameter of [Entry.run], and the machine itself in
      System.v.
    - Memory is sequentially consistent, and the lock is the only word that
      processors share in the model.

    ** Not modelled

    The linker script and the request structures of limine_requests.c, whose
    layout is the bootloader's; the unused 16- and 32-bit port instructions and
    [io_wait]; the test runner's output and the way the smoke test starts QEMU; build
    files, scripts and the protocol header of the bootloader. *)

From stdpp Require Export base tactics numbers list option gmap strings.
From Stdlib Require Export ZArith Lia.

#[global] Open Scope Z_scope.
#[global] Set Default Goal Selector "!".

(** Integer operations stay folded under [simpl]. *)
#[global] Arguments Z.eqb : simpl never.
#[global] Arguments Z.ltb : simpl never.
#[global] Arguments Z.leb : simpl never.
#[global] Arguments Z.add : simpl never.
#[global] Arguments Z.sub : simpl never.
#[global] Arguments Z.mul : simpl never.
#[global] Arguments Z.opp : simpl never.
#[global] Arguments Z.div : simpl never.
#[global] Arguments Z.modulo : simpl never.
#[global] Arguments Z.pow : simpl never.
#[global] Arguments Z.land : simpl never.
#[global] Arguments Z.lor : simpl never.
#[global] Arguments Z.shiftl : simpl never.
#[global] Arguments Z.shiftr : simpl never.
#[global] Arguments Z.testbit : simpl never.

(** ** The frame of an interrupt

    [struct interrupt_frame] of cpu/isr.h; Isr.v exports it. *)
Module Frame.
Record interrupt_frame : Set := mk_frame {
  r15 : Z; r14 : Z; r13 : Z; r12 : Z; r11 : Z; r10 : Z; r9 : Z; r8 : Z;
  rbp : Z; rdi : Z; rsi : Z; rdx : Z; rcx : Z; rbx : Z; rax : Z;
  vector : Z;
  error_code : Z;
  rip : Z;
  cs : Z;
  rflags : Z;
}.
End Frame.

(** ** Calls of [panic] and [panic_exception]

    A call of [panic] with its format and its arguments, numbers and strings (as
    their bytes), or one of [panic_exception] with its frame. A format without
    arguments is written as itself. What either call prints is Panic.v. *)
Inductive panic_arg : Set :=
  | PNum (n : Z)
  | PStr (s : list Z).

Inductive panic_call : Set :=
  | panicf (fmt : string) (args : list panic_arg)
  | panic_frame (frame : Frame.interrupt_frame).

Definition panic_text (fmt : string) : panic_call := panicf fmt [].

Coercion panic_text : string >-> panic_call.

(** ** Outcomes of C code

    [Ok] is a normal return; [Panic] is a call of [panic] or [panic_exception],
    which never return; [UB] is an access the C abstract machine does not define
    (a load or store outside every object, a null dereference); [Fuel] is only
    produced by loops that are not counted, when the fuel given to the model runs
    out. *)
Inductive res (A : Type) : Type :=
  | Ok (a : A)
  | Panic (msg : panic_call)
  | UB
  | Fuel.

Arguments Ok {A} a.
Arguments Panic {A} msg%_string.
Arguments UB {A}.
Arguments Fuel {A}.

#[global] Instance res_ret : MRet res := λ A a, Ok a.

#[global] Instance res_bind : MBind res := λ A B f r,
  match r with
  | Ok a => f a
  | Panic msg => Panic msg
  | UB => UB
  | Fuel => Fuel
  end.

Definition is_ok {A} (r : res A) : bool :=
  match r with Ok _ => true | _ => false end.

(** A pointer dereference or array read that may miss. *)
Definition deref {A} (o : option A) : res A :=
  match o with Some a => Ok a | None => UB end.

(** ** Counted loops

    [for_range lo hi body s] is [for (i = lo; i < hi; i++) body]: the loop
    variable is not changed by the body and the bound does not change, so the
    loop runs [hi - lo] times. [for_break] is the same loop with a [return] or
    [break] in its body: [inr r] leaves the loop with [r]. [for_down n body s]
    is [for (i = n; i > 0; i--) body]. *)
Fixpoint for_loop {S} (k : nat) (i : Z) (body : Z → S → res S) (s : S) : res S :=
  match k with
  | O => Ok s
  | Datatypes.S k => s' ← body i s; for_loop k (i + 1) body s'
  end.

Definition for_range {S} (lo hi : Z) (body : Z → S → res S) (s : S) : res S :=
  for_loop (Z.to_nat (hi - lo)) lo body s.

Fixpoint for_loop_break {S R} (k : nat) (i : Z) (body : Z → S → res (S + R)) (s : S)
  : res (S + R) :=
  match k with
  | O => Ok (inl s)
  | Datatypes.S k =>
      o ← body i s;
      match o with
      | inl s' => for_loop_break k (i + 1) body s'
      | inr r => Ok (inr r)
      end
  end.

Definition for_break {S R} (lo hi : Z) (body : Z → S → res (S + R)) (s : S) : res (S + R) :=
  for_loop_break (Z.to_nat (hi - lo)) lo body s.

Fixpoint for_down_loop {S} (k : nat) (body : Z → S → res S) (s : S) : res S :=
  match k with
  | O => Ok s
  | Datatypes.S k' => s' ← body (Z.of_nat k) s; for_down_loop k' body s'
  end.

Definition for_down {S} (n : Z) (body : Z → S → res S) (s : S) : res S :=
  for_down_loop (Z.to_nat n) body s.

(** Loop over the elements of an array, in order. *)
Fixpoint for_each {A S} (l : list A) (body : A → S → res S) (s : S) : res S :=
  match l with
  | [] => Ok s
  | x :: l => s' ← body x s; for_each l body s'
  end.

(** ** Tactics *)

(** [lia] for goals with division and modulo by constants. *)
Ltac dlia := Z.to_euclidean_division_equations; lia.

(** Normalise the result monad in the goal and the hypotheses. *)
Ltac rsimpl := unfold mret, mbind, res_ret, res_bind in *; simpl in *.

(** Case analysis on the first step of a computation known to return. *)
Ltac res_inv H :=
  repeat (unfold mret, mbind, res_ret, res_bind in H; simpl in H;
          match type of H with
          | Ok _ = Ok _ => injection H as H; subst
          | context [match ?e with Ok _ => _ | Panic _ => _ | UB => _ | Fuel => _ end] =>
              let E := fresh "E" in destruct e eqn:E; try discriminate H
          end).

(** Turn boolean comparisons of the context into propositions. *)
Ltac zify_bools :=
  repeat match goal with
  | H : (_ =? _) = true |- _ => apply Z.eqb_eq in H
  | H : (_ =? _) = false |- _ => apply Z.eqb_neq in H
  | H : (_ <? _) = true |- _ => apply Z.ltb_lt in H
  | H : (_ <? _) = false |- _ => apply Z.ltb_ge in H
  | H : (_ <=? _) = true |- _ => apply Z.leb_le in H
  | H : (_ <=? _) = false |- _ => apply Z.leb_gt in H
  | H : negb _ = true |- _ => apply negb_true_iff in H
  | H : negb _ = false |- _ => apply negb_false_iff in H
  | H : (_ && _) = true |- _ => apply andb_true_iff in H as [? ?]
  | H : (_ || _) = false |- _ => apply orb_false_iff in H as [? ?]
  end.

(** Case split on the first boolean comparison of the goal. *)
Ltac case_bool :=
  match goal with
  | |- context [?a =? ?b] => destruct (Z.eqb_spec a b)
  | |- context [?a <? ?b] => destruct (Z.ltb_spec a b)
  | |- context [?a <=? ?b] => destruct (Z.leb_spec a b)
  end.

(** ** Lemmas on the result monad and the loops *)

Lemma bind_Ok {A B} (f : A → res B) (a : A) : (x ← Ok a; f x) = f a.
Proof. reflexivity. Qed.

Lemma bind_Ok_inv {A B} (f : A → res B) (r : res A) (b : B) :
  (x ← r; f x) = Ok b → ∃ a, r = Ok a ∧ f a = Ok b.
Proof. destruct r; [eauto | discriminate..]. Qed.

(** What a computation that returned has gone through. *)
Ltac through H :=
  match type of H with
  | _ ≫= _ = Ok _ => let E := fresh "E" in apply bind_Ok_inv in H as (? & E & H)
  | (let '(_, _) := ?p in _) = Ok _ => destruct p
  end.

Lemma bind_assoc {A B C} (r : res A) (f : A → res B) (g : B → res C) :
  (y ← (x ← r; f x); g y) = (x ← r; y ← f x; g y).
Proof. by destruct r. Qed.

Lemma for_loop_spec {S} (P : Z → S → Prop) (body : Z → S → res S) (k : nat) (i : Z) (s : S) :
  P i s →
  (∀ j t, i ≤ j < i + Z.of_nat k → P j t → ∃ t', body j t = Ok t' ∧ P (j + 1) t') →
  ∃ s', for_loop k i body s = Ok s' ∧ P (i + Z.of_nat k) s'.
Proof.
  revert i s. induction k as [|k IH]; intros i s H0 Hstep; simpl.
  - exists s. by rewrite Z.add_0_r.
  - destruct (Hstep i s) as (t & -> & Ht); [lia | done |].
    destruct (IH (i + 1) t Ht) as (s' & Hs' & HP).
    { intros j u Hj. apply Hstep. lia. }
    exists s'. split; [exact Hs'|]. by replace (i + Z.of_nat (Datatypes.S k))
      with (i + 1 + Z.of_nat k) by lia.
Qed.

(** Total-correctness rule of [for_range]: an invariant indexed by the loop
    variable that every iteration re-establishes, returning normally. *)
Lemma for_range_spec {S} (P : Z → S → Prop) (lo hi : Z) (body : Z → S → res S) (s : S) :
  lo ≤ hi →
  P lo s →
  (∀ j t, lo ≤ j < hi → P j t → ∃ t', body j t = Ok t' ∧ P (j + 1) t') →
  ∃ s', for_range lo hi body s = Ok s' ∧ P hi s'.
Proof.
  intros Hle H0 Hstep. unfold for_range.
  destruct (for_loop_spec P body (Z.to_nat (hi - lo)) lo s) as (s' & ? & ?); [done | |].
  - intros j t Hj. apply Hstep. lia.
  - exists s'. split; [done|]. by replace hi with (lo + Z.of_nat (Z.to_nat (hi - lo))) by lia.
Qed.

Lemma for_loop_break_spec {S R} (P : Z → S → Prop) (Q : R → Prop)
    (body : Z → S → res (S + R)) (k : nat) (i : Z) (s : S) :
  P i s →
  (∀ j t, i ≤ j < i + Z.of_nat k → P j t →
     ∃ o, body j t = Ok o ∧ match o with inl t' => P (j + 1) t' | inr r => Q r end) →
  ∃ o, for_loop_break k i body s = Ok o ∧
    match o with inl s' => P (i + Z.of_nat k) s' | inr r => Q r end.
Proof.
  revert i s. induction k as [|k IH]; intros i s H0 Hstep; simpl.
  - exists (inl s). by rewrite Z.add_0_r.
  - destruct (Hstep i s) as ([t|r] & -> & Ht); [lia | done | |].
    + destruct (IH (i + 1) t Ht) as (o & Ho & HP).
      { intros j u Hj. apply Hstep. lia. }
      exists o. split; [exact Ho|]. by replace (i + Z.of_nat (Datatypes.S k))
        with (i + 1 + Z.of_nat k) by lia.
    + exists (inr r). done.
Qed.

(** Total-correctness rule of [for_break]: [P] holds at every loop head, [Q]
    of the value the loop is left with. *)
Lemma for_break_spec {S R} (P : Z → S → Prop) (Q : R → Prop) (lo hi : Z)
    (body : Z → S → res (S + R)) (s : S) :
  lo ≤ hi →
  P lo s →
  (∀ j t, lo ≤ j < hi → P j t →
     ∃ o, body j t = Ok o ∧ match o with inl t' => P (j + 1) t' | inr r => Q r end) →
  ∃ o, for_break lo hi body s = Ok o ∧
    match o with inl s' => P hi s' | inr r => Q r end.
Proof.
  intros Hle H0 Hstep. unfold for_break.
  destruct (for_loop_break_spec P Q body (Z.to_nat (hi - lo)) lo s) as (o & ? & ?); [done | |].
  - intros j t Hj. apply Hstep. lia.
  - exists o. split; [done|]. by replace hi with (lo + Z.of_nat (Z.to_nat (hi - lo))) by lia.
Qed.

(** Total-correctness rule of [for_down]: [P i] holds before the iteration
    with loop variable [i]. *)
Lemma for_down_spec {S} (P : Z → S → Prop) (n : Z) (body : Z → S → res S) (s : S) :
  0 ≤ n →
  P n s →
  (∀ i t, 0 < i ≤ n → P i t → ∃ t', body i t = Ok t' ∧ P (i - 1) t') →
  ∃ s', for_down n body s = Ok s' ∧ P 0 s'.
Proof.
  unfold for_down. intros Hn HP Hstep.
  assert (Hgen : ∀ k t, Z.of_nat k ≤ n → P (Z.of_nat k) t →
    ∃ s', for_down_loop k body t = Ok s' ∧ P 0 s').
  { induction k as [|k IH]; intros t Hk Ht; [by exists t|].
    destruct (Hstep (Z.of_nat (Datatypes.S k)) t) as (t' & Hb & Ht'); [lia | done |].
    cbn [for_down_loop]. rewrite Hb. apply IH; [lia|].
    by replace (Z.of_nat k) with (Z.of_nat (Datatypes.S k) - 1) by lia. }
  apply Hgen; [lia|]. by rewrite Z2Nat.id.
Qed.

(** Rule of [for_each]: [P] speaks of the part of the array already visited
    and the part still to visit. *)
Lemma for_each_spec {A S} (P : list A → list A → S → Prop) (l : list A)
    (body : A → S → res S) (s : S) :
  P [] l s →
  (∀ done x todo t, l = done ++ x :: todo → P done (x :: todo) t →
     ∃ t', body x t = Ok t' ∧ P (done ++ [x]) todo t') →
  ∃ s', for_each l body s = Ok s' ∧ P l [] s'.
Proof.
  intros H0 Hstep.
  assert (Hgen : ∀ todo done t, l = done ++ todo → P done todo t →
    ∃ s', for_each todo body t = Ok s' ∧ P l [] s').
  { induction todo as [|x todo IH]; intros done t Hl Ht.
    - rewrite app_nil_r in Hl. subst. by exists t.
    - destruct (Hstep done x todo t Hl Ht) as (t' & Hb & Ht').
      simpl. rewrite Hb. apply (IH (done ++ [x])); [|done].
      by rewrite <-app_assoc. }
  by apply (Hgen l []).
Qed.

(** Computations that never ask for more fuel: counted loops do not, so only
    the loops that are not counted need an argument. *)
Lemma bind_no_fuel {A B} (f : A → res B) (r : res A) :
  r ≠ Fuel → (∀ a, f a ≠ Fuel) → (x ← r; f x) ≠ Fuel.
Proof. by destruct r; simpl; auto. Qed.

Lemma deref_no_fuel {A} (o : option A) : deref o ≠ Fuel.
Proof. by destruct o. Qed.

Lemma for_loop_no_fuel {S} (body : Z → S → res S) (k : nat) (i : Z) (s : S) :
  (∀ i s, body i s ≠ Fuel) → for_loop k i body s ≠ Fuel.
Proof.
  intros Hb. revert i s. induction k as [|k IH]; intros i s; simpl; [done|]. by apply bind_no_fuel.
Qed.

Lemma for_loop_break_no_fuel {S R} (body : Z → S → res (S + R)) (k : nat) (i : Z) (s : S) :
  (∀ i s, body i s ≠ Fuel) → for_loop_break k i body s ≠ Fuel.
Proof.
  intros Hb. revert i s. induction k as [|k IH]; intros i s; simpl; [done|].
  apply bind_no_fuel; [done|]. by intros [].
Qed.

Create HintDb fuel.
#[export] Hint Resolve bind_no_fuel deref_no_fuel for_loop_no_fuel for_loop_break_no_fuel : fuel.

(** Split a computation at its binds and tests, and use the hints. *)
Ltac no_fuel :=
  repeat first
    [ progress intros
    | discriminate
    | assumption
    | solve [auto with fuel]
    | apply bind_no_fuel
    | match goal with
      | |- (if ?b then _ else _) ≠ Fuel => destruct b
      | |- match ?x with _ => _ end ≠ Fuel => destruct x
      end ].

(** ** Generic lemmas on integers *)

Lemma mod_small_w (x w : Z) : 0 ≤ x < w → x mod w = x.
Proof. apply Z.mod_small. Qed.

Lemma bool_decide_ltb (a b : Z) : bool_decide (a < b) = (a <? b).
Proof. destruct (Z.ltb_spec a b); case_bool_decide; lia || done. Qed.

(** ** Generic lemmas on lists *)

(** The first element that satisfies [P]. *)
Lemma head_filter_first {A} (P : A → Prop) `{∀ x, Decision (P x)} (l : list A) (k : nat) (x : A) :
  l !! k = Some x → P x → (∀ j y, (j < k)%nat → l !! j = Some y → ¬ P y) →
  head (filter P l) = Some x.
Proof.
  revert k. induction l as [|z l IH]; intros [|k] Hk Hx Hbefore; simplify_eq/=.
  - by rewrite filter_cons_True.
  - rewrite filter_cons_False by (apply (Hbefore 0%nat); [lia | done]).
    apply (IH k); [done..|]. intros j y Hj. apply (Hbefore (S j)). lia.
Qed.

Lemma filter_none {A} (P : A → Prop) `{∀ x, Decision (P x)} (l : list A) :
  (∀ x, x ∈ l → ¬ P x) → filter P l = [].
Proof.
  induction l as [|z l IH]; intros Hno; [done|].
  rewrite filter_cons_False by (apply Hno; set_solver). apply IH. set_solver.
Qed.
