(* ===== verification/Word.v ===== *)
(** * Machine integers (kernel/include/kernel.h and the C integer types)

    A [uintN_t] is a [Z] in [[0, 2^N)]; every operation that can leave the
    range is followed by its wrap-around ([u8], [u16], [u32], [u64]). *)

From S2P Require Import Prelude.

(** ** Wrap-around at each width *)

Definition u8 (x : Z) : Z := x mod 2 ^ 8.
Definition u16 (x : Z) : Z := x mod 2 ^ 16.
Definition u32 (x : Z) : Z := x mod 2 ^ 32.
Definition u64 (x : Z) : Z := x mod 2 ^ 64.

(** Conversion of an unsigned value to the signed type of the same width
    (two's complement, as every supported compiler defines it). *)
Definition i32 (x : Z) : Z :=
  if u32 x <? 2 ^ 31 then u32 x else u32 x - 2 ^ 32.
Definition i64 (x : Z) : Z :=
  if u64 x <? 2 ^ 63 then u64 x else u64 x - 2 ^ 64.

(** [~x] at 64 bits. *)
Definition not64 (x : Z) : Z := u64 (Z.lnot x).

(** ** kernel.h *)

Definition align_up (value align : Z) : Z :=
  Z.land (u64 (value + (align - 1))) (not64 (align - 1)).

Definition align_down (value align : Z) : Z :=
  Z.land value (not64 (align - 1)).

(** [PAGE_SIZE] of pmm.h *)
Definition PAGE_SIZE : Z := 4096.

(** ** Lemmas *)

Lemma u8_range x : 0 ≤ u8 x < 256.
Proof. apply (Z.mod_pos_bound x 256). lia. Qed.
Lemma u16_range x : 0 ≤ u16 x < 2 ^ 16.
Proof. apply (Z.mod_pos_bound x (2 ^ 16)). lia. Qed.
Lemma u32_range x : 0 ≤ u32 x < 2 ^ 32.
Proof. apply (Z.mod_pos_bound x (2 ^ 32)). lia. Qed.
Lemma u64_range x : 0 ≤ u64 x < 2 ^ 64.
Proof. apply (Z.mod_pos_bound x (2 ^ 64)). lia. Qed.

Lemma u8_small x : 0 ≤ x < 2 ^ 8 → u8 x = x.
Proof. apply Z.mod_small. Qed.
Lemma u16_small x : 0 ≤ x < 2 ^ 16 → u16 x = x.
Proof. apply Z.mod_small. Qed.
Lemma u32_small x : 0 ≤ x < 2 ^ 32 → u32 x = x.
Proof. apply Z.mod_small. Qed.
Lemma u64_small x : 0 ≤ x < 2 ^ 64 → u64 x = x.
Proof. apply Z.mod_small. Qed.

Create HintDb words.
Create Rewrite HintDb words.
#[export] Hint Rewrite u8_small u16_small u32_small u64_small using lia : words.
#[export] Hint Resolve u8_range u16_range u32_range u64_range : words.

(** Remove wrap-arounds whose argument is in range. *)
Ltac words := autorewrite with words in *.

Lemma testbit_mod_low x n i : 0 ≤ i < n → Z.testbit (x mod 2 ^ n) i = Z.testbit x i.
Proof. intros. apply Z.mod_pow2_bits_low. lia. Qed.

Lemma testbit_above x n i : 0 ≤ x < 2 ^ n → 0 ≤ n ≤ i → Z.testbit x i = false.
Proof.
  intros Hx Hn. rewrite <-(Z.mod_small x (2 ^ n)) by lia.
  apply Z.mod_pow2_bits_high. lia.
Qed.

Lemma lor_below x y n :
  0 ≤ n → 0 ≤ x < 2 ^ n → 0 ≤ y < 2 ^ n → Z.lor x y < 2 ^ n.
Proof.
  intros Hn Hx Hy. assert (H0 : 0 ≤ Z.lor x y) by (apply Z.lor_nonneg; lia).
  replace (Z.lor x y) with (Z.lor x y mod 2 ^ n).
  - apply Z.mod_pos_bound. lia.
  - apply Z.bits_inj'. intros i Hi. destruct (Z.ltb_spec i n).
    + by rewrite testbit_mod_low by lia.
    + rewrite Z.mod_pow2_bits_high, Z.lor_spec, !(testbit_above _ n) by lia. done.
Qed.

(** A shifted value and one below the shift do not meet. *)
Lemma lor_shift_add a b n : 0 ≤ n → 0 ≤ b < 2 ^ n → Z.lor (Z.shiftl a n) b = a * 2 ^ n + b.
Proof.
  intros Hn Hb. rewrite <-Z.shiftl_mul_pow2 by done. rewrite <-Z.lxor_lor.
  - symmetry. apply Z.add_nocarry_lxor. apply Z.bits_inj'. intros i Hi. rewrite Z.land_spec, Z.bits_0.
    destruct (Z.ltb_spec i n); [by rewrite Z.shiftl_spec_low|]. rewrite (testbit_above b n i) by lia. apply andb_false_r.
  - apply Z.bits_inj'. intros i Hi. rewrite Z.land_spec, Z.bits_0.
    destruct (Z.ltb_spec i n); [by rewrite Z.shiftl_spec_low|]. rewrite (testbit_above b n i) by lia. apply andb_false_r.
Qed.

(** Masking a [w]-bit value with a mask cut at [w] bits is masking with the
    whole mask. *)
Lemma land_mod_r x y w : 0 ≤ w → 0 ≤ x < 2 ^ w → Z.land x (y mod 2 ^ w) = Z.land x y.
Proof.
  intros Hw Hx. apply Z.bits_inj'. intros i Hi. rewrite !Z.land_spec.
  destruct (Z.ltb_spec i w).
  - by rewrite testbit_mod_low by lia.
  - by rewrite (testbit_above x w i) by lia.
Qed.

Lemma land_lnot_ones x k : 0 ≤ k → Z.land x (Z.lnot (2 ^ k - 1)) = x / 2 ^ k * 2 ^ k.
Proof.
  intros Hk. rewrite <-Z.shiftr_div_pow2, <-Z.shiftl_mul_pow2 by done.
  rewrite <-Z.ldiff_ones_r by done. rewrite Z.ones_equiv.
  apply Z.bits_inj'. intros i Hi. by rewrite Z.land_spec, Z.ldiff_spec, Z.lnot_spec.
Qed.

Lemma land_not64_pow2 x k :
  0 ≤ x < 2 ^ 64 → 0 ≤ k → Z.land x (not64 (2 ^ k - 1)) = x / 2 ^ k * 2 ^ k.
Proof.
  intros Hx Hk. unfold not64, u64. rewrite land_mod_r by lia. by apply land_lnot_ones.
Qed.

(** [align_down] to a power of two rounds down. *)
Lemma align_down_pow2 x k :
  0 ≤ x < 2 ^ 64 → 0 ≤ k → align_down x (2 ^ k) = x / 2 ^ k * 2 ^ k.
Proof. intros. by apply land_not64_pow2. Qed.

(** [align_up] to a power of two rounds up, when the sum does not wrap. *)
Lemma align_up_pow2 x k :
  0 ≤ x → 0 ≤ k → x + (2 ^ k - 1) < 2 ^ 64 →
  align_up x (2 ^ k) = (x + (2 ^ k - 1)) / 2 ^ k * 2 ^ k.
Proof.
  intros Hx Hk Hlt. assert (0 < 2 ^ k) by (apply Z.pow_pos_nonneg; lia).
  unfold align_up. rewrite land_not64_pow2 by (auto with words).
  by rewrite u64_small by lia.
Qed.

Lemma align_down_page x :
  0 ≤ x < 2 ^ 64 → align_down x PAGE_SIZE = x / 4096 * 4096.
Proof. intros. apply (align_down_pow2 x 12); lia. Qed.

Lemma align_up_8 x : 0 ≤ x → x + 7 < 2 ^ 64 → align_up x 8 = (x + 7) / 8 * 8.
Proof. intros. apply (align_up_pow2 x 3); lia. Qed.

Lemma align_up_16 x : 0 ≤ x → x + 15 < 2 ^ 64 → align_up x 16 = (x + 15) / 16 * 16.
Proof. intros. apply (align_up_pow2 x 4); lia. Qed.

Lemma align_up_page x :
  0 ≤ x → x + 4095 < 2 ^ 64 → align_up x PAGE_SIZE = (x + 4095) / 4096 * 4096.
Proof. intros. apply (align_up_pow2 x 12); lia. Qed.
