(* ===== verification/Mem.v ===== *)
(** * Byte-addressed memory

    [mem] maps the address of every accessible byte to its value. A load or a
    store of an address outside the map is undefined behaviour ([UB]), so a
    theorem that an operation returns [Ok] includes its memory safety.
    Multi-byte accesses are little-endian, as on x86-64. *)

From S2P Require Import Prelude Word.

Abbreviation mem := (gmap Z Z).

(** ** Accesses *)

Definition load8 (m : mem) (a : Z) : res Z := deref (m !! a).

Definition store8 (m : mem) (a v : Z) : res mem :=
  match m !! a with Some _ => Ok (<[a := v]> m) | None => UB end.

Fixpoint load_le (n : nat) (m : mem) (a : Z) : res Z :=
  match n with
  | O => Ok 0
  | S n => b ← load8 m a; hi ← load_le n m (a + 1); Ok (b + 256 * hi)
  end.

Fixpoint store_le (n : nat) (m : mem) (a v : Z) : res mem :=
  match n with
  | O => Ok m
  | S n => m' ← store8 m a (u8 v); store_le n m' (a + 1) (v / 256)
  end.

Definition load16 := load_le 2.
Definition load32 := load_le 4.
Definition load64 := load_le 8.
Definition store32 := store_le 4.
Definition store64 := store_le 8.

(** Assignments to the members of a structure at [a], in order: the offset, the
    number of bytes and the value of each. *)
Definition store_fields (m : mem) (a : Z) (l : list (Z * nat * Z)) : res mem :=
  for_each l (λ '(off, n, v) m, store_le n m (a + off) v) m.

(** ** Regions *)

Definition in_range (a n x : Z) : Prop := a ≤ x < a + n.

(** Every byte of [[a, a + n)] is accessible. *)
Definition mapped (m : mem) (a n : Z) : Prop :=
  ∀ x, in_range a n x → is_Some (m !! x).

(** [modifies X m m']: [m'] has the same accessible bytes as [m] and the same
    values outside [X]. *)
Definition modifies (X : Z → Prop) (m m' : mem) : Prop :=
  (∀ x, is_Some (m' !! x) ↔ is_Some (m !! x)) ∧ (∀ x, ¬ X x → m' !! x = m !! x).

(** The region [[a, a + n)] holds the byte [v] everywhere. *)
Definition filled (m : mem) (a n v : Z) : Prop :=
  ∀ x, in_range a n x → m !! x = Some v.

(** A memory whose accessible bytes are exactly [[a, a + n)], all zero. *)
Fixpoint zeros_from (a : Z) (n : nat) : mem :=
  match n with
  | O => ∅
  | S n => <[a := 0]> (zeros_from (a + 1) n)
  end.

Definition zeros (a n : Z) : mem := zeros_from a (Z.to_nat n).

(** ** Lemmas *)

#[export] Instance in_range_dec a n x : Decision (in_range a n x).
Proof. unfold in_range. apply _. Defined.

Lemma load8_Ok m a b : load8 m a = Ok b ↔ m !! a = Some b.
Proof. unfold load8, deref. destruct (m !! a); naive_solver. Qed.

Lemma load8_mapped m a : is_Some (m !! a) → ∃ b, load8 m a = Ok b ∧ m !! a = Some b.
Proof. intros [b Hb]. exists b. by rewrite load8_Ok. Qed.

Lemma store8_mapped m a v : is_Some (m !! a) → store8 m a v = Ok (<[a := v]> m).
Proof. intros [b Hb]. unfold store8. by rewrite Hb. Qed.

Lemma mapped_sub m a n a' n' : mapped m a n → a ≤ a' → a' + n' ≤ a + n → mapped m a' n'.
Proof. unfold mapped, in_range. intros H ? ? x ?. apply H. lia. Qed.

(** [modifies] is a preorder, monotone in the set of bytes. *)
#[export] Instance modifies_refl X : Reflexive (modifies X).
Proof. done. Qed.

#[export] Instance modifies_trans X : Transitive (modifies X).
Proof.
  intros m1 m2 m3 [Hd1 Hv1] [Hd2 Hv2]. split.
  - intros x. by rewrite Hd2.
  - intros x Hx. by rewrite Hv2, Hv1.
Qed.

Lemma modifies_mono (X Y : Z → Prop) m m' :
  (∀ x, X x → Y x) → modifies X m m' → modifies Y m m'.
Proof. intros HXY [Hd Hv]. split; [done|]. intros x Hx. apply Hv. eauto. Qed.

Lemma modifies_mapped X m m' a n : modifies X m m' → mapped m a n → mapped m' a n.
Proof. intros [Hd _] Hm x Hx. apply Hd. auto. Qed.

Lemma modifies_lookup X m m' x : modifies X m m' → ¬ X x → m' !! x = m !! x.
Proof. intros [_ Hv]. apply Hv. Qed.

Lemma modifies_insert m a v :
  is_Some (m !! a) → modifies (λ x, x = a) m (<[a := v]> m).
Proof.
  intros Ha. split.
  - intros x. destruct (decide (x = a)) as [->|Hne].
    + rewrite lookup_insert_eq. split; [done|]. by eexists.
    + by rewrite lookup_insert_ne.
  - intros x Hx. by rewrite lookup_insert_ne by congruence.
Qed.

Create HintDb mem.
#[export] Hint Resolve modifies_refl modifies_mapped : mem.

(** ** Multi-byte loads and stores *)

Lemma load_le_mapped n m a :
  mapped m a (Z.of_nat n) → ∃ v, load_le n m a = Ok v.
Proof.
  revert a. induction n as [|n IH]; intros a Hm; simpl; [eauto|].
  destruct (load8_mapped m a) as (b & -> & _); [apply Hm; unfold in_range; lia|].
  rsimpl. destruct (IH (a + 1)) as (v & ->); [|eauto].
  eapply mapped_sub; [done|lia..].
Qed.

Lemma load_le_agree n m m' a :
  (∀ x, in_range a (Z.of_nat n) x → m' !! x = m !! x) → load_le n m' a = load_le n m a.
Proof.
  revert a. induction n as [|n IH]; intros a Hag; simpl; [done|].
  unfold load8. rewrite Hag by (unfold in_range; lia).
  rewrite (IH (a + 1)); [done|]. intros x Hx. apply Hag. unfold in_range in *. lia.
Qed.

Lemma store_le_spec n m a v :
  mapped m a (Z.of_nat n) →
  ∃ m', store_le n m a v = Ok m' ∧ modifies (in_range a (Z.of_nat n)) m m' ∧
    load_le n m' a = Ok (v mod 256 ^ Z.of_nat n).
Proof.
  revert m a v. induction n as [|n IH]; intros m a v Hm; simpl.
  - exists m. split_and!; [done | done |]. by rewrite Z.mod_1_r.
  - assert (Ha : is_Some (m !! a)) by (apply Hm; unfold in_range; lia).
    rewrite store8_mapped by done. rsimpl.
    assert (Hmod1 := modifies_insert m a (u8 v) Ha).
    destruct (IH (<[a := u8 v]> m) (a + 1) (v / 256)) as (m' & Hst & Hmod & Hld).
    { eapply modifies_mapped; [done|]. eapply mapped_sub; [done|lia..]. }
    exists m'. rewrite Hst. split_and!; [done | |].
    + etransitivity; eapply modifies_mono; [|exact Hmod1| |exact Hmod];
        intros x; unfold in_range; lia.
    + unfold load8. rewrite (modifies_lookup _ _ _ a Hmod) by (unfold in_range; lia).
      rewrite lookup_insert_eq. simpl. rewrite Hld. f_equal.
      change (u8 v) with (v mod 256).
      replace (Z.of_nat (S n)) with (1 + Z.of_nat n) by lia.
      rewrite Z.pow_add_r by lia. change (256 ^ 1) with 256.
      by rewrite Z.rem_mul_r by (try apply Z.pow_nonzero; lia).
Qed.

Lemma load_le_modifies n X m m' a :
  modifies X m m' → (∀ x, in_range a (Z.of_nat n) x → ¬ X x) →
  load_le n m' a = load_le n m a.
Proof. intros Hmod Hdis. apply load_le_agree. intros x Hx. apply Hmod. auto. Qed.

Lemma load_le_unmapped n m a : ¬ mapped m a (Z.of_nat n) → load_le n m a = UB.
Proof.
  revert a. induction n as [|n IH]; intros a Hno; [destruct Hno; intros x Hx; unfold in_range in Hx; lia|]. cbn [load_le].
  unfold load8. destruct (m !! a) as [b|] eqn:Hb; [|done]. cbn [deref mbind res_bind]. rewrite IH; [done|].
  intros Hm. apply Hno. intros x Hx. destruct (decide (x = a)) as [->|Hne]; [by exists b|].
  apply Hm. unfold in_range in *. lia.
Qed.

Lemma load_le_zero n m a : filled m a (Z.of_nat n) 0 → load_le n m a = Ok 0.
Proof.
  revert a. induction n as [|n IH]; intros a Hf; simpl; [done|].
  unfold load8. rewrite Hf by (unfold in_range; lia). simpl. rsimpl.
  rewrite IH; [done|]. intros x Hx. apply Hf. unfold in_range in *. lia.
Qed.

Lemma load8_no_fuel m a : load8 m a ≠ Fuel.
Proof. apply deref_no_fuel. Qed.

Lemma load_le_no_fuel n m a : load_le n m a ≠ Fuel.
Proof.
  revert a. induction n as [|n IH]; intros a; simpl; [done|].
  apply bind_no_fuel; [apply load8_no_fuel|]. intros b. by apply bind_no_fuel.
Qed.

#[export] Hint Resolve load8_no_fuel load_le_no_fuel : fuel.

(** ** Structures *)

(** The members lie inside a structure of [size] bytes and do not overlap. *)
Fixpoint fields_ok (size : Z) (l : list (Z * nat * Z)) : bool :=
  match l with
  | [] => true
  | (off, n, _) :: l =>
      (0 <=? off) && (off + Z.of_nat n <=? size) && fields_ok size l &&
      forallb (λ '(off', n', _), (off + Z.of_nat n <=? off') || (off' + Z.of_nat n' <=? off)) l
  end.

Lemma store_fields_spec m a size l :
  fields_ok size l = true → mapped m a size →
  ∃ m', store_fields m a l = Ok m' ∧ modifies (in_range a size) m m' ∧
    (∀ x, (∀ off n v, (off, n, v) ∈ l → ¬ in_range (a + off) (Z.of_nat n) x) → m' !! x = m !! x) ∧
    ∀ off n v, (off, n, v) ∈ l → load_le n m' (a + off) = Ok (v mod 256 ^ Z.of_nat n).
Proof.
  revert m. unfold store_fields. induction l as [|[[off n] v] l IH]; intros m Hok Hm; simpl.
  - exists m. split_and!; [done..|]. intros ??? []%not_elem_of_nil.
  - simpl in Hok. repeat (apply andb_true_iff in Hok as [Hok ?]). zify_bools.
    destruct (store_le_spec n m (a + off) v) as (m1 & Hst & Hmod1 & Hld); [eapply mapped_sub; [exact Hm|lia..]|].
    rewrite Hst. cbn [mbind res_bind].
    assert (Hm1 : modifies (in_range a size) m m1)
      by (eapply modifies_mono; [|exact Hmod1]; unfold in_range; lia).
    destruct (IH m1) as (m' & -> & Hmod & Hout & Hfields); [done | by eapply modifies_mapped|].
    exists m'. split_and!; [done | by etransitivity | |].
    + intros x Hx. rewrite Hout by (intros o k w Hin; apply (Hx o k w); by right).
      apply Hmod1. apply (Hx off n v). by left.
    + intros o k w [[= -> -> ->]|Hin]%elem_of_cons; [|by apply Hfields].
      rewrite <-Hld. apply load_le_agree. intros x Hx. apply Hout. intros o' k' w' Hin Hx'.
      match goal with H : forallb _ l = true |- _ => rewrite forallb_forall in H; specialize (H _ (proj1 (list_elem_of_In _ _) Hin)) end.
      simpl in *. match goal with H : _ || _ = true |- _ => apply orb_true_iff in H; rewrite !Z.leb_le in H end.
      unfold in_range in *. lia.
Qed.

(** The 64-bit instances, as the page-table code uses them. *)
Lemma load64_unmapped m a : ¬ mapped m a 8 → load64 m a = UB.
Proof. apply (load_le_unmapped 8). Qed.

Lemma load64_mapped m a : mapped m a 8 → ∃ v, load64 m a = Ok v.
Proof. apply (load_le_mapped 8). Qed.

Lemma store64_spec m a v :
  mapped m a 8 → 0 ≤ v < 2 ^ 64 →
  ∃ m', store64 m a v = Ok m' ∧ modifies (in_range a 8) m m' ∧ load64 m' a = Ok v.
Proof.
  intros Hm Hv. destruct (store_le_spec 8 m a v Hm) as (m' & Hst & Hmod & Hld).
  exists m'. split_and!; [done..|]. unfold load64. rewrite Hld.
  f_equal. apply Z.mod_small. change (256 ^ Z.of_nat 8) with (2 ^ 64). lia.
Qed.

Lemma load64_modifies X m m' a :
  modifies X m m' → (∀ x, in_range a 8 x → ¬ X x) → load64 m' a = load64 m a.
Proof. apply (load_le_modifies 8). Qed.

(** ** Concrete memories *)

Lemma zeros_from_lookup a n x :
  zeros_from a n !! x = if decide (in_range a (Z.of_nat n) x) then Some 0 else None.
Proof.
  revert a. induction n as [|n IH]; intros a; simpl.
  - rewrite decide_False by (unfold in_range; lia). done.
  - destruct (decide (x = a)) as [->|Hne].
    + rewrite lookup_insert_eq, decide_True by (unfold in_range; lia). done.
    + rewrite lookup_insert_ne, IH by done.
      apply decide_ext. unfold in_range. lia.
Qed.

Lemma zeros_mapped a n : mapped (zeros a n) a n.
Proof.
  intros x Hx. unfold zeros. rewrite zeros_from_lookup.
  rewrite decide_True by (unfold in_range in *; lia). by eexists.
Qed.
