(* ===== verification/Bitmap.v ===== *)
(** * Bit arrays (kernel/lib/bitmap.c)

    A bitmap is caller-owned storage in memory: the functions take the address
    of its first byte. [bit_at] is the abstract reading of the array, and
    [clear_bits] the set of its clear bits, which the frame allocator uses as
    its abstract state. *)

From S2P Require Import Prelude Word Mem.

(** ** Operations *)

Definition bitmap_set (m : mem) (bitmap bit : Z) : res mem :=
  b ← load8 m (bitmap + bit / 8);
  store8 m (bitmap + bit / 8) (u8 (Z.lor b (u8 (u32 (Z.shiftl 1 (bit mod 8)))))).

Definition bitmap_clear (m : mem) (bitmap bit : Z) : res mem :=
  b ← load8 m (bitmap + bit / 8);
  store8 m (bitmap + bit / 8) (u8 (Z.land b (u8 (u32 (Z.lnot (Z.shiftl 1 (bit mod 8))))))).

Definition bitmap_test (m : mem) (bitmap bit : Z) : res bool :=
  b ← load8 m (bitmap + bit / 8);
  Ok (negb (Z.land b (u8 (u32 (Z.shiftl 1 (bit mod 8)))) =? 0)).

Definition bitmap_find_first_clear (m : mem) (bitmap bit_count start_hint : Z) : res Z :=
  if bit_count =? 0 then Ok 0
  else
    let start := start_hint mod bit_count in
    o ← for_break 0 bit_count (λ offset (_ : unit),
          let bit := u64 (start + offset) mod bit_count in
          t ← bitmap_test m bitmap bit;
          if negb t then Ok (inr bit) else Ok (inl tt)) tt;
    match o with inr bit => Ok bit | inl _ => Ok bit_count end.

(** ** Abstract reading *)

Definition bit_at (m : mem) (bitmap i : Z) : bool :=
  match m !! (bitmap + i / 8) with
  | Some b => Z.testbit b (i mod 8)
  | None => false
  end.

(** The bytes that hold bits [0 .. n). *)
Definition bitmap_bytes (n : Z) : Z := (n + 7) / 8.

Definition clear_bits (m : mem) (bitmap n : Z) : gset Z :=
  list_to_set (filter (λ i, bit_at m bitmap i = false) (seqZ 0 n)).

(** ** Lemmas *)

Lemma elem_of_clear_bits m bm n i :
  i ∈ clear_bits m bm n ↔ 0 ≤ i < n ∧ bit_at m bm i = false.
Proof.
  unfold clear_bits. rewrite elem_of_list_to_set, list_elem_of_filter, elem_of_seqZ.
  split; intros [? ?]; split; lia || done.
Qed.

(** The byte of bit [i], and its mask. *)
Lemma bit_byte_mapped m bm n i :
  mapped m bm (bitmap_bytes n) → 0 ≤ i < n → is_Some (m !! (bm + i / 8)).
Proof.
  unfold bitmap_bytes. intros Hm Hi. apply Hm. unfold in_range. dlia.
Qed.

Lemma bit_mask i : 0 ≤ i → u8 (u32 (Z.shiftl 1 (i mod 8))) = 2 ^ (i mod 8).
Proof.
  intros Hi. assert (Hr : 0 ≤ i mod 8 < 8) by dlia.
  assert (H : 0 < 2 ^ (i mod 8) < 2 ^ 8).
  { split; [apply Z.pow_pos_nonneg; lia | apply Z.pow_lt_mono_r; lia]. }
  rewrite Z.shiftl_mul_pow2, Z.mul_1_l by lia.
  rewrite u32_small by lia. by rewrite u8_small by lia.
Qed.

Lemma land_pow2_eqb b k : 0 ≤ k → negb (Z.land b (2 ^ k) =? 0) = Z.testbit b k.
Proof.
  intros Hk. destruct (Z.testbit b k) eqn:Hb.
  - apply negb_true_iff, Z.eqb_neq. intros H0.
    assert (Ht : Z.testbit (Z.land b (2 ^ k)) k = true).
    { by rewrite Z.land_spec, Z.pow2_bits_true, Hb by done. }
    by rewrite H0, Z.bits_0 in Ht.
  - apply negb_false_iff, Z.eqb_eq. apply Z.bits_inj'. intros j Hj.
    rewrite Z.land_spec, Z.bits_0, Z.pow2_bits_eqb by done.
    destruct (Z.eqb_spec k j) as [<-|]; [by rewrite Hb | by rewrite andb_false_r].
Qed.

Lemma bitmap_test_spec m bm i :
  0 ≤ i → is_Some (m !! (bm + i / 8)) → bitmap_test m bm i = Ok (bit_at m bm i).
Proof.
  intros Hi [b Hb]. unfold bitmap_test, load8, bit_at. rewrite Hb. rsimpl.
  rewrite bit_mask by done. by rewrite land_pow2_eqb by dlia.
Qed.

(** Bits of a byte after the read-modify-write of [bitmap_set] and
    [bitmap_clear]. *)
Lemma testbit_set b i k :
  0 ≤ i → 0 ≤ k < 8 →
  Z.testbit (u8 (Z.lor b (2 ^ i))) k = if k =? i then true else Z.testbit b k.
Proof.
  intros Hi Hk. unfold u8. rewrite testbit_mod_low by lia.
  rewrite Z.lor_spec, Z.pow2_bits_eqb by done.
  rewrite (Z.eqb_sym i k). destruct (k =? i); [by rewrite orb_true_r | by rewrite orb_false_r].
Qed.

Lemma testbit_clear b i k :
  0 ≤ i < 8 → 0 ≤ k < 8 →
  Z.testbit (u8 (Z.land b (u8 (u32 (Z.lnot (Z.shiftl 1 i)))))) k
  = if k =? i then false else Z.testbit b k.
Proof.
  intros Hi Hk. unfold u8, u32. rewrite testbit_mod_low by lia.
  rewrite Z.land_spec, testbit_mod_low, testbit_mod_low by lia.
  rewrite Z.lnot_spec, Z.shiftl_mul_pow2, Z.mul_1_l, Z.pow2_bits_eqb by lia.
  rewrite (Z.eqb_sym i k). destruct (k =? i); [by rewrite andb_false_r | by rewrite andb_true_r].
Qed.

(** A write of the byte of bit [i] that changes only that bit of it. *)
Lemma bit_at_update m bm i v b0 (c : bool) :
  0 ≤ i → m !! (bm + i / 8) = Some b0 →
  (∀ k, 0 ≤ k < 8 → Z.testbit v k = if k =? i mod 8 then c else Z.testbit b0 k) →
  ∀ j, 0 ≤ j → bit_at (<[bm + i / 8 := v]> m) bm j = if j =? i then c else bit_at m bm j.
Proof.
  intros Hi Hb Hv j Hj. unfold bit_at.
  destruct (decide (j / 8 = i / 8)) as [Hq|Hq].
  - rewrite Hq, lookup_insert_eq, Hb, Hv by dlia.
    destruct (Z.eqb_spec (j mod 8) (i mod 8)), (Z.eqb_spec j i); dlia || done.
  - rewrite lookup_insert_ne by lia.
    destruct (Z.eqb_spec j i); [congruence | done].
Qed.

Lemma bitmap_set_spec m bm i :
  0 ≤ i → is_Some (m !! (bm + i / 8)) →
  ∃ m', bitmap_set m bm i = Ok m' ∧ modifies (λ x, x = bm + i / 8) m m' ∧
    ∀ j, 0 ≤ j → bit_at m' bm j = if j =? i then true else bit_at m bm j.
Proof.
  intros Hi [b Hb]. unfold bitmap_set, load8. rewrite Hb. rsimpl.
  rewrite store8_mapped, bit_mask by (done || by eexists).
  eexists. split_and!; [done | apply modifies_insert; by eexists |].
  apply bit_at_update with b; [done..|]. intros k Hk. apply testbit_set; dlia.
Qed.

Lemma bitmap_clear_spec m bm i :
  0 ≤ i → is_Some (m !! (bm + i / 8)) →
  ∃ m', bitmap_clear m bm i = Ok m' ∧ modifies (λ x, x = bm + i / 8) m m' ∧
    ∀ j, 0 ≤ j → bit_at m' bm j = if j =? i then false else bit_at m bm j.
Proof.
  intros Hi [b Hb]. unfold bitmap_clear, load8. rewrite Hb. rsimpl.
  rewrite store8_mapped by (by eexists).
  eexists. split_and!; [done | apply modifies_insert; by eexists |].
  apply bit_at_update with b; [done..|]. intros k Hk. apply testbit_clear; dlia.
Qed.

(** Bits depend on their own byte only. *)
Lemma bit_at_modifies X m m' bm i :
  modifies X m m' → ¬ X (bm + i / 8) → bit_at m' bm i = bit_at m bm i.
Proof. intros Hmod Hx. unfold bit_at. by rewrite (modifies_lookup _ _ _ _ Hmod Hx). Qed.

Lemma clear_bits_ext m m' bm n :
  (∀ i, 0 ≤ i < n → bit_at m' bm i = bit_at m bm i) →
  clear_bits m' bm n = clear_bits m bm n.
Proof.
  intros Heq. apply set_eq. intros i. rewrite !elem_of_clear_bits.
  split; intros [? Hb]; (split; [done|]); by rewrite <-Hb, Heq || rewrite Heq.
Qed.

Lemma clear_bits_set m m' bm n i :
  (∀ j, 0 ≤ j → bit_at m' bm j = if j =? i then true else bit_at m bm j) →
  clear_bits m' bm n = clear_bits m bm n ∖ {[i]}.
Proof.
  intros Heq. apply set_eq. intros j.
  rewrite elem_of_difference, elem_of_singleton, !elem_of_clear_bits.
  split.
  - intros [Hj Hb]. rewrite Heq in Hb by lia. by destruct (Z.eqb_spec j i).
  - intros [[Hj Hb] Hne]. rewrite Heq by lia. by destruct (Z.eqb_spec j i).
Qed.

Lemma clear_bits_clear m m' bm n i :
  0 ≤ i < n →
  (∀ j, 0 ≤ j → bit_at m' bm j = if j =? i then false else bit_at m bm j) →
  clear_bits m' bm n = {[i]} ∪ clear_bits m bm n.
Proof.
  intros Hi Heq. apply set_eq. intros j.
  rewrite elem_of_union, elem_of_singleton, !elem_of_clear_bits.
  split.
  - intros [Hj Hb]. rewrite Heq in Hb by lia. destruct (Z.eqb_spec j i); auto.
  - intros [->|[Hj Hb]]; (split; [done|]); rewrite Heq by lia.
    + by rewrite Z.eqb_refl.
    + by destruct (Z.eqb_spec j i).
Qed.

(** ** Search *)

(** The cyclic distance from the (reduced) hint to bit [i]. *)
Definition scan_distance (n hint i : Z) : Z := (i - hint) mod n.

Lemma scan_distance_at n hint off :
  0 < n → 0 ≤ off < n → scan_distance n hint ((hint mod n + off) mod n) = off.
Proof.
  intros Hn Ho. unfold scan_distance. rewrite Zminus_mod_idemp_l.
  replace (hint mod n + off - hint) with (off - (hint - hint mod n)) by lia.
  rewrite <-Zminus_mod_idemp_r, Zminus_mod_idemp_r.
  replace (hint - hint mod n) with (hint / n * n) by (pose proof (Z.div_mod hint n); lia).
  rewrite <-Zminus_mod_idemp_r, Z.mod_mul, Z.sub_0_r by lia. by apply Z.mod_small.
Qed.

Lemma scan_distance_inv n hint i :
  0 < n → 0 ≤ i < n → (hint mod n + scan_distance n hint i) mod n = i.
Proof.
  intros Hn Hi. unfold scan_distance. rewrite <-Zplus_mod.
  replace (hint + (i - hint)) with i by lia. by apply Z.mod_small.
Qed.

(** The search returns the clear bit met first when scanning cyclically from
    the hint, or [bit_count] when there is none, and reads only the bytes of
    the bitmap. *)
Lemma find_first_clear_spec m bm n hint :
  0 ≤ n ≤ 2 ^ 63 → mapped m bm (bitmap_bytes n) →
  ∃ r, bitmap_find_first_clear m bm n hint = Ok r ∧
    ((r = n ∧ ∀ i, 0 ≤ i < n → bit_at m bm i = true) ∨
     (0 ≤ r < n ∧ bit_at m bm r = false ∧
      ∀ i, 0 ≤ i < n → scan_distance n hint i < scan_distance n hint r →
        bit_at m bm i = true)).
Proof.
  intros Hn Hm. unfold bitmap_find_first_clear.
  destruct (Z.eqb_spec n 0) as [->|Hn0].
  { exists 0. split; [done|]. left. split; [done|]. lia. }
  pose (start := hint mod n).
  assert (Hstart : 0 ≤ start < n) by (apply Z.mod_pos_bound; lia).
  destruct (for_break_spec
    (λ off (_ : unit), ∀ i, 0 ≤ i < n → scan_distance n hint i < off → bit_at m bm i = true)
    (λ r, 0 ≤ r < n ∧ bit_at m bm r = false ∧
      ∀ i, 0 ≤ i < n → scan_distance n hint i < scan_distance n hint r → bit_at m bm i = true)
    0 n (λ offset (_ : unit),
          t ← bitmap_test m bm (u64 (start + offset) mod n);
          if negb t then Ok (inr (u64 (start + offset) mod n)) else Ok (inl tt)) tt)
    as (o & Ho & HP).
  - lia.
  - intros i Hi Hd. pose proof (Z.mod_pos_bound (i - hint) n). unfold scan_distance in Hd. lia.
  - intros off [] Hoff Hbefore. rewrite u64_small by lia.
    set (bit := (start + off) mod n).
    assert (Hbit : 0 ≤ bit < n) by (apply Z.mod_pos_bound; lia).
    assert (Hdist : scan_distance n hint bit = off) by (apply scan_distance_at; lia).
    rewrite bitmap_test_spec by (lia || eapply bit_byte_mapped; eauto; lia). rsimpl.
    destruct (bit_at m bm bit) eqn:Hb; simpl; (eexists; split; [done|]); simpl.
    + intros i Hi Hd. destruct (decide (scan_distance n hint i = off)) as [He|].
      * assert (i = bit) as ->; [|done].
        by rewrite <-(scan_distance_inv n hint i), He by lia.
      * apply Hbefore; lia.
    + split_and!; [lia..| done |]. by rewrite Hdist.
  - fold start. rsimpl. rewrite Ho. destruct o as [u|r].
    + exists n. split; [done|]. left. split; [done|]. intros i Hi. apply (HP i Hi).
      apply Z.mod_pos_bound. lia.
    + exists r. split; [done|]. right. destruct HP as (? & ? & ?). done.
Qed.

(** ** Reference definition of the search *)

(** The bits in scanning order: cyclically from the hint. *)
Definition scan_order (n hint : Z) : list Z :=
  (λ off, (hint + off) mod n) <$> seqZ 0 n.

Definition first_clear (m : mem) (bitmap n hint : Z) : Z :=
  default n (head (filter (λ i, bit_at m bitmap i = false) (scan_order n hint))).

(** ** Properties *)

(** C32: [bitmap_find_first_clear] is the reference search: on a bitmap whose
    bytes are accessible it returns the first clear bit in the cyclic order
    that starts at [start_hint mod bit_count], and [bit_count] when every bit
    is set (or when there is no bit); it never reads outside the bitmap. *)
Theorem find_first_clear_is_first (m : mem) (bitmap n hint : Z) :
  0 ≤ n ≤ 2 ^ 63 → mapped m bitmap (bitmap_bytes n) →
  bitmap_find_first_clear m bitmap n hint = Ok (first_clear m bitmap n hint).
Proof.
  intros Hn Hm. destruct (find_first_clear_spec m bitmap n hint Hn Hm) as (r & -> & Hr).
  f_equal. unfold first_clear, scan_order.
  destruct Hr as [[-> Hset]|(Hr & Hclear & Hbefore)].
  - rewrite filter_none; [done|]. intros i (off & -> & Hoff)%list_elem_of_fmap.
    apply elem_of_seqZ in Hoff. rewrite Hset; [done|]. apply Z.mod_pos_bound. lia.
  - pose proof (Z.mod_pos_bound (r - hint) n ltac:(lia)) as Hd.
    rewrite (head_filter_first _ _ (Z.to_nat ((r - hint) mod n)) r); [done | | done |].
    + rewrite list_lookup_fmap, lookup_seqZ_lt by lia. simpl. f_equal.
      rewrite Z2Nat.id, Z.add_0_l, Zplus_mod_idemp_r by lia.
      replace (hint + (r - hint)) with r by lia. by apply Z.mod_small.
    + intros j y Hj Hy. rewrite list_lookup_fmap, lookup_seqZ_lt in Hy by lia.
      simplify_eq/=. rewrite Hbefore; [done | apply Z.mod_pos_bound; lia |].
      rewrite Z.add_0_l, <-Zplus_mod_idemp_l, scan_distance_at by lia.
      unfold scan_distance. lia.
Qed.

Lemma find_first_clear_is_first_witness :
  bitmap_find_first_clear (zeros 4096 4) 4096 32 10 = Ok (first_clear (zeros 4096 4) 4096 32 10)
  ∧ first_clear (zeros 4096 4) 4096 32 10 = 10.
Proof.
  split; [|vm_compute; reflexivity].
  apply (find_first_clear_is_first (zeros 4096 4) 4096 32 10); [lia|].
  apply (zeros_mapped 4096 4).
Defined.

(** [bitmap_set] and [bitmap_clear] write exactly one bit: after them
    [bitmap_test] of that bit reads the written value, [bitmap_test] of every
    other bit reads what it read before, and no byte but the one that holds the
    bit changes. *)
Theorem bitmap_set_clear_independent (m : mem) (bitmap n i : Z) :
  mapped m bitmap (bitmap_bytes n) → 0 ≤ i < n →
  ∃ ms mc, bitmap_set m bitmap i = Ok ms ∧ bitmap_clear m bitmap i = Ok mc ∧
    bitmap_test ms bitmap i = Ok true ∧ bitmap_test mc bitmap i = Ok false ∧
    modifies (λ x, x = bitmap + i / 8) m ms ∧ modifies (λ x, x = bitmap + i / 8) m mc ∧
    ∀ j, 0 ≤ j < n → j ≠ i →
      bitmap_test ms bitmap j = bitmap_test m bitmap j ∧
      bitmap_test mc bitmap j = bitmap_test m bitmap j.
Proof.
  intros Hm Hi. pose proof (bit_byte_mapped m bitmap n i Hm Hi) as Hbyte.
  destruct (bitmap_set_spec m bitmap i) as (ms & Hs & Hms & Hsb); [lia | done |].
  destruct (bitmap_clear_spec m bitmap i) as (mc & Hc & Hmc & Hcb); [lia | done |].
  assert (Htest : ∀ X m' j, modifies X m m' → 0 ≤ j < n →
    bitmap_test m' bitmap j = Ok (bit_at m' bitmap j)).
  { intros X m' j Hmod Hj. apply bitmap_test_spec; [lia|].
    eapply bit_byte_mapped; [|exact Hj]. eauto with mem. }
  exists ms, mc. split_and!; [done.. | | | done | done |].
  - rewrite (Htest _ _ i Hms), Hsb, Z.eqb_refl by lia. done.
  - rewrite (Htest _ _ i Hmc), Hcb, Z.eqb_refl by lia. done.
  - intros j Hj Hne. apply Z.eqb_neq in Hne.
    rewrite (Htest _ _ j Hms), (Htest _ _ j Hmc), (Htest _ m j (modifies_refl (λ _, False) m)) by done.
    by rewrite Hsb, Hcb, Hne by lia.
Qed.

Lemma bitmap_set_clear_independent_witness :
  ∃ ms mc, bitmap_set (zeros 4096 4) 4096 5 = Ok ms ∧
    bitmap_clear (zeros 4096 4) 4096 5 = Ok mc ∧
    bitmap_test ms 4096 5 = Ok true ∧ bitmap_test mc 4096 5 = Ok false.
Proof.
  destruct (bitmap_set_clear_independent (zeros 4096 4) 4096 32 5)
    as (ms & mc & ? & ? & ? & ? & _).
  - apply (zeros_mapped 4096 4).
  - lia.
  - exists ms, mc. auto.
Defined.
