(* ===== verification/TestBitmap.v ===== *)
(** * The unit tests of the bitmap (tests/unit/test_bitmap.c, test.h)

    The repository's own tests, run on the model of bitmap.c: each test is a
    function on the number of failures so far; what the runner prints is left
    out. *)

From S2P Require Import Prelude Word Mem Bitmap.

(** ** test.h *)

Definition CHECK (cond : bool) (test_failures : Z) : Z :=
  if negb cond then test_failures + 1 else test_failures.

Definition RUN (test_fn : Z → res Z) (test_failures : Z) : res Z := test_fn test_failures.

Definition test_report (test_failures : Z) : Z := if 0 <? test_failures then 1 else 0.

(** ** test_bitmap.c *)

(** A local array, [a] being its address. *)
Definition array (a : Z) (l : list Z) : mem := list_to_map (zip (seqZ a (Z.of_nat (length l))) l).

Section tests.
Context (bitmap : Z).

Definition test_set_clear_are_independent_bits (f : Z) : res Z :=
  let m := array bitmap [0; 0; 0; 0] in
  t ← bitmap_test m bitmap 5; let f := CHECK (negb t) f in
  m ← bitmap_set m bitmap 5;
  t ← bitmap_test m bitmap 5; let f := CHECK t f in
  t ← bitmap_test m bitmap 4; let f := CHECK (negb t) f in
  t ← bitmap_test m bitmap 6; let f := CHECK (negb t) f in
  m ← bitmap_clear m bitmap 5;
  t ← bitmap_test m bitmap 5; Ok (CHECK (negb t) f).

Definition test_set_spans_byte_boundaries_correctly (f : Z) : res Z :=
  let m := array bitmap [0; 0; 0; 0] in
  m ← bitmap_set m bitmap 0;
  m ← bitmap_set m bitmap 7;
  m ← bitmap_set m bitmap 8;
  m ← bitmap_set m bitmap 31;
  b ← load8 m bitmap; let f := CHECK (b =? 0x81) f in
  b ← load8 m (bitmap + 1); let f := CHECK (b =? 0x01) f in
  b ← load8 m (bitmap + 2); let f := CHECK (b =? 0x00) f in
  b ← load8 m (bitmap + 3); Ok (CHECK (b =? 0x80) f).

Definition test_find_first_clear_returns_bit_count_when_full (f : Z) : res Z :=
  let m := array bitmap [0xff; 0xff; 0xff; 0xff] in
  r ← bitmap_find_first_clear m bitmap 32 0; Ok (CHECK (r =? 32) f).

Definition test_find_first_clear_finds_the_only_gap (f : Z) : res Z :=
  let m := array bitmap [0xff; 0xff; 0xff; 0xff] in
  m ← bitmap_clear m bitmap 20;
  r ← bitmap_find_first_clear m bitmap 32 0; Ok (CHECK (r =? 20) f).

Definition test_find_first_clear_starts_at_the_hint_not_bit_zero (f : Z) : res Z :=
  let m := array bitmap [0; 0; 0; 0] in
  r ← bitmap_find_first_clear m bitmap 32 10; Ok (CHECK (r =? 10) f).

Definition test_find_first_clear_wraps_around_once (f : Z) : res Z :=
  let m := array bitmap [0; 0; 0; 0] in
  m ← for_range 0 32 (λ bit m, if negb (bit =? 3) then bitmap_set m bitmap bit else Ok m) m;
  r ← bitmap_find_first_clear m bitmap 32 10; Ok (CHECK (r =? 3) f).

Definition test_find_first_clear_hint_beyond_bit_count_wraps_via_modulo (f : Z) : res Z :=
  let m := array bitmap [0; 0; 0; 0] in
  r ← bitmap_find_first_clear m bitmap 32 (32 + 5); Ok (CHECK (r =? 5) f).

(** [main], its result being the exit status. *)
Definition main : res Z :=
  f ← RUN test_set_clear_are_independent_bits 0;
  f ← RUN test_set_spans_byte_boundaries_correctly f;
  f ← RUN test_find_first_clear_returns_bit_count_when_full f;
  f ← RUN test_find_first_clear_finds_the_only_gap f;
  f ← RUN test_find_first_clear_starts_at_the_hint_not_bit_zero f;
  f ← RUN test_find_first_clear_wraps_around_once f;
  f ← RUN test_find_first_clear_hint_beyond_bit_count_wraps_via_modulo f;
  Ok (test_report f).
End tests.

(** ** Properties *)

(** The model passes the tests. *)
Theorem unit_tests_pass : main 0x7fff0000 = Ok 0.
Proof. vm_compute. reflexivity. Qed.
