(* ===== verification/CString.v ===== *)
(** * Memory and string functions (kernel/lib/string.c)

    The functions run on the shared byte memory, so overlapping arguments are
    part of the model. A [char] is the byte it is stored in: the comparisons
    of the source convert it to [uint8_t] before subtracting. *)

From S2P Require Import Prelude Word Mem.

(** ** Operations *)

(** The loop [for (i = 0; i < n; i++) d[i] = s[i];] shared by [memcpy] and the
    forward branch of [memmove]. *)
Definition copy_byte (d s i : Z) (m : mem) : res mem :=
  b ← load8 m (s + i); store8 m (d + i) b.

Definition memcpy (m : mem) (dest src n : Z) : res (Z * mem) :=
  m' ← for_range 0 n (copy_byte dest src) m;
  Ok (dest, m').

Definition memset (m : mem) (dest value n : Z) : res (Z * mem) :=
  let byte := u8 value in
  m' ← for_range 0 n (λ i m, store8 m (dest + i) byte) m;
  Ok (dest, m').

Definition memmove (m : mem) (dest src n : Z) : res (Z * mem) :=
  if (dest =? src) || (n =? 0) then Ok (dest, m)
  else if dest <? src then
    m' ← for_range 0 n (copy_byte dest src) m;
    Ok (dest, m')
  else
    m' ← for_down n (λ i m, copy_byte dest src (i - 1) m) m;
    Ok (dest, m').

Definition memcmp (m : mem) (a b n : Z) : res Z :=
  o ← for_break 0 n (λ i (_ : unit),
        x ← load8 m (a + i); y ← load8 m (b + i);
        if negb (x =? y) then Ok (inr (x - y)) else Ok (inl tt)) tt;
  match o with inr r => Ok r | inl _ => Ok 0 end.

(** [while (str[len] != 0) len++]: one unit of fuel per iteration. Every
    iteration reads another accessible byte, so [mem_fuel] is enough
    ([strlen_no_fuel]). *)
Fixpoint strlen_loop (fuel : nat) (m : mem) (str len : Z) : res Z :=
  match fuel with
  | O => Fuel
  | S fuel =>
      c ← load8 m (str + len);
      if negb (c =? 0) then strlen_loop fuel m str (u64 (len + 1)) else Ok len
  end.

Definition mem_fuel (m : mem) : nat := S (size m).

Definition strlen (m : mem) (str : Z) : res Z := strlen_loop (mem_fuel m) m str 0.

Fixpoint strcmp_loop (fuel : nat) (m : mem) (a b : Z) : res Z :=
  match fuel with
  | O => Fuel
  | S fuel =>
      x ← load8 m a;
      if negb (x =? 0) then
        y ← load8 m b;
        if x =? y then strcmp_loop fuel m (a + 1) (b + 1)
        else Ok (x - y)
      else
        y ← load8 m b; Ok (x - y)
  end.

Definition strcmp (m : mem) (a b : Z) : res Z := strcmp_loop (mem_fuel m) m a b.

Definition strncmp (m : mem) (a b n : Z) : res Z :=
  o ← for_break 0 n (λ i (_ : unit),
        x ← load8 m (a + i); y ← load8 m (b + i);
        if negb (x =? y) || (x =? 0) then Ok (inr (x - y)) else Ok (inl tt)) tt;
  match o with inr r => Ok r | inl _ => Ok 0 end.

(** ** Abstract reading *)

(** A NUL-terminated string of the (non-zero) bytes [l] at address [p]. *)
Definition cstr (m : mem) (p : Z) (l : list Z) : Prop :=
  (∀ i b, l !! i = Some b → m !! (p + Z.of_nat i) = Some b ∧ 0 < b < 256) ∧
  m !! (p + Z.of_nat (length l)) = Some 0.

(** ** Lemmas *)

Lemma memset_spec m d v n :
  0 ≤ n → mapped m d n →
  ∃ m', memset m d v n = Ok (d, m') ∧ modifies (in_range d n) m m' ∧ filled m' d n (u8 v).
Proof.
  intros Hn Hm. unfold memset.
  destruct (for_range_spec
    (λ i t, modifies (in_range d n) m t ∧ filled t d i (u8 v)) 0 n
    (λ i m, store8 m (d + i) (u8 v)) m) as (m' & Hl & Hmod & Hf).
  - done.
  - split; [done|]. intros x Hx. unfold in_range in Hx. lia.
  - intros i t Hi [Hmod Hf]. rewrite store8_mapped.
    + eexists. split; [done|]. split.
      * etransitivity; [exact Hmod|]. eapply modifies_mono, modifies_insert.
        -- intros x ->. unfold in_range. lia.
        -- apply Hmod, Hm. unfold in_range. lia.
      * intros x Hx. destruct (decide (x = d + i)) as [->|]; [by rewrite lookup_insert_eq|].
        rewrite lookup_insert_ne by done. apply Hf. unfold in_range in *. lia.
    + apply Hmod, Hm. unfold in_range. lia.
  - exists m'. rewrite Hl. done.
Qed.

(** One step of a copy: the byte at [s + i] of [t] goes to [d + i]. *)
Lemma copy_byte_spec t d s i b :
  t !! (s + i) = Some b → is_Some (t !! (d + i)) →
  copy_byte d s i t = Ok (<[d + i := b]> t).
Proof.
  intros Hs Hd. unfold copy_byte, load8. rewrite Hs. rsimpl. by apply store8_mapped.
Qed.

Definition copied (m m' : mem) (d s n : Z) : Prop :=
  ∀ i, 0 ≤ i < n → m' !! (d + i) = m !! (s + i).

(** The forward loop copies the original bytes whenever the destination does
    not start inside the source. *)
Lemma copy_forward m d s n :
  0 ≤ n → mapped m s n → mapped m d n → (d ≤ s ∨ s + n ≤ d) →
  ∃ m', for_range 0 n (copy_byte d s) m = Ok m' ∧
    modifies (in_range d n) m m' ∧ copied m m' d s n.
Proof.
  intros Hn Hs Hd Hdis.
  destruct (for_range_spec (λ i t, modifies (in_range d i) m t ∧ copied m t d s i) 0 n
    (copy_byte d s) m) as (m' & ? & ? & ?); [done | | |by eauto].
  - split; [done|]. intros i ?. lia.
  - intros i t Hi [Hmod Hc].
    assert (Hsrc : t !! (s + i) = m !! (s + i)).
    { apply (modifies_lookup _ _ _ _ Hmod). unfold in_range. lia. }
    destruct (Hs (s + i)) as [b Hb]; [unfold in_range; lia|].
    assert (Hdst : is_Some (t !! (d + i))) by (apply Hmod, Hd; unfold in_range; lia).
    rewrite (copy_byte_spec t d s i b) by congruence. eexists. split; [done|]. split.
    + etransitivity; eapply modifies_mono; [|exact Hmod | | by apply modifies_insert];
        intros x; unfold in_range; lia.
    + intros j Hj. destruct (decide (j = i)) as [->|].
      * by rewrite lookup_insert_eq.
      * rewrite lookup_insert_ne by lia. apply Hc. lia.
Qed.

(** The downward loop copies the original bytes whenever the source does not
    start inside the destination. *)
Lemma copy_backward m d s n :
  0 ≤ n → mapped m s n → mapped m d n → s ≤ d →
  ∃ m', for_down n (λ i t, copy_byte d s (i - 1) t) m = Ok m' ∧
    modifies (in_range d n) m m' ∧ copied m m' d s n.
Proof.
  intros Hn Hs Hd Hle.
  destruct (for_down_spec
    (λ i t, modifies (in_range (d + i) (n - i)) m t ∧
       ∀ j, i ≤ j < n → t !! (d + j) = m !! (s + j)) n
    (λ i t, copy_byte d s (i - 1) t) m) as (m' & Hl & Hmod & Hc).
  - done.
  - split; [done|]. intros j ?. lia.
  - intros i t Hi [Hmod Hc].
    assert (Hsrc : t !! (s + (i - 1)) = m !! (s + (i - 1))).
    { apply (modifies_lookup _ _ _ _ Hmod). unfold in_range. lia. }
    destruct (Hs (s + (i - 1))) as [b Hb]; [unfold in_range; lia|].
    assert (Hdst : is_Some (t !! (d + (i - 1)))) by (apply Hmod, Hd; unfold in_range; lia).
    rewrite (copy_byte_spec t d s (i - 1) b) by congruence. eexists. split; [done|]. split.
    + etransitivity; eapply modifies_mono; [|exact Hmod | | by apply modifies_insert];
        intros x; unfold in_range; lia.
    + intros j Hj. destruct (decide (j = i - 1)) as [->|].
      * by rewrite lookup_insert_eq.
      * rewrite lookup_insert_ne by lia. apply Hc. lia.
  - exists m'. split; [done|]. split.
    + eapply modifies_mono; [|exact Hmod]. intros x. unfold in_range. lia.
    + intros j Hj. apply Hc. lia.
Qed.

(** A copy of length [n] from accessible to accessible bytes. *)
Lemma memcpy_spec m d s n :
  0 ≤ n → mapped m s n → mapped m d n → (d ≤ s ∨ s + n ≤ d) →
  ∃ m', memcpy m d s n = Ok (d, m') ∧ modifies (in_range d n) m m' ∧ copied m m' d s n.
Proof.
  intros Hn Hs Hd Hdis. unfold memcpy.
  destruct (copy_forward m d s n) as (m' & -> & ?); [done..|]. by exists m'.
Qed.

Lemma memmove_spec m d s n :
  0 ≤ n → mapped m s n → mapped m d n →
  ∃ m', memmove m d s n = Ok (d, m') ∧ modifies (in_range d n) m m' ∧ copied m m' d s n.
Proof.
  intros Hn Hs Hd. unfold memmove.
  destruct (Z.eqb_spec d s) as [->|Hne]; simpl.
  { exists m. split_and!; [done..|]. by intros i ?. }
  destruct (Z.eqb_spec n 0) as [->|Hn0]; simpl.
  { exists m. split_and!; [done..|]. intros i ?. lia. }
  destruct (Z.ltb_spec d s).
  - destruct (copy_forward m d s n) as (m' & -> & ?); [done.. | lia |]. by exists m'.
  - destruct (copy_backward m d s n) as (m' & -> & ?); [done.. | lia |]. by exists m'.
Qed.

(** A run of distinct accessible bytes is no longer than the memory. *)
Lemma mapped_size m a (k : nat) : mapped m a (Z.of_nat k) → (k ≤ size m)%nat.
Proof.
  intros Hm. rewrite <-size_dom.
  assert (Hsub : list_to_set (seqZ a (Z.of_nat k)) ⊆ dom m).
  { intros x [Hx1 Hx2]%elem_of_list_to_set%elem_of_seqZ.
    apply elem_of_dom, Hm. unfold in_range. lia. }
  apply subseteq_size in Hsub.
  rewrite size_list_to_set in Hsub by apply NoDup_seqZ.
  by rewrite length_seqZ, Nat2Z.id in Hsub.
Qed.

(** ** strlen *)

Lemma strlen_loop_no_fuel m str fuel len :
  Z.of_nat (size m) < 2 ^ 64 → 0 ≤ len → mapped m str len →
  Z.of_nat (size m) < Z.of_nat fuel + len →
  strlen_loop fuel m str len ≠ Fuel.
Proof.
  intros Hsz. revert len. induction fuel as [|fuel IH]; intros len Hlen Hm Hf; simpl.
  - pose proof (mapped_size m str (Z.to_nat len)) as Hb.
    rewrite Z2Nat.id in Hb by done. specialize (Hb Hm). lia.
  - unfold load8, deref. destruct (m !! (str + len)) as [c|] eqn:Hc; rsimpl; [|done].
    destruct (negb (c =? 0)); [|done].
    assert (Hm' : mapped m str (len + 1)).
    { intros x Hx. destruct (decide (x = str + len)) as [->|]; [by eexists|].
      apply Hm. unfold in_range in *. lia. }
    assert (Hb : len + 1 ≤ Z.of_nat (size m)).
    { pose proof (mapped_size m str (Z.to_nat (len + 1))) as Hb.
      rewrite Z2Nat.id in Hb by lia. specialize (Hb Hm'). lia. }
    rewrite u64_small by lia. apply IH; lia || done.
Qed.

Lemma cstr_lookup m p l i b : cstr m p l → l !! i = Some b → m !! (p + Z.of_nat i) = Some b ∧ 0 < b < 256.
Proof. intros [Hl _]. apply Hl. Qed.

Lemma cstr_mapped m p l : cstr m p l → mapped m p (Z.of_nat (length l) + 1).
Proof.
  intros [Hl H0] x Hx. unfold in_range in Hx.
  destruct (decide (x = p + Z.of_nat (length l))) as [->|]; [by eexists|].
  destruct (lookup_lt_is_Some_2 l (Z.to_nat (x - p))) as [b Hb]; [lia|].
  destruct (Hl _ _ Hb) as [Hx' _]. rewrite Z2Nat.id in Hx' by lia.
  replace (p + (x - p)) with x in Hx' by lia. by eexists.
Qed.

Lemma cstr_tail m p b l : cstr m p (b :: l) → cstr m (p + 1) l.
Proof.
  intros [Hl H0]. split.
  - intros i c Hi. replace (p + 1 + Z.of_nat i) with (p + Z.of_nat (S i)) by lia. by apply Hl.
  - replace (p + 1 + Z.of_nat (length l)) with (p + Z.of_nat (length (b :: l))) by (simpl; lia).
    done.
Qed.

Lemma cstr_head m p b l : cstr m p (b :: l) → m !! p = Some b ∧ 0 < b < 256.
Proof. intros H. rewrite <-(Z.add_0_r p). by apply (cstr_lookup m p (b :: l) 0). Qed.

Lemma cstr_nil m p : cstr m p [] ↔ m !! p = Some 0.
Proof.
  unfold cstr. simpl. rewrite Z.add_0_r. split; [by intros [_ ?]|].
  intros H. split; [|done]. intros i b Hi. by rewrite lookup_nil in Hi.
Qed.

(** A string survives writes to other bytes. *)
Lemma cstr_modifies X m m' p l :
  cstr m p l → modifies X m m' → (∀ x, in_range p (Z.of_nat (length l) + 1) x → ¬ X x) → cstr m' p l.
Proof.
  intros [Hi He] Hmod HX. split.
  - intros i x Hx. rewrite (modifies_lookup _ _ _ _ Hmod); [by apply Hi|].
    apply HX. apply lookup_lt_Some in Hx. unfold in_range. lia.
  - rewrite (modifies_lookup _ _ _ _ Hmod); [done|]. apply HX. unfold in_range. lia.
Qed.

Lemma cstr_size m p l : cstr m p l → (length l < size m)%nat.
Proof.
  intros H%cstr_mapped. apply (mapped_size m p (S (length l))).
  by rewrite Nat2Z.inj_succ.
Qed.

Lemma strlen_loop_cstr m l p fuel len :
  cstr m (p + len) l → 0 ≤ len → len + Z.of_nat (length l) < 2 ^ 64 →
  (length l < fuel)%nat → strlen_loop fuel m p len = Ok (len + Z.of_nat (length l)).
Proof.
  revert fuel len. induction l as [|b l IH]; intros [|fuel] len Hs Hlen Hb Hf; simpl in *; try lia.
  - apply cstr_nil in Hs. unfold load8. rewrite Hs. rsimpl. f_equal. lia.
  - destruct (cstr_head _ _ _ _ Hs) as [Hh Hpos]. unfold load8. rewrite Hh. rsimpl.
    destruct (Z.eqb_spec b 0); [lia|]. simpl. rewrite u64_small by lia.
    rewrite IH; [f_equal; lia | | lia..].
    replace (p + (len + 1)) with (p + len + 1) by lia. by eapply cstr_tail.
Qed.

Lemma strlen_cstr m p l :
  Z.of_nat (size m) < 2 ^ 64 → cstr m p l → strlen m p = Ok (Z.of_nat (length l)).
Proof.
  intros Hsz Hs. pose proof (cstr_size _ _ _ Hs). unfold strlen, mem_fuel.
  rewrite (strlen_loop_cstr m l p _ 0); [done | by rewrite Z.add_0_r | lia..].
Qed.

(** ** Comparisons *)

(** The reference comparison: the difference of the first characters that
    differ, a string that ends counting as [0] there. *)
Fixpoint str_diff (a b : list Z) : Z :=
  match a, b with
  | [], [] => 0
  | [], y :: _ => - y
  | x :: _, [] => x
  | x :: a, y :: b => if x =? y then str_diff a b else x - y
  end.

Lemma str_diff_zero a b :
  Forall (λ x, 0 < x < 256) a → Forall (λ x, 0 < x < 256) b →
  str_diff a b = 0 ↔ a = b.
Proof.
  intros Ha. revert b. induction Ha as [|x a Hx Ha IH]; intros b Hb; destruct Hb as [|y b Hy Hb];
    simpl; try (split; [lia | done]); [done|].
  destruct (Z.eqb_spec x y) as [->|Hne].
  - rewrite IH by done. split; [by intros -> | by injection 1].
  - split; [lia | by injection 1].
Qed.

Lemma cstr_Forall m p l : cstr m p l → Forall (λ x, 0 < x < 256) l.
Proof. intros [Hl _]. apply Forall_lookup. intros i b Hi. by apply (Hl i). Qed.

Lemma strcmp_loop_cstr m la lb a b fuel :
  cstr m a la → cstr m b lb → (length la < fuel)%nat →
  strcmp_loop fuel m a b = Ok (str_diff la lb).
Proof.
  revert lb a b fuel. induction la as [|x la IH]; intros lb a b [|fuel] Ha Hb Hf;
    simpl in Hf; try lia; cbn [strcmp_loop].
  - apply cstr_nil in Ha. unfold load8. rewrite Ha. rsimpl. destruct lb as [|y lb].
    + apply cstr_nil in Hb. by rewrite Hb.
    + destruct (cstr_head _ _ _ _ Hb) as [-> _]. done.
  - destruct (cstr_head _ _ _ _ Ha) as [Hx Hxr]. unfold load8. rewrite Hx. rsimpl.
    destruct (Z.eqb_spec x 0); [lia|]. simpl. destruct lb as [|y lb].
    + apply cstr_nil in Hb. rewrite Hb. rsimpl.
      destruct (Z.eqb_spec x 0); [lia|]. by rewrite Z.sub_0_r.
    + destruct (cstr_head _ _ _ _ Hb) as [-> _]. rsimpl.
      destruct (Z.eqb_spec x y); [|done].
      apply IH; [by eapply cstr_tail.. | lia].
Qed.

Lemma strcmp_cstr m a b la lb :
  cstr m a la → cstr m b lb → strcmp m a b = Ok (str_diff la lb).
Proof.
  intros Ha Hb. pose proof (cstr_size _ _ _ Ha).
  apply strcmp_loop_cstr; [done..|]. unfold mem_fuel. lia.
Qed.

(** The body of [strncmp] as a loop over the characters that remain. *)
Lemma strncmp_loop_cstr m la lb a b k i :
  cstr m (a + i) la → cstr m (b + i) lb → 0 ≤ i →
  ∃ o, for_loop_break k i (λ i (_ : unit),
        x ← load8 m (a + i); y ← load8 m (b + i);
        if negb (x =? y) || (x =? 0) then Ok (inr (x - y)) else Ok (inl tt)) tt = Ok o ∧
    match o with inr r => r | inl _ => 0 end = str_diff (take k la) (take k lb).
Proof.
  revert la lb i. induction k as [|k IH]; intros la lb i Ha Hb Hi; simpl.
  { by exists (inl tt). }
  destruct la as [|x la], lb as [|y lb]; unfold load8.
  - apply cstr_nil in Ha as ->. apply cstr_nil in Hb as ->. rsimpl. by eexists.
  - apply cstr_nil in Ha as ->. destruct (cstr_head _ _ _ _ Hb) as [-> Hy]. rsimpl.
    destruct (Z.eqb_spec 0 y); [lia|]. simpl. by eexists.
  - apply cstr_nil in Hb as ->. destruct (cstr_head _ _ _ _ Ha) as [-> Hx]. rsimpl.
    destruct (Z.eqb_spec x 0); [lia|]. simpl. eexists. split; [done|]. simpl. lia.
  - destruct (cstr_head _ _ _ _ Ha) as [-> Hx]. destruct (cstr_head _ _ _ _ Hb) as [-> Hy].
    rsimpl. destruct (Z.eqb_spec x y) as [->|]; simpl; [|by eexists].
    destruct (Z.eqb_spec y 0); [lia|]. apply IH; [| |lia].
    + rewrite Z.add_assoc. by eapply cstr_tail.
    + rewrite Z.add_assoc. by eapply cstr_tail.
Qed.

Lemma strncmp_cstr m a b n la lb :
  0 ≤ n → cstr m a la → cstr m b lb →
  strncmp m a b n = Ok (str_diff (take (Z.to_nat n) la) (take (Z.to_nat n) lb)).
Proof.
  intros Hn Ha Hb. unfold strncmp, for_break. rewrite Z.sub_0_r.
  destruct (strncmp_loop_cstr m la lb a b (Z.to_nat n) 0) as (o & -> & Ho);
    [by rewrite Z.add_0_r.. | done |].
  rewrite <-Ho. by destruct o.
Qed.

(** [memcmp] of two accessible regions: zero exactly when they hold the same
    bytes. *)
Lemma memcmp_spec m a b n :
  0 ≤ n → mapped m a n → mapped m b n →
  ∃ r, memcmp m a b n = Ok r ∧
    (r = 0 ↔ ∀ i, 0 ≤ i < n → m !! (a + i) = m !! (b + i)).
Proof.
  intros Hn Ha Hb. unfold memcmp.
  destruct (for_break_spec
    (λ i (_ : unit), ∀ j, 0 ≤ j < i → m !! (a + j) = m !! (b + j))
    (λ r, r ≠ 0 ∧ ∃ i, 0 ≤ i < n ∧ m !! (a + i) ≠ m !! (b + i)) 0 n
    (λ i (_ : unit), x ← load8 m (a + i); y ← load8 m (b + i);
        if negb (x =? y) then Ok (inr (x - y)) else Ok (inl tt)) tt) as (o & -> & Ho).
  - done.
  - intros j ?. lia.
  - intros i [] Hi Heq.
    destruct (Ha (a + i)) as [x Hx]; [unfold in_range; lia|].
    destruct (Hb (b + i)) as [y Hy]; [unfold in_range; lia|].
    unfold load8. rewrite Hx, Hy. rsimpl.
    destruct (Z.eqb_spec x y) as [->|Hne]; simpl; (eexists; split; [done|]); simpl.
    + intros j Hj. destruct (decide (j = i)) as [->|]; [congruence | apply Heq; lia].
    + split; [lia|]. exists i. split; [lia | congruence].
  - destruct o as [u|r]; rsimpl.
    + exists 0. done.
    + destruct Ho as (Hr & i & Hi & Hne). exists r. split; [done|].
      split; [by intros ->|]. intros Heq. by specialize (Heq i Hi).
Qed.

(** ** Properties *)

(** C33: [memmove] is safe on overlapping regions: whatever the relative
    position of source and destination, it returns [dest], the destination
    holds the bytes the source held before the call, and no byte outside the
    destination changes. *)
Theorem memmove_overlap (m : mem) (dest src n : Z) :
  0 ≤ n → mapped m src n → mapped m dest n →
  ∃ m', memmove m dest src n = Ok (dest, m') ∧
    (∀ i, 0 ≤ i < n → m' !! (dest + i) = m !! (src + i)) ∧
    (∀ x, ¬ in_range dest n x → m' !! x = m !! x).
Proof.
  intros Hn Hs Hd. destruct (memmove_spec m dest src n Hn Hs Hd) as (m' & Hr & [_ Hout] & Hc).
  by exists m'.
Qed.

Lemma memmove_overlap_witness :
  ∃ m', memmove (<[100 := 1]> (<[101 := 2]> (zeros 100 4))) 101 100 2 = Ok (101, m') ∧
    m' !! 101 = Some 1 ∧ m' !! 102 = Some 2.
Proof.
  destruct (memmove_overlap (<[100 := 1]> (<[101 := 2]> (zeros 100 4))) 101 100 2)
    as (m' & Hr & Hc & _).
  - lia.
  - intros x Hx. assert (x = 100 ∨ x = 101) as [->| ->] by (unfold in_range in Hx; lia);
      vm_compute; by eexists.
  - intros x Hx. assert (x = 101 ∨ x = 102) as [->| ->] by (unfold in_range in Hx; lia);
      vm_compute; by eexists.
  - exists m'. split; [exact Hr|]. split.
    + change 101 with (101 + 0). rewrite (Hc 0) by lia. vm_compute. reflexivity.
    + change 102 with (101 + 1). rewrite (Hc 1) by lia. vm_compute. reflexivity.
Defined.

(** [strlen] always produces a result within the fuel the model gives it:
    either the length of the string, or an access outside the accessible
    memory, but never a loop that runs on; and on a NUL-terminated string it is
    the number of characters before the terminator. *)
Theorem strlen_terminates (m : mem) (str : Z) :
  Z.of_nat (size m) < 2 ^ 64 →
  strlen m str ≠ Fuel ∧
  ∀ l, cstr m str l → strlen m str = Ok (Z.of_nat (length l)).
Proof.
  intros Hsz. split.
  - apply strlen_loop_no_fuel; [done | lia | intros x; unfold in_range; lia |].
    unfold mem_fuel. lia.
  - intros l Hl. by apply strlen_cstr.
Qed.

Lemma strlen_terminates_witness :
  Z.of_nat (size (<[7 := 65]> (zeros 7 2))) < 2 ^ 64 ∧
  strlen (<[7 := 65]> (zeros 7 2)) 7 ≠ Fuel.
Proof.
  assert (Z.of_nat (size (<[7 := 65]> (zeros 7 2))) < 2 ^ 64) as H by (vm_compute; reflexivity).
  split; [exact H|]. apply (strlen_terminates (<[7 := 65]> (zeros 7 2)) 7 H).
Defined.

(** [strcmp] and [strncmp] on NUL-terminated strings are the reference
    comparison (of the whole strings, of their first [n] characters), and
    [strcmp] is zero exactly on equal strings. *)
Theorem strcmp_strncmp_reference (m : mem) (a b n : Z) (la lb : list Z) :
  0 ≤ n → cstr m a la → cstr m b lb →
  strcmp m a b = Ok (str_diff la lb) ∧
  strncmp m a b n = Ok (str_diff (take (Z.to_nat n) la) (take (Z.to_nat n) lb)) ∧
  (strcmp m a b = Ok 0 ↔ la = lb).
Proof.
  intros Hn Ha Hb. rewrite (strcmp_cstr m a b la lb) by done.
  split_and!; [done | by apply strncmp_cstr |].
  rewrite <-(str_diff_zero la lb) by (by eapply cstr_Forall).
  split; [by injection 1 | by intros ->].
Qed.

Lemma strcmp_strncmp_reference_witness :
  strncmp (<[7 := 65]> (<[17 := 66]> (zeros 7 12))) 7 17 1 = Ok (-1) ∧
  strcmp (<[7 := 65]> (<[17 := 66]> (zeros 7 12))) 7 17 = Ok (-1).
Proof.
  assert (Ha : cstr (<[7 := 65]> (<[17 := 66]> (zeros 7 12))) 7 [65]).
  { split; [|vm_compute; reflexivity]. intros [|i] b Hi; simpl in Hi; [|by rewrite lookup_nil in Hi].
    injection Hi as <-. split; [vm_compute; reflexivity | lia]. }
  assert (Hb : cstr (<[7 := 65]> (<[17 := 66]> (zeros 7 12))) 17 [66]).
  { split; [|vm_compute; reflexivity]. intros [|i] b Hi; simpl in Hi; [|by rewrite lookup_nil in Hi].
    injection Hi as <-. split; [vm_compute; reflexivity | lia]. }
  destruct (strcmp_strncmp_reference _ 7 17 1 [65] [66] ltac:(lia) Ha Hb) as (H1 & H2 & _).
  split; [rewrite H2 | rewrite H1]; vm_compute; reflexivity.
Defined.
