(* ===== verification/BootInfo.v ===== *)
(** * Boot information (kernel/include/boot_info.h,
    kernel/arch/x86_64/boot/limine_requests.c)

    What the bootloader answered is data, not code of the kernel: a
    [limine_responses] value, one optional response per request, is an argument
    of the accessors. *)

From S2P Require Import Prelude Word.

(** ** boot_info.h *)

Record boot_framebuffer := mk_boot_framebuffer {
  address : Z;
  width : Z;
  height : Z;
  pitch : Z;
  bpp : Z;
  red_mask_size : Z;
  red_mask_shift : Z;
  green_mask_size : Z;
  green_mask_shift : Z;
  blue_mask_size : Z;
  blue_mask_shift : Z;
}.

Definition BOOT_MEMMAP_USABLE : Z := 0.
Definition BOOT_MEMMAP_BOOTLOADER_RECLAIMABLE : Z := 5.
Definition BOOT_MEMMAP_EXECUTABLE_AND_MODULES : Z := 6.

Record boot_memmap_entry := mk_memmap_entry {
  base : Z;
  length_ : Z;
  type : Z;
}.

Record boot_kernel_address := mk_kernel_address {
  physical_base : Z;
  virtual_base : Z;
}.

(** ** The bootloader's answers *)

(** [None] is a [NULL] response pointer. *)
Record limine_responses := mk_responses {
  base_revision_supported : bool;
  framebuffer_response : option (list boot_framebuffer);
  hhdm_response : option Z;
  memmap_response : option (list boot_memmap_entry);
  executable_address_response : option boot_kernel_address;
  rsdp_response : option Z;
}.

(** ** Accessors *)

Definition boot_get_framebuffer (r : limine_responses) : option boot_framebuffer :=
  match framebuffer_response r with
  | None | Some [] => None
  | Some (fb :: _) =>
      Some (mk_boot_framebuffer (address fb) (width fb) (height fb) (pitch fb) (bpp fb)
              (red_mask_size fb) (red_mask_shift fb) (green_mask_size fb)
              (green_mask_shift fb) (blue_mask_size fb) (blue_mask_shift fb))
  end.

(** The response is dereferenced without a test. *)
Definition boot_get_hhdm_offset (r : limine_responses) : res Z := deref (hhdm_response r).

(** The static buffer has 256 entries; a longer map is cut. *)
Definition boot_get_memmap (r : limine_responses) : res (option (list boot_memmap_entry)) :=
  match memmap_response r with
  | None => Ok None
  | Some response =>
      let entry_count := Z.of_nat (length response) in
      let count := if 256 <? entry_count then 256 else entry_count in
      entries ← for_range 0 count (λ i entries,
        e ← deref (response !! Z.to_nat i);
        Ok (entries ++ [mk_memmap_entry (base e) (length_ e) (type e)])) [];
      Ok (Some entries)
  end.

Definition boot_get_kernel_address (r : limine_responses) : option boot_kernel_address :=
  match executable_address_response r with
  | None => None
  | Some a => Some (mk_kernel_address (physical_base a) (virtual_base a))
  end.

Definition boot_get_rsdp (r : limine_responses) : option Z := rsdp_response r.

(** ** Lemmas *)

Lemma boot_get_memmap_spec r response :
  memmap_response r = Some response →
  boot_get_memmap r = Ok (Some (take 256 response)).
Proof.
  intros Hr. unfold boot_get_memmap. rewrite Hr.
  set (count := if 256 <? Z.of_nat (length response) then 256 else Z.of_nat (length response)).
  assert (Hc : 0 ≤ count ≤ Z.of_nat (length response) ∧
    take 256 response = take (Z.to_nat count) response).
  { unfold count. destruct (Z.ltb_spec 256 (Z.of_nat (length response))); [split; [lia|done]|].
    split; [lia|]. rewrite Nat2Z.id, !take_ge by lia. done. }
  destruct Hc as [Hc ->].
  destruct (for_range_spec (λ i l, l = take (Z.to_nat i) response) 0 count
    (λ i entries, e ← deref (response !! Z.to_nat i);
        Ok (entries ++ [mk_memmap_entry (base e) (length_ e) (type e)])) []) as (l & -> & ->).
  - lia.
  - done.
  - intros i l Hi ->. destruct (lookup_lt_is_Some_2 response (Z.to_nat i)) as [e He]; [lia|].
    rewrite He. simpl. eexists. split; [done|].
    replace (Z.to_nat (i + 1)) with (S (Z.to_nat i)) by lia.
    rewrite (take_S_r _ _ e) by done. by destruct e.
  - done.
Qed.
