(* ===== verification/FrameAlloc.v ===== *)
(** * The contract between the frame allocator and its clients

    The page-table code needs from the physical memory manager only what this
    class states: its operations, an invariant, the set of frames available, the
    bytes it keeps for itself, and the laws of the operations. The client's
    theorems are proved against the class; Pmm.v discharges it. *)

From S2P Require Import Prelude Word Mem.

(** The bytes of the frame at physical address [phys], seen through the direct
    map at [hhdm]. *)
Definition frame_bytes (hhdm phys : Z) : Z → Prop := in_range (hhdm + phys) PAGE_SIZE.

Class FrameAllocator (A : Type) := {
  (** operations: [0] is "no frame" *)
  alloc_frame : A → mem → res (Z * A * mem);
  free_frame : A → mem → Z → res (A * mem);

  (** abstract state *)
  fa_inv : A → mem → Prop;
  fa_avail : A → mem → gset Z;
  fa_managed : A → mem → Z → Prop;
  fa_private : A → Z → Prop;
  fa_hhdm : A → Z;

  (** [alloc_frame] hands out one of the available frames, zeroed, and fails
      only when there is none. *)
  fa_alloc_law a m :
    fa_inv a m →
    ∃ r a' m', alloc_frame a m = Ok (r, a', m') ∧
      ((fa_avail a m = ∅ ∧ r = 0 ∧ a' = a ∧ m' = m) ∨
       (r ∈ fa_avail a m ∧ fa_inv a' m' ∧ fa_avail a' m' = fa_avail a m ∖ {[r]} ∧
        fa_private a' = fa_private a ∧ fa_hhdm a' = fa_hhdm a ∧
        (∀ q, fa_managed a' m' q ↔ fa_managed a m q) ∧
        filled m' (fa_hhdm a + r) PAGE_SIZE 0 ∧
        modifies (λ x, fa_private a x ∨ frame_bytes (fa_hhdm a) r x) m m'));

  (** [free_frame] takes back a managed frame that is not available. *)
  fa_free_law a m r :
    fa_inv a m → fa_managed a m r → r ∉ fa_avail a m →
    ∃ a' m', free_frame a m r = Ok (a', m') ∧ fa_inv a' m' ∧
      fa_avail a' m' = {[r]} ∪ fa_avail a m ∧
      fa_private a' = fa_private a ∧ fa_hhdm a' = fa_hhdm a ∧
      (∀ q, fa_managed a' m' q ↔ fa_managed a m q) ∧
      modifies (fa_private a) m m';

  (** Available frames are managed; managed frames are whole accessible pages,
      apart from the allocator's own bytes, with a non-null 52-bit address. *)
  fa_avail_managed a m r : fa_inv a m → r ∈ fa_avail a m → fa_managed a m r;
  fa_managed_law a m r :
    fa_inv a m → fa_managed a m r →
    0 < r < 2 ^ 52 ∧ r mod PAGE_SIZE = 0 ∧
    0 ≤ fa_hhdm a ∧ fa_hhdm a + r + PAGE_SIZE ≤ 2 ^ 64 ∧
    mapped m (fa_hhdm a + r) PAGE_SIZE ∧
    (∀ x, frame_bytes (fa_hhdm a) r x → ¬ fa_private a x);

  (** Writing elsewhere does not disturb the allocator. *)
  fa_frame_law a m m' X :
    fa_inv a m → modifies X m m' → (∀ x, X x → ¬ fa_private a x) →
    fa_inv a m' ∧ fa_avail a m' = fa_avail a m ∧
    (∀ q, fa_managed a m' q ↔ fa_managed a m q);
}.

(** ** Clients

    A client allocates, frees frames it holds, and writes to frames it holds,
    in any order. The last component of a configuration is the set of frames
    handed out and not given back. *)
Section client.
Context {A : Type} `{FrameAllocator A}.

Definition held_bytes (a : A) (held : gset Z) (x : Z) : Prop :=
  ∃ r, r ∈ held ∧ frame_bytes (fa_hhdm a) r x.

Inductive client_step : A * mem * gset Z → A * mem * gset Z → Prop :=
  | step_alloc a m held r a' m' :
      alloc_frame a m = Ok (r, a', m') → r ≠ 0 →
      client_step (a, m, held) (a', m', {[r]} ∪ held)
  | step_alloc_fail a m held a' m' :
      alloc_frame a m = Ok (0, a', m') →
      client_step (a, m, held) (a', m', held)
  | step_free a m held r a' m' :
      r ∈ held → free_frame a m r = Ok (a', m') →
      client_step (a, m, held) (a', m', held ∖ {[r]})
  | step_write a m held m' :
      modifies (held_bytes a held) m m' →
      client_step (a, m, held) (a, m', held).

(** The frames in circulation are partitioned between the allocator and the
    client. *)
Definition client_inv (total : gset Z) (hhdm : Z) (c : A * mem * gset Z) : Prop :=
  let '(a, m, held) := c in
  fa_inv a m ∧ fa_hhdm a = hhdm ∧ held ## fa_avail a m ∧ held ∪ fa_avail a m = total ∧
  (∀ r, r ∈ held → fa_managed a m r).

Lemma client_step_inv total hhdm c c' :
  client_inv total hhdm c → client_step c c' → client_inv total hhdm c'.
Proof.
  intros Hc Hs. destruct Hs as [a m held r a' m' Hal Hr|a m held a' m' Hal
    |a m held r a' m' Hin Hfr|a m held m' Hmod]; destruct Hc as (Hinv & Hh & Hdis & Htot & Hman).
  - destruct (fa_alloc_law a m Hinv) as (r' & a2 & m2 & Hal' & Hok).
    rewrite Hal in Hal'. injection Hal' as <- <- <-.
    destruct Hok as [(_ & ? & _)|(Hav & Hinv' & Hav' & _ & Hhh & Hmm & _)]; [done|].
    assert (Hman' := fa_avail_managed a m r Hinv Hav).
    split_and!; [done | congruence | rewrite Hav'; set_solver | |].
    + rewrite Hav', <-Htot. apply set_eq. intros x. destruct (decide (x = r)); set_solver.
    + intros q [->%elem_of_singleton|Hq]%elem_of_union; apply Hmm; auto.
  - destruct (fa_alloc_law a m Hinv) as (r' & a2 & m2 & Hal' & Hok).
    rewrite Hal in Hal'. injection Hal' as <- <- <-.
    destruct Hok as [(_ & _ & -> & ->)|(Hav & _)]; [done|].
    destruct (fa_managed_law a m 0 Hinv (fa_avail_managed a m 0 Hinv Hav)). lia.
  - assert (Hna : r ∉ fa_avail a m) by set_solver.
    destruct (fa_free_law a m r Hinv (Hman r Hin) Hna)
      as (a2 & m2 & Hfr' & Hinv' & Hav' & _ & Hhh & Hmm & _).
    rewrite Hfr in Hfr'. injection Hfr' as <- <-.
    split_and!; [done | congruence | rewrite Hav'; set_solver | |].
    + rewrite Hav', <-Htot. apply set_eq. intros x. destruct (decide (x = r)); set_solver.
    + intros q [Hq _]%elem_of_difference. apply Hmm. auto.
  - destruct (fa_frame_law a m m' _ Hinv Hmod) as (Hinv' & Hav' & Hmm).
    { intros x (r & Hr & Hx). by apply (fa_managed_law a m r Hinv (Hman r Hr)). }
    split_and!; [done | done | by rewrite Hav' | by rewrite Hav' | intros q Hq; apply Hmm; auto].
Qed.

Lemma client_reachable_inv a0 m0 c :
  fa_inv a0 m0 → rtc client_step (a0, m0, ∅) c →
  client_inv (fa_avail a0 m0) (fa_hhdm a0) c.
Proof.
  intros Hinv Hr.
  assert (H0 : client_inv (fa_avail a0 m0) (fa_hhdm a0) (a0, m0, ∅)).
  { split_and!; [done | done | set_solver | set_solver | set_solver]. }
  revert H0. induction Hr; eauto using client_step_inv.
Qed.

(** Two frames of one allocator overlap only when they are the same. *)
Lemma managed_disjoint a m q r x :
  fa_inv a m → fa_managed a m q → fa_managed a m r →
  frame_bytes (fa_hhdm a) q x → frame_bytes (fa_hhdm a) r x → q = r.
Proof.
  intros Hinv Hq Hr. destruct (fa_managed_law a m q Hinv Hq) as (_ & Hq' & _).
  destruct (fa_managed_law a m r Hinv Hr) as (_ & Hr' & _).
  unfold frame_bytes, in_range, PAGE_SIZE in *. dlia.
Qed.

(** A frame handed out is not held, and handing it out changes no byte of the
    frames held. *)
Lemma client_alloc_fresh a0 m0 a m held r a' m' :
  fa_inv a0 m0 → rtc client_step (a0, m0, ∅) (a, m, held) →
  alloc_frame a m = Ok (r, a', m') → r ≠ 0 →
  r ∉ held ∧ r ∈ fa_avail a0 m0 ∧ r mod PAGE_SIZE = 0 ∧
  filled m' (fa_hhdm a0 + r) PAGE_SIZE 0 ∧
  (∀ q x, q ∈ held → frame_bytes (fa_hhdm a0) q x → m' !! x = m !! x).
Proof.
  intros Hinv0 Hr Hal Hne.
  destruct (client_reachable_inv _ _ _ Hinv0 Hr) as (Hinv & Hh & Hdis & Htot & Hman).
  destruct (fa_alloc_law a m Hinv) as (r' & a2 & m2 & Hal' & Hok).
  rewrite Hal in Hal'. injection Hal' as <- <- <-.
  destruct Hok as [(_ & ? & _)|(Hav & _ & _ & _ & _ & _ & Hfill & Hmod)]; [done|].
  pose proof (fa_avail_managed a m r Hinv Hav) as Hrm.
  split_and!.
  - set_solver.
  - rewrite <-Htot. set_solver.
  - by apply (fa_managed_law a m r Hinv).
  - by rewrite <-Hh.
  - intros q x Hq Hx. rewrite <-Hh in Hx. apply (modifies_lookup _ _ _ _ Hmod).
    intros [Hp|Hrx].
    + by apply (fa_managed_law a m q Hinv (Hman q Hq)) in Hp.
    + rewrite (managed_disjoint a m q r x Hinv) in Hq; [|auto..]. set_solver.
Qed.
End client.
