(* ===== verification/RefAlloc.v ===== *)
(** * A reference frame allocator

    The contract of FrameAlloc.v, implemented with a set of free frames instead
    of a bitmap: the smallest model of the contract, used to run the clients on
    machines of any size. *)

From S2P Require Import Prelude Word Mem CString FrameAlloc.

Record ref_alloc := mk_ref {
  ra_hhdm : Z;
  ra_all : gset Z;
  ra_free : gset Z;
}.

Definition ref_alloc_frame (a : ref_alloc) (m : mem) : res (Z * ref_alloc * mem) :=
  match elements (ra_free a) with
  | [] => Ok (0, a, m)
  | r :: _ =>
      '(_, m) ← memset m (ra_hhdm a + r) 0 PAGE_SIZE;
      Ok (r, mk_ref (ra_hhdm a) (ra_all a) (ra_free a ∖ {[r]}), m)
  end.

Definition ref_free_frame (a : ref_alloc) (m : mem) (r : Z) : res (ref_alloc * mem) :=
  Ok (mk_ref (ra_hhdm a) (ra_all a) ({[r]} ∪ ra_free a), m).

Definition ref_managed (a : ref_alloc) (m : mem) (r : Z) : Prop := r ∈ ra_all a.

Record ref_inv (a : ref_alloc) (m : mem) : Prop := {
  ri_free : ra_free a ⊆ ra_all a;
  ri_hhdm : 0 ≤ ra_hhdm a;
  ri_frame r : r ∈ ra_all a →
    0 < r < 2 ^ 52 ∧ r mod PAGE_SIZE = 0 ∧ ra_hhdm a + r + PAGE_SIZE ≤ 2 ^ 64 ∧
    mapped m (ra_hhdm a + r) PAGE_SIZE;
}.

Lemma ref_inv_modifies X a m m' : ref_inv a m → modifies X m m' → ref_inv a m'.
Proof.
  intros [Hf Hh Hr] Hmod. constructor; [done | done |]. intros r Hin.
  destruct (Hr r Hin) as (? & ? & ? & ?). split_and!; [lia | lia | done | done |]. eauto with mem.
Qed.

Lemma ref_alloc_law a m :
  ref_inv a m →
  ∃ r a' m', ref_alloc_frame a m = Ok (r, a', m') ∧
    ((ra_free a = ∅ ∧ r = 0 ∧ a' = a ∧ m' = m) ∨
     (r ∈ ra_free a ∧ ref_inv a' m' ∧ ra_free a' = ra_free a ∖ {[r]} ∧
      (λ _ : Z, False) = (λ _, False) ∧ ra_hhdm a' = ra_hhdm a ∧
      (∀ q, ref_managed a' m' q ↔ ref_managed a m q) ∧
      filled m' (ra_hhdm a + r) PAGE_SIZE 0 ∧
      modifies (λ x, False ∨ frame_bytes (ra_hhdm a) r x) m m')).
Proof.
  intros Hinv. unfold ref_alloc_frame. destruct (elements (ra_free a)) as [|r l] eqn:He.
  - exists 0, a, m. split; [done|]. left. split_and!; [|done..].
    apply leibniz_equiv. by apply elements_empty_inv.
  - assert (Hin : r ∈ ra_free a) by (apply elem_of_elements; rewrite He; left).
    destruct (ri_frame a m Hinv r) as (? & ? & ? & Hm); [by apply (ri_free a m Hinv)|].
    destruct (memset_spec m (ra_hhdm a + r) 0 PAGE_SIZE) as (m' & -> & Hmod & Hfill); [done | done |].
    cbn [mbind res_bind]. eexists _, _, m'. split; [done|]. right. split_and!; try done.
    + destruct (ref_inv_modifies _ _ _ _ Hinv Hmod). constructor; try done. simpl. set_solver.
    + eapply modifies_mono; [|exact Hmod]. intros x Hx. by right.
Qed.

#[export, program] Instance ref_frame_allocator : FrameAllocator ref_alloc := {|
  alloc_frame := ref_alloc_frame;
  free_frame := ref_free_frame;
  fa_inv := ref_inv;
  fa_avail a _ := ra_free a;
  fa_managed := ref_managed;
  fa_private _ _ := False;
  fa_hhdm := ra_hhdm;
  fa_alloc_law := ref_alloc_law;
|}.
Next Obligation.
  intros a m r Hinv Hm Hna. eexists _, m. split; [done|]. split_and!; try done.
  destruct Hinv. constructor; simpl; [|done..]. unfold ref_managed in Hm. set_solver.
Qed.
Next Obligation. intros a m r Hinv Hr. by apply (ri_free a m Hinv). Qed.
Next Obligation.
  intros a m r Hinv Hr. destruct (ri_frame a m Hinv r Hr) as (? & ? & ? & ?).
  pose proof (ri_hhdm a m Hinv). split_and!; [lia | lia | done | done | done | done | tauto].
Qed.
Next Obligation.
  intros a m m' X Hinv Hmod _. split_and!; [by eapply ref_inv_modifies | done | done].
Qed.

(** [n] frames from 4096 on, all free, zeroed. *)
Definition ref_frames (n : nat) : gset Z := list_to_set ((λ i, 4096 * Z.of_nat (S i)) <$> seq 0 n).

Definition ref_machine (hhdm : Z) (n : nat) : ref_alloc * mem :=
  (mk_ref hhdm (ref_frames n) (ref_frames n), zeros (hhdm + 4096) (4096 * Z.of_nat n)).

Lemma ref_frames_elem n r : r ∈ ref_frames n ↔ r mod 4096 = 0 ∧ 0 < r ≤ 4096 * Z.of_nat n.
Proof.
  unfold ref_frames. rewrite elem_of_list_to_set, list_elem_of_fmap. split.
  - intros (i & -> & Hi%elem_of_seq). split; [rewrite Z.mul_comm; by apply Z.mod_mul | lia].
  - intros [Hm Hr]. exists (Z.to_nat (r / 4096 - 1)). rewrite elem_of_seq. split; dlia.
Qed.

Lemma ref_frames_size n : base.size (ref_frames n) = n.
Proof.
  unfold ref_frames. rewrite size_list_to_set; [by rewrite length_fmap, length_seq|].
  apply NoDup_fmap_2; [|apply NoDup_seq]. intros i j Hij. lia.
Qed.

Lemma ref_machine_inv hhdm n :
  0 ≤ hhdm → 4096 * Z.of_nat n < 2 ^ 52 → hhdm + 4096 * Z.of_nat n + 4096 ≤ 2 ^ 64 →
  ref_inv (ref_machine hhdm n).1 (ref_machine hhdm n).2.
Proof.
  intros Hh Hn Hb. constructor; simpl; [done | done |]. intros r [Hm Hr]%ref_frames_elem.
  split_and!; [lia | lia | done | unfold PAGE_SIZE; lia |].
  eapply mapped_sub; [apply zeros_mapped | dlia | unfold PAGE_SIZE; dlia].
Qed.
