(* ===== verification/Pmm.v ===== *)
(** * Physical memory manager (kernel/mm/pmm.c)

    The state is the static variables of the file; the bitmap itself is in
    memory, in the direct map. Abstractly the allocator is the set of its clear
    bits: [pmm_alloc_frame] removes an element, [pmm_free_frame] adds one. *)

From S2P Require Import Prelude Word Mem Bitmap CString BootInfo FrameAlloc.

(** ** State *)

Record pmm := mk_pmm {
  bitmap : Z;
  frame_count : Z;
  next_search_index : Z;
  hhdm_offset : Z;
  free_frames : Z;
}.

(** The static variables before [pmm_init]. *)
Definition pmm_bss : pmm := mk_pmm 0 0 0 0 0.

Definition phys_to_virt (s : pmm) (phys : Z) : Z := u64 (phys + hhdm_offset s).

(** ** pmm_init *)

(** First loop: the end of the highest RAM-backed region. *)
Definition highest_addr_step (e : boot_memmap_entry) (highest_addr : Z) : res Z :=
  if negb (type e =? BOOT_MEMMAP_USABLE) &&
     negb (type e =? BOOT_MEMMAP_BOOTLOADER_RECLAIMABLE) &&
     negb (type e =? BOOT_MEMMAP_EXECUTABLE_AND_MODULES)
  then Ok highest_addr
  else
    let end_ := u64 (base e + length_ e) in
    if highest_addr <? end_ then Ok end_ else Ok highest_addr.

(** Second loop: the base of the first usable region that can hold the bitmap;
    0 if there is none. *)
Fixpoint find_bitmap_phys (entries : list boot_memmap_entry) (bitmap_bytes : Z) : Z :=
  match entries with
  | [] => 0
  | entry :: entries =>
      if (type entry =? BOOT_MEMMAP_USABLE) && (bitmap_bytes <=? length_ entry)
      then base entry
      else find_bitmap_phys entries bitmap_bytes
  end.

(** Third loop: mark the frames of a usable region free. *)
Definition free_frame_step (bitmap frame : Z) (st : mem * Z) : res (mem * Z) :=
  let '(m, free_frames) := st in
  m' ← bitmap_clear m bitmap frame;
  Ok (m', u64 (free_frames + 1)).

Definition free_region_step (bitmap : Z) (e : boot_memmap_entry) (st : mem * Z) : res (mem * Z) :=
  if negb (type e =? BOOT_MEMMAP_USABLE) then Ok st
  else
    let start_frame := base e / PAGE_SIZE in
    let end_frame := u64 (base e + length_ e) / PAGE_SIZE in
    for_range start_frame end_frame (free_frame_step bitmap) st.

(** Last loop and last [if]: claim a frame back. *)
Definition claim_frame_step (bitmap frame : Z) (st : mem * Z) : res (mem * Z) :=
  let '(m, free_frames) := st in
  t ← bitmap_test m bitmap frame;
  if negb t then
    m' ← bitmap_set m bitmap frame;
    Ok (m', u64 (free_frames - 1))
  else Ok (m, free_frames).

Definition pmm_init (r : limine_responses) (s : pmm) (m : mem) : res (pmm * mem) :=
  hhdm ← boot_get_hhdm_offset r;
  memmap ← boot_get_memmap r;
  match memmap with
  | None => Panic "pmm: bootloader did not answer the memory map request"
  | Some entries =>
      highest_addr ← for_each entries highest_addr_step 0;
      let frame_count := highest_addr / PAGE_SIZE in
      let bitmap_bytes := align_up frame_count 8 / 8 in
      let bitmap_phys := find_bitmap_phys entries bitmap_bytes in
      if bitmap_phys =? 0
      then Panic (panicf "pmm: no usable region large enough for the frame bitmap (%lu bytes)" [PNum bitmap_bytes])
      else
        let bitmap := u64 (bitmap_phys + hhdm) in
        '(_, m1) ← memset m bitmap 255 bitmap_bytes;
        st2 ← for_each entries (free_region_step bitmap) (m1, free_frames s);
        let bitmap_start_frame := bitmap_phys / PAGE_SIZE in
        let bitmap_end_frame :=
          u64 (bitmap_start_frame + align_up bitmap_bytes PAGE_SIZE / PAGE_SIZE) in
        st3 ← for_range bitmap_start_frame bitmap_end_frame (claim_frame_step bitmap) st2;
        '(m4, free_frames4) ← claim_frame_step bitmap 0 st3;
        Ok (mk_pmm bitmap frame_count (next_search_index s) hhdm free_frames4, m4)
  end.

(** ** Allocation *)

Definition pmm_alloc_frame (s : pmm) (m : mem) : res (Z * pmm * mem) :=
  frame ← bitmap_find_first_clear m (bitmap s) (frame_count s) (next_search_index s);
  if frame =? frame_count s then Ok (0, s, m)
  else
    m1 ← bitmap_set m (bitmap s) frame;
    let s1 := mk_pmm (bitmap s) (frame_count s) (u64 (frame + 1)) (hhdm_offset s)
                (u64 (free_frames s - 1)) in
    let phys := u64 (frame * PAGE_SIZE) in
    '(_, m2) ← memset m1 (phys_to_virt s1 phys) 0 PAGE_SIZE;
    Ok (phys, s1, m2).

Definition pmm_free_frame (s : pmm) (m : mem) (phys_addr : Z) : res (pmm * mem) :=
  let frame := phys_addr / PAGE_SIZE in
  let double_free := Panic (panicf "pmm_free_frame: double free or invalid address 0x%lx" [PNum phys_addr]) in
  if frame_count s <=? frame then double_free
  else
    t ← bitmap_test m (bitmap s) frame;
    if negb t then double_free
    else
      m' ← bitmap_clear m (bitmap s) frame;
      Ok (mk_pmm (bitmap s) (frame_count s) (next_search_index s) (hhdm_offset s)
            (u64 (free_frames s + 1)), m').

Definition pmm_free_frame_count (s : pmm) : Z := free_frames s.
Definition pmm_total_frame_count (s : pmm) : Z := frame_count s.

(** ** Invariant *)

(** The free frames, as frame numbers. *)
Definition free_set (s : pmm) (m : mem) : gset Z := clear_bits m (bitmap s) (frame_count s).

Definition bitmap_region (s : pmm) : Z → Prop :=
  in_range (bitmap s) (bitmap_bytes (frame_count s)).

(** A frame the allocator may hand out: not frame 0, inside the tracked range,
    accessible through the direct map, and not part of the bitmap. *)
Definition allocatable (s : pmm) (m : mem) (f : Z) : Prop :=
  0 < f < frame_count s ∧
  mapped m (hhdm_offset s + f * PAGE_SIZE) PAGE_SIZE ∧
  ∀ x, frame_bytes (hhdm_offset s) (f * PAGE_SIZE) x → ¬ bitmap_region s x.

Record pmm_inv (s : pmm) (m : mem) : Prop := {
  inv_frame_count : 0 ≤ frame_count s ≤ 2 ^ 40;
  inv_hhdm : 0 ≤ hhdm_offset s ∧ hhdm_offset s + frame_count s * PAGE_SIZE ≤ 2 ^ 64;
  inv_bitmap : mapped m (bitmap s) (bitmap_bytes (frame_count s));
  inv_free : ∀ f, f ∈ free_set s m → allocatable s m f;
  inv_count : free_frames s = Z.of_nat (size (free_set s m));
}.

(** ** Lemmas *)

Lemma free_set_size s m : Z.of_nat (size (free_set s m)) ≤ Z.max 0 (frame_count s).
Proof.
  assert (Hsub : free_set s m ⊆ list_to_set (seqZ 0 (frame_count s))).
  { intros f [Hf _]%elem_of_clear_bits. apply elem_of_list_to_set, elem_of_seqZ. lia. }
  apply subseteq_size in Hsub. rewrite size_list_to_set in Hsub by apply NoDup_seqZ.
  rewrite length_seqZ in Hsub. lia.
Qed.

Lemma bitmap_byte_in_region s i :
  0 ≤ i < frame_count s → bitmap_region s (bitmap s + i / 8).
Proof. unfold bitmap_region, in_range, bitmap_bytes. dlia. Qed.

Lemma frame_of_addr f : f * PAGE_SIZE / PAGE_SIZE = f.
Proof. by apply Z.div_mul. Qed.

(** Writes outside the bitmap leave the free set and the invariant alone. *)
Lemma free_set_modifies X s m m' :
  modifies X m m' → (∀ x, X x → ¬ bitmap_region s x) → free_set s m' = free_set s m.
Proof.
  intros Hmod HX. apply clear_bits_ext. intros i Hi. eapply bit_at_modifies; [done|].
  intros Hx. by apply (HX _ Hx), bitmap_byte_in_region.
Qed.

Lemma allocatable_modifies X s m m' f :
  modifies X m m' → allocatable s m f → allocatable s m' f.
Proof. intros Hmod (? & ? & ?). split_and!; [lia.. | eauto with mem | done]. Qed.

Lemma modifies_sym_dom X m m' : modifies X m m' → modifies (λ _, True) m' m.
Proof. intros [Hd _]. split; [intros x; by rewrite Hd | intros x Hx; by destruct Hx]. Qed.

Lemma allocatable_iff X s m m' f :
  modifies X m m' → allocatable s m' f ↔ allocatable s m f.
Proof.
  intros Hmod. split; eapply allocatable_modifies; [by eapply modifies_sym_dom | done].
Qed.

Lemma pmm_inv_modifies X s m m' :
  pmm_inv s m → modifies X m m' → (∀ x, X x → ¬ bitmap_region s x) → pmm_inv s m'.
Proof.
  intros [Hfc Hh Hb Hf Hc] Hmod HX. pose proof (free_set_modifies X s m m' Hmod HX) as Heq.
  constructor; [done.. | eauto with mem | | by rewrite Heq].
  intros f. rewrite Heq. intros Hf'. eapply allocatable_modifies; eauto.
Qed.

(** [bitmap_test] reads the abstract state. *)
Lemma pmm_test_free s m f :
  pmm_inv s m → 0 ≤ f < frame_count s →
  bitmap_test m (bitmap s) f = Ok (negb (bool_decide (f ∈ free_set s m))).
Proof.
  intros Hinv Hf. rewrite bitmap_test_spec; [|lia|].
  - f_equal. destruct (bit_at m (bitmap s) f) eqn:Hbit; case_bool_decide as Hd; try done.
    + apply elem_of_clear_bits in Hd as [_ ?]. congruence.
    + destruct Hd. by apply elem_of_clear_bits.
  - eapply bit_byte_mapped; [apply (inv_bitmap _ _ Hinv) | done].
Qed.

(** [pmm_alloc_frame] under the invariant. *)
Lemma pmm_alloc_spec s m :
  pmm_inv s m →
  ∃ r s' m', pmm_alloc_frame s m = Ok (r, s', m') ∧
    ((free_set s m = ∅ ∧ r = 0 ∧ s' = s ∧ m' = m) ∨
     (∃ f, f ∈ free_set s m ∧ r = f * PAGE_SIZE ∧ r ≠ 0 ∧ pmm_inv s' m' ∧
        free_set s' m' = free_set s m ∖ {[f]} ∧
        bitmap s' = bitmap s ∧ frame_count s' = frame_count s ∧
        hhdm_offset s' = hhdm_offset s ∧
        filled m' (hhdm_offset s + r) PAGE_SIZE 0 ∧
        modifies (λ x, bitmap_region s x ∨ frame_bytes (hhdm_offset s) r x) m m')).
Proof.
  intros Hinv. pose proof Hinv as [Hfc [Hh0 Hh] Hb Hf Hc]. unfold pmm_alloc_frame.
  destruct (find_first_clear_spec m (bitmap s) (frame_count s) (next_search_index s))
    as (f & -> & [[-> Hfull]|(Hfr & Hclear & _)]); [lia | done | |]; rsimpl.
  - rewrite Z.eqb_refl. exists 0, s, m. split; [done|]. left. split_and!; [|done..].
    apply set_eq. intros i. unfold free_set. rewrite elem_of_clear_bits.
    split; [|set_solver]. intros [Hi Hi']. by rewrite Hfull in Hi'.
  - destruct (Z.eqb_spec f (frame_count s)); [lia|].
    assert (Hin : f ∈ free_set s m) by by apply elem_of_clear_bits.
    destruct (Hf f Hin) as (Hf0 & Hmap & Hdis).
    destruct (bitmap_set_spec m (bitmap s) f) as (m1 & -> & Hmod1 & Hbits);
      [lia | eapply bit_byte_mapped; [exact Hb | lia] |]. rsimpl.
    unfold PAGE_SIZE in *. unfold phys_to_virt. simpl.
    rewrite (u64_small (f * 4096)), u64_small by lia.
    rewrite Z.add_comm.
    destruct (memset_spec m1 (hhdm_offset s + f * 4096) 0 4096) as (m2 & -> & Hmod2 & Hfill);
      [lia | eauto with mem |]. rsimpl.
    set (s' := mk_pmm _ _ _ _ _).
    assert (Hfs : free_set s' m2 = free_set s m ∖ {[f]}).
    { transitivity (clear_bits m1 (bitmap s) (frame_count s)).
      - apply (free_set_modifies _ s' m1 m2 Hmod2). apply Hdis.
      - by apply clear_bits_set. }
    assert (Hmod : modifies (λ x, bitmap_region s x ∨ frame_bytes (hhdm_offset s) (f * 4096) x) m m2).
    { transitivity m1; (eapply modifies_mono; [|done]); simpl; [|by right].
      intros x ->. left. by apply bitmap_byte_in_region. }
    exists (f * 4096), s', m2. split; [done|]. right. exists f.
    split_and!; [done | done | lia | | done | done | done | done | done | done].
    constructor; [done | done | by eapply modifies_mapped | |].
    + intros g. rewrite Hfs. intros [Hg _]%elem_of_difference.
      apply (allocatable_modifies _ s m m2 g Hmod); auto.
    + rewrite Hfs, size_difference, size_singleton by by apply singleton_subseteq_l. simpl.
      pose proof (free_set_size s m).
      assert (size (free_set s m) ≠ 0%nat) by (intros H0%size_empty_inv; by apply H0, not_elem_of_empty in Hin).
      rewrite Hc, u64_small by lia. lia.
Qed.

(** [pmm_free_frame] of a frame the allocator manages and does not hold. *)
Lemma pmm_free_spec s m f :
  pmm_inv s m → allocatable s m f → f ∉ free_set s m →
  ∃ s' m', pmm_free_frame s m (f * PAGE_SIZE) = Ok (s', m') ∧ pmm_inv s' m' ∧
    free_set s' m' = {[f]} ∪ free_set s m ∧
    bitmap s' = bitmap s ∧ frame_count s' = frame_count s ∧
    hhdm_offset s' = hhdm_offset s ∧ modifies (bitmap_region s) m m'.
Proof.
  intros Hinv (Hf0 & Hmap & Hdis) Hnf. pose proof Hinv as [Hfc Hh Hb Hf Hc].
  unfold pmm_free_frame. rewrite frame_of_addr.
  destruct (Z.leb_spec (frame_count s) f); [lia|].
  assert (Hbyte : is_Some (m !! (bitmap s + f / 8))) by (eapply bit_byte_mapped; [exact Hb | lia]).
  rewrite bitmap_test_spec by (lia || done). rsimpl.
  destruct (bit_at m (bitmap s) f) eqn:Hbit; simpl.
  2:{ destruct Hnf. by apply elem_of_clear_bits; split; [lia|]. }
  destruct (bitmap_clear_spec m (bitmap s) f) as (m' & -> & Hmod & Hbits); [lia | done |]. rsimpl.
  set (s' := mk_pmm _ _ _ _ _).
  assert (Hfs : free_set s' m' = {[f]} ∪ free_set s m) by (apply clear_bits_clear; [lia | done]).
  exists s', m'. split_and!; [done | | done | done | done | done |].
  - constructor; [done | done | by eapply modifies_mapped | |].
    + intros g. rewrite Hfs, elem_of_union, elem_of_singleton. intros Hg.
      apply (allocatable_modifies _ s m m' g Hmod). destruct Hg as [->|Hg]; [done | by apply Hf].
    + pose proof (free_set_size s' m') as Hsz.
      rewrite Hfs, size_union, size_singleton in Hsz |- * by by apply disjoint_singleton_l. simpl in *.
      rewrite Hc, u64_small by lia. lia.
  - eapply modifies_mono; [|done]. intros x ->. apply bitmap_byte_in_region. lia.
Qed.

(** ** What the bootloader promises about the memory map

    Limine guarantees that usable entries are page-aligned in base and length
    and overlap no other usable entry, and maps them in the direct map; physical
    addresses have at most 52 bits, and the direct map of the RAM does not wrap
    around the address space. *)

Definition is_usable (e : boot_memmap_entry) : bool := type e =? BOOT_MEMMAP_USABLE.

Definition is_ram (e : boot_memmap_entry) : bool :=
  (type e =? BOOT_MEMMAP_USABLE) || (type e =? BOOT_MEMMAP_BOOTLOADER_RECLAIMABLE) ||
  (type e =? BOOT_MEMMAP_EXECUTABLE_AND_MODULES).

Definition end_ (e : boot_memmap_entry) : Z := base e + length_ e.

Record memmap_ok (hhdm : Z) (entries : list boot_memmap_entry) (m : mem) : Prop := {
  mm_hhdm : 0 ≤ hhdm < 2 ^ 64;
  mm_ram e : e ∈ entries → is_ram e = true →
    0 ≤ base e ∧ 0 ≤ length_ e ∧ end_ e ≤ 2 ^ 52 ∧ hhdm + end_ e ≤ 2 ^ 64;
  mm_aligned e : e ∈ entries → is_usable e = true →
    base e mod PAGE_SIZE = 0 ∧ length_ e mod PAGE_SIZE = 0;
  mm_disjoint i j e e' : entries !! i = Some e → entries !! j = Some e' → i ≠ j →
    is_usable e = true → is_usable e' = true → end_ e ≤ base e' ∨ end_ e' ≤ base e;
  mm_mapped e : e ∈ entries → is_usable e = true → mapped m (hhdm + base e) (length_ e);
}.

(** The regions with room for a bitmap of [bytes] bytes, and where the bitmap
    goes: to the base of the first of them, and nowhere, for which the value is
    0, if there is none. *)
Definition can_hold (bytes : Z) (e : boot_memmap_entry) : Prop := is_usable e = true ∧ bytes ≤ length_ e.

#[export] Instance can_hold_dec bytes e : Decision (can_hold bytes e).
Proof. unfold can_hold. apply _. Defined.

Definition bitmap_place (entries : list boot_memmap_entry) (bytes : Z) : Z :=
  from_option base 0 (head (filter (can_hold bytes) entries)).

(** The panic for want of such a region, for [n] frames. *)
Definition no_room_for (n : Z) : panic_call :=
  panicf "pmm: no usable region large enough for the frame bitmap (%lu bytes)" [PNum (bitmap_bytes n)].

(** The end of the highest RAM-backed region, and the frames of a range and of
    the usable regions. *)
Definition ram_end (entries : list boot_memmap_entry) : Z :=
  foldr (λ e h, if is_ram e then Z.max (end_ e) h else h) 0 entries.

Definition frames (lo hi : Z) : gset Z := list_to_set (seqZ lo (hi - lo)).

Definition region_frames (e : boot_memmap_entry) : gset Z :=
  if is_usable e then frames (base e / PAGE_SIZE) (end_ e / PAGE_SIZE) else ∅.

Definition usable_frames (entries : list boot_memmap_entry) : gset Z :=
  ⋃ (region_frames <$> entries).

Lemma elem_of_frames lo hi f : f ∈ frames lo hi ↔ lo ≤ f < hi.
Proof. unfold frames. rewrite elem_of_list_to_set, elem_of_seqZ. lia. Qed.

Lemma elem_of_region_frames e f :
  f ∈ region_frames e ↔
    is_usable e = true ∧ base e / PAGE_SIZE ≤ f < end_ e / PAGE_SIZE.
Proof.
  unfold region_frames. destruct (is_usable e); [rewrite elem_of_frames; tauto | set_solver].
Qed.

Lemma elem_of_usable_frames entries f :
  f ∈ usable_frames entries ↔ ∃ e, e ∈ entries ∧ f ∈ region_frames e.
Proof.
  unfold usable_frames. rewrite elem_of_union_list. setoid_rewrite list_elem_of_fmap. naive_solver.
Qed.

Lemma usable_is_ram e : is_usable e = true → is_ram e = true.
Proof. unfold is_usable, is_ram. by intros ->. Qed.

Lemma ram_end_upper entries e : e ∈ entries → is_ram e = true → end_ e ≤ ram_end entries.
Proof.
  induction entries as [|e' entries IH]; [set_solver|].
  intros [->|Hin]%elem_of_cons Hram; simpl.
  - rewrite Hram. lia.
  - specialize (IH Hin Hram). destruct (is_ram e'); lia.
Qed.

Lemma ram_end_bound hhdm entries m :
  memmap_ok hhdm entries m → 0 ≤ ram_end entries ≤ 2 ^ 52 ∧ hhdm + ram_end entries ≤ 2 ^ 64.
Proof.
  intros Hok. assert (Hall : ∀ e, e ∈ entries → is_ram e = true →
    0 ≤ end_ e ≤ 2 ^ 52 ∧ hhdm + end_ e ≤ 2 ^ 64).
  { intros e Hin Hram. pose proof (mm_ram _ _ _ Hok e Hin Hram). unfold end_ in *. lia. }
  pose proof (mm_hhdm _ _ _ Hok) as Hh. clear Hok.
  induction entries as [|e entries IH]; simpl; [lia|].
  destruct IH; [intros; apply Hall; [by right | done]|].
  destruct (is_ram e) eqn:Hram; [|lia]. pose proof (Hall e ltac:(by left) Hram). lia.
Qed.

(** The first loop computes [ram_end]. *)
Lemma highest_addr_loop hhdm entries m :
  memmap_ok hhdm entries m → for_each entries highest_addr_step 0 = Ok (ram_end entries).
Proof.
  intros Hok. assert (Hall : ∀ e, e ∈ entries → is_ram e = true → 0 ≤ end_ e ≤ 2 ^ 52).
  { intros e Hin Hram. pose proof (mm_ram _ _ _ Hok e Hin Hram). unfold end_ in *. lia. }
  clear Hok.
  assert (Hgen : ∀ h, 0 ≤ h →
    for_each entries highest_addr_step h = Ok (Z.max h (ram_end entries))).
  { induction entries as [|e entries IH]; intros h Hh; simpl; [f_equal; lia|].
    assert (IH' := IH (λ e' Hin, Hall e' (list_elem_of_further _ _ _ Hin))). clear IH.
    assert (Hstep : highest_addr_step e h = Ok (if is_ram e then Z.max (end_ e) h else h)).
    { unfold highest_addr_step. rewrite <-!negb_orb. change (_ || _ || _) with (is_ram e).
      destruct (is_ram e) eqn:Hram; [|done]. simpl.
      pose proof (Hall e ltac:(by left) Hram) as Hr. unfold end_ in *.
      rewrite u64_small by lia. destruct (Z.ltb_spec h (base e + length_ e)); f_equal; lia. }
    rewrite Hstep. rsimpl. destruct (is_ram e) eqn:Hram; rewrite IH'; try done.
    - f_equal. lia.
    - pose proof (Hall e ltac:(by left) Hram). lia. }
  rewrite Hgen by done. f_equal.
  assert (0 ≤ ram_end entries); [|lia].
  clear Hgen. induction entries as [|e entries IH]; simpl; [done|].
  assert (0 ≤ ram_end entries) by (apply IH; intros; apply Hall; [by right | done]).
  destruct (is_ram e); lia.
Qed.

Lemma find_bitmap_phys_place entries bytes : find_bitmap_phys entries bytes = bitmap_place entries bytes.
Proof.
  unfold bitmap_place. induction entries as [|e entries IH]; [done|]. cbn [find_bitmap_phys].
  change (type e =? BOOT_MEMMAP_USABLE) with (is_usable e).
  destruct (is_usable e && (bytes <=? length_ e)) eqn:Hc.
  - rewrite filter_cons_True; [done|]. apply andb_true_iff in Hc as [? ?%Z.leb_le]. by split.
  - rewrite filter_cons_False; [exact IH|]. intros [Hu Hl%Z.leb_le]. by rewrite Hu, Hl in Hc.
Qed.

(** The bitmap goes to the first region with room for it. *)
Lemma bitmap_place_first before e after bytes :
  can_hold bytes e → (∀ e', e' ∈ before → ¬ can_hold bytes e') → bitmap_place (before ++ e :: after) bytes = base e.
Proof.
  intros He Hb. unfold bitmap_place. by rewrite filter_app, (filter_none _ before Hb), filter_cons_True.
Qed.

Lemma bitmap_place_none entries bytes : (∀ e, e ∈ entries → ¬ can_hold bytes e) → bitmap_place entries bytes = 0.
Proof. intros Hno. unfold bitmap_place. by rewrite (filter_none _ entries Hno). Qed.

Lemma bitmap_place_spec entries bytes :
  bitmap_place entries bytes ≠ 0 →
  ∃ e, e ∈ entries ∧ is_usable e = true ∧ bytes ≤ length_ e ∧ base e = bitmap_place entries bytes.
Proof.
  unfold bitmap_place. destruct (filter (can_hold bytes) entries) as [|e l] eqn:Hf; [done|]. intros _.
  assert (He : e ∈ filter (can_hold bytes) entries) by (rewrite Hf; by left).
  apply list_elem_of_filter in He as [[Hu Hl] He]. by exists e.
Qed.

(** ** The loops of [pmm_init], on the abstract set

    [tracks bm n F st]: the bitmap at [bm] is accessible, its clear bits below
    [n] are exactly [F], and the counter counts them. *)
Definition tracks (bm n : Z) (F : gset Z) (m0 : mem) (st : mem * Z) : Prop :=
  modifies (in_range bm (bitmap_bytes n)) m0 st.1 ∧
  clear_bits st.1 bm n = F ∧ st.2 = Z.of_nat (size F).

Section init_loops.
Context (bm n : Z) (m0 : mem).
Context (Hn : 0 ≤ n ≤ 2 ^ 40) (Hbm : mapped m0 bm (bitmap_bytes n)).

Lemma clear_bits_size m : Z.of_nat (size (clear_bits m bm n)) ≤ n.
Proof using Hn. pose proof (free_set_size (mk_pmm bm n 0 0 0) m). simpl in *. unfold free_set in *. simpl in *. lia. Qed.

Lemma byte_modifies m i :
  0 ≤ i < n → modifies (λ x, x = bm + i / 8) m0 m → modifies (in_range bm (bitmap_bytes n)) m0 m.
Proof using Hn.
  intros Hi. apply modifies_mono. intros x ->. by apply (bitmap_byte_in_region (mk_pmm bm n 0 0 0)).
Qed.

Lemma free_frame_step_tracks F st f :
  tracks bm n F m0 st → 0 ≤ f < n → f ∉ F →
  ∃ st', free_frame_step bm f st = Ok st' ∧ tracks bm n ({[f]} ∪ F) m0 st'.
Proof using Hn Hbm.
  destruct st as [m ff]. intros (Hmod & HF & Hff) Hf HnF. simpl in *. unfold free_frame_step.
  destruct (bitmap_clear_spec m bm f) as (m' & -> & Hmod' & Hbits);
    [lia | eapply bit_byte_mapped; [eauto with mem | done] |]. rsimpl.
  eexists. split; [done|].
  assert (HF' : clear_bits m' bm n = {[f]} ∪ F) by (rewrite <-HF; by apply clear_bits_clear).
  split_and!; simpl; [|done|].
  - etransitivity; [done|]. eapply modifies_mono; [|done].
    intros x ->. by apply (bitmap_byte_in_region (mk_pmm bm n 0 0 0)).
  - pose proof (clear_bits_size m') as Hsz. rewrite HF' in Hsz.
    rewrite size_union, size_singleton in Hsz |- * by by apply disjoint_singleton_l.
    rewrite u64_small; lia.
Qed.

Lemma claim_frame_step_tracks F st f :
  tracks bm n F m0 st → 0 ≤ f < n →
  ∃ st', claim_frame_step bm f st = Ok st' ∧ tracks bm n (F ∖ {[f]}) m0 st'.
Proof using Hn Hbm.
  destruct st as [m ff]. intros (Hmod & HF & Hff) Hf. simpl in *. unfold claim_frame_step.
  assert (Hbyte : is_Some (m !! (bm + f / 8))) by (eapply bit_byte_mapped; [eauto with mem | done]).
  rewrite bitmap_test_spec by (lia || done). rsimpl.
  assert (Hin : f ∈ F ↔ bit_at m bm f = false) by (rewrite <-HF, elem_of_clear_bits; tauto).
  destruct (bit_at m bm f) eqn:Hb; simpl.
  - eexists. split; [done|]. rewrite difference_disjoint_L; [done|].
    apply disjoint_singleton_r. by intros ?%Hin.
  - destruct (bitmap_set_spec m bm f) as (m' & -> & Hmod' & Hbits); [lia | done |]. rsimpl.
    eexists. split; [done|]. split_and!; simpl.
    + etransitivity; [done|]. eapply modifies_mono; [|done].
      intros x ->. by apply (bitmap_byte_in_region (mk_pmm bm n 0 0 0)).
    + rewrite <-HF. by apply clear_bits_set.
    + assert (Hf' : f ∈ F) by by apply Hin.
      rewrite size_difference, size_singleton by by apply singleton_subseteq_l.
      pose proof (clear_bits_size m) as Hsz. rewrite HF in Hsz.
      assert (size F ≠ 0%nat) by (intros H0%size_empty_inv; by apply H0, not_elem_of_empty in Hf').
      rewrite u64_small; lia.
Qed.

Lemma free_range_tracks F st lo hi :
  tracks bm n F m0 st → 0 ≤ lo ≤ hi → hi ≤ n → F ## frames lo hi →
  ∃ st', for_range lo hi (free_frame_step bm) st = Ok st' ∧ tracks bm n (frames lo hi ∪ F) m0 st'.
Proof using Hn Hbm.
  intros Ht Hlo Hhi Hdis.
  destruct (for_range_spec (λ i st, tracks bm n (frames lo i ∪ F) m0 st) lo hi
    (free_frame_step bm) st) as (st' & ? & ?); [lia | | |by eauto].
  - replace (frames lo lo ∪ F) with F; [done|]. apply set_eq. intros x.
    rewrite elem_of_union, elem_of_frames. split; [auto | intros [?|?]; [lia | done]].
  - intros i t Hi Ht'. destruct (free_frame_step_tracks _ _ i Ht') as (t' & Hs & Hr); [lia | |].
    + rewrite elem_of_union, elem_of_frames. intros [?|HiF]; [lia|].
      apply (Hdis i HiF), elem_of_frames. lia.
    + exists t'. split; [done|]. replace (frames lo (i + 1) ∪ F)
        with ({[i]} ∪ (frames lo i ∪ F)); [done|]. apply set_eq. intros x.
      rewrite !elem_of_union, !elem_of_frames, elem_of_singleton. split.
      * intros [->|[?|?]]; [left; lia | left; lia | by right].
      * intros [?|?]; [|by auto]. destruct (decide (x = i)); [by left | right; left; lia].
Qed.

Lemma claim_range_tracks F st lo hi :
  tracks bm n F m0 st → 0 ≤ lo ≤ hi → hi ≤ n →
  ∃ st', for_range lo hi (claim_frame_step bm) st = Ok st' ∧ tracks bm n (F ∖ frames lo hi) m0 st'.
Proof using Hn Hbm.
  intros Ht Hlo Hhi.
  destruct (for_range_spec (λ i st, tracks bm n (F ∖ frames lo i) m0 st) lo hi
    (claim_frame_step bm) st) as (st' & ? & ?); [lia | | |by eauto].
  - replace (F ∖ frames lo lo) with F; [done|]. apply set_eq. intros x.
    rewrite elem_of_difference, elem_of_frames. split; [intros; split; [done | lia] | tauto].
  - intros i t Hi Ht'. destruct (claim_frame_step_tracks _ _ i Ht') as (t' & Hs & Hr); [lia|].
    exists t'. split; [done|]. replace (F ∖ frames lo (i + 1))
      with (F ∖ frames lo i ∖ {[i]}); [done|]. apply set_eq. intros x.
    rewrite !elem_of_difference, !elem_of_frames, elem_of_singleton. split.
    + intros [[? ?] ?]. split; [done | lia].
    + intros [? ?]. split_and!; [done | lia | lia].
Qed.
End init_loops.

(** The range of frames of a usable region. *)
Lemma usable_region_frames hhdm entries m e :
  memmap_ok hhdm entries m → e ∈ entries → is_usable e = true →
  0 ≤ base e / PAGE_SIZE ≤ end_ e / PAGE_SIZE ∧
  end_ e / PAGE_SIZE ≤ ram_end entries / PAGE_SIZE ∧
  u64 (base e + length_ e) = end_ e.
Proof.
  intros Hok Hin Hu. pose proof (usable_is_ram e Hu) as Hr.
  pose proof (mm_ram _ _ _ Hok e Hin Hr) as (? & ? & ? & ?).
  pose proof (ram_end_upper entries e Hin Hr). pose proof (mm_hhdm _ _ _ Hok).
  unfold end_, PAGE_SIZE in *. split_and!; [dlia | dlia | dlia |]. apply u64_small. lia.
Qed.

(** Distinct regions of the map have distinct frames. *)
Lemma region_frames_disjoint hhdm done e todo m :
  memmap_ok hhdm (done ++ e :: todo) m → usable_frames done ## region_frames e.
Proof.
  intros Hok f (e' & Hin & Hf')%elem_of_usable_frames Hf.
  apply elem_of_region_frames in Hf as [Hu Hf]. apply elem_of_region_frames in Hf' as [Hu' Hf'].
  apply list_elem_of_lookup in Hin as [i Hi]. pose proof (lookup_lt_Some _ _ _ Hi).
  assert (Hin : e ∈ done ++ e :: todo) by set_solver.
  assert (Hin' : e' ∈ done ++ e :: todo).
  { apply elem_of_app. left. apply list_elem_of_lookup. eauto. }
  destruct (mm_aligned _ _ _ Hok e Hin Hu). destruct (mm_aligned _ _ _ Hok e' Hin' Hu').
  destruct (mm_disjoint _ _ _ Hok i (length done) e' e) as [Hd|Hd]; [| | lia | done | done | |].
  - rewrite lookup_app_l by lia. done.
  - rewrite lookup_app_r, Nat.sub_diag by lia. done.
  - unfold end_, PAGE_SIZE in *. dlia.
  - unfold end_, PAGE_SIZE in *. dlia.
Qed.

Lemma usable_frames_snoc done e :
  usable_frames (done ++ [e]) = region_frames e ∪ usable_frames done.
Proof.
  apply set_eq. intros f. rewrite elem_of_union, !elem_of_usable_frames.
  setoid_rewrite elem_of_app. setoid_rewrite list_elem_of_singleton. naive_solver.
Qed.

(** The third loop of [pmm_init] clears exactly the usable frames. *)
Lemma free_regions_tracks hhdm entries bm m0 mm st :
  memmap_ok hhdm entries mm →
  mapped m0 bm (bitmap_bytes (ram_end entries / PAGE_SIZE)) →
  tracks bm (ram_end entries / PAGE_SIZE) ∅ m0 st →
  ∃ st', for_each entries (free_region_step bm) st = Ok st' ∧
    tracks bm (ram_end entries / PAGE_SIZE) (usable_frames entries) m0 st'.
Proof.
  intros Hok Hbm Ht. destruct (ram_end_bound _ _ _ Hok) as [Hre _].
  destruct (for_each_spec
    (λ done todo st, tracks bm (ram_end entries / PAGE_SIZE) (usable_frames done) m0 st)
    entries (free_region_step bm) st) as (st' & ? & ?); [done | |by eauto].
  intros done e todo t -> Ht'. rewrite usable_frames_snoc.
  unfold free_region_step. change (type e =? BOOT_MEMMAP_USABLE) with (is_usable e).
  pose proof (region_frames_disjoint _ _ _ _ _ Hok) as Hdis. unfold region_frames in *.
  destruct (is_usable e) eqn:Hu; simpl.
  - destruct (usable_region_frames _ _ _ e Hok) as (? & ? & ->); [set_solver | done |].
    apply free_range_tracks; [unfold PAGE_SIZE in *; dlia | done | done | done | done | done].
  - exists t. split; [done|]. by rewrite union_empty_l_L.
Qed.

(** The frames of the bitmap. *)
Definition bitmap_frames (bitmap_phys bytes : Z) : gset Z :=
  frames (bitmap_phys / PAGE_SIZE) (bitmap_phys / PAGE_SIZE + (bytes + 4095) / PAGE_SIZE).

Lemma all_set_clear_bits m bm n :
  0 ≤ n → filled m bm (bitmap_bytes n) 255 → clear_bits m bm n = ∅.
Proof.
  intros Hn Hf. apply set_eq. intros i. rewrite elem_of_clear_bits.
  split; [|set_solver]. intros [Hi Hb]. unfold bit_at in Hb.
  rewrite Hf in Hb by (unfold in_range, bitmap_bytes; dlia).
  assert (Hr : 0 ≤ i mod 8 < 8) by dlia. revert Hb. generalize (i mod 8) Hr. clear.
  intros k Hk. assert (k = 0 ∨ k = 1 ∨ k = 2 ∨ k = 3 ∨ k = 4 ∨ k = 5 ∨ k = 6 ∨ k = 7)
    as [->|[->|[->|[->|[->|[->|[->| ->]]]]]]] by lia; done.
Qed.

(** The region the bitmap is placed in. *)
Lemma bitmap_placement hhdm entries m :
  memmap_ok hhdm entries m →
  let n := ram_end entries / PAGE_SIZE in
  let bp := bitmap_place entries (bitmap_bytes n) in
  bp ≠ 0 →
  0 < n ∧ 0 < bp ∧ bp mod PAGE_SIZE = 0 ∧
  u64 (bp + hhdm) = hhdm + bp ∧
  bp / PAGE_SIZE + (bitmap_bytes n + 4095) / PAGE_SIZE ≤ n ∧
  mapped m (hhdm + bp) (bitmap_bytes n).
Proof.
  intros Hok n bp Hbp. destruct (bitmap_place_spec _ _ Hbp) as (e & Hin & Hu & Hlen & Hb).
  fold n in Hlen. fold n bp in Hb. pose proof (usable_is_ram e Hu) as Hr.
  pose proof (mm_ram _ _ _ Hok e Hin Hr) as (? & ? & ? & ?).
  destruct (mm_aligned _ _ _ Hok e Hin Hu) as [Ha Hla].
  pose proof (ram_end_upper entries e Hin Hr) as Hup. pose proof (mm_hhdm _ _ _ Hok).
  destruct (ram_end_bound _ _ _ Hok) as [Hre _].
  assert (Hn : base e / PAGE_SIZE + length_ e / PAGE_SIZE ≤ n).
  { unfold n, end_, PAGE_SIZE in *. dlia. }
  assert (Hn0 : 0 ≤ n) by (unfold n, PAGE_SIZE; dlia).
  assert (Hpos : 0 < n) by (unfold PAGE_SIZE in *; dlia).
  assert (Hbytes : 0 < bitmap_bytes n) by (unfold bitmap_bytes; dlia).
  unfold end_, PAGE_SIZE in *. rewrite <-Hb in *. split_and!; [dlia | lia | done | | dlia |].
  - rewrite u64_small by lia. lia.
  - eapply mapped_sub; [by apply (mm_mapped _ _ _ Hok e) | lia | lia].
Qed.

(** After the third loop every clear bit is a usable frame, hence below the
    end of the RAM and accessible. *)
Lemma usable_frame_allocatable hhdm entries m f :
  memmap_ok hhdm entries m → f ∈ usable_frames entries →
  0 ≤ f < ram_end entries / PAGE_SIZE ∧ mapped m (hhdm + f * PAGE_SIZE) PAGE_SIZE.
Proof.
  intros Hok (e & Hin & (Hu & Hf)%elem_of_region_frames)%elem_of_usable_frames.
  destruct (usable_region_frames _ _ _ e Hok Hin Hu) as (? & ? & _).
  destruct (mm_aligned _ _ _ Hok e Hin Hu) as [Ha Hla].
  split; [lia|]. eapply mapped_sub; [by apply (mm_mapped _ _ _ Hok e)|..];
    unfold end_, PAGE_SIZE in *; dlia.
Qed.

Lemma pmm_init_spec r hhdm response m :
  hhdm_response r = Some hhdm → memmap_response r = Some response →
  memmap_ok hhdm (take 256 response) m →
  let entries := take 256 response in
  let n := ram_end entries / PAGE_SIZE in
  let bp := bitmap_place entries (bitmap_bytes n) in
  if bp =? 0 then pmm_init r pmm_bss m = Panic (no_room_for n)
  else ∃ s m', pmm_init r pmm_bss m = Ok (s, m') ∧ pmm_inv s m' ∧
    frame_count s = n ∧ bitmap s = hhdm + bp ∧ hhdm_offset s = hhdm ∧
    next_search_index s = 0 ∧
    free_set s m' = usable_frames entries ∖ bitmap_frames bp (bitmap_bytes n) ∖ {[0]} ∧
    modifies (bitmap_region s) m m'.
Proof.
  intros Hhd Hmm Hok entries n bp. fold entries in Hok.
  unfold pmm_init, boot_get_hhdm_offset. rewrite Hhd. rsimpl.
  rewrite (boot_get_memmap_spec r response) by done. fold entries. rsimpl.
  rewrite (highest_addr_loop _ _ _ Hok). rsimpl. fold n.
  destruct (ram_end_bound _ _ _ Hok) as [Hre Hhre].
  assert (Hn0 : 0 ≤ n ≤ 2 ^ 40) by (unfold n, PAGE_SIZE; dlia).
  rewrite align_up_8, Z.div_mul by lia. change ((n + 7) / 8) with (bitmap_bytes n).
  rewrite find_bitmap_phys_place. fold bp.
  destruct (Z.eqb_spec bp 0) as [|Hbp]; [done|].
  pose proof (bitmap_placement _ _ _ Hok) as Hpl. cbv zeta in Hpl. fold n in Hpl. fold bp in Hpl.
  destruct (Hpl Hbp) as (Hn & Hbp0 & Hal & -> & Hend & Hmap).
  assert (Hbytes : 0 ≤ bitmap_bytes n ≤ n) by (unfold bitmap_bytes; dlia).
  destruct (memset_spec m (hhdm + bp) 255 (bitmap_bytes n)) as (m1 & -> & Hmod1 & Hfill);
    [lia | done |]. rsimpl.
  destruct (free_regions_tracks hhdm entries (hhdm + bp) m m (m1, 0)) as (st2 & -> & Ht2);
    [done | done | |]; rsimpl.
  { split_and!; [done | by apply all_set_clear_bits; [lia|] | done]. }
  rewrite align_up_page by lia. rewrite frame_of_addr.
  change ((bitmap_bytes n + 4095) / 4096) with ((bitmap_bytes n + 4095) / PAGE_SIZE).
  assert (Hbs : 0 ≤ bp / PAGE_SIZE ∧ 0 ≤ (bitmap_bytes n + 4095) / PAGE_SIZE)
    by (unfold PAGE_SIZE; split; apply Z.div_pos; lia).
  rewrite u64_small by lia. fold n in Ht2.
  destruct (claim_range_tracks (hhdm + bp) n m Hn0 Hmap _ _ (bp / PAGE_SIZE)
    (bp / PAGE_SIZE + (bitmap_bytes n + 4095) / PAGE_SIZE) Ht2) as (st3 & -> & Ht3); [lia..|].
  rsimpl.
  destruct (claim_frame_step_tracks (hhdm + bp) n m Hn0 Hmap _ _ 0 Ht3)
    as ([m4 ff4] & -> & Hmod4 & HF4 & Hff4); [lia|]. rsimpl.
  set (s := mk_pmm _ _ _ _ _). exists s, m4.
  assert (HF : free_set s m4 =
    usable_frames entries ∖ bitmap_frames bp (bitmap_bytes n) ∖ {[0]}) by done.
  split_and!; [done | | done | done | done | done | done | done].
  constructor; simpl.
  - lia.
  - pose proof (mm_hhdm _ _ _ Hok). split; [lia|]. unfold n, PAGE_SIZE. dlia.
  - eauto with mem.
  - intros f. rewrite HF, !elem_of_difference, elem_of_singleton.
    intros [[Hu Hnb] Hne]. destruct (usable_frame_allocatable _ _ _ _ Hok Hu) as [Hf Hfm].
    fold n in Hf. split_and!; simpl; [lia | lia | eauto with mem |].
    intros x Hx Hreg. apply Hnb. unfold bitmap_frames. apply elem_of_frames.
    unfold frame_bytes, bitmap_region, in_range in *. simpl in *. unfold PAGE_SIZE in *. dlia.
  - rewrite <-HF4 in Hff4. done.
Qed.

(** An allocation does not change the number of frames tracked. *)
Lemma pmm_alloc_frame_count s m r s' m' : pmm_alloc_frame s m = Ok (r, s', m') → frame_count s' = frame_count s.
Proof.
  unfold pmm_alloc_frame. destruct (bitmap_find_first_clear _ _ _ _) as [f| | |]; try discriminate.
  rsimpl. destruct (f =? frame_count s); [by intros [= _ <- _]|].
  destruct (bitmap_set _ _ _); try discriminate. rsimpl. destruct (memset _ _ _ _) as [[? ?]| | |]; try discriminate. rsimpl.
  by intros [= _ <- _].
Qed.

(** ** The frame allocator contract *)

Definition avail (s : pmm) (m : mem) : gset Z := set_map (λ f, f * PAGE_SIZE) (free_set s m).

Definition managed (s : pmm) (m : mem) (r : Z) : Prop :=
  ∃ f, r = f * PAGE_SIZE ∧ allocatable s m f.

Lemma elem_of_avail s m f : f * PAGE_SIZE ∈ avail s m ↔ f ∈ free_set s m.
Proof.
  unfold avail. rewrite elem_of_map. split.
  - intros (g & Hg & Hin). by assert (f = g) as -> by (unfold PAGE_SIZE in *; lia).
  - eauto.
Qed.

Lemma managed_iff X s s' m m' q :
  modifies X m m' → bitmap s' = bitmap s → frame_count s' = frame_count s →
  hhdm_offset s' = hhdm_offset s → managed s' m' q ↔ managed s m q.
Proof.
  intros Hmod Hb Hf Hh. unfold managed. f_equiv. intros f.
  rewrite (allocatable_iff X s' m m' f Hmod). unfold allocatable, bitmap_region.
  by rewrite Hb, Hf, Hh.
Qed.

Lemma frames_size (X : gset Z) : size (set_map (λ f, f * PAGE_SIZE) X : gset Z) = size X.
Proof.
  unfold set_map. rewrite size_list_to_set; [by rewrite length_fmap|].
  apply NoDup_fmap_2; [intros x y; unfold PAGE_SIZE; lia | apply NoDup_elements].
Qed.

Lemma avail_managed s m r : pmm_inv s m → r ∈ avail s m → managed s m r.
Proof.
  intros Hinv (f & -> & Hf)%elem_of_map. exists f. split; [done|]. by apply (inv_free _ _ Hinv).
Qed.

Lemma pmm_alloc_law s m :
  pmm_inv s m →
  ∃ r s' m', pmm_alloc_frame s m = Ok (r, s', m') ∧
    ((avail s m = ∅ ∧ r = 0 ∧ s' = s ∧ m' = m) ∨
     (r ∈ avail s m ∧ pmm_inv s' m' ∧ avail s' m' = avail s m ∖ {[r]} ∧
      bitmap_region s' = bitmap_region s ∧ hhdm_offset s' = hhdm_offset s ∧
      (∀ q, managed s' m' q ↔ managed s m q) ∧
      filled m' (hhdm_offset s + r) PAGE_SIZE 0 ∧
      modifies (λ x, bitmap_region s x ∨ frame_bytes (hhdm_offset s) r x) m m')).
Proof.
  intros Hinv. destruct (pmm_alloc_spec s m Hinv) as (r & s' & m' & -> & Hr).
  exists r, s', m'. split; [done|]. destruct Hr as [(He & -> & -> & ->)|Hr]; [left|right].
  - split_and!; [|done..]. unfold avail. rewrite He. apply set_map_empty.
  - destruct Hr as (f & Hin & -> & _ & Hinv' & Hfs & Hb & Hf & Hh & Hfill & Hmod).
    split_and!; [by apply elem_of_avail | done | | by unfold bitmap_region; rewrite Hb, Hf | done | |
      done | done].
    + apply set_eq. intros q. rewrite elem_of_difference, elem_of_singleton. unfold avail.
      rewrite Hfs, !elem_of_map. setoid_rewrite elem_of_difference.
      setoid_rewrite elem_of_singleton. split.
      * intros (g & -> & Hg & Hne). split; [eauto|]. unfold PAGE_SIZE. lia.
      * intros [(g & -> & Hg) Hne]. exists g. split_and!; [done | done | by intros ->].
    + intros q. by eapply managed_iff.
Qed.

Lemma pmm_free_law s m r :
  pmm_inv s m → managed s m r → r ∉ avail s m →
  ∃ s' m', pmm_free_frame s m r = Ok (s', m') ∧ pmm_inv s' m' ∧
    avail s' m' = {[r]} ∪ avail s m ∧
    bitmap_region s' = bitmap_region s ∧ hhdm_offset s' = hhdm_offset s ∧
    (∀ q, managed s' m' q ↔ managed s m q) ∧ modifies (bitmap_region s) m m'.
Proof.
  intros Hinv (f & -> & Hal) Hnf. rewrite elem_of_avail in Hnf.
  destruct (pmm_free_spec s m f Hinv Hal Hnf)
    as (s' & m' & -> & Hinv' & Hfs & Hb & Hf & Hh & Hmod).
  exists s', m'. split_and!; [done | done | | by unfold bitmap_region; rewrite Hb, Hf | done | | done].
  - unfold avail. by rewrite Hfs, set_map_union_L, set_map_singleton_L.
  - intros q. by eapply managed_iff.
Qed.

Lemma managed_law s m r :
  pmm_inv s m → managed s m r →
  0 < r < 2 ^ 52 ∧ r mod PAGE_SIZE = 0 ∧
  0 ≤ hhdm_offset s ∧ hhdm_offset s + r + PAGE_SIZE ≤ 2 ^ 64 ∧
  mapped m (hhdm_offset s + r) PAGE_SIZE ∧
  (∀ x, frame_bytes (hhdm_offset s) r x → ¬ bitmap_region s x).
Proof.
  intros Hinv (f & -> & Hf & Hm & Hdis). pose proof (inv_frame_count _ _ Hinv).
  pose proof (inv_hhdm _ _ Hinv).
  split_and!; [unfold PAGE_SIZE; lia.. | by apply Z.mod_mul | lia | unfold PAGE_SIZE in *; lia |
    done | done].
Qed.

Lemma pmm_frame_law s m m' X :
  pmm_inv s m → modifies X m m' → (∀ x, X x → ¬ bitmap_region s x) →
  pmm_inv s m' ∧ avail s m' = avail s m ∧ (∀ q, managed s m' q ↔ managed s m q).
Proof.
  intros Hinv Hmod HX. split_and!.
  - by eapply pmm_inv_modifies.
  - unfold avail. by rewrite (free_set_modifies _ _ _ _ Hmod HX).
  - intros q. by eapply managed_iff.
Qed.

#[export] Instance pmm_frame_allocator : FrameAllocator pmm := {|
  alloc_frame := pmm_alloc_frame;
  free_frame := pmm_free_frame;
  fa_inv := pmm_inv;
  fa_avail := avail;
  fa_managed := managed;
  fa_private := bitmap_region;
  fa_hhdm := hhdm_offset;
  fa_alloc_law := pmm_alloc_law;
  fa_free_law := pmm_free_law;
  fa_avail_managed := avail_managed;
  fa_managed_law := managed_law;
  fa_frame_law := pmm_frame_law;
|}.

(** ** A small machine

    28 KiB of usable RAM at 0x1000, seen through the usual direct map: the
    state [pmm_init] leaves, with the bitmap (one byte) in frame 1 and frames 2
    to 7 free. *)
Definition ex_hhdm : Z := 0xffff800000000000.
Definition ex_ram : mem := zeros (ex_hhdm + 0x1000) 0x7000.
Definition ex_map : list boot_memmap_entry := [mk_memmap_entry 0x1000 0x7000 BOOT_MEMMAP_USABLE].
Definition ex_responses : limine_responses :=
  mk_responses true None (Some ex_hhdm) (Some ex_map) None None.
Definition ex_pmm : pmm := mk_pmm (ex_hhdm + 0x1000) 8 0 ex_hhdm 6.
Definition ex_mem : mem := <[ex_hhdm + 0x1000 := 0x03]> ex_ram.

Lemma ex_ram_mapped a n :
  ex_hhdm + 0x1000 ≤ a → a + n ≤ ex_hhdm + 0x8000 → mapped ex_ram a n.
Proof. intros. eapply mapped_sub; [apply zeros_mapped | lia | lia]. Qed.

Lemma ex_mem_modifies : modifies (λ x, x = ex_hhdm + 0x1000) ex_ram ex_mem.
Proof.
  apply modifies_insert. apply (ex_ram_mapped (ex_hhdm + 0x1000) 1); unfold in_range; lia.
Qed.

Lemma ex_free_set : free_set ex_pmm ex_mem = frames 2 8.
Proof.
  apply set_eq. intros i. unfold free_set. rewrite elem_of_clear_bits, elem_of_frames. simpl.
  assert (Hb : 0 ≤ i < 8 → bit_at ex_mem (ex_hhdm + 0x1000) i = Z.testbit 0x03 i).
  { intros Hi. unfold bit_at, ex_mem. rewrite Z.div_small, Z.add_0_r by lia.
    rewrite lookup_insert_eq. by rewrite Z.mod_small by lia. }
  assert (Ht : 0 ≤ i < 8 → Z.testbit 0x03 i = (i <? 2)).
  { intros Hi. assert (i = 0 ∨ i = 1 ∨ 2 ≤ i < 8) as [->|[->|Hi2]] by lia; [reflexivity..|].
    rewrite (testbit_above 0x03 2) by lia. symmetry. apply Z.ltb_ge. lia. }
  split.
  - intros [Hi Hc]. rewrite Hb, Ht in Hc by done. apply Z.ltb_ge in Hc. lia.
  - intros Hi. split; [lia|]. rewrite Hb, Ht by lia. apply Z.ltb_ge. lia.
Qed.

Lemma ex_allocatable f : 2 ≤ f < 8 → allocatable ex_pmm ex_mem f.
Proof.
  intros Hf. split_and!; simpl; [lia | lia | |].
  - eapply modifies_mapped; [apply ex_mem_modifies|]. apply ex_ram_mapped; unfold PAGE_SIZE; lia.
  - intros x. unfold frame_bytes, bitmap_region, in_range, bitmap_bytes, PAGE_SIZE. simpl.
    change ((8 + 7) / 8) with 1. lia.
Qed.

Lemma ex_inv : pmm_inv ex_pmm ex_mem.
Proof.
  constructor.
  - simpl. lia.
  - simpl. unfold ex_hhdm, PAGE_SIZE. lia.
  - eapply modifies_mapped; [apply ex_mem_modifies|]. apply ex_ram_mapped; simpl; [lia|].
    change (bitmap_bytes 8) with 1. lia.
  - rewrite ex_free_set. intros f. rewrite elem_of_frames. apply ex_allocatable.
  - rewrite ex_free_set. reflexivity.
Qed.

Lemma ex_map_ok : memmap_ok ex_hhdm ex_map ex_ram.
Proof.
  assert (Hone : ∀ e, e ∈ ex_map → e = mk_memmap_entry 0x1000 0x7000 BOOT_MEMMAP_USABLE).
  { intros e He. by apply list_elem_of_singleton in He. }
  constructor.
  - unfold ex_hhdm. lia.
  - intros e ->%Hone _. unfold end_, ex_hhdm. simpl. lia.
  - intros e ->%Hone _. done.
  - intros [|i] [|j] e e' Hi Hj Hne; simpl in *; try done;
      by rewrite lookup_nil in Hi || rewrite lookup_nil in Hj.
  - intros e ->%Hone _. apply ex_ram_mapped; simpl; lia.
Qed.

(** ** Properties *)

(** C17: [pmm_init] marks free exactly the frames the memory map allows, on a
    memory map as the bootloader documents it. When no usable region is as long
    as the bitmap, the call panics with the number of bytes it needs, and so it
    does when the first that is starts at physical address 0. In every other
    case it puts the bitmap at the base of the first usable region that is as
    long and returns with the allocator's invariant established; a tracked frame
    then tests free exactly when it lies in a usable region, is not frame 0 and
    is not one of the frames that hold the bitmap; the reported count of free
    frames is their number; and only the bitmap is written. *)
Theorem pmm_init_exact (r : limine_responses) (hhdm : Z) (response : list boot_memmap_entry)
    (m : mem) :
  hhdm_response r = Some hhdm → memmap_response r = Some response →
  memmap_ok hhdm (take 256 response) m →
  let entries := take 256 response in
  let n := ram_end entries / PAGE_SIZE in
  let bytes := bitmap_bytes n in
  let too_small e := type e = BOOT_MEMMAP_USABLE → length_ e < bytes in
  let no_room := panicf "pmm: no usable region large enough for the frame bitmap (%lu bytes)" [PNum bytes] in
  ((∀ e, e ∈ entries → too_small e) → pmm_init r pmm_bss m = Panic no_room) ∧
  (∀ before place after, entries = before ++ place :: after → (∀ e, e ∈ before → too_small e) →
    type place = BOOT_MEMMAP_USABLE → bytes ≤ length_ place →
    let bp := base place in
    (bp = 0 → pmm_init r pmm_bss m = Panic no_room) ∧
    (bp ≠ 0 → ∃ s m', pmm_init r pmm_bss m = Ok (s, m') ∧ pmm_inv s m' ∧
      pmm_total_frame_count s = n ∧
      pmm_free_frame_count s = Z.of_nat (size (free_set s m')) ∧
      modifies (in_range (hhdm + bp) bytes) m m' ∧
      ∀ f, 0 ≤ f < n →
        bitmap_test m' (bitmap s) f = Ok false ↔
        f ≠ 0 ∧ ¬ (bp / PAGE_SIZE ≤ f < bp / PAGE_SIZE + (bytes + 4095) / PAGE_SIZE) ∧
        ∃ e, e ∈ entries ∧ type e = BOOT_MEMMAP_USABLE ∧
          base e / PAGE_SIZE ≤ f < (base e + length_ e) / PAGE_SIZE)).
Proof.
  intros Hh Hmm Hok entries n bytes too_small no_room. pose proof (pmm_init_spec r hhdm response m Hh Hmm Hok) as Hs.
  cbv zeta in Hs. fold entries in Hs. fold n in Hs. change (no_room_for n) with no_room in Hs.
  assert (Hsmall : ∀ e, too_small e → ¬ can_hold bytes e) by (intros e Ht [Hu%Z.eqb_eq Hl]; specialize (Ht Hu); lia).
  split.
  { intros Hno. rewrite (bitmap_place_none entries) in Hs by (intros e He; by apply Hsmall, Hno). exact Hs. }
  intros before place after Hsplit Hbefore Hu Hl bp.
  assert (Hbp : bitmap_place entries (bitmap_bytes n) = bp).
  { rewrite Hsplit. apply bitmap_place_first; [split; [by apply Z.eqb_eq | exact Hl]|]. intros e He. by apply Hsmall, Hbefore. }
  rewrite Hbp in Hs. split; [intros H0; by rewrite H0 in Hs|]. intros Hne. rewrite (proj2 (Z.eqb_neq bp 0) Hne) in Hs.
  destruct Hs as (s & m' & Hi & Hinv & Hfc & Hbm & _ & _ & Hfs & Hmod). exists s, m'.
  unfold bitmap_region in Hmod. rewrite Hfc, Hbm in Hmod.
  split_and!; [done | done | done | by apply (inv_count _ _ Hinv) | done |]. intros f Hf.
  rewrite pmm_test_free by (done || by rewrite Hfc).
  transitivity (f ∈ free_set s m').
  { case_bool_decide; naive_solver. }
  rewrite Hfs, !elem_of_difference, elem_of_singleton, elem_of_usable_frames.
  unfold bitmap_frames. rewrite elem_of_frames. setoid_rewrite elem_of_region_frames.
  unfold is_usable, end_. setoid_rewrite Z.eqb_eq. tauto.
Qed.

Lemma pmm_init_exact_witness :
  ∃ s m', pmm_init ex_responses pmm_bss ex_ram = Ok (s, m') ∧ pmm_total_frame_count s = 8 ∧
    bitmap_test m' (bitmap s) 2 = Ok false.
Proof.
  destruct (proj2 (pmm_init_exact ex_responses ex_hhdm ex_map ex_ram eq_refl eq_refl ex_map_ok)
    [] (mk_memmap_entry 0x1000 0x7000 BOOT_MEMMAP_USABLE) [] eq_refl) as [_ Hp].
  - intros e He. by apply not_elem_of_nil in He.
  - reflexivity.
  - vm_compute. intros H. discriminate H.
  - destruct Hp as (s & m' & Hi & _ & Hn & _ & _ & Hf); [discriminate|]. exists s, m'. split; [exact Hi|]. split; [exact Hn|].
    apply Hf; [vm_compute; split; [intros H; discriminate H | reflexivity]|].
    split; [discriminate|]. split.
    + vm_compute. intros [_ H]. discriminate H.
    + exists (mk_memmap_entry 0x1000 0x7000 BOOT_MEMMAP_USABLE).
      split; [apply list_elem_of_singleton; reflexivity|]. split; [reflexivity|].
      vm_compute. split; [intros H; discriminate H | reflexivity].
Defined.

(** [pmm_alloc_frame] never fails while a frame is free, never hands out
    address 0, and never touches anything but the frame and the bitmap: under
    the allocator's invariant it returns 0, changing nothing, exactly when the
    count of free frames is 0; otherwise the address of a frame that was free,
    now marked used and filled with zeros, with the count one less and every
    other frame's status unchanged. *)
Theorem pmm_alloc_frame_correct (s : pmm) (m : mem) :
  pmm_inv s m →
  ∃ r s' m', pmm_alloc_frame s m = Ok (r, s', m') ∧ pmm_inv s' m' ∧
    (r = 0 ↔ pmm_free_frame_count s = 0) ∧
    (r = 0 → s' = s ∧ m' = m) ∧
    (r ≠ 0 →
      bitmap_test m (bitmap s) (r / PAGE_SIZE) = Ok false ∧
      bitmap_test m' (bitmap s') (r / PAGE_SIZE) = Ok true ∧
      r mod PAGE_SIZE = 0 ∧ r / PAGE_SIZE < pmm_total_frame_count s ∧
      pmm_free_frame_count s' = pmm_free_frame_count s - 1 ∧
      filled m' (phys_to_virt s r) PAGE_SIZE 0 ∧
      (∀ g, 0 ≤ g < pmm_total_frame_count s → g ≠ r / PAGE_SIZE →
        bitmap_test m' (bitmap s') g = bitmap_test m (bitmap s) g) ∧
      (∀ x, ¬ bitmap_region s x → ¬ frame_bytes (hhdm_offset s) r x → m' !! x = m !! x)).
Proof.
  intros Hinv. destruct (pmm_alloc_spec s m Hinv) as (r & s' & m' & Hal & Hr).
  exists r, s', m'. split; [done|]. unfold pmm_free_frame_count.
  destruct Hr as [(He & -> & -> & ->)|Hr].
  - pose proof (inv_count _ _ Hinv) as Hc. rewrite He, size_empty in Hc.
    split_and!; [done | tauto | done | done].
  - destruct Hr as (f & Hin & -> & Hne & Hinv' & Hfs & Hb & Hfc & Hh & Hfill & Hmod).
    pose proof (inv_count _ _ Hinv) as Hc. pose proof (inv_count _ _ Hinv') as Hc'.
    destruct (inv_free _ _ Hinv f Hin) as (Hf & Hfm & _).
    assert (Hsz : size (free_set s' m') = (size (free_set s m) - 1)%nat ∧ size (free_set s m) ≠ 0%nat).
    { rewrite Hfs, size_difference, size_singleton by by apply singleton_subseteq_l.
      split; [done|]. intros H0%size_empty_inv. by apply H0, not_elem_of_empty in Hin. }
    rewrite frame_of_addr. unfold pmm_total_frame_count.
    split; [done|]. split; [lia|]. split; [done|]. intros _. split_and!.
    + rewrite (pmm_test_free s m) by (done || lia). by rewrite bool_decide_true.
    + rewrite (pmm_test_free s' m') by (done || lia). rewrite Hfs, bool_decide_false; [done|].
      rewrite elem_of_difference, elem_of_singleton. tauto.
    + by apply Z.mod_mul.
    + lia.
    + lia.
    + unfold phys_to_virt. rewrite Z.add_comm, u64_small; [done|].
      pose proof (inv_hhdm _ _ Hinv). unfold PAGE_SIZE in *. lia.
    + intros g Hg Hgf. rewrite (pmm_test_free s' m'), (pmm_test_free s m) by (done || lia).
      do 2 f_equal. rewrite Hfs. apply bool_decide_ext.
      rewrite elem_of_difference, elem_of_singleton. tauto.
    + intros x Hx1 Hx2. apply (modifies_lookup _ _ _ _ Hmod). tauto.
Qed.

Lemma pmm_alloc_frame_correct_witness :
  ∃ r s' m', pmm_alloc_frame ex_pmm ex_mem = Ok (r, s', m') ∧ r ≠ 0 ∧
    pmm_free_frame_count s' = 5.
Proof.
  destruct (pmm_alloc_frame_correct ex_pmm ex_mem ex_inv)
    as (r & s' & m' & Hal & _ & H0 & _ & Hok).
  assert (Hr : r ≠ 0) by (rewrite H0; discriminate).
  exists r, s', m'. split; [exact Hal|]. split; [exact Hr|]. apply (Hok Hr).
Defined.

(** C6: a frame handed out is exclusive: however a client interleaves
    allocations, frees of frames it holds and writes to them, starting from an
    allocator that satisfies its invariant, the next successful
    [pmm_alloc_frame] returns a page-aligned, non-zero address of a frame the
    client does not hold, zero-filled, and leaves every byte of the frames the
    client holds as it was. *)
Theorem pmm_frames_exclusive (s0 s s' : pmm) (m0 m m' : mem) (held : gset Z) (r : Z) :
  pmm_inv s0 m0 →
  rtc client_step (s0, m0, ∅) (s, m, held) →
  pmm_alloc_frame s m = Ok (r, s', m') → r ≠ 0 →
  r ∉ held ∧ r mod PAGE_SIZE = 0 ∧
  filled m' (hhdm_offset s0 + r) PAGE_SIZE 0 ∧
  (∀ q x, q ∈ held → frame_bytes (hhdm_offset s0) q x → m' !! x = m !! x).
Proof.
  intros Hinv Hr Hal Hne.
  destruct (@client_alloc_fresh pmm pmm_frame_allocator s0 m0 s m held r s' m' Hinv Hr Hal Hne) as (? & _ & ?). done.
Qed.

Lemma pmm_frames_exclusive_witness :
  ∃ r s' m', pmm_alloc_frame ex_pmm ex_mem = Ok (r, s', m') ∧
    r ∉ (∅ : gset Z) ∧ r mod PAGE_SIZE = 0.
Proof.
  destruct (pmm_alloc_spec ex_pmm ex_mem ex_inv) as (r & s' & m' & Hal & [(He & _)|Hr]).
  - exfalso. rewrite ex_free_set in He.
    assert (H : 2 ∈ frames 2 8) by (apply elem_of_frames; lia).
    rewrite He in H. exact (not_elem_of_empty _ H).
  - exists r, s', m'. split; [exact Hal|]. destruct Hr as (f & _ & _ & Hne & _).
    destruct (pmm_frames_exclusive ex_pmm ex_pmm s' ex_mem ex_mem m' ∅ r ex_inv
      (rtc_refl _ _) Hal Hne) as (H1 & H2 & _).
    split; [exact H1 | exact H2].
Defined.

(** [pmm_free_frame] of a frame that is outside the tracked range or
    already free panics; freeing what [pmm_alloc_frame] just returned gives back
    the same set of free frames and the same count. *)
Theorem pmm_free_frame_correct (s : pmm) (m : mem) :
  pmm_inv s m →
  (∀ phys, 0 ≤ phys →
    frame_count s ≤ phys / PAGE_SIZE ∨ phys / PAGE_SIZE ∈ free_set s m →
    pmm_free_frame s m phys =
      Panic (panicf "pmm_free_frame: double free or invalid address 0x%lx" [PNum phys])) ∧
  (∀ r s' m', pmm_alloc_frame s m = Ok (r, s', m') → r ≠ 0 →
    ∃ s'' m'', pmm_free_frame s' m' r = Ok (s'', m'') ∧ pmm_inv s'' m'' ∧
      free_set s'' m'' = free_set s m ∧
      pmm_free_frame_count s'' = pmm_free_frame_count s).
Proof.
  intros Hinv. split.
  - intros phys Hp Hbad. unfold pmm_free_frame.
    destruct (Z.leb_spec (frame_count s) (phys / PAGE_SIZE)); [done|].
    destruct Hbad as [?|Hin]; [lia|].
    assert (0 ≤ phys / PAGE_SIZE) by by apply Z.div_pos.
    by rewrite pmm_test_free, bool_decide_true by done.
  - intros r s' m' Hal Hne. destruct (pmm_alloc_spec s m Hinv) as (r2 & s2 & m2 & Hal' & Hr).
    rewrite Hal in Hal'. injection Hal' as <- <- <-.
    destruct Hr as [(_ & ? & _)|(f & Hin & -> & _ & Hinv' & Hfs & Hb & Hfc & Hh & _ & Hmod)]; [done|].
    destruct (pmm_free_spec s' m' f Hinv') as (s3 & m3 & Hfr & Hinv3 & Hfs3 & _).
    + pose proof (inv_free _ _ Hinv f Hin) as (? & ? & Hdis).
      unfold allocatable, bitmap_region in *. rewrite Hb, Hfc, Hh. split_and!; [lia.. | |done].
      eauto with mem.
    + rewrite Hfs. set_solver.
    + exists s3, m3. assert (Hback : free_set s3 m3 = free_set s m).
      { rewrite Hfs3, Hfs. apply set_eq. intros x. destruct (decide (x = f)); set_solver. }
      split_and!; [done | done | done |]. unfold pmm_free_frame_count.
      by rewrite (inv_count _ _ Hinv3), (inv_count _ _ Hinv), Hback.
Qed.

Lemma pmm_free_frame_correct_witness :
  pmm_free_frame ex_pmm ex_mem 0x8000 =
    Panic (panicf "pmm_free_frame: double free or invalid address 0x%lx" [PNum 0x8000]).
Proof.
  apply (pmm_free_frame_correct ex_pmm ex_mem ex_inv); [lia|].
  left. vm_compute. intros H. discriminate H.
Defined.

(** The guard of [pmm_free_frame] does not protect the frames the
    allocator reserved for itself: under the invariant, freeing physical page 0
    succeeds and makes frame 0 free, after which the invariant that address 0
    is never handed out no longer holds. *)
Theorem pmm_free_frame_zero (s : pmm) (m : mem) :
  pmm_inv s m → 0 < frame_count s →
  ∃ s' m', pmm_free_frame s m 0 = Ok (s', m') ∧ 0 ∈ free_set s' m' ∧ ¬ pmm_inv s' m'.
Proof.
  intros Hinv Hfc. unfold pmm_free_frame. rewrite Z.div_0_l by done.
  destruct (Z.leb_spec (frame_count s) 0); [lia|].
  assert (Hz : 0 ∉ free_set s m) by (intros Hin%(inv_free _ _ Hinv); destruct Hin; lia).
  rewrite pmm_test_free, bool_decide_false by (done || lia). rsimpl.
  destruct (bitmap_clear_spec m (bitmap s) 0) as (m' & -> & _ & Hbits); [lia | |].
  { eapply bit_byte_mapped; [apply (inv_bitmap _ _ Hinv) | lia]. }
  rsimpl. eexists _, m'. split; [done|].
  assert (Hin : 0 ∈ clear_bits m' (bitmap s) (frame_count s)).
  { apply elem_of_clear_bits. split; [lia|]. by rewrite Hbits. }
  split; [done|]. intros Hinv'. destruct (inv_free _ _ Hinv' 0 Hin). lia.
Qed.

Lemma pmm_free_frame_zero_witness :
  ∃ s' m', pmm_free_frame ex_pmm ex_mem 0 = Ok (s', m') ∧ 0 ∈ free_set s' m' ∧ ¬ pmm_inv s' m'.
Proof. apply (pmm_free_frame_zero ex_pmm ex_mem ex_inv). vm_compute. reflexivity. Defined.
