(* ===== verification/Paging.v ===== *)
(** * Page-table entries and the page walk (kernel/arch/x86_64/mm/vmm.c)

    The encoding of entries and the index computation of vmm.c, and the
    specification the page-table code is judged by: [walk] reads a 4-level
    table the way the processor does (Intel SDM vol. 3A, 4.5) and returns the
    entries it goes through. [tables_ok] describes a table tree in memory. *)

From S2P Require Import Prelude Word Mem FrameAlloc.

(** ** Constants of vmm.c and vmm.h *)

Definition PAGE_TABLE_ENTRIES : Z := 512.

Definition PTE_PRESENT : Z := Z.shiftl 1 0.
Definition PTE_WRITABLE : Z := Z.shiftl 1 1.
Definition PTE_USER : Z := Z.shiftl 1 2.
Definition PTE_CACHE_DISABLE : Z := Z.shiftl 1 4.
Definition PTE_NO_EXECUTE : Z := Z.shiftl 1 63.
Definition PTE_ADDR_MASK : Z := 0x000ffffffffff000.

Definition VMM_WRITABLE : Z := Z.shiftl 1 0.
Definition VMM_USER : Z := Z.shiftl 1 1.
Definition VMM_NO_CACHE : Z := Z.shiftl 1 2.
Definition VMM_NO_EXECUTE : Z := Z.shiftl 1 3.

(** ** Encoding *)

(** [x & mask] as a C condition. *)
Definition has (x mask : Z) : bool := negb (Z.land x mask =? 0).

Definition translate_flags (flags : Z) : Z :=
  let pte_flags := PTE_PRESENT in
  let pte_flags := if has flags VMM_WRITABLE then Z.lor pte_flags PTE_WRITABLE else pte_flags in
  let pte_flags := if has flags VMM_USER then Z.lor pte_flags PTE_USER else pte_flags in
  let pte_flags := if has flags VMM_NO_CACHE then Z.lor pte_flags PTE_CACHE_DISABLE else pte_flags in
  let pte_flags := if has flags VMM_NO_EXECUTE then Z.lor pte_flags PTE_NO_EXECUTE else pte_flags in
  pte_flags.

(** The four indices, from the PML4 down. *)
Definition page_table_indices (virt : Z) : Z * Z * Z * Z :=
  (Z.land (Z.shiftr virt 39) (PAGE_TABLE_ENTRIES - 1),
   Z.land (Z.shiftr virt 30) (PAGE_TABLE_ENTRIES - 1),
   Z.land (Z.shiftr virt 21) (PAGE_TABLE_ENTRIES - 1),
   Z.land (Z.shiftr virt 12) (PAGE_TABLE_ENTRIES - 1)).

(** ** The page walk (specification) *)

(** The bit fields of a linear address that select the entry at each level, from
    the PML4 down: bits 47-39, 38-30, 29-21 and 20-12. *)
Definition indices (virt : Z) : list Z :=
  [virt / 2 ^ 39 mod 512; virt / 2 ^ 30 mod 512; virt / 2 ^ 21 mod 512; virt / 2 ^ 12 mod 512].

(** Bit 7 of a present non-leaf entry: a large page. *)
Definition is_large (e : Z) : bool := Z.testbit e 7.

(** The entries from the table at physical address [t] down to the entry that
    maps the page; [None] if the walk meets an entry that is not present. *)
Fixpoint walk (m : mem) (hhdm t : Z) (idx : list Z) : option (list Z) :=
  match idx with
  | [] => None
  | i :: idx' =>
      match load64 m (hhdm + t + 8 * i) with
      | Ok e =>
          if negb (has e PTE_PRESENT) then None
          else match idx' with
               | [] => Some [e]
               | _ => if is_large e then Some [e]
                      else (λ es, e :: es) <$> walk m hhdm (Z.land e PTE_ADDR_MASK) idx'
               end
      | _ => None
      end
  end.

(** What the processor allows on a page: writes and user accesses need the bit
    at every level, no-execute at one level is enough. *)
Definition eff_writable (es : list Z) : bool := forallb (λ e, Z.testbit e 1) es.
Definition eff_user (es : list Z) : bool := forallb (λ e, Z.testbit e 2) es.
Definition eff_no_execute (es : list Z) : bool := existsb (λ e, Z.testbit e 63) es.

(** ** Well-formed table trees

    [T] gives the physical address of the table reached by a path of indices
    (the empty path is the root, paths of length 3 are page tables). *)
Record tables_ok (hhdm root : Z) (m : mem) (T : gmap (list Z) Z) : Prop := {
  t_root : T !! [] = Some root;
  t_child p t i : T !! p = Some t → (length p < 3)%nat → 0 ≤ i < 512 →
    ∃ e, load64 m (hhdm + t + 8 * i) = Ok e ∧
      T !! (p ++ [i]) =
        (if has e PTE_PRESENT && negb (is_large e) then Some (Z.land e PTE_ADDR_MASK) else None);
  t_path p t : T !! p = Some t → (length p ≤ 3)%nat ∧ Forall (λ i, 0 ≤ i < 512) p;
  t_parent p i t : T !! (p ++ [i]) = Some t → is_Some (T !! p);
  t_inj p q t : T !! p = Some t → T !! q = Some t → p = q;
  t_page p t : T !! p = Some t →
    0 < t < 2 ^ 52 ∧ t mod PAGE_SIZE = 0 ∧ hhdm + t + PAGE_SIZE ≤ 2 ^ 64 ∧
    mapped m (hhdm + t) PAGE_SIZE;
}.

(** ** Lemmas: bits *)

Lemma has_testbit x k : 0 ≤ k → has x (Z.shiftl 1 k) = Z.testbit x k.
Proof.
  intros Hk. unfold has. rewrite Z.shiftl_mul_pow2, Z.mul_1_l by done.
  destruct (Z.testbit x k) eqn:Hb.
  - apply negb_true_iff, Z.eqb_neq. intros H0.
    assert (Ht : Z.testbit (Z.land x (2 ^ k)) k = true)
      by by rewrite Z.land_spec, Z.pow2_bits_true, Hb.
    by rewrite H0, Z.bits_0 in Ht.
  - apply negb_false_iff, Z.eqb_eq. apply Z.bits_inj'. intros j Hj.
    rewrite Z.land_spec, Z.bits_0, Z.pow2_bits_eqb by done.
    destruct (Z.eqb_spec k j) as [<-|]; [by rewrite Hb | by rewrite andb_false_r].
Qed.

Lemma present_testbit e : has e PTE_PRESENT = Z.testbit e 0.
Proof. by apply has_testbit. Qed.

(** The address mask selects bits 12 to 51. *)
Lemma addr_mask_testbit i :
  0 ≤ i → Z.testbit PTE_ADDR_MASK i = (12 <=? i) && (i <? 52).
Proof.
  intros Hi. change PTE_ADDR_MASK with (Z.shiftl (Z.ones 40) 12).
  rewrite Z.shiftl_spec by done. destruct (Z.leb_spec 12 i); simpl.
  - destruct (Z.ltb_spec i 52).
    + apply Z.ones_spec_low. lia.
    + apply Z.ones_spec_high. lia.
  - apply Z.testbit_neg_r. lia.
Qed.

Lemma land_mask_testbit x i :
  0 ≤ i → Z.testbit (Z.land x PTE_ADDR_MASK) i = Z.testbit x i && ((12 <=? i) && (i <? 52)).
Proof. intros. by rewrite Z.land_spec, addr_mask_testbit. Qed.

(** A page-aligned 52-bit address is its own masked part. *)
Lemma aligned_masked r : 0 ≤ r < 2 ^ 52 → r mod PAGE_SIZE = 0 → Z.land r PTE_ADDR_MASK = r.
Proof.
  intros Hr Ha. apply Z.bits_inj'. intros i Hi. rewrite land_mask_testbit by done.
  destruct (Z.leb_spec 12 i), (Z.ltb_spec i 52); simpl;
    rewrite ?andb_true_r, ?andb_false_r; try done.
  - symmetry. apply (testbit_above r 52); lia.
  - symmetry. rewrite <-(testbit_mod_low r 12) by lia.
    change (2 ^ 12) with PAGE_SIZE. by rewrite Ha, Z.bits_0.
  - lia.
Qed.

(** Flags outside the address field do not disturb the address. *)
Lemma masked_lor x k :
  (∀ i, 12 ≤ i < 52 → Z.testbit k i = false) →
  Z.land (Z.lor x k) PTE_ADDR_MASK = Z.land x PTE_ADDR_MASK.
Proof.
  intros Hk. apply Z.bits_inj'. intros i Hi. rewrite !land_mask_testbit, Z.lor_spec by done.
  destruct (Z.leb_spec 12 i), (Z.ltb_spec i 52); simpl; rewrite ?andb_false_r; try done.
  by rewrite Hk, orb_false_r by lia.
Qed.

Lemma masked_range x : 0 ≤ x → 0 ≤ Z.land x PTE_ADDR_MASK < 2 ^ 52.
Proof.
  intros Hx. assert (H0 : 0 ≤ Z.land x PTE_ADDR_MASK) by (apply Z.land_nonneg; lia).
  split; [done|]. destruct (decide (Z.land x PTE_ADDR_MASK = 0)); [lia|].
  apply Z.log2_lt_pow2; [lia|]. apply Z.nle_gt. intros Hl.
  assert (Hb := Z.bit_log2 (Z.land x PTE_ADDR_MASK) ltac:(lia)).
  rewrite land_mask_testbit in Hb by lia.
  destruct (Z.ltb_spec (Z.log2 (Z.land x PTE_ADDR_MASK)) 52); [lia|].
  by rewrite !andb_false_r in Hb.
Qed.

(** The bits of an entry made of a frame address and flags below bit 12. *)
Lemma new_entry_bits r flags :
  0 < r < 2 ^ 52 → r mod PAGE_SIZE = 0 →
  Z.testbit flags 0 = true → Z.testbit flags 7 = false →
  (∀ k, 12 ≤ k → Z.testbit flags k = false) →
  has (Z.lor r flags) PTE_PRESENT = true ∧ is_large (Z.lor r flags) = false ∧
  Z.land (Z.lor r flags) PTE_ADDR_MASK = r.
Proof.
  intros Hr Hra Hfl Hfl7 Hfla.
  assert (Hlow : ∀ k, 0 ≤ k < 12 → Z.testbit r k = false).
  { intros k Hk. rewrite <-(testbit_mod_low r 12) by lia.
    change (2 ^ 12) with PAGE_SIZE. by rewrite Hra, Z.bits_0. }
  split_and!.
  - by rewrite present_testbit, Z.lor_spec, Hfl, orb_true_r.
  - unfold is_large. by rewrite Z.lor_spec, Hfl7, Hlow by lia.
  - rewrite masked_lor by (intros; apply Hfla; lia). apply aligned_masked; [lia | done].
Qed.

(** ** Lemmas: indices *)

Lemma page_index virt k : 0 ≤ k → Z.land (Z.shiftr virt k) (PAGE_TABLE_ENTRIES - 1) = virt / 2 ^ k mod 512.
Proof.
  intros Hk. change (PAGE_TABLE_ENTRIES - 1) with (Z.ones 9).
  by rewrite Z.land_ones, Z.shiftr_div_pow2 by done.
Qed.

Lemma indices_eq virt :
  indices virt = [virt / 2 ^ 39 mod 512; virt / 2 ^ 30 mod 512; virt / 2 ^ 21 mod 512;
                  virt / 2 ^ 12 mod 512].
Proof. reflexivity. Qed.

(** The indices vmm.c computes are the processor's. *)
Lemma page_table_indices_spec virt :
  let '(i4, i3, i2, i1) := page_table_indices virt in indices virt = [i4; i3; i2; i1].
Proof. unfold page_table_indices. by rewrite !page_index. Qed.

Lemma indices_range virt : Forall (λ i, 0 ≤ i < 512) (indices virt).
Proof.
  rewrite indices_eq. repeat (apply Forall_cons; split; [apply Z.mod_pos_bound; lia|]).
  by apply Forall_nil.
Qed.

Lemma indices_length virt : length (indices virt) = 4%nat.
Proof. by rewrite indices_eq. Qed.

(** One index on the way to [virt]. *)
Lemma indices_at virt p i s : indices virt = p ++ i :: s → 0 ≤ i < 512 ∧ (length p + length s = 3)%nat.
Proof.
  intros Hidx. pose proof (indices_range virt) as Hf. pose proof (indices_length virt) as Hl.
  rewrite Hidx in Hf, Hl. rewrite length_app in Hl. simpl in Hl.
  apply Forall_app in Hf as [_ [Hi _]%Forall_cons]. split; [exact Hi | lia].
Qed.

(** The indices determine the page within the 48-bit address space. *)
Lemma indices_inj v w : indices v = indices w ↔ v / 4096 mod 2 ^ 36 = w / 4096 mod 2 ^ 36.
Proof.
  rewrite !indices_eq.
  assert (Hrec : ∀ x, x / 4096 mod 2 ^ 36 =
    x / 2 ^ 12 mod 512 + 512 * (x / 2 ^ 21 mod 512) +
    2 ^ 18 * (x / 2 ^ 30 mod 512) + 2 ^ 27 * (x / 2 ^ 39 mod 512)).
  { intros x. change (2 ^ 36) with (512 * (512 * (512 * 512))).
    rewrite !Z.rem_mul_r by lia. rewrite !Z.div_div by lia.
    change (4096 * 512) with (2 ^ 21). change (2 ^ 21 * 512) with (2 ^ 30).
    change (2 ^ 30 * 512) with (2 ^ 39). change 4096 with (2 ^ 12). lia. }
  rewrite !Hrec. split; [by intros [= -> -> -> ->]|].
  pose proof (Z.mod_pos_bound (v / 2 ^ 12) 512). pose proof (Z.mod_pos_bound (w / 2 ^ 12) 512).
  pose proof (Z.mod_pos_bound (v / 2 ^ 21) 512). pose proof (Z.mod_pos_bound (w / 2 ^ 21) 512).
  pose proof (Z.mod_pos_bound (v / 2 ^ 30) 512). pose proof (Z.mod_pos_bound (w / 2 ^ 30) 512).
  pose proof (Z.mod_pos_bound (v / 2 ^ 39) 512). pose proof (Z.mod_pos_bound (w / 2 ^ 39) 512).
  generalize dependent (v / 2 ^ 12 mod 512). generalize dependent (v / 2 ^ 21 mod 512).
  generalize dependent (v / 2 ^ 30 mod 512). generalize dependent (v / 2 ^ 39 mod 512).
  generalize dependent (w / 2 ^ 12 mod 512). generalize dependent (w / 2 ^ 21 mod 512).
  generalize dependent (w / 2 ^ 30 mod 512). generalize dependent (w / 2 ^ 39 mod 512).
  intros. repeat f_equal; lia.
Qed.

(** ** Lemmas: tables *)

Section tables.
Context (hhdm root : Z) (Hhhdm : 0 ≤ hhdm).

(** The address of entry [i] of the table at [t]. *)
Definition entry_at (t i : Z) : Z := hhdm + t + 8 * i.

(** The bytes of the tables of [T]. *)
Definition table_bytes (T : gmap (list Z) Z) (x : Z) : Prop :=
  ∃ p t, T !! p = Some t ∧ frame_bytes hhdm t x.

Lemma entry_in_frame t i x : 0 ≤ i < 512 → in_range (entry_at t i) 8 x → frame_bytes hhdm t x.
Proof using. unfold entry_at, frame_bytes, in_range, PAGE_SIZE. lia. Qed.

Lemma entry_mapped m T p t i :
  tables_ok hhdm root m T → T !! p = Some t → 0 ≤ i < 512 → mapped m (entry_at t i) 8.
Proof.
  intros Hok Hp Hi. destruct (t_page _ _ _ _ Hok p t Hp) as (_ & _ & _ & Hm).
  eapply mapped_sub; [exact Hm|..]; unfold entry_at, PAGE_SIZE; lia.
Qed.

(** Distinct page-aligned frames do not overlap; neither do distinct entries. *)
Lemma frames_disjoint t u x :
  t mod PAGE_SIZE = 0 → u mod PAGE_SIZE = 0 →
  frame_bytes hhdm t x → frame_bytes hhdm u x → t = u.
Proof using. unfold frame_bytes, in_range, PAGE_SIZE. dlia. Qed.

Lemma entries_disjoint m T p q t u i j x :
  tables_ok hhdm root m T → T !! p = Some t → T !! q = Some u →
  0 ≤ i < 512 → 0 ≤ j < 512 →
  in_range (entry_at t i) 8 x → in_range (entry_at u j) 8 x → p = q ∧ i = j.
Proof.
  intros Hok Hp Hq Hi Hj Hx Hy.
  destruct (t_page _ _ _ _ Hok p t Hp) as (_ & Ha & _ & _).
  destruct (t_page _ _ _ _ Hok q u Hq) as (_ & Hb & _ & _).
  assert (t = u) as <- by (eapply frames_disjoint; eauto using entry_in_frame).
  split; [by eapply (t_inj _ _ _ _ Hok)|]. unfold entry_at, in_range in *. lia.
Qed.

(** One step of the walk. *)
Lemma walk_cons m t i idx :
  walk m hhdm t (i :: idx) =
    match load64 m (entry_at t i) with
    | Ok e =>
        if negb (has e PTE_PRESENT) then None
        else match idx with
             | [] => Some [e]
             | _ => if is_large e then Some [e]
                    else (λ es, e :: es) <$> walk m hhdm (Z.land e PTE_ADDR_MASK) idx
             end
    | _ => None
    end.
Proof using. done. Qed.

(** Two memories give the same walk below [t] when, at every entry on the way,
    they agree on the entry or on the rest of the walk. *)
Lemma walk_agree m m' T idx p t :
  tables_ok hhdm root m T → T !! p = Some t → (length p + length idx = 4)%nat →
  Forall (λ i, 0 ≤ i < 512) idx →
  (∀ idx1 j idx2 u, idx = idx1 ++ j :: idx2 → T !! (p ++ idx1) = Some u →
     load64 m' (entry_at u j) = load64 m (entry_at u j) ∨
     walk m' hhdm u (j :: idx2) = walk m hhdm u (j :: idx2)) →
  walk m' hhdm t idx = walk m hhdm t idx.
Proof.
  intros Hok. revert p t. induction idx as [|j idx IH]; intros p t Hp Hlen Hidx Hag; [done|].
  destruct (Hag [] j idx t) as [Hld|]; [done | by rewrite app_nil_r | | done].
  rewrite !walk_cons, Hld. destruct (load64 m (entry_at t j)) as [e|?| |] eqn:He; try done.
  destruct (has e PTE_PRESENT) eqn:Hpr; simpl; [|done].
  destruct idx as [|j' idx]; [done|]. destruct (is_large e) eqn:Hlg; [done|].
  f_equal. apply Forall_cons in Hidx as [Hj Hidx]. simpl in Hlen.
  destruct (t_child _ _ _ _ Hok p t j Hp) as (e' & He' & HT); [lia | done |].
  unfold entry_at in He. rewrite He in He'. injection He' as <-. rewrite Hpr, Hlg in HT. simpl in HT.
  apply (IH (p ++ [j])); [done | rewrite length_app; simpl; lia | done |].
  intros idx1 k idx2 u Heq Hu. apply (Hag (j :: idx1) k idx2 u).
  - by rewrite Heq.
  - by rewrite <-app_assoc in Hu.
Qed.

(** The tree only depends on the bytes of its tables. *)
Lemma tables_ok_modifies X m m' T :
  tables_ok hhdm root m T → modifies X m m' → (∀ x, X x → ¬ table_bytes T x) →
  tables_ok hhdm root m' T.
Proof.
  intros Hok Hmod HX. constructor.
  - apply (t_root _ _ _ _ Hok).
  - intros p t i Hp Hl Hi. rewrite (load64_modifies _ _ _ _ Hmod).
    + by apply (t_child _ _ _ _ Hok).
    + intros x Hx HXx. apply (HX x HXx). exists p, t. split; [done|].
      eapply entry_in_frame; [|eassumption]; done.
  - apply (t_path _ _ _ _ Hok).
  - apply (t_parent _ _ _ _ Hok).
  - apply (t_inj _ _ _ _ Hok).
  - intros p t Hp. destruct (t_page _ _ _ _ Hok p t Hp) as (? & ? & ? & ?). eauto with mem.
Qed.

Lemma walk_modifies X m m' T idx :
  tables_ok hhdm root m T → modifies X m m' → (∀ x, X x → ¬ table_bytes T x) →
  length idx = 4%nat → Forall (λ i, 0 ≤ i < 512) idx →
  walk m' hhdm root idx = walk m hhdm root idx.
Proof.
  intros Hok Hmod HX Hlen Hidx.
  apply (walk_agree m m' T idx [] root Hok (t_root _ _ _ _ Hok)); [done..|].
  intros idx1 j idx2 u -> Hu. left. apply (load64_modifies _ _ _ _ Hmod).
  apply Forall_app in Hidx as [_ [Hj _]%Forall_cons].
  intros x Hx HXx. apply (HX x HXx). exists ([] ++ idx1), u. split; [done|].
  eapply entry_in_frame; [|eassumption]; done.
Qed.

(** The walk through a table of the tree. *)
Lemma walk_through m T p t idx j u :
  tables_ok hhdm root m T → T !! p = Some t → (length p < 3)%nat → 0 ≤ j < 512 → idx ≠ [] →
  T !! (p ++ [j]) = Some u →
  ∃ e, load64 m (entry_at t j) = Ok e ∧ has e PTE_PRESENT = true ∧ is_large e = false ∧
    u = Z.land e PTE_ADDR_MASK ∧
    walk m hhdm t (j :: idx) = (λ es, e :: es) <$> walk m hhdm u idx.
Proof.
  intros Hok Hp Hl Hj Hne Hu. destruct (t_child _ _ _ _ Hok p t j Hp Hl Hj) as (e & He & HT).
  rewrite Hu in HT. exists e. rewrite walk_cons. unfold entry_at. rewrite He.
  destruct (has e PTE_PRESENT), (is_large e); simpl in *; try done.
  injection HT as <-. split_and!; [done..|]. by destruct idx.
Qed.

(** The walk to a table of the tree, and the entries it goes through. *)
Definition on_path (m : mem) (T : gmap (list Z) Z) (p : list Z) (e : Z) : Prop :=
  ∃ q j r t, p = q ++ j :: r ∧ T !! q = Some t ∧ load64 m (entry_at t j) = Ok e ∧
    has e PTE_PRESENT = true.

Lemma walk_prefix m T p t :
  tables_ok hhdm root m T → T !! p = Some t →
  ∃ es, length es = length p ∧ Forall (on_path m T p) es ∧
    ∀ s, s ≠ [] → walk m hhdm root (p ++ s) = (λ l, es ++ l) <$> walk m hhdm t s.
Proof.
  intros Hok. revert t. induction p as [|j p IH] using rev_ind; intros t Hp.
  - exists []. split_and!; [done | by apply Forall_nil |]. intros s Hs.
    assert (t = root) as -> by (pose proof (t_root _ _ _ _ Hok); congruence).
    simpl. by destruct (walk m hhdm root s).
  - destruct (t_parent _ _ _ _ Hok _ _ _ Hp) as [u Hu].
    destruct (t_path _ _ _ _ Hok _ _ Hp) as [Hl Hr].
    rewrite length_app in Hl. simpl in Hl. apply Forall_app in Hr as [_ [Hj _]%Forall_cons].
    destruct (IH u Hu) as (es & Hes & Hpath & Hw).
    destruct (walk_through m T p u [0] j t Hok Hu) as (e & He & Hpr & Hlg & _); [lia | done..|].
    exists (es ++ [e]). split_and!.
    + rewrite !length_app. simpl. lia.
    + apply Forall_app. split.
      * eapply Forall_impl; [exact Hpath|]. intros e' (q & k & r & v & -> & Hq).
        exists q, k, (r ++ [j]), v. by rewrite <-app_assoc.
      * apply Forall_singleton. exists p, j, [], u. done.
    + intros s Hs. rewrite <-app_assoc. simpl. rewrite Hw by done.
      destruct (walk_through m T p u s j t Hok Hu) as (e' & He' & _ & _ & _ & ->); [lia | done..|].
      assert (e' = e) as -> by congruence.
      destruct (walk m hhdm t s); simpl; [|done]. by rewrite <-app_assoc.
Qed.

(** When the walk along [idx] does not end in a large page, no entry of the
    tree on the way is one. *)
Lemma walk_not_large m T idx q i r t e :
  tables_ok hhdm root m T →
  (∀ es, walk m hhdm root idx = Some es → length es = length idx) →
  idx = q ++ i :: r → r ≠ [] → T !! q = Some t → load64 m (entry_at t i) = Ok e →
  has e PTE_PRESENT = true → is_large e = false.
Proof.
  intros Hok Hw -> Hr Hq He Hpr. destruct (is_large e) eqn:Hlg; [|done].
  destruct (walk_prefix m T q t Hok Hq) as (es & Hes & _ & Hwalk).
  specialize (Hw (es ++ [e])). rewrite Hwalk, walk_cons, He, Hpr in Hw by done.
  destruct r as [|k r]; [done|]. rewrite Hlg in Hw. simpl in Hw. specialize (Hw eq_refl).
  rewrite !length_app in Hw. simpl in Hw. lia.
Qed.

(** Writing an entry of a last-level table leaves the tree and the walks to
    every other page alone. *)
Lemma leaf_write m m' T p t i :
  tables_ok hhdm root m T → T !! p = Some t → length p = 3%nat → 0 ≤ i < 512 →
  modifies (in_range (entry_at t i) 8) m m' →
  tables_ok hhdm root m' T ∧
  ∀ idx, length idx = 4%nat → Forall (λ j, 0 ≤ j < 512) idx → idx ≠ p ++ [i] →
    walk m' hhdm root idx = walk m hhdm root idx.
Proof.
  intros Hok Hp Hl Hi Hmod.
  assert (Hother : ∀ q u j, T !! q = Some u → 0 ≤ j < 512 → (q, j) ≠ (p, i) →
    load64 m' (entry_at u j) = load64 m (entry_at u j)).
  { intros q u j Hq Hj Hne. apply (load64_modifies _ _ _ _ Hmod). intros x Hx Hx'. apply Hne.
    destruct (entries_disjoint m T q p u t j i x Hok Hq Hp Hj Hi Hx Hx') as [-> ->]. done. }
  split.
  - constructor.
    + apply (t_root _ _ _ _ Hok).
    + intros q u j Hq Hlq Hj. fold (entry_at u j). rewrite (Hother q u j Hq Hj).
      * by apply (t_child _ _ _ _ Hok).
      * intros [= -> ->]. lia.
    + apply (t_path _ _ _ _ Hok).
    + apply (t_parent _ _ _ _ Hok).
    + apply (t_inj _ _ _ _ Hok).
    + intros q u Hq. destruct (t_page _ _ _ _ Hok q u Hq) as (? & ? & ? & ?). eauto with mem.
  - intros idx Hlen Hidx Hne.
    apply (walk_agree m m' T idx [] root Hok (t_root _ _ _ _ Hok)); [done..|].
    intros idx1 j idx2 u Heq Hu. simpl in Hu. left. subst idx.
    apply Forall_app in Hidx as [_ [Hj _]%Forall_cons].
    apply (Hother idx1 u j Hu Hj). intros [= -> ->]. apply Hne.
    rewrite length_app in Hlen. simpl in Hlen. destruct idx2; [done | simpl in Hlen; lia].
Qed.

(** The walk to the page of entry [i] of a last-level table. *)
Lemma walk_leaf m T p t :
  tables_ok hhdm root m T → T !! p = Some t → length p = 3%nat →
  ∃ es, length es = 3%nat ∧ Forall (on_path m T p) es ∧
    ∀ i, walk m hhdm root (p ++ [i]) =
      match load64 m (entry_at t i) with
      | Ok e => if has e PTE_PRESENT then Some (es ++ [e]) else None
      | _ => None
      end.
Proof.
  intros Hok Hp Hl. destruct (walk_prefix m T p t Hok Hp) as (es & Hes & Hpath & Hw).
  exists es. split_and!; [lia | done |]. intros i. rewrite Hw, walk_cons by done.
  destruct (load64 m (entry_at t i)) as [e|?| |]; try done.
  by destruct (has e PTE_PRESENT).
Qed.

(** ** A fresh table under an absent entry

    [m1] is [m] with the frame [r] zeroed and perhaps other bytes outside the
    tables changed; [m2] is [m1] with entry [i] of the table at [t] pointing to
    [r]. The new memory has the tree [T] extended with [r], and every walk gives
    what it gave before: through the new entry it still meets no present
    entry. *)
Section fresh_table.
Context (T : gmap (list Z) Z) (m m1 m2 : mem) (p : list Z) (t i r flags e : Z).
Context (Hok : tables_ok hhdm root m T) (Hp : T !! p = Some t) (Hlen : (length p < 3)%nat).
Context (Hi : 0 ≤ i < 512) (He : load64 m (entry_at t i) = Ok e) (Habs : has e PTE_PRESENT = false).
Context (X : Z → Prop) (Hmod1 : modifies X m m1) (HX : ∀ x, X x → ¬ table_bytes T x).
Context (Hr : 0 < r < 2 ^ 52) (Hra : r mod PAGE_SIZE = 0) (Hrh : hhdm + r + PAGE_SIZE ≤ 2 ^ 64).
Context (Hrm : mapped m1 (hhdm + r) PAGE_SIZE) (Hrz : filled m1 (hhdm + r) PAGE_SIZE 0).
Context (Hrn : ∀ q u, T !! q = Some u → u ≠ r).
Context (Hmod2 : modifies (in_range (entry_at t i) 8) m1 m2).
Context (Hfl : Z.testbit flags 0 = true) (Hfl7 : Z.testbit flags 7 = false).
Context (Hfla : ∀ k, 12 ≤ k → Z.testbit flags k = false).
Context (Hst : load64 m2 (entry_at t i) = Ok (Z.lor r flags)).

Let T' := <[p ++ [i] := r]> T.

Lemma fresh_path : T !! (p ++ [i]) = None.
Proof.
  destruct (t_child _ _ _ _ Hok p t i Hp Hlen Hi) as (e' & He' & ->).
  unfold entry_at in He. rewrite He in He'. injection He' as <-. by rewrite Habs.
Qed.

(** Entries of the old tables other than the new one are as before. *)
Lemma old_entry q u j :
  T !! q = Some u → 0 ≤ j < 512 → (q, j) ≠ (p, i) →
  load64 m2 (entry_at u j) = load64 m (entry_at u j).
Proof.
  intros Hq Hj Hne. rewrite (load64_modifies _ _ _ _ Hmod2), (load64_modifies _ _ _ _ Hmod1); [done|..].
  - intros x Hx HXx. apply (HX x HXx). exists q, u. split; [done|]. eapply entry_in_frame; [|eassumption]; done.
  - intros x Hx Hx'. apply Hne.
    destruct (entries_disjoint m T q p u t j i x Hok Hq Hp Hj Hi Hx Hx') as [-> ->]. done.
Qed.

(** Entries of the new table are zero. *)
Lemma new_table_entry j : 0 ≤ j < 512 → load64 m2 (entry_at r j) = Ok 0.
Proof.
  intros Hj. rewrite (load64_modifies _ _ _ _ Hmod2).
  - apply load_le_zero. intros x Hx. apply Hrz.
    revert Hx. unfold entry_at, in_range, PAGE_SIZE. lia.
  - intros x Hx Hx'. apply (Hrn p t Hp). eapply (frames_disjoint t r x).
    + by apply (t_page _ _ _ _ Hok p t Hp).
    + done.
    + eapply entry_in_frame; [|exact Hx']; done.
    + eapply entry_in_frame; [|exact Hx]; done.
Qed.

Lemma fresh_lookup q u :
  T' !! q = Some u ↔ (q = p ++ [i] ∧ u = r) ∨ T !! q = Some u.
Proof.
  unfold T'. destruct (decide (q = p ++ [i])) as [->|Hne].
  - rewrite lookup_insert_eq, fresh_path.
    split; [intros [= <-]; by left | by intros [[_ ->]|?]].
  - rewrite lookup_insert_ne by done. split; [by right | by intros [[? _]|?]].
Qed.

Lemma fresh_tables_ok : tables_ok hhdm root m2 T'.
Proof.
  pose proof (new_entry_bits r flags Hr Hra Hfl Hfl7 Hfla) as (Hb1 & Hb2 & Hb3). pose proof fresh_path as Hfresh.
  constructor.
  - apply fresh_lookup. right. apply (t_root _ _ _ _ Hok).
  - intros q u j [[-> ->]|Hq]%fresh_lookup Hl Hj.
    + exists 0. split; [by apply new_table_entry|]. simpl.
      unfold T'. rewrite lookup_insert_ne.
      * destruct (T !! ((p ++ [i]) ++ [j])) as [v|] eqn:Hv; [|done].
        destruct (t_parent _ _ _ _ Hok _ _ _ Hv) as [? Hv']. congruence.
      * intros Heq%(f_equal length). rewrite !length_app in Heq. simpl in Heq. lia.
    + destruct (decide ((q, j) = (p, i))) as [[= -> ->]|Hne].
      * rewrite Hp in Hq. injection Hq as <-. exists (Z.lor r flags). split; [done|].
        rewrite Hb1, Hb2. simpl. rewrite Hb3. unfold T'. by rewrite lookup_insert_eq.
      * destruct (t_child _ _ _ _ Hok q u j Hq Hl Hj) as (e' & He' & HT). exists e'.
        fold (entry_at u j). rewrite (old_entry q u j) by done. split; [done|].
        unfold T'. rewrite lookup_insert_ne; [done|].
        intros [? ?]%app_inj_tail. naive_solver.
  - intros q u [[-> ->]|Hq]%fresh_lookup; [|by apply (t_path _ _ _ _ Hok q u)].
    destruct (t_path _ _ _ _ Hok p t Hp) as [_ Hf]. split; [rewrite length_app; simpl; lia|].
    apply Forall_app. split; [done|]. by apply Forall_singleton.
  - intros q j u [[[-> ->]%app_inj_tail ->]|Hq]%fresh_lookup.
    + exists t. apply fresh_lookup. auto.
    + destruct (t_parent _ _ _ _ Hok _ _ _ Hq) as [v Hv]. exists v. apply fresh_lookup. auto.
  - intros q q' u Hq Hq'. apply fresh_lookup in Hq as [[-> ->]|Hq];
      apply fresh_lookup in Hq' as [[-> Hu]|Hq']; [done|..].
    + by destruct (Hrn q' r Hq').
    + subst. by destruct (Hrn q r Hq).
    + by apply (t_inj _ _ _ _ Hok q q' u).
  - intros q u [[-> ->]|Hq]%fresh_lookup.
    + split_and!; [lia | lia | done | lia | eauto with mem].
    + destruct (t_page _ _ _ _ Hok q u Hq) as (? & ? & ? & ?). split_and!; [lia..|].
      eauto with mem.
Qed.

Lemma fresh_walk idx :
  length idx = 4%nat → Forall (λ j, 0 ≤ j < 512) idx →
  walk m2 hhdm root idx = walk m hhdm root idx.
Proof.
  intros Hl Hidx. apply (walk_agree m m2 T idx [] root Hok (t_root _ _ _ _ Hok)); [done..|].
  intros idx1 j idx2 u Heq Hu. simpl in Hu. rewrite Heq in Hidx.
  apply Forall_app in Hidx as [_ [Hj Hidx2]%Forall_cons].
  destruct (decide ((idx1, j) = (p, i))) as [[= -> ->]|Hne]; [right|left; by apply (old_entry idx1 u j)].
  rewrite Hp in Hu. injection Hu as <-. rewrite !walk_cons, Hst, He.
  pose proof (new_entry_bits r flags Hr Hra Hfl Hfl7 Hfla) as (Hb1 & Hb2 & Hb3). rewrite Hb1, Hb2, Hb3, Habs. simpl.
  destruct idx2 as [|k idx2].
  - rewrite Heq, length_app in Hl. simpl in Hl. lia.
  - apply Forall_cons in Hidx2 as [Hk _]. by rewrite walk_cons, new_table_entry.
Qed.
End fresh_table.
End tables.
