(* ===== verification/Isr.v ===== *)
(** * Interrupt dispatch (kernel/arch/x86_64/cpu/isr.c, isr.h)

    The handler table maps a vector to the function registered for it; the
    functions the kernel registers are the constructors of [handler], and what
    each does is a parameter of the dispatcher. *)

From S2P Require Import Prelude Word.

(** ** State *)

(** [struct interrupt_frame]. *)
Export Prelude.Frame.

(** The functions passed to [interrupt_register_handler] in the kernel. *)
Inductive handler : Set :=
  | h_page_fault_isr
  | h_timer_tick_handler
  | h_keyboard_isr.

#[export] Instance handler_eq_dec : EqDecision handler.
Proof. solve_decision. Defined.

(** [handlers[256]]: a vector not in the map is a [NULL] entry. *)
Abbreviation handler_table := (gmap Z handler).

(** ** Operations *)

Definition interrupt_register_handler (handlers : handler_table) (vector : Z) (h : handler)
  : handler_table :=
  <[u8 vector := h]> handlers.

(** The dispatcher over a state [S]: [run] calls a registered handler,
    [eoi] is [lapic_send_eoi], a vector below 32 without a handler
    is a call of [panic_exception], which never returns. The index
    [handlers[frame->vector]] is only defined for vectors below 256. *)
Definition isr_dispatch {S} (run : handler → interrupt_frame → S → res S) (eoi : S → res S)
    (handlers : handler_table) (frame : interrupt_frame) (s : S) : res S :=
  if negb (vector frame <? 256) then UB
  else
    let handler := handlers !! vector frame in
    if vector frame <? 32 then
      match handler with
      | Some h => run h frame s
      | None => Panic (panic_frame frame)
      end
    else
      s1 ← eoi s;
      match handler with
      | Some h => run h frame s1
      | None => Ok s1
      end.
