(* ===== verification/Vmm.v ===== *)
(** * Virtual memory manager (kernel/arch/x86_64/mm/vmm.c)

    The operations run on a [world]: the memory, the frame allocator behind its
    contract (FrameAlloc.v), the static variables of vmm.c, the CR3 register, the log
    of [invlpg] instructions (newest first) and the interrupt handler table. [NULL] is 0. *)

From S2P Require Import Prelude Word Mem FrameAlloc Paging Isr.

(** ** State *)

Definition VMM_DYNAMIC_VBASE : Z := 0xffffffffb0000000.
Definition VMM_MMIO_VBASE : Z := 0xffffffffc0000000.
Definition MAX_LAZY_REGIONS : Z := 8.

Record lazy_region := mk_lazy_region {
  start : Z;
  end_ : Z;
  flags : Z;
  used : bool;
}.

Record vmm := mk_vmm {
  hhdm_offset : Z;
  dynamic_next_vaddr : Z;
  mmio_next_vaddr : Z;
  lazy_regions : list lazy_region;
}.

Definition vmm_bss : vmm :=
  mk_vmm 0 VMM_DYNAMIC_VBASE VMM_MMIO_VBASE
    (replicate (Z.to_nat MAX_LAZY_REGIONS) (mk_lazy_region 0 0 0 false)).

Record world (A : Type) := mk_world {
  w_mem : mem;
  w_alloc : A;
  w_vmm : vmm;
  w_cr3 : Z;
  w_invlpg : list Z;
  w_handlers : handler_table;
}.

Arguments mk_world {A}.
Arguments w_mem {A}.
Arguments w_alloc {A}.
Arguments w_vmm {A}.
Arguments w_cr3 {A}.
Arguments w_invlpg {A}.
Arguments w_handlers {A}.

Section operations.
Context {A : Type} `{FrameAllocator A}.

Implicit Types w : world A.

Definition set_mem w (m : mem) : world A :=
  mk_world m (w_alloc w) (w_vmm w) (w_cr3 w) (w_invlpg w) (w_handlers w).
Definition set_alloc w (a : A) (m : mem) : world A :=
  mk_world m a (w_vmm w) (w_cr3 w) (w_invlpg w) (w_handlers w).
Definition set_vmm w (v : vmm) : world A :=
  mk_world (w_mem w) (w_alloc w) v (w_cr3 w) (w_invlpg w) (w_handlers w).
Definition invlpg w (virt : Z) : world A :=
  mk_world (w_mem w) (w_alloc w) (w_vmm w) (w_cr3 w) (virt :: w_invlpg w) (w_handlers w).

(** ** Calls of the allocator *)

Definition pmm_alloc w : res (Z * world A) :=
  '(r, a, m) ← alloc_frame (w_alloc w) (w_mem w);
  Ok (r, set_alloc w a m).

Definition pmm_free w (phys : Z) : res (world A) :=
  '(a, m) ← free_frame (w_alloc w) (w_mem w) phys;
  Ok (set_alloc w a m).

(** ** Page tables *)

Definition phys_to_virt_table w (phys : Z) : Z := u64 (phys + hhdm_offset (w_vmm w)).

Definition current_pml4 w : Z := phys_to_virt_table w (Z.land (w_cr3 w) PTE_ADDR_MASK).

(** [table[index]] of a [uint64_t *table] *)
Definition read_entry w (table index : Z) : res Z := load64 (w_mem w) (table + 8 * index).

Definition write_entry w (table index value : Z) : res (world A) :=
  m ← store64 (w_mem w) (table + 8 * index) value;
  Ok (set_mem w m).

Definition ensure_next_level w (table index : Z) : res (Z * world A) :=
  e ← read_entry w table index;
  if negb (has e PTE_PRESENT) then
    '(new_table_phys, w1) ← pmm_alloc w;
    if new_table_phys =? 0 then Ok (0, w1)
    else
      w2 ← write_entry w1 table index
             (Z.lor (Z.lor (Z.lor new_table_phys PTE_PRESENT) PTE_WRITABLE) PTE_USER);
      e2 ← read_entry w2 table index;
      Ok (phys_to_virt_table w2 (Z.land e2 PTE_ADDR_MASK), w2)
  else Ok (phys_to_virt_table w (Z.land e PTE_ADDR_MASK), w).

Definition vmm_map w (virt phys flags : Z) : res (bool * world A) :=
  let '(pml4_i, pdpt_i, pd_i, pt_i) := page_table_indices virt in
  '(pdpt, w1) ← ensure_next_level w (current_pml4 w) pml4_i;
  '(pd, w2) ← (if negb (pdpt =? 0) then ensure_next_level w1 pdpt pdpt_i else Ok (0, w1));
  '(pt, w3) ← (if negb (pd =? 0) then ensure_next_level w2 pd pd_i else Ok (0, w2));
  if pt =? 0 then Ok (false, w3)
  else
    w4 ← write_entry w3 pt pt_i (Z.lor (Z.land phys PTE_ADDR_MASK) (translate_flags flags));
    Ok (true, invlpg w4 virt).

Definition vmm_unmap w (virt : Z) : res (world A) :=
  let '(pml4_i, pdpt_i, pd_i, pt_i) := page_table_indices virt in
  let pml4_table := current_pml4 w in
  e4 ← read_entry w pml4_table pml4_i;
  if negb (has e4 PTE_PRESENT) then Ok w
  else
    let pdpt := phys_to_virt_table w (Z.land e4 PTE_ADDR_MASK) in
    e3 ← read_entry w pdpt pdpt_i;
    if negb (has e3 PTE_PRESENT) then Ok w
    else
      let pd := phys_to_virt_table w (Z.land e3 PTE_ADDR_MASK) in
      e2 ← read_entry w pd pd_i;
      if negb (has e2 PTE_PRESENT) then Ok w
      else
        let pt := phys_to_virt_table w (Z.land e2 PTE_ADDR_MASK) in
        w1 ← write_entry w pt pt_i 0;
        Ok (invlpg w1 virt).

(** ** Lazy regions *)

Definition set_lazy_regions (v : vmm) (l : list lazy_region) : vmm :=
  mk_vmm (hhdm_offset v) (dynamic_next_vaddr v) (mmio_next_vaddr v) l.

(** The first unused slot of the table gets the region. *)
Fixpoint register_in (l : list lazy_region) (r : lazy_region) : option (list lazy_region) :=
  match l with
  | [] => None
  | s :: l => if negb (used s) then Some (r :: l) else (λ l, s :: l) <$> register_in l r
  end.

Definition vmm_register_lazy_region w (start end_ flags : Z) : bool * world A :=
  match register_in (lazy_regions (w_vmm w)) (mk_lazy_region start end_ flags true) with
  | Some l => (true, set_vmm w (set_lazy_regions (w_vmm w) l))
  | None => (false, w)
  end.

Definition in_lazy_region (page : Z) (r : lazy_region) : bool :=
  used r && (start r <=? page) && (page <? end_ r).

Definition vmm_handle_page_fault w (fault_addr error_code : Z) : res (bool * world A) :=
  if has error_code 1 then Ok (false, w)
  else
    let page := align_down fault_addr PAGE_SIZE in
    match List.find (in_lazy_region page) (lazy_regions (w_vmm w)) with
    | Some r =>
        '(frame, w1) ← pmm_alloc w;
        if frame =? 0 then Ok (false, w1)
        else vmm_map w1 page frame (flags r)
    | None => Ok (false, w)
    end.

(** The page-fault handler: an unresolved fault is a panic on the frame. *)
Definition page_fault_isr w (cr2 : Z) (frame : interrupt_frame) : res (world A) :=
  '(ok, w1) ← vmm_handle_page_fault w cr2 (error_code frame);
  if negb ok then Panic (panic_frame frame) else Ok w1.

Definition vmm_init w (hhdm : res Z) : res (world A) :=
  h ← hhdm;
  let v := w_vmm w in
  Ok (mk_world (w_mem w) (w_alloc w)
        (mk_vmm h (dynamic_next_vaddr v) (mmio_next_vaddr v) (lazy_regions v))
        (w_cr3 w) (w_invlpg w)
        (interrupt_register_handler (w_handlers w) 14 h_page_fault_isr)).

(** ** Bump allocation of virtual ranges *)

(** The body of the loop of [vmm_alloc_guarded]. *)
Definition guarded_body (region_start flags i : Z) w : res (world A + world A) :=
  '(frame, w1) ← pmm_alloc w;
  if frame =? 0 then Ok (inr w1)
  else
    '(ok, w2) ← vmm_map w1 (u64 (region_start + u64 (i * PAGE_SIZE))) frame flags;
    if negb ok then w3 ← pmm_free w2 frame; Ok (inr w3)
    else Ok (inl w2).

Definition vmm_alloc_guarded w (page_count flags : Z) : res (Z * world A) :=
  let v := w_vmm w in
  let region_start := u64 (dynamic_next_vaddr v + PAGE_SIZE) in
  let region_end := u64 (region_start + u64 (page_count * PAGE_SIZE)) in
  let w0 := set_vmm w (mk_vmm (hhdm_offset v) (u64 (region_end + PAGE_SIZE))
                         (mmio_next_vaddr v) (lazy_regions v)) in
  o ← for_break 0 page_count (guarded_body region_start flags) w0;
  match o with
  | inl w' => Ok (region_start, w')
  | inr w' => Ok (0, w')
  end.

Definition vmm_map_mmio w (phys_addr : Z) : res (Z * world A) :=
  let v := w_vmm w in
  let virt := mmio_next_vaddr v in
  let w0 := set_vmm w (mk_vmm (hhdm_offset v) (dynamic_next_vaddr v)
                         (u64 (virt + PAGE_SIZE)) (lazy_regions v)) in
  '(ok, w1) ← vmm_map w0 virt phys_addr
                (Z.lor (Z.lor VMM_WRITABLE VMM_NO_CACHE) VMM_NO_EXECUTE);
  if negb ok then Panic (panicf "vmm_map_mmio: failed to map phys 0x%lx" [PNum phys_addr]) else Ok (virt, w1).

(** What every allocation keeps of the allocator's state, these operations
    keep. *)
Section allocations.
Context (P : A → Prop) (HP : ∀ a m r a' m', alloc_frame a m = Ok (r, a', m') → P a → P a').

Lemma pmm_alloc_keeps w r w' : pmm_alloc w = Ok (r, w') → P (w_alloc w) → P (w_alloc w').
Proof using HP.
  unfold pmm_alloc. intros E Hw. destruct (alloc_frame (w_alloc w) (w_mem w)) as [[[r0 a] m]| | |] eqn:Ha; try discriminate.
  rsimpl. injection E as _ <-. by eapply (HP _ _ _ _ _ Ha).
Qed.

Lemma write_entry_keeps w t i v w' : write_entry w t i v = Ok w' → w_alloc w' = w_alloc w.
Proof using. unfold write_entry. destruct (store64 _ _ v); try discriminate. rsimpl. by intros [= <-]. Qed.

Lemma ensure_keeps w t i r w' : ensure_next_level w t i = Ok (r, w') → P (w_alloc w) → P (w_alloc w').
Proof using HP.
  unfold ensure_next_level. destruct (read_entry w t i) as [e| | |]; try discriminate. rsimpl.
  destruct (negb _); [|by intros [= _ <-]]. destruct (pmm_alloc w) as [[u w1]| | |] eqn:Ha; try discriminate. rsimpl.
  intros E Hw. pose proof (pmm_alloc_keeps _ _ _ Ha Hw) as H1. destruct (u =? 0); [by injection E as _ <-|].
  destruct (write_entry w1 t i _) as [w2| | |] eqn:Hw2; try discriminate. rsimpl.
  destruct (read_entry w2 t i); try discriminate. rsimpl. injection E as _ <-. by rewrite (write_entry_keeps _ _ _ _ _ Hw2).
Qed.

Lemma vmm_map_keeps w virt phys flags ok w' : vmm_map w virt phys flags = Ok (ok, w') → P (w_alloc w) → P (w_alloc w').
Proof using HP.
  unfold vmm_map. destruct (page_table_indices virt) as [[[i4 i3] i2] i1]. intros E Hw.
  destruct (ensure_next_level w _ i4) as [[r1 w1]| | |] eqn:E1; try discriminate. rsimpl.
  pose proof (ensure_keeps _ _ _ _ _ E1 Hw) as H1.
  destruct (if negb (r1 =? 0) then _ else _) as [[r2 w2]| | |] eqn:E2; try discriminate. rsimpl.
  assert (H2 : P (w_alloc w2)) by (destruct (negb (r1 =? 0)); [by eapply ensure_keeps | by injection E2 as _ <-]).
  destruct (if negb (r2 =? 0) then _ else _) as [[r3 w3]| | |] eqn:E3; try discriminate. rsimpl.
  assert (H3 : P (w_alloc w3)) by (destruct (negb (r2 =? 0)); [by eapply ensure_keeps | by injection E3 as _ <-]).
  destruct (r3 =? 0); [by injection E as _ <-|].
  destruct (write_entry w3 r3 i1 _) as [w4| | |] eqn:E4; try discriminate. rsimpl. injection E as _ <-. simpl.
  by rewrite (write_entry_keeps _ _ _ _ _ E4).
Qed.

Lemma page_fault_keeps w cr2 frame w' : page_fault_isr w cr2 frame = Ok w' → P (w_alloc w) → P (w_alloc w').
Proof using HP.
  unfold page_fault_isr, vmm_handle_page_fault. intros E Hw. destruct (has (error_code frame) 1); [discriminate E|].
  destruct (List.find _ _) as [r|]; [|discriminate E].
  destruct (pmm_alloc w) as [[f w1]| | |] eqn:Ha; try discriminate. rsimpl. pose proof (pmm_alloc_keeps _ _ _ Ha Hw) as H1.
  destruct (f =? 0); [discriminate E|]. destruct (vmm_map w1 _ f _) as [[ok w2]| | |] eqn:Hm; try discriminate. rsimpl.
  destruct ok; [|discriminate E]. injection E as <-. by eapply vmm_map_keeps.
Qed.
End allocations.
End operations.

(** ** Invariant

    [T] is the tree of page tables under CR3; its tables are not available
    frames and do not overlap the allocator's own bytes. *)

Section invariant.
Context {A : Type} `{FrameAllocator A}.

Implicit Types (w : world A) (T : gmap (list Z) Z).

Definition w_hhdm w : Z := fa_hhdm (w_alloc w).
Definition w_root w : Z := Z.land (w_cr3 w) PTE_ADDR_MASK.
Definition w_avail w : gset Z := fa_avail (w_alloc w) (w_mem w).

(** The entries the processor goes through to translate [virt]. *)
Definition wwalk w (virt : Z) : option (list Z) :=
  walk (w_mem w) (w_hhdm w) (w_root w) (indices virt).

Definition entry w (t i : Z) : res Z := load64 (w_mem w) (entry_at (w_hhdm w) t i).

(** The entry [ensure_next_level] writes for a new table at [r]. *)
Definition table_entry (r : Z) : Z := Z.lor r (Z.lor (Z.lor PTE_PRESENT PTE_WRITABLE) PTE_USER).

Record vmm_inv w T : Prop := {
  vi_alloc : fa_inv (w_alloc w) (w_mem w);
  vi_hhdm : hhdm_offset (w_vmm w) = w_hhdm w;
  vi_nonneg : 0 ≤ w_hhdm w;
  vi_tables : tables_ok (w_hhdm w) (w_root w) (w_mem w) T;
  vi_own p t : T !! p = Some t →
    t ∉ w_avail w ∧ ∀ x, frame_bytes (w_hhdm w) t x → ¬ fa_private (w_alloc w) x;
}.

(** The bytes page-table operations may change: the tables, the allocator's
    own, and the frames it may hand out. *)
Definition vmm_bytes w T (x : Z) : Prop :=
  fa_private (w_alloc w) x ∨ (∃ r, r ∈ w_avail w ∧ frame_bytes (w_hhdm w) r x) ∨
  table_bytes (w_hhdm w) T x.

(** The state after page-table operations that add tables but no mapping. *)
Record extends w T w' T' : Prop := {
  xt_inv : vmm_inv w' T';
  xt_tree : T ⊆ T';
  xt_vmm : w_vmm w' = w_vmm w;
  xt_cr3 : w_cr3 w' = w_cr3 w;
  xt_handlers : w_handlers w' = w_handlers w;
  xt_hhdm : w_hhdm w' = w_hhdm w;
  xt_avail : w_avail w' ⊆ w_avail w;
  xt_managed q : fa_managed (w_alloc w') (w_mem w') q ↔ fa_managed (w_alloc w) (w_mem w) q;
  xt_bytes x : vmm_bytes w' T' x → vmm_bytes w T x;
  xt_mem : modifies (vmm_bytes w T) (w_mem w) (w_mem w');
  xt_walk virt : wwalk w' virt = wwalk w virt;
  xt_entry q t i e : T' !! q = Some t → 0 ≤ i < 512 → entry w' t i = Ok e →
    has e PTE_PRESENT = true →
    (T !! q = Some t ∧ entry w t i = Ok e) ∨ (∃ r, (length q < 3)%nat ∧ 0 < r < 2 ^ 52 ∧ r mod PAGE_SIZE = 0 ∧ e = table_entry r);
}.

Lemma extends_refl w T : vmm_inv w T → extends w T w T.
Proof. intros Hinv. constructor; auto; reflexivity. Qed.

Lemma extends_trans w T w' T' w'' T'' :
  extends w T w' T' → extends w' T' w'' T'' → extends w T w'' T''.
Proof.
  intros H1 H2. destruct H1 as [Hi1 Ht1 Hv1 Hc1 Hd1 Hh1 Ha1 Hm1 Hb1 Hx1 Hw1 He1].
  destruct H2 as [Hi2 Ht2 Hv2 Hc2 Hd2 Hh2 Ha2 Hm2 Hb2 Hx2 Hw2 He2].
  constructor; [done | by etransitivity | congruence | congruence | congruence | congruence
    | set_solver | | by auto | | congruence |].
  - intros q. by rewrite Hm2.
  - etransitivity; [exact Hx1 | by eapply modifies_mono].
  - intros q t i e Hq Hi He Hpr. destruct (He2 q t i e Hq Hi He Hpr) as [[Hq' He']|Hr]; [|by right].
    by apply He1.
Qed.

Lemma tables_frame w T p t x : vmm_inv w T → T !! p = Some t →
  frame_bytes (w_hhdm w) t x → ¬ fa_private (w_alloc w) x.
Proof. intros Hinv Hp. by apply (vi_own _ _ Hinv p t Hp). Qed.

(** The direct-map address of a table. *)
Lemma table_virt w T p t :
  vmm_inv w T → T !! p = Some t → phys_to_virt_table w t = w_hhdm w + t ∧ w_hhdm w + t ≠ 0.
Proof.
  intros Hinv Hp. destruct (t_page _ _ _ _ (vi_tables _ _ Hinv) p t Hp) as (Ht & _ & Hb & _).
  unfold phys_to_virt_table. rewrite (vi_hhdm _ _ Hinv). pose proof (vi_nonneg _ _ Hinv).
  rewrite u64_small by (unfold PAGE_SIZE in *; lia). lia.
Qed.

(** ** The allocator, seen from the world *)

(** A frame taken from the allocator changes no table. *)
Lemma world_alloc_spec w T :
  vmm_inv w T →
  ∃ r w', pmm_alloc w = Ok (r, w') ∧
    ((w_avail w = ∅ ∧ r = 0 ∧ w' = w) ∨
     (r ∈ w_avail w ∧ w_avail w' = w_avail w ∖ {[r]} ∧ extends w T w' T ∧
      w_invlpg w' = w_invlpg w ∧
      filled (w_mem w') (w_hhdm w + r) PAGE_SIZE 0 ∧
      modifies (λ x, fa_private (w_alloc w) x ∨ frame_bytes (w_hhdm w) r x) (w_mem w) (w_mem w') ∧
      (∀ x, fa_private (w_alloc w) x ∨ frame_bytes (w_hhdm w) r x → ¬ table_bytes (w_hhdm w) T x) ∧
      fa_private (w_alloc w') = fa_private (w_alloc w))).
Proof.
  intros Hinv. pose proof Hinv as [Hal Hh Hnn Htab Hown]. unfold pmm_alloc.
  destruct (fa_alloc_law _ _ Hal) as (r & a & m & -> & Hr). rsimpl.
  exists r, (set_alloc w a m). split; [done|].
  destruct Hr as [(He & -> & -> & ->)|(Hin & Hal' & Hav & Hpriv & Hhd & Hman & Hfill & Hmod)].
  - left. split_and!; [done | done |]. by destruct w.
  - right. destruct (fa_managed_law _ _ _ Hal (fa_avail_managed _ _ _ Hal Hin))
      as (Hr & Hra & _ & _ & _ & Hrp).
    assert (Hdis : ∀ x, fa_private (w_alloc w) x ∨ frame_bytes (w_hhdm w) r x →
      ¬ table_bytes (w_hhdm w) T x).
    { intros x Hx (p & t & Hp & Ht). destruct (Hown p t Hp) as [Hta Htp].
      destruct Hx as [Hx|Hx]; [by eapply Htp|].
      assert (t = r) as ->; [|done].
      eapply frames_disjoint; [|exact Hra|exact Ht|exact Hx].
      by apply (t_page _ _ _ _ Htab p t Hp). }
    assert (Htab' : tables_ok (w_hhdm w) (w_root w) m T) by by eapply tables_ok_modifies.
    split_and!; [done | done | | done | done | done | done | done].
    assert (Hhw : w_hhdm (set_alloc w a m) = w_hhdm w) by done.
    constructor; try done.
    + constructor; rewrite ?Hhw; try done.
      intros p t Hp. destruct (Hown p t Hp) as [Hta Htp]. split.
      * unfold w_avail. simpl. rewrite Hav. set_solver.
      * simpl. by rewrite Hpriv.
    + unfold w_avail. simpl. rewrite Hav. set_solver.
    + intros x. unfold vmm_bytes, w_avail. rewrite Hhw. simpl. rewrite Hpriv, Hav.
      intros [?|[(q & Hq & ?)|?]]; [by left | right; left | by right; right].
      exists q. split; [set_solver | done].
    + eapply modifies_mono; [|exact Hmod]. intros x [?|?]; [by left | right; left; by exists r].
    + intros virt. unfold wwalk. rewrite Hhw.
      apply (walk_modifies _ _ _ _ _ T _ Htab Hmod Hdis (indices_length _) (indices_range _)).
    + intros q t i e Hq Hi He _. left. split; [done|]. unfold entry in *. rewrite Hhw in He.
      rewrite <-He. symmetry. apply (load64_modifies _ _ _ _ Hmod). intros x Hx HXx.
      apply (Hdis x HXx). exists q, t. split; [done|]. by eapply entry_in_frame.
Qed.

Lemma size_take_one (X : gset Z) r : (size X ≤ size (X ∖ {[r]}) + 1)%nat.
Proof.
  assert (Hsub : X ⊆ {[r]} ∪ X ∖ {[r]}).
  { intros x Hx. destruct (decide (x = r)); set_solver. }
  apply subseteq_size in Hsub. rewrite size_union, size_singleton in Hsub by set_solver. lia.
Qed.

Lemma size_take_exact (X : gset Z) r : r ∈ X → size X = S (size (X ∖ {[r]})).
Proof using.
  intros Hr. rewrite (union_difference_singleton_L r X Hr) at 1. rewrite size_union by set_solver.
  by rewrite size_singleton.
Qed.

(** ** ensure_next_level *)

Lemma table_entry_bits r :
  0 < r < 2 ^ 52 → r mod PAGE_SIZE = 0 →
  Z.lor (Z.lor (Z.lor r PTE_PRESENT) PTE_WRITABLE) PTE_USER = table_entry r ∧
  0 ≤ table_entry r < 2 ^ 64 ∧ has (table_entry r) PTE_PRESENT = true ∧
  is_large (table_entry r) = false ∧ Z.land (table_entry r) PTE_ADDR_MASK = r ∧
  Z.testbit (table_entry r) 1 = true ∧ Z.testbit (table_entry r) 2 = true ∧
  Z.testbit (table_entry r) 63 = false.
Proof.
  intros Hr Hra. change PTE_PRESENT with 1. change PTE_WRITABLE with 2. change PTE_USER with 4.
  unfold table_entry. change PTE_PRESENT with 1. change PTE_WRITABLE with 2. change PTE_USER with 4.
  rewrite !Z.lor_assoc. split; [done|].
  assert (Hlow : ∀ k, 0 ≤ k < 12 → Z.testbit r k = false).
  { intros k Hk. rewrite <-(testbit_mod_low r 12) by lia.
    change (2 ^ 12) with PAGE_SIZE. by rewrite Hra, Z.bits_0. }
  rewrite <-!Z.lor_assoc. change (Z.lor 1 (Z.lor 2 4)) with 7.
  destruct (new_entry_bits r 7 Hr Hra) as (Hb1 & Hb2 & Hb3); [done | done | |].
  { intros k Hk. apply (testbit_above 7 12); lia. }
  split_and!; try done.
  - apply Z.lor_nonneg. lia.
  - apply Z.log2_lt_pow2; [|rewrite Z.log2_lor by lia].
    + assert (Hn : Z.lor r 7 ≠ 0) by (intros [? ?]%Z.lor_eq_0_iff; lia).
      assert (0 ≤ Z.lor r 7) by (apply Z.lor_nonneg; lia). lia.
    + apply Z.max_lub_lt; [|done]. apply (Z.lt_le_trans _ 52); [|lia]. apply Z.log2_lt_pow2; lia.
  - by rewrite Z.lor_spec, Hlow by lia.
  - by rewrite Z.lor_spec, Hlow by lia.
  - by rewrite Z.lor_spec, (testbit_above r 52) by lia.
Qed.
(** Writing an entry of a table does not touch the allocator. *)
Lemma write_entry_spec w T p t i v :
  vmm_inv w T → T !! p = Some t → 0 ≤ i < 512 → 0 ≤ v < 2 ^ 64 →
  ∃ m', write_entry w (w_hhdm w + t) i v = Ok (set_mem w m') ∧
    modifies (in_range (entry_at (w_hhdm w) t i) 8) (w_mem w) m' ∧
    load64 m' (entry_at (w_hhdm w) t i) = Ok v ∧
    fa_inv (w_alloc w) m' ∧ fa_avail (w_alloc w) m' = w_avail w ∧
    (∀ q, fa_managed (w_alloc w) m' q ↔ fa_managed (w_alloc w) (w_mem w) q).
Proof.
  intros Hinv Hp Hi Hv. unfold write_entry.
  destruct (store64_spec (w_mem w) (entry_at (w_hhdm w) t i) v) as (m' & Hst & Hmod & Hld);
    [eapply entry_mapped; [apply (vi_tables _ _ Hinv) | done..] | done |].
  exists m'. change (w_hhdm w + t + 8 * i) with (entry_at (w_hhdm w) t i). rewrite Hst.
  destruct (fa_frame_law _ _ _ _ (vi_alloc _ _ Hinv) Hmod) as (? & ? & ?); [|done].
  intros x Hx. eapply tables_frame; [done..|]. by eapply entry_in_frame.
Qed.

Lemma read_entry_eq w t i : read_entry w (w_hhdm w + t) i = entry w t i.
Proof. done. Qed.

(** A table entry can be read. *)
Lemma entry_ok w T p t i :
  vmm_inv w T → T !! p = Some t → 0 ≤ i < 512 → ∃ e, entry w t i = Ok e.
Proof.
  intros Hinv Hp Hi. apply load64_mapped. eapply entry_mapped; [apply (vi_tables _ _ Hinv)|done..].
Qed.

(** The two entries of [ensure_next_level] that matter: a present one leads to
    a table of the tree, an absent one gets a fresh table. *)
Lemma ensure_present w T p t i e :
  vmm_inv w T → T !! p = Some t → (length p < 3)%nat → 0 ≤ i < 512 →
  entry w t i = Ok e → has e PTE_PRESENT = true → is_large e = false →
  ensure_next_level w (w_hhdm w + t) i = Ok (w_hhdm w + Z.land e PTE_ADDR_MASK, w) ∧
  T !! (p ++ [i]) = Some (Z.land e PTE_ADDR_MASK).
Proof.
  intros Hinv Hp Hl Hi He Hpr Hlg.
  destruct (t_child _ _ _ _ (vi_tables _ _ Hinv) p t i Hp Hl Hi) as (e' & He' & HT).
  assert (e' = e) as -> by (unfold entry, entry_at in He; congruence).
  rewrite Hpr, Hlg in HT. simpl in HT. split; [|done].
  unfold ensure_next_level. rewrite read_entry_eq, He. rsimpl. rewrite Hpr. simpl.
  by destruct (table_virt w T _ _ Hinv HT) as [-> _].
Qed.

(** Linking the new table [r] into entry [i] of the table at [p]: [w1] is the
    world after the frame was allocated and filled, [m2] the memory after the
    entry was written. *)
Section fresh_table.
Context (w w1 : world A) (m2 : mem) (T : gmap (list Z) Z) (p : list Z) (t i e r : Z).
Context (Hinv : vmm_inv w T) (Hp : T !! p = Some t) (Hl : (length p < 3)%nat) (Hi : 0 ≤ i < 512)
  (He : entry w t i = Ok e) (Habs : has e PTE_PRESENT = false) (Hin : r ∈ w_avail w)
  (Hav : w_avail w1 = w_avail w ∖ {[r]}) (Hex1 : extends w T w1 T)
  (Hfill : filled (w_mem w1) (w_hhdm w + r) PAGE_SIZE 0)
  (Hmod1 : modifies (λ x, fa_private (w_alloc w) x ∨ frame_bytes (w_hhdm w) r x) (w_mem w) (w_mem w1))
  (Hdis : ∀ x, fa_private (w_alloc w) x ∨ frame_bytes (w_hhdm w) r x → ¬ table_bytes (w_hhdm w) T x)
  (Hpriv : ∀ x, fa_private (w_alloc w1) x → fa_private (w_alloc w) x)
  (Hmod2 : modifies (in_range (entry_at (w_hhdm w) t i) 8) (w_mem w1) m2)
  (Hld : load64 m2 (entry_at (w_hhdm w) t i) = Ok (table_entry r))
  (Hal2 : fa_inv (w_alloc w1) m2) (Hav2 : fa_avail (w_alloc w1) m2 = w_avail w1)
  (Hman2 : ∀ q, fa_managed (w_alloc w1) m2 q ↔ fa_managed (w_alloc w1) (w_mem w1) q).
Let T' := <[p ++ [i] := r]> T.
Let w2 := set_mem w1 m2.

Lemma fresh_frame : 0 < r < 2 ^ 52 ∧ r mod PAGE_SIZE = 0 ∧ w_hhdm w + r + PAGE_SIZE ≤ 2 ^ 64 ∧
  mapped (w_mem w) (w_hhdm w + r) PAGE_SIZE ∧ ∀ x, frame_bytes (w_hhdm w) r x → ¬ fa_private (w_alloc w) x.
Proof.
  destruct (fa_managed_law _ _ _ (vi_alloc _ _ Hinv) (fa_avail_managed _ _ _ (vi_alloc _ _ Hinv) Hin)) as (H1 & H2 & _ & H3 & H4 & H5).
  exact (conj H1 (conj H2 (conj H3 (conj H4 H5)))).
Qed.

Lemma fresh_entry q u : T' !! q = Some u ↔ (q = p ++ [i] ∧ u = r) ∨ T !! q = Some u.
Proof. by apply (fresh_lookup (w_hhdm w) (w_root w) T (w_mem w) p t i r e (vi_tables _ _ Hinv) Hp Hl Hi He Habs). Qed.

Lemma fresh_new q u : T !! q = Some u → u ≠ r.
Proof. intros Hq ->. by destruct (vi_own _ _ Hinv q r Hq). Qed.

Lemma fresh_mapped : mapped (w_mem w1) (w_hhdm w + r) PAGE_SIZE.
Proof. destruct fresh_frame as (_ & _ & _ & Hm & _). eauto with mem. Qed.

Lemma table_flags k : 12 ≤ k → Z.testbit 7 k = false.
Proof. intros Hk. apply (testbit_above 7 12); lia. Qed.

Lemma fresh_inv : vmm_inv w2 T'.
Proof.
  destruct fresh_frame as (Hr & Hra & Hrh & _ & Hrp). pose proof fresh_new as Hrn. pose proof fresh_mapped as Hrm1.
  pose proof table_flags as Hfl. pose proof Hinv as [_ _ Hnn Htab Hown].
  assert (Hh2 : w_hhdm w2 = w_hhdm w) by exact (xt_hhdm _ _ _ _ Hex1).
  constructor; rewrite ?Hh2; [done | | done | |].
  - simpl. rewrite (xt_vmm _ _ _ _ Hex1). apply Hinv.
  - assert (Hr2 : w_root w2 = w_root w) by (unfold w_root; simpl; by rewrite (xt_cr3 _ _ _ _ Hex1)). rewrite Hr2.
    by apply (fresh_tables_ok (w_hhdm w) (w_root w) T (w_mem w) (w_mem w1) m2 p t i r 7 e Htab Hp Hl Hi He Habs _ Hmod1 Hdis).
  - assert (Hav2' : w_avail w2 = w_avail w ∖ {[r]}) by (rewrite <-Hav; exact Hav2). rewrite Hav2'.
    intros q u [[-> ->]|Hq]%fresh_entry.
    + split; [set_solver|]. intros x Hx Hpx. by apply (Hrp x Hx), Hpriv.
    + destruct (Hown q u Hq) as [Hu Hux]. split; [set_solver|]. intros x Hx Hpx. by apply (Hux x Hx), Hpriv.
Qed.

Lemma fresh_bytes x : vmm_bytes w2 T' x → vmm_bytes w T x.
Proof.
  unfold vmm_bytes. change (w_avail w2) with (fa_avail (w_alloc w1) m2).
  rewrite Hav2, Hav. change (w_hhdm w2) with (w_hhdm w1). rewrite (xt_hhdm _ _ _ _ Hex1).
  intros [?|[(q & Hq & ?)|(q & u & [[-> ->]|Hq]%fresh_entry & Hx)]].
  - left. by apply Hpriv.
  - right. left. exists q. split; [set_solver | done].
  - right. left. by exists r.
  - right. right. by exists q, u.
Qed.

Lemma fresh_present q u j e' :
  T' !! q = Some u → 0 ≤ j < 512 → entry w2 u j = Ok e' → has e' PTE_PRESENT = true →
  (T !! q = Some u ∧ entry w u j = Ok e') ∨ (∃ r, (length q < 3)%nat ∧ 0 < r < 2 ^ 52 ∧ r mod PAGE_SIZE = 0 ∧ e' = table_entry r).
Proof.
  intros Hq Hj He' Hpr. destruct fresh_frame as (Hr & Hra & Hrh & _ & Hrp). pose proof fresh_new as Hrn. pose proof fresh_mapped as Hrm1.
  pose proof table_flags as Hfl. pose proof (vi_tables _ _ Hinv) as Htab. pose proof (vi_nonneg _ _ Hinv) as Hnn.
  unfold entry in He'. change (w_hhdm w2) with (w_hhdm w1) in He'. rewrite (xt_hhdm _ _ _ _ Hex1) in He'. simpl in He'.
  apply fresh_entry in Hq as [[-> ->]|Hq].
  - rewrite (new_table_entry (w_hhdm w) (w_root w) T (w_mem w) (w_mem w1) m2 p t i r) in He' by done.
    by injection He' as <-.
  - destruct (decide ((q, j) = (p, i))) as [[= -> ->]|Hne].
    + right. exists r. split_and!; [done | lia | lia | done |]. congruence.
    + left. split; [done|]. unfold entry. rewrite <-He'. symmetry.
      by eapply (old_entry (w_hhdm w) (w_root w) T (w_mem w) (w_mem w1) m2 p t i).
Qed.

Lemma fresh_table_extends : extends w T w2 T'.
Proof.
  destruct fresh_frame as (Hr & Hra & Hrh & _ & Hrp). pose proof fresh_new as Hrn. pose proof fresh_mapped as Hrm1.
  pose proof table_flags as Hfl. pose proof (vi_tables _ _ Hinv) as Htab. pose proof (vi_nonneg _ _ Hinv) as Hnn.
  assert (Hh2 : w_hhdm w2 = w_hhdm w) by exact (xt_hhdm _ _ _ _ Hex1).
  constructor; rewrite ?Hh2; try apply Hex1; try done.
  - apply fresh_inv.
  - apply map_subseteq_spec. intros q u Hq. apply fresh_entry. by right.
  - change (w_avail w2) with (fa_avail (w_alloc w1) m2). rewrite Hav2, Hav. set_solver.
  - intros q. change (fa_managed (w_alloc w1) m2 q ↔ fa_managed (w_alloc w) (w_mem w) q).
    rewrite Hman2. apply (xt_managed _ _ _ _ Hex1).
  - apply fresh_bytes.
  - etransitivity; eapply modifies_mono; [|exact Hmod1| |exact Hmod2].
    + intros x [?|?]; [by left | right; left; by exists r].
    + intros x Hx. right. right. exists p, t. split; [done|]. by eapply entry_in_frame.
  - intros virt. unfold wwalk. rewrite Hh2. replace (w_root w2) with (w_root w) by (unfold w_root; simpl; by rewrite (xt_cr3 _ _ _ _ Hex1)).
    by apply (fresh_walk (w_hhdm w) (w_root w) T (w_mem w) (w_mem w1) m2 p t i r 7 e Htab Hp Hl Hi He Habs _ Hmod1 Hdis); [..| apply indices_range].
  - apply fresh_present.
Qed.
End fresh_table.

Lemma ensure_absent w T p t i e :
  vmm_inv w T → T !! p = Some t → (length p < 3)%nat → 0 ≤ i < 512 →
  entry w t i = Ok e → has e PTE_PRESENT = false →
  ∃ r w', ensure_next_level w (w_hhdm w + t) i = Ok (r, w') ∧ w_invlpg w' = w_invlpg w ∧
    ((r = 0 ∧ w_avail w = ∅ ∧ w' = w) ∨
     (∃ u, r = w_hhdm w + u ∧ u ∈ w_avail w ∧ w_avail w' = w_avail w ∖ {[u]} ∧
        extends w T w' (<[p ++ [i] := u]> T))).
Proof.
  intros Hinv Hp Hl Hi He Habs. unfold ensure_next_level.
  rewrite read_entry_eq, He. rsimpl. rewrite Habs. simpl.
  destruct (world_alloc_spec w T Hinv) as (r & w1 & -> & Hr). rsimpl.
  destruct Hr as [(Hav & -> & ->)|(Hin & Hav & Hex1 & Hinvl & Hfill & Hmod1 & Hdis & Hpriv)].
  { exists 0, w. split_and!; [done..|]. by left. }
  destruct (fa_managed_law _ _ _ (vi_alloc _ _ Hinv) (fa_avail_managed _ _ _ (vi_alloc _ _ Hinv) Hin))
    as (Hr & Hra & _).
  rewrite (proj2 (Z.eqb_neq r 0)) by lia.
  destruct (table_entry_bits r Hr Hra) as (-> & Hte & _ & _ & Hb3 & _).
  destruct (write_entry_spec w1 T p t i (table_entry r) (xt_inv _ _ _ _ Hex1) Hp Hi Hte)
    as (m2 & Hwr & Hmod2 & Hld & Hal2 & Hav2 & Hman2).
  rewrite (xt_hhdm _ _ _ _ Hex1) in Hwr, Hmod2, Hld. rewrite Hwr. rsimpl.
  assert (Hrd : read_entry (set_mem w1 m2) (w_hhdm w + t) i = Ok (table_entry r)) by exact Hld.
  rewrite Hrd. rsimpl. rewrite Hb3.
  assert (Hex : extends w T (set_mem w1 m2) (<[p ++ [i] := r]> T))
    by (eapply fresh_table_extends; try done; by intros x; rewrite Hpriv).
  exists (phys_to_virt_table (set_mem w1 m2) r), (set_mem w1 m2). split_and!; [done | done |].
  right. exists r. split_and!; [| done | by rewrite <-Hav | done].
  rewrite <-(xt_hhdm _ _ _ _ Hex).
  eapply table_virt; [apply (xt_inv _ _ _ _ Hex)|]. by rewrite lookup_insert_eq.
Qed.
(** No large page covers [virt]: vmm.c only works with 4 KiB mappings. *)
Definition small_page w (virt : Z) : Prop := ∀ es, wwalk w virt = Some es → length es = 4%nat.

(** The entries above the leaf on the way to [virt] restrict nothing, as those
    vmm.c writes. *)
Definition open_path w T (virt : Z) : Prop :=
  ∀ q i r t e, indices virt = q ++ i :: r → r ≠ [] → T !! q = Some t → entry w t i = Ok e →
    has e PTE_PRESENT = true →
    Z.testbit e 1 = true ∧ Z.testbit e 2 = true ∧ Z.testbit e 63 = false.

Lemma extends_small_page w T w' T' virt :
  extends w T w' T' → small_page w virt → small_page w' virt.
Proof. intros Hex Hs es. rewrite (xt_walk _ _ _ _ Hex). apply Hs. Qed.

Lemma extends_open_path w T w' T' virt :
  extends w T w' T' → open_path w T virt → open_path w' T' virt.
Proof.
  intros Hex Ho q i r t e Hidx Hr Hq He Hpr.
  destruct (indices_at _ _ _ _ Hidx) as [Hi _].
  destruct (xt_entry _ _ _ _ Hex q t i e Hq Hi He Hpr) as [[Hq' He']|(u & _ & Hu & Hua & ->)].
  - by apply (Ho q i r t e).
  - by destruct (table_entry_bits u Hu Hua) as (_ & _ & _ & _ & _ & ? & ? & ?).
Qed.

(** The number of tables of [T] still missing on the way to [virt]. *)
Definition missing T (virt : Z) : nat :=
  length (filter (λ k, T !! take k (indices virt) = None) [1; 2; 3]%nat).

Lemma missing_le T virt : (missing T virt ≤ 3)%nat.
Proof using. apply (length_filter _ [1; 2; 3]%nat). Qed.

Lemma missing_insert T virt p i s u :
  indices virt = p ++ i :: s → s ≠ [] → T !! (p ++ [i]) = None →
  missing T virt = S (missing (<[p ++ [i] := u]> T) virt).
Proof using.
  intros Hidx Hs Hnone. destruct (indices_at _ _ _ _ Hidx) as [_ Hl].
  assert (Htake : take (S (length p)) (indices virt) = p ++ [i]).
  { rewrite Hidx. change (i :: s) with ([i] ++ s). rewrite app_assoc. apply take_app_length'. rewrite length_app. cbn [length]. lia. }
  assert (Hp : (length p = 0 ∨ length p = 1 ∨ length p = 2)%nat) by (destruct s; [done | simpl in Hl; lia]).
  assert (Hsame : ∀ k, (k ≤ 3)%nat → k ≠ S (length p) →
    (<[p ++ [i] := u]> T) !! take k (indices virt) = T !! take k (indices virt)).
  { intros k Hk Hne. apply lookup_insert_ne. intros Heq%(f_equal length).
    rewrite length_take, length_app, indices_length in Heq. cbn [length] in Heq. lia. }
  assert (Hnew : (<[p ++ [i] := u]> T) !! take (S (length p)) (indices virt) = Some u) by (rewrite Htake; apply lookup_insert_eq).
  assert (Hold : T !! take (S (length p)) (indices virt) = None) by (by rewrite Htake).
  unfold missing. destruct Hp as [Hp|[Hp|Hp]]; rewrite Hp in *; rewrite !filter_cons, filter_nil, Hnew, Hold.
  - rewrite (Hsame 2%nat), (Hsame 3%nat) by lia. repeat case_decide; done.
  - rewrite (Hsame 1%nat), (Hsame 3%nat) by lia. repeat case_decide; done.
  - rewrite (Hsame 1%nat), (Hsame 2%nat) by lia. repeat case_decide; done.
Qed.

(** One level of the descent towards [virt]. *)
Lemma ensure_spec w T virt p i s t :
  vmm_inv w T → small_page w virt → indices virt = p ++ i :: s → s ≠ [] → T !! p = Some t →
  ∃ r w', ensure_next_level w (w_hhdm w + t) i = Ok (r, w') ∧ w_invlpg w' = w_invlpg w ∧
    ((r = 0 ∧ w_avail w = ∅ ∧ w' = w) ∨
     (∃ u T', r ≠ 0 ∧ r = w_hhdm w' + u ∧ T' !! (p ++ [i]) = Some u ∧ extends w T w' T' ∧
        (size (w_avail w) ≤ size (w_avail w') + 1)%nat ∧
        (size (w_avail w) + missing T' virt = size (w_avail w') + missing T virt)%nat)).
Proof.
  intros Hinv Hsm Hidx Hs Hp.
  destruct (indices_at _ _ _ _ Hidx) as [Hi Hlen].
  assert (Hl : (length p < 3)%nat) by (destruct s; [done|]; simpl in Hlen; lia).
  destruct (entry_ok w T p t i Hinv Hp Hi) as [e He].
  destruct (has e PTE_PRESENT) eqn:Hpr.
  - assert (Hlg : is_large e = false).
    { apply (walk_not_large (w_hhdm w) (w_root w) (w_mem w) T (indices virt) p i s t e
        (vi_tables _ _ Hinv)); done. }
    destruct (ensure_present w T p t i e Hinv Hp Hl Hi He Hpr Hlg) as [-> HT].
    eexists _, w. split_and!; [done | done |]. right. eexists _, T.
    destruct (table_virt w T _ _ Hinv HT) as [_ Hne].
    split_and!; [done | done | done | by apply extends_refl | lia | lia].
  - destruct (ensure_absent w T p t i e Hinv Hp Hl Hi He Hpr) as (r & w' & -> & Hinvl & Hr).
    eexists _, w'. split_and!; [done | done |].
    destruct Hr as [?|(u & -> & Hu & Hav & Hex)]; [by left | right].
    assert (HT : <[p ++ [i]:=u]> T !! (p ++ [i]) = Some u) by by rewrite lookup_insert_eq.
    destruct (table_virt w' _ _ _ (xt_inv _ _ _ _ Hex) HT) as [_ Hne].
    rewrite (xt_hhdm _ _ _ _ Hex) in *. exists u, (<[p ++ [i]:=u]> T).
    split_and!; [done..| |]; rewrite Hav; [apply size_take_one|].
    destruct (t_child _ _ _ _ (vi_tables _ _ Hinv) p t i Hp Hl Hi) as (e' & He' & HT').
    assert (e' = e) as -> by (unfold entry, entry_at in He; congruence). rewrite Hpr in HT'. cbn in HT'.
    rewrite (missing_insert T virt p i s u Hidx Hs HT'), (size_take_exact (w_avail w) u Hu). lia.
Qed.
(** ** Effect of an operation on the address space

    [effect P w T w' T']: the operation kept the invariant, gave no frame back,
    and changed the translation of no address outside [P]. *)
Record effect (P : Z → Prop) w T w' T' : Prop := {
  ef_inv : vmm_inv w' T';
  ef_tree : T ⊆ T';
  ef_vmm : w_vmm w' = w_vmm w;
  ef_cr3 : w_cr3 w' = w_cr3 w;
  ef_handlers : w_handlers w' = w_handlers w;
  ef_hhdm : w_hhdm w' = w_hhdm w;
  ef_avail : w_avail w' ⊆ w_avail w;
  ef_managed q : fa_managed (w_alloc w') (w_mem w') q ↔ fa_managed (w_alloc w) (w_mem w) q;
  ef_bytes x : vmm_bytes w' T' x → vmm_bytes w T x;
  ef_mem : modifies (vmm_bytes w T) (w_mem w) (w_mem w');
  ef_walk v : ¬ P v → wwalk w' v = wwalk w v;
  ef_open v : open_path w T v → open_path w' T' v;
  ef_small v : small_page w v → small_page w' v;
}.

Lemma extends_effect P w T w' T' : extends w T w' T' → effect P w T w' T'.
Proof.
  intros Hex. constructor; try apply Hex.
  - intros v _. apply Hex.
  - intros v. by apply extends_open_path.
  - intros v. by apply (extends_small_page w T w' T').
Qed.

Lemma effect_refl P w T : vmm_inv w T → effect P w T w T.
Proof. intros. by apply extends_effect, extends_refl. Qed.

Lemma effect_mono (P Q : Z → Prop) w T w' T' :
  (∀ v, P v → Q v) → effect P w T w' T' → effect Q w T w' T'.
Proof.
  intros HPQ Hef. constructor; try apply Hef. intros v Hv. apply (ef_walk _ _ _ _ _ Hef). auto.
Qed.

Lemma effect_trans P w T w' T' w'' T'' :
  effect P w T w' T' → effect P w' T' w'' T'' → effect P w T w'' T''.
Proof.
  intros [Hi1 Ht1 Hv1 Hc1 Hd1 Hh1 Ha1 Hm1 Hb1 Hx1 Hw1 Ho1 Hs1]
    [Hi2 Ht2 Hv2 Hc2 Hd2 Hh2 Ha2 Hm2 Hb2 Hx2 Hw2 Ho2 Hs2].
  constructor; try congruence; auto.
  - by etransitivity.
  - by etransitivity.
  - intros q. by rewrite Hm2.
  - etransitivity; [exact Hx1 | by eapply modifies_mono].
  - intros v Hv. by rewrite Hw2, Hw1.
Qed.

Lemma effect_invlpg P w T w' T' v : effect P w T w' T' → effect P w T (invlpg w' v) T'.
Proof. intros [[] ? ? ? ? ? ? ? ? ? ? ? ?]. by constructor; [constructor|..]. Qed.

(** Writing a leaf entry changes no entry above the leaves. *)
Lemma leaf_open w T p t i m' virt :
  vmm_inv w T → T !! p = Some t → length p = 3%nat → 0 ≤ i < 512 →
  modifies (in_range (entry_at (w_hhdm w) t i) 8) (w_mem w) m' →
  open_path w T virt → open_path (set_mem w m') T virt.
Proof.
  intros Hinv Hp Hl Hi Hmod Ho q j r u e Hx Hr Hq He Hpr.
  destruct (indices_at _ _ _ _ Hx) as [Hj Hlx].
  assert (Hlq : (length q < 3)%nat) by (destruct r; [done|]; simpl in Hlx; lia).
  apply (Ho q j r u e); try done. rewrite <-He. symmetry. apply (load64_modifies _ _ _ _ Hmod). intros x Hx1 Hx2.
  destruct (entries_disjoint (w_hhdm w) (w_root w) (w_mem w) T q p u t j i x
    (vi_tables _ _ Hinv) Hq Hp Hj Hi Hx1 Hx2) as [-> _]. lia.
Qed.

(** Writing the entry of a page in its last-level table. *)
Lemma leaf_spec w T virt p i t v :
  vmm_inv w T → indices virt = p ++ [i] → T !! p = Some t → 0 ≤ v < 2 ^ 64 →
  ∃ w' es, write_entry w (w_hhdm w + t) i v = Ok w' ∧ w_invlpg w' = w_invlpg w ∧
    effect (λ x, indices x = indices virt) w T w' T ∧ w_avail w' = w_avail w ∧
    length es = 3%nat ∧ (open_path w T virt → Forall (λ e,
      Z.testbit e 1 = true ∧ Z.testbit e 2 = true ∧ Z.testbit e 63 = false) es) ∧
    wwalk w' virt = if has v PTE_PRESENT then Some (es ++ [v]) else None.
Proof.
  intros Hinv Hidx Hp Hv.
  destruct (indices_at _ _ _ _ Hidx) as [Hi Hlen].
  assert (Hl : length p = 3%nat) by (simpl in Hlen; lia).
  destruct (write_entry_spec w T p t i v Hinv Hp Hi Hv)
    as (m' & -> & Hmod & Hld & Hal & Hav & Hman).
  set (w' := set_mem w m').
  destruct (leaf_write (w_hhdm w) (w_root w) (w_mem w) m' T p t i
    (vi_tables _ _ Hinv) Hp Hl Hi Hmod) as [Htab Hwalk].
  assert (Hinv' : vmm_inv w' T).
  { constructor; try done; try apply Hinv.
    intros q u Hq. destruct (vi_own _ _ Hinv q u Hq) as [Hu Hux].
    split; [|done]. unfold w_avail. simpl. by rewrite Hav. }
  assert (Hopen : ∀ x, open_path w T x → open_path w' T x) by (intros x; by apply (leaf_open w T p t i m' x)).
  destruct (walk_leaf (w_hhdm w') (w_root w') (w_mem w') T p t
    (vi_tables _ _ Hinv') Hp Hl) as (es & Hes & Hpath & Hw).
  assert (Hwv : wwalk w' virt = if has v PTE_PRESENT then Some (es ++ [v]) else None).
  { unfold wwalk. rewrite Hidx, Hw. change (w_hhdm w') with (w_hhdm w).
    simpl. by rewrite Hld. }
  exists w', es. split_and!; [done | done | | exact Hav | done | | exact Hwv].
  - constructor; try done.
    + unfold w_avail. simpl. by rewrite Hav.
    + intros x. unfold vmm_bytes, w_avail. simpl. by rewrite Hav.
    + eapply modifies_mono; [|exact Hmod]. intros x Hx. right. right. exists p, t.
      split; [done|]. by eapply entry_in_frame.
    + intros x Hx. apply Hwalk; [apply indices_length | apply indices_range |].
      by rewrite <-Hidx.
    + intros x Hsm es' Hes'. destruct (decide (indices x = indices virt)) as [Heq|Hne].
      * unfold wwalk in Hes', Hwv. rewrite Heq, Hwv in Hes'.
        destruct (has v PTE_PRESENT); [|done]. injection Hes' as <-.
        rewrite length_app. simpl. lia.
      * apply Hsm. rewrite <-Hes'. symmetry.
        apply Hwalk; [apply indices_length | apply indices_range |]. by rewrite <-Hidx.
  - intros Ho. eapply Forall_impl; [exact Hpath|].
    intros e (q & j & r & u & Heq & Hq & He & Hpr).
    apply (Hopen virt Ho q j (r ++ [i]) u e); [| by destruct r | done..].
    rewrite Hidx, Heq, <-app_assoc. done.
Qed.

(** ** vmm_map *)

(** The leaf entry [vmm_map] writes. *)
Definition leaf_entry (phys flags : Z) : Z :=
  Z.lor (Z.land phys PTE_ADDR_MASK) (translate_flags flags).

Lemma translate_flags_bits flags :
  Z.testbit (translate_flags flags) 0 = true ∧
  Z.testbit (translate_flags flags) 1 = has flags VMM_WRITABLE ∧
  Z.testbit (translate_flags flags) 2 = has flags VMM_USER ∧
  Z.testbit (translate_flags flags) 63 = has flags VMM_NO_EXECUTE ∧
  0 ≤ translate_flags flags < 2 ^ 64 ∧
  ∀ i, 12 ≤ i < 52 → Z.testbit (translate_flags flags) i = false.
Proof.
  unfold translate_flags.
  destruct (has flags VMM_WRITABLE), (has flags VMM_USER), (has flags VMM_NO_CACHE),
    (has flags VMM_NO_EXECUTE);
    (split_and!; [reflexivity..| by vm_compute | by vm_compute |]);
    intros i Hi; match goal with |- Z.testbit ?x i = false => let y := eval vm_compute in x in change x with y end;
    (destruct (Z.ltb_spec i 5); [lia|]);
    first [apply (testbit_above _ 5); lia
          |match goal with |- Z.testbit ?x i = false =>
             rewrite <-(testbit_mod_low x 63 i) by lia;
             let y := eval vm_compute in (x mod 2 ^ 63) in change (x mod 2 ^ 63) with y
           end; apply (testbit_above _ 5); lia].
Qed.

Lemma leaf_entry_bits phys flags :
  0 ≤ phys → let e := leaf_entry phys flags in
  has e PTE_PRESENT = true ∧ 0 ≤ e < 2 ^ 64 ∧
  Z.testbit e 1 = has flags VMM_WRITABLE ∧ Z.testbit e 2 = has flags VMM_USER ∧
  Z.testbit e 63 = has flags VMM_NO_EXECUTE ∧
  Z.land e PTE_ADDR_MASK = Z.land phys PTE_ADDR_MASK.
Proof.
  intros Hp e. destruct (translate_flags_bits flags) as (H0 & H1 & H2 & H63 & Hr & Hmid).
  destruct (masked_range phys Hp) as [Hp0 Hp1].
  assert (Hb : ∀ i, 0 ≤ i < 12 ∨ 52 ≤ i → Z.testbit e i = Z.testbit (translate_flags flags) i).
  { intros i Hi. unfold e, leaf_entry. rewrite Z.lor_spec, land_mask_testbit by lia.
    destruct (Z.leb_spec 12 i), (Z.ltb_spec i 52); simpl; rewrite ?andb_false_r; done || lia. }
  rewrite present_testbit, !Hb by lia. split_and!; try done.
  - unfold e, leaf_entry. apply Z.lor_nonneg. lia.
  - unfold e, leaf_entry. apply lor_below; lia.
  - unfold e, leaf_entry. rewrite masked_lor, <-Z.land_assoc by done. f_equal.
Qed.

(** What a successful [vmm_map] establishes for [virt]. *)
Definition maps_to w T w' (virt phys flags : Z) : Prop :=
  ∃ es, length es = 3%nat ∧ wwalk w' virt = Some (es ++ [leaf_entry phys flags]) ∧
    (open_path w T virt →
       eff_writable (es ++ [leaf_entry phys flags]) = has flags VMM_WRITABLE ∧
       eff_user (es ++ [leaf_entry phys flags]) = has flags VMM_USER ∧
       eff_no_execute (es ++ [leaf_entry phys flags]) = has flags VMM_NO_EXECUTE).

Lemma open_effective es e :
  Forall (λ e, Z.testbit e 1 = true ∧ Z.testbit e 2 = true ∧ Z.testbit e 63 = false) es →
  eff_writable (es ++ [e]) = Z.testbit e 1 ∧ eff_user (es ++ [e]) = Z.testbit e 2 ∧
  eff_no_execute (es ++ [e]) = Z.testbit e 63.
Proof.
  unfold eff_writable, eff_user, eff_no_execute.
  induction 1 as [|e' es (H1 & H2 & H3) _ (IH1 & IH2 & IH3)]; simpl.
  - by rewrite !andb_true_r, orb_false_r.
  - by rewrite H1, H2, H3.
Qed.

Lemma current_pml4_eq w T : vmm_inv w T → current_pml4 w = w_hhdm w + w_root w.
Proof.
  intros Hinv. unfold current_pml4. fold (w_root w).
  eapply table_virt; [done|]. apply (t_root _ _ _ _ (vi_tables _ _ Hinv)).
Qed.

(** The page of [virt]: the addresses translated by the same leaf entry. *)
Definition same_page (virt v : Z) : Prop := indices v = indices virt.

(** The outcome of [vmm_map], in every case. *)
Definition map_outcome w T (virt phys flags : Z) (ok : bool) w' T' : Prop :=
  effect (same_page virt) w T w' T' ∧
  if ok then maps_to w T w' virt phys flags ∧ w_invlpg w' = virt :: w_invlpg w ∧
             size (w_avail w) = (size (w_avail w') + missing T virt)%nat
  else w_avail w' = ∅ ∧ wwalk w' virt = wwalk w virt ∧ w_invlpg w' = w_invlpg w ∧
       (size (w_avail w) ≤ 2)%nat.

(** The leaf write ends a descent that reached the last-level table. *)
Lemma map_leaf w T w1 T1 virt p i t phys flags :
  vmm_inv w T → extends w T w1 T1 → w_invlpg w1 = w_invlpg w → 0 ≤ phys →
  indices virt = p ++ [i] → T1 !! p = Some t →
  size (w_avail w) = (size (w_avail w1) + missing T virt)%nat →
  ∃ w2, write_entry w1 (w_hhdm w1 + t) i (leaf_entry phys flags) = Ok w2 ∧
    map_outcome w T virt phys flags true (invlpg w2 virt) T1.
Proof.
  intros Hinv Hex Hinvl Hphys Hidx Hp Hsz.
  destruct (leaf_entry_bits phys flags Hphys) as (Hpr & Hr & Hb1 & Hb2 & Hb63 & _).
  destruct (leaf_spec w1 T1 virt p i t _ (xt_inv _ _ _ _ Hex) Hidx Hp Hr)
    as (w2 & es & -> & Hinvl2 & Hef & Hav & Hes & Hopen & Hw).
  exists w2. split; [done|]. rewrite Hpr in Hw. split_and!.
  - apply effect_invlpg. eapply effect_trans; [by apply extends_effect | exact Hef].
  - exists es. split_and!; [done | exact Hw |]. intros Ho. rewrite <-Hb1, <-Hb2, <-Hb63.
    apply open_effective, Hopen. by eapply extends_open_path.
  - simpl. congruence.
  - change (w_avail (invlpg w2 virt)) with (w_avail w2). by rewrite Hav.
Qed.

Lemma map_failed w T w1 T1 virt phys flags :
  extends w T w1 T1 → w_invlpg w1 = w_invlpg w → w_avail w1 = ∅ →
  (size (w_avail w) ≤ size (w_avail w1) + 2)%nat →
  map_outcome w T virt phys flags false w1 T1.
Proof.
  intros Hex ? Hav Hsz. split; [by apply extends_effect|]. split_and!; [done | | done |].
  - apply (xt_walk _ _ _ _ Hex).
  - by rewrite Hav, size_empty in Hsz.
Qed.

Lemma vmm_map_spec w T virt phys flags :
  vmm_inv w T → small_page w virt → 0 ≤ phys →
  ∃ ok w' T', vmm_map w virt phys flags = Ok (ok, w') ∧ map_outcome w T virt phys flags ok w' T'.
Proof.
  intros Hinv Hsm Hphys. unfold vmm_map.
  destruct (page_table_indices virt) as [[[i4 i3] i2] i1] eqn:Hi.
  pose proof (page_table_indices_spec virt) as Hidx. rewrite Hi in Hidx.
  rewrite (current_pml4_eq w T Hinv).
  destruct (ensure_spec w T virt [] i4 [i3; i2; i1] _ Hinv Hsm Hidx ltac:(done)
    (t_root _ _ _ _ (vi_tables _ _ Hinv))) as (r1 & w1 & -> & Hl1 & Hr1). rsimpl.
  destruct Hr1 as [(-> & Hav & ->)|(u1 & T1 & Hn1 & -> & Hu1 & Hex1 & Hs1 & Hc1)].
  { rsimpl. exists false, w, T. split; [done|].
    apply map_failed; [by apply extends_refl | done | done | lia]. }
  rewrite (proj2 (Z.eqb_neq _ _) Hn1). simpl.
  destruct (ensure_spec w1 T1 virt [i4] i3 [i2; i1] u1 (xt_inv _ _ _ _ Hex1)
    (extends_small_page _ _ _ _ _ Hex1 Hsm) Hidx ltac:(done) Hu1) as (r2 & w2 & -> & Hl2 & Hr2).
  rsimpl.
  destruct Hr2 as [(-> & Hav & ->)|(u2 & T2 & Hn2 & -> & Hu2 & Hex2 & Hs2 & Hc2)].
  { rsimpl. exists false, w1, T1. split; [done|]. apply map_failed; [done..|lia]. }
  rewrite (proj2 (Z.eqb_neq _ _) Hn2). simpl.
  assert (Hex12 := extends_trans _ _ _ _ _ _ Hex1 Hex2).
  destruct (ensure_spec w2 T2 virt [i4; i3] i2 [i1] u2 (xt_inv _ _ _ _ Hex2)
    (extends_small_page _ _ _ _ _ Hex12 Hsm) Hidx ltac:(done) Hu2) as (r3 & w3 & -> & Hl3 & Hr3).
  rsimpl.
  destruct Hr3 as [(-> & Hav & ->)|(u3 & T3 & Hn3 & -> & Hu3 & Hex3 & Hs3 & Hc3)].
  { exists false, w2, T2. split; [done|]. apply map_failed; [done | congruence | done | lia]. }
  rewrite (proj2 (Z.eqb_neq _ _) Hn3).
  assert (Hex123 := extends_trans _ _ _ _ _ _ Hex12 Hex3).
  assert (H0 : missing T3 virt = 0%nat).
  { unfold missing. rewrite Hidx, !filter_cons, filter_nil. cbn [take].
    pose proof (proj1 (map_subseteq_spec _ _) (xt_tree _ _ _ _ Hex3)) as S23.
    pose proof (proj1 (map_subseteq_spec _ _) (xt_tree _ _ _ _ Hex2)) as S12. simpl in Hu1, Hu2, Hu3.
    rewrite Hu3, (S23 _ _ Hu2), (S23 _ _ (S12 _ _ Hu1)).
    repeat case_decide; done. }
  destruct (map_leaf w T w3 T3 virt [i4; i3; i2] i1 u3 phys flags Hinv Hex123 ltac:(congruence)
    Hphys Hidx Hu3 ltac:(lia)) as (w4 & Hwr & Hout).
  unfold leaf_entry in Hwr. rewrite Hwr. by exists true, (invlpg w4 virt), T3.
Qed.

(** ** vmm_unmap *)

Lemma unmap_level w T virt p i s t :
  vmm_inv w T → small_page w virt → indices virt = p ++ i :: s → s ≠ [] → T !! p = Some t →
  ∃ e, read_entry w (w_hhdm w + t) i = Ok e ∧
    if has e PTE_PRESENT
    then T !! (p ++ [i]) = Some (Z.land e PTE_ADDR_MASK) ∧
         phys_to_virt_table w (Z.land e PTE_ADDR_MASK) = w_hhdm w + Z.land e PTE_ADDR_MASK
    else wwalk w virt = None.
Proof.
  intros Hinv Hsm Hidx Hs Hp. pose proof (vi_tables _ _ Hinv) as Htab.
  destruct (indices_at _ _ _ _ Hidx) as [Hi Hl].
  destruct (entry_ok w T p t i Hinv Hp Hi) as [e He]. exists e. split; [done|].
  destruct (has e PTE_PRESENT) eqn:Hpr.
  - assert (Hlg : is_large e = false).
    { by apply (walk_not_large (w_hhdm w) (w_root w) (w_mem w) T (indices virt) p i s t e Htab). }
    destruct (t_child _ _ _ _ Htab p t i Hp) as (e' & He' & HT);
      [destruct s; [done|]; simpl in Hl; lia | done |].
    assert (e' = e) as -> by (unfold entry, entry_at in He; congruence).
    rewrite Hpr, Hlg in HT. simpl in HT. split; [done|]. by eapply table_virt.
  - destruct (walk_prefix (w_hhdm w) (w_root w) (w_mem w) T p t Htab Hp) as (es & _ & _ & Hw).
    unfold wwalk. unfold entry in He. by rewrite Hidx, Hw, walk_cons, He, Hpr by done.
Qed.

Lemma vmm_unmap_spec w T virt :
  vmm_inv w T → small_page w virt →
  ∃ w', vmm_unmap w virt = Ok w' ∧ effect (same_page virt) w T w' T ∧
    wwalk w' virt = None ∧ w_avail w' = w_avail w ∧
    (w' = w ∨ w_invlpg w' = virt :: w_invlpg w).
Proof.
  intros Hinv Hsm. unfold vmm_unmap.
  destruct (page_table_indices virt) as [[[i4 i3] i2] i1] eqn:Hi.
  pose proof (page_table_indices_spec virt) as Hidx. rewrite Hi in Hidx.
  rewrite (current_pml4_eq w T Hinv).
  pose proof (t_root _ _ _ _ (vi_tables _ _ Hinv)) as Hroot.
  pose proof (effect_refl (same_page virt) w T Hinv) as Href.
  destruct (unmap_level w T virt [] i4 [i3; i2; i1] _ Hinv Hsm Hidx ltac:(done) Hroot)
    as (e4 & -> & H4). rsimpl.
  destruct (has e4 PTE_PRESENT); simpl; [destruct H4 as [H4 ->] | exists w; eauto 10].
  destruct (unmap_level w T virt [i4] i3 [i2; i1] _ Hinv Hsm Hidx ltac:(done) H4)
    as (e3 & -> & H3). rsimpl.
  destruct (has e3 PTE_PRESENT); simpl; [destruct H3 as [H3 ->] | exists w; eauto 10].
  destruct (unmap_level w T virt [i4; i3] i2 [i1] _ Hinv Hsm Hidx ltac:(done) H3)
    as (e2 & -> & H2). rsimpl.
  destruct (has e2 PTE_PRESENT); simpl; [destruct H2 as [H2 ->] | exists w; eauto 10].
  destruct (leaf_spec w T virt [i4; i3; i2] i1 _ 0 Hinv Hidx H2 ltac:(lia))
    as (w1 & es & -> & Hinvl & Hef & Hav & _ & _ & Hw). rsimpl.
  exists (invlpg w1 virt). split_and!; [done | by apply effect_invlpg | exact Hw | exact Hav |].
  right. simpl. congruence.
Qed.
(** ** Frames handed to a mapping *)

(** Frame [r] belongs to nobody: no page-table operation can touch it. *)
Definition owned w T (r : Z) : Prop := ∀ x, frame_bytes (w_hhdm w) r x → ¬ vmm_bytes w T x.

Lemma owned_effect P w T w' T' r :
  effect P w T w' T' → owned w T r → owned w' T' r.
Proof.
  intros Hef Ho x Hx Hb. rewrite (ef_hhdm _ _ _ _ _ Hef) in Hx.
  by apply (Ho x Hx), (ef_bytes _ _ _ _ _ Hef).
Qed.

Lemma owned_filled P w T w' T' r v :
  effect P w T w' T' → owned w T r →
  filled (w_mem w) (w_hhdm w + r) PAGE_SIZE v → filled (w_mem w') (w_hhdm w' + r) PAGE_SIZE v.
Proof.
  intros Hef Ho Hf x Hx. rewrite (ef_hhdm _ _ _ _ _ Hef) in Hx.
  rewrite (modifies_lookup _ _ _ x (ef_mem _ _ _ _ _ Hef)); [by apply Hf | by apply Ho].
Qed.

Lemma owned_not_avail w T r : owned w T r → r ∉ w_avail w.
Proof.
  intros Ho Hr. apply (Ho (w_hhdm w + r)).
  - unfold frame_bytes, in_range, PAGE_SIZE. lia.
  - right. left. exists r. split; [done|]. unfold frame_bytes, in_range, PAGE_SIZE. lia.
Qed.

Lemma maps_to_from P w0 T0 w T w' virt phys flags :
  effect P w0 T0 w T → maps_to w T w' virt phys flags → maps_to w0 T0 w' virt phys flags.
Proof.
  intros Hef (es & Hes & Hw & Ho). exists es. split_and!; [done..|].
  intros Hop. by apply Ho, (ef_open _ _ _ _ _ Hef).
Qed.

Lemma maps_to_later w T w' w'' virt phys flags :
  wwalk w'' virt = wwalk w' virt → maps_to w T w' virt phys flags → maps_to w T w'' virt phys flags.
Proof. intros Heq (es & Hes & Hw & Ho). exists es. by rewrite Heq. Qed.

(** A frame just allocated belongs to the caller alone. *)
Lemma world_alloc_owned w T :
  vmm_inv w T →
  ∃ r w1, pmm_alloc w = Ok (r, w1) ∧
    ((r = 0 ∧ w_avail w = ∅ ∧ w1 = w) ∨
     (0 < r < 2 ^ 52 ∧ r mod PAGE_SIZE = 0 ∧ r ∈ w_avail w ∧ fa_managed (w_alloc w) (w_mem w) r ∧
      extends w T w1 T ∧ w_avail w1 = w_avail w ∖ {[r]} ∧ w_invlpg w1 = w_invlpg w ∧
      owned w1 T r ∧ filled (w_mem w1) (w_hhdm w1 + r) PAGE_SIZE 0)).
Proof.
  intros Hinv. destruct (world_alloc_spec w T Hinv) as (r & w1 & -> & Hr).
  exists r, w1. split; [done|].
  destruct Hr as [(? & -> & ->)|(Hin & Hav & Hex & Hinvl & Hfill & Hmod & Hdis & Hpriv)]; [by left|].
  right. pose proof (fa_avail_managed _ _ _ (vi_alloc _ _ Hinv) Hin) as Hman.
  destruct (fa_managed_law _ _ _ (vi_alloc _ _ Hinv) Hman) as (Hr & Hra & _ & _ & _ & Hrp).
  split_and!; [lia | lia | done | done | done | done | done | done | | by rewrite (xt_hhdm _ _ _ _ Hex)].
  intros x Hx. unfold vmm_bytes. rewrite Hpriv, Hav, (xt_hhdm _ _ _ _ Hex) in *.
  intros [Hb|[(q & Hq & Hb)|Hb]].
  - by apply (Hrp x).
  - apply elem_of_difference in Hq as [Hq Hqr].
    assert (q = r); [|set_solver].
    apply (managed_disjoint (w_alloc w) (w_mem w) q r x); try done; [apply Hinv|].
    apply fa_avail_managed; [apply Hinv | done].
  - apply (Hdis x); [by right | done].
Qed.

(** Allocating a frame and mapping it, as the page-fault handler and
    [vmm_alloc_guarded] do. *)
Lemma alloc_map_spec w T virt flags :
  vmm_inv w T → small_page w virt →
  ∃ r w1, pmm_alloc w = Ok (r, w1) ∧
    ((r = 0 ∧ w_avail w = ∅ ∧ w1 = w) ∨
     (0 < r ∧ r ∈ w_avail w ∧ fa_managed (w_alloc w) (w_mem w) r ∧
      ∃ ok w2 T2, vmm_map w1 virt r flags = Ok (ok, w2) ∧
        effect (same_page virt) w T w2 T2 ∧ owned w2 T2 r ∧
        filled (w_mem w2) (w_hhdm w2 + r) PAGE_SIZE 0 ∧
        if ok then maps_to w T w2 virt r flags ∧ w_invlpg w2 = virt :: w_invlpg w ∧
                   size (w_avail w) = (size (w_avail w2) + 1 + missing T virt)%nat
        else w_avail w2 = ∅ ∧ wwalk w2 virt = wwalk w virt ∧ (size (w_avail w) ≤ 3)%nat)).
Proof.
  intros Hinv Hsm. destruct (world_alloc_owned w T Hinv) as (r & w1 & -> & Hr).
  exists r, w1. split; [done|].
  destruct Hr as [?|(Hr & _ & Hin & Hman & Hex & Hav & Hinvl & Hown & Hfill)]; [by left|].
  right. split_and!; [lia | done | done |].
  assert (Hef1 : effect (same_page virt) w T w1 T) by by apply extends_effect.
  destruct (vmm_map_spec w1 T virt r flags (xt_inv _ _ _ _ Hex)
    (extends_small_page _ _ _ _ _ Hex Hsm) ltac:(lia)) as (ok & w2 & T2 & -> & Hef2 & Hout).
  exists ok, w2, T2. split_and!; [done | by eapply effect_trans | by eapply owned_effect | |].
  - by eapply owned_filled.
  - pose proof (size_take_exact (w_avail w) r Hin) as Hsz. rewrite <-Hav in Hsz. destruct ok.
    + destruct Hout as (Hm & Hl & Hs). split_and!; [by eapply maps_to_from | congruence | lia].
    + destruct Hout as (Ha & Hw & _ & Hs). rewrite Hw, (xt_walk _ _ _ _ Hex).
      split_and!; [done | done | lia].
Qed.

Lemma set_vmm_inv w T v :
  vmm_inv w T → hhdm_offset v = hhdm_offset (w_vmm w) → vmm_inv (set_vmm w v) T.
Proof. intros [? Hh ? ? ?] Hv. constructor; try done. simpl. by rewrite Hv. Qed.

(** The slot [vmm_register_lazy_region] fills: the first unused one. *)
Lemma register_in_spec l r :
  (∃ l1 s l2, l = l1 ++ s :: l2 ∧ used s = false ∧ Forall (λ s, used s = true) l1 ∧
     register_in l r = Some (l1 ++ r :: l2)) ∨
  (register_in l r = None ∧ Forall (λ s, used s = true) l).
Proof.
  induction l as [|x l IH]; simpl; [by right|]. destruct (used x) eqn:Hx; simpl.
  - destruct IH as [(l1 & s & l2 & -> & Hs & Hl1 & ->)|[-> Hall]]; [left | right].
    + exists (x :: l1), s, l2. auto.
    + auto.
  - left. exists [], x, l. auto.
Qed.

(** ** Page faults *)

(** The region a page belongs to: the first registered region that covers it. *)
Definition lazy_region_of w (page : Z) : option lazy_region :=
  List.find (in_lazy_region page) (lazy_regions (w_vmm w)).

(** Every case of the handler. *)
Inductive fault_outcome w T (page error_code : Z) : bool → world A → Prop :=
  | fault_protection :
      Z.testbit error_code 0 = true → fault_outcome w T page error_code false w
  | fault_no_region :
      Z.testbit error_code 0 = false → lazy_region_of w page = None →
      fault_outcome w T page error_code false w
  | fault_no_frame r :
      Z.testbit error_code 0 = false → lazy_region_of w page = Some r →
      w_avail w = ∅ → fault_outcome w T page error_code false w
  | fault_map_failed r frame w' T' :
      Z.testbit error_code 0 = false → lazy_region_of w page = Some r →
      frame ∈ w_avail w → effect (same_page page) w T w' T' →
      wwalk w' page = wwalk w page → w_avail w' = ∅ → (size (w_avail w) ≤ 3)%nat →
      fault_outcome w T page error_code false w'
  | fault_mapped r frame w' T' :
      Z.testbit error_code 0 = false → lazy_region_of w page = Some r →
      frame ∈ w_avail w → effect (same_page page) w T w' T' →
      maps_to w T w' page frame (flags r) →
      filled (w_mem w') (w_hhdm w' + frame) PAGE_SIZE 0 → owned w' T' frame →
      size (w_avail w) = (size (w_avail w') + 1 + missing T page)%nat →
      fault_outcome w T page error_code true w'.

Lemma vmm_handle_page_fault_spec w T addr error_code :
  vmm_inv w T → 0 ≤ addr < 2 ^ 64 → small_page w (addr / 4096 * 4096) →
  ∃ ok w', vmm_handle_page_fault w addr error_code = Ok (ok, w') ∧
    fault_outcome w T (addr / 4096 * 4096) error_code ok w'.
Proof.
  intros Hinv Ha Hsm. unfold vmm_handle_page_fault.
  change 1 with (Z.shiftl 1 0) at 1. rewrite has_testbit by lia.
  destruct (Z.testbit error_code 0) eqn:Hec.
  { exists false, w. split; [done|]. by apply fault_protection. }
  rewrite align_down_page by done. fold (lazy_region_of w (addr / 4096 * 4096)).
  destruct (lazy_region_of w (addr / 4096 * 4096)) as [r|] eqn:Hr.
  2: { exists false, w. split; [done|]. by apply fault_no_region. }
  destruct (alloc_map_spec w T _ (flags r) Hinv Hsm) as (f & w1 & -> & Hf). rsimpl.
  destruct Hf as [(-> & Hav & ->)|(Hf0 & Hf & Hman & ok & w2 & T2 & Hmap & Hef & Hown & Hfill & Hout)].
  { exists false, w. split; [done|]. by eapply fault_no_frame. }
  rewrite (proj2 (Z.eqb_neq f 0)), Hmap by lia. exists ok, w2. split; [done|]. destruct ok.
  - destruct Hout as (? & _ & ?). by eapply fault_mapped.
  - destruct Hout as (? & ? & ?). by eapply fault_map_failed.
Qed.

(** ** Bump allocation *)

Lemma world_free_spec w T r :
  vmm_inv w T → fa_managed (w_alloc w) (w_mem w) r → owned w T r →
  ∃ w', pmm_free w r = Ok w' ∧ w_avail w' = {[r]} ∪ w_avail w ∧ w_vmm w' = w_vmm w ∧
    vmm_inv w' T ∧ (∀ v, wwalk w' v = wwalk w v).
Proof.
  intros Hinv Hman Hown. pose proof (owned_not_avail w T r Hown) as Hna. unfold pmm_free.
  destruct (fa_free_law _ _ _ (vi_alloc _ _ Hinv) Hman Hna)
    as (a & m & -> & Hal & Hav & Hpriv & Hhh & _ & Hmod).
  assert (Hdis : ∀ x, fa_private (w_alloc w) x → ¬ table_bytes (w_hhdm w) T x).
  { intros x Hx (p & t & Hp & Ht). by apply (tables_frame w T p t x Hinv Hp Ht). }
  exists (set_alloc w a m). split_and!; [done | exact Hav | done | |].
  - assert (Hhw : w_hhdm (set_alloc w a m) = w_hhdm w) by exact Hhh.
    constructor; rewrite ?Hhw; try apply Hinv; [done | |].
    + eapply tables_ok_modifies; [apply (vi_tables _ _ Hinv) | exact Hmod | exact Hdis].
    + intros p t Hp. destruct (vi_own _ _ Hinv p t Hp) as [Ht Htp]. split.
      * unfold w_avail. simpl. rewrite Hav. intros [->%elem_of_singleton|?]%elem_of_union; [|done].
        apply (Hown (w_hhdm w + r)); [unfold frame_bytes, in_range, PAGE_SIZE; lia|].
        right. right. exists p, r. split; [done|]. unfold frame_bytes, in_range, PAGE_SIZE. lia.
      * simpl. by rewrite Hpriv.
  - intros v. unfold wwalk. replace (w_hhdm (set_alloc w a m)) with (w_hhdm w) by (symmetry; exact Hhh).
    apply (walk_modifies _ _ _ _ _ T _ (vi_tables _ _ Hinv) Hmod Hdis
      (indices_length v) (indices_range v)).
Qed.

(** The state of [vmm_alloc_guarded] before iteration [i]. *)
Definition guarded_loop w0 T0 (base flags i : Z) w : Prop :=
  ∃ T frames, Z.of_nat (length frames) = i ∧ NoDup frames ∧ (∀ f, f ∈ frames → f ∈ w_avail w0) ∧
    effect (λ v, ∃ k, 0 ≤ k < i ∧ same_page (base + k * PAGE_SIZE) v) w0 T0 w T ∧
    (∀ f, f ∈ frames → owned w T f ∧ filled (w_mem w) (w_hhdm w + f) PAGE_SIZE 0) ∧
    (∀ k f, frames !! k = Some f →
       maps_to w0 T0 w (base + Z.of_nat k * PAGE_SIZE) f flags) ∧
    Z.of_nat (size (w_avail w0)) ≤ Z.of_nat (size (w_avail w)) + 4 * i.

(** Pages of a range that does not wrap are translated independently. *)
Lemma same_page_range base n j k :
  VMM_DYNAMIC_VBASE ≤ base → base mod PAGE_SIZE = 0 → base + n * PAGE_SIZE ≤ 2 ^ 64 →
  0 ≤ j ≤ n → 0 ≤ k ≤ n → 0 < n →
  base + j * PAGE_SIZE < 2 ^ 64 → base + k * PAGE_SIZE < 2 ^ 64 →
  same_page (base + j * PAGE_SIZE) (base + k * PAGE_SIZE) → j = k.
Proof.
  unfold same_page, VMM_DYNAMIC_VBASE, PAGE_SIZE. intros Hb Hm Hn Hj Hk Hn0 Hlj Hlk.
  rewrite indices_inj. rewrite !Z.div_add by lia. intros Heq.
  assert (0xffffffffb0000 ≤ base / 4096) by (apply Z.div_le_lower_bound; lia).
  assert (base / 4096 + k < 2 ^ 52 ∧ base / 4096 + j < 2 ^ 52) by dlia.
  assert (Hr : ∀ x, 0xffffffffb0000 ≤ x < 2 ^ 52 → x mod 2 ^ 36 = x - (2 ^ 52 - 2 ^ 36)).
  { intros x Hx. symmetry. apply (Z.mod_unique _ _ 65535); lia. }
  rewrite !Hr in Heq by lia. lia.
Qed.

(** A failed [vmm_alloc_guarded]: at most the frame given back is left. *)
Definition guarded_failed w0 (base n : Z) w : Prop :=
  (∃ T, vmm_inv w T) ∧ w_vmm w = w_vmm w0 ∧ (w_avail w = ∅ ∨ ∃ f, f ∈ w_avail w0 ∧ w_avail w = {[f]}) ∧
  (∀ v, ¬ (∃ k, 0 ≤ k < n ∧ same_page (base + k * PAGE_SIZE) v) → wwalk w v = wwalk w0 v) ∧
  (∀ v, small_page w0 v → small_page w v) ∧ Z.of_nat (size (w_avail w0)) < 4 * n.

Lemma guarded_loop_snoc w0 T0 base flags n i w T frames f w2 T2 :
  VMM_DYNAMIC_VBASE ≤ base → base mod PAGE_SIZE = 0 → base + n * PAGE_SIZE < 2 ^ 64 →
  0 ≤ i < n →
  Z.of_nat (length frames) = i → NoDup frames → (∀ f, f ∈ frames → f ∈ w_avail w0) →
  effect (λ v, ∃ k, 0 ≤ k < i ∧ same_page (base + k * PAGE_SIZE) v) w0 T0 w T →
  (∀ f, f ∈ frames → owned w T f ∧ filled (w_mem w) (w_hhdm w + f) PAGE_SIZE 0) →
  (∀ k f, frames !! k = Some f → maps_to w0 T0 w (base + Z.of_nat k * PAGE_SIZE) f flags) →
  f ∈ w_avail w → effect (same_page (base + i * PAGE_SIZE)) w T w2 T2 → owned w2 T2 f →
  filled (w_mem w2) (w_hhdm w2 + f) PAGE_SIZE 0 →
  maps_to w T w2 (base + i * PAGE_SIZE) f flags →
  Z.of_nat (size (w_avail w0)) ≤ Z.of_nat (size (w_avail w)) + 4 * i →
  (size (w_avail w) ≤ size (w_avail w2) + 4)%nat →
  guarded_loop w0 T0 base flags (i + 1) w2.
Proof.
  intros Hb Hm Hn Hi Hlen Hnd Hfr Hef Hfill Hmaps Hf Hef2 Hown Hz Hmap Hs1 Hs2.
  exists T2, (frames ++ [f]). split_and!.
  - rewrite length_app. simpl. lia.
  - apply NoDup_app. split_and!; [done | | apply NoDup_singleton].
    intros g Hg ->%list_elem_of_singleton. by apply (owned_not_avail w T f (proj1 (Hfill f Hg))).
  - intros g [?| ->%list_elem_of_singleton]%elem_of_app; [by apply Hfr|].
    by apply (ef_avail _ _ _ _ _ Hef).
  - eapply effect_trans; (eapply effect_mono; [|eassumption]).
    + intros v (k & ? & ?). exists k. split; [lia | done].
    + intros v Hv. exists i. split; [lia | done].
  - intros g [Hg| ->%list_elem_of_singleton]%elem_of_app; [|done].
    destruct (Hfill g Hg). split; [by eapply owned_effect | by eapply owned_filled].
  - intros k g Hk. apply lookup_snoc_Some in Hk as [[Hk Hg]|[-> <-]].
    + eapply maps_to_later; [|by apply Hmaps]. apply (ef_walk _ _ _ _ _ Hef2). intros Hsp.
      unfold VMM_DYNAMIC_VBASE, PAGE_SIZE in Hb, Hn.
      apply (same_page_range base n) in Hsp; unfold PAGE_SIZE; try done || lia.
    + rewrite Hlen. by eapply maps_to_from.
  - lia.
Qed.

Lemma guarded_step w0 T0 base flags n i w :
  VMM_DYNAMIC_VBASE ≤ base → base mod PAGE_SIZE = 0 → base + n * PAGE_SIZE < 2 ^ 64 →
  0 ≤ i < n → (∀ k, 0 ≤ k < n → small_page w0 (base + k * PAGE_SIZE)) →
  guarded_loop w0 T0 base flags i w →
  ∃ o, guarded_body base flags i w = Ok o ∧
    match o with
    | inl w' => guarded_loop w0 T0 base flags (i + 1) w'
    | inr w' => guarded_failed w0 base n w'
    end.
Proof.
  intros Hb Hm Hn Hi Hsm (T & frames & Hlen & Hnd & Hfr & Hef & Hfill & Hmaps & Hsz).
  assert (Hle : ∀ v, ¬ (∃ k, 0 ≤ k < n ∧ same_page (base + k * PAGE_SIZE) v) →
    ¬ same_page (base + i * PAGE_SIZE) v ∧ wwalk w v = wwalk w0 v).
  { intros v Hv. split; [intros Hs; apply Hv; by exists i|]. apply (ef_walk _ _ _ _ _ Hef).
    intros (k & ? & ?). apply Hv. exists k. split; [lia | done]. }
  unfold guarded_body.
  rewrite !u64_small by (unfold VMM_DYNAMIC_VBASE, PAGE_SIZE in *; rewrite ?u64_small by lia; lia).
  destruct (alloc_map_spec w T (base + i * PAGE_SIZE) flags (ef_inv _ _ _ _ _ Hef))
    as (f & w1 & -> & Hf); [by apply (ef_small _ _ _ _ _ Hef), Hsm|]. rsimpl.
  destruct Hf as [(-> & Hav & ->)|(Hf0 & Hf & Hman & ok & w2 & T2 & Hmap & Hef2 & Hown & Hz & Hout)].
  { exists (inr w). split; [done|]. split_and!; [by exists T; apply (ef_inv _ _ _ _ _ Hef)
      | apply (ef_vmm _ _ _ _ _ Hef) | by left | intros v Hv; by apply Hle | apply Hef |].
    rewrite Hav, size_empty in Hsz. lia. }
  rewrite (proj2 (Z.eqb_neq f 0)), Hmap by lia. simpl. destruct ok; simpl.
  - exists (inl w2). split; [done|]. destruct Hout as (Hout & _ & Hs).
    pose proof (missing_le T (base + i * PAGE_SIZE)).
    eapply (guarded_loop_snoc w0 T0 base flags n i w T frames f w2 T2); first [done | lia].
  - destruct (world_free_spec w2 T2 f (ef_inv _ _ _ _ _ Hef2)) as (w3 & -> & Hav3 & Hv3 & Hinv3 & Hw3);
      [by apply (ef_managed _ _ _ _ _ Hef2) | done |].
    exists (inr w3). split; [done|]. destruct Hout as (Hav2 & _ & Hs). split_and!.
    + by exists T2.
    + by rewrite Hv3, (ef_vmm _ _ _ _ _ Hef2), (ef_vmm _ _ _ _ _ Hef).
    + right. exists f. split; [by apply (ef_avail _ _ _ _ _ Hef)|]. rewrite Hav3, Hav2. set_solver.
    + intros v Hv. destruct (Hle v Hv) as [Hv1 Hv2].
      by rewrite Hw3, (ef_walk _ _ _ _ _ Hef2 v Hv1).
    + intros v Hv es. rewrite Hw3. by apply (ef_small _ _ _ _ _ Hef2), (ef_small _ _ _ _ _ Hef).
    + lia.
Qed.

(** The whole of [vmm_alloc_guarded] on a range that does not wrap. *)
Lemma vmm_alloc_guarded_spec w T page_count flags :
  let base := dynamic_next_vaddr (w_vmm w) + PAGE_SIZE in
  let next := base + (page_count + 1) * PAGE_SIZE in
  let w0 := set_vmm w (mk_vmm (hhdm_offset (w_vmm w)) next (mmio_next_vaddr (w_vmm w))
                         (lazy_regions (w_vmm w))) in
  vmm_inv w T → VMM_DYNAMIC_VBASE ≤ dynamic_next_vaddr (w_vmm w) →
  dynamic_next_vaddr (w_vmm w) mod PAGE_SIZE = 0 → 0 ≤ page_count → next < 2 ^ 64 →
  (∀ k, 0 ≤ k < page_count → small_page w (base + k * PAGE_SIZE)) →
  ∃ r w', vmm_alloc_guarded w page_count flags = Ok (r, w') ∧
    ((r = base ∧ guarded_loop w0 T base flags page_count w') ∨
     (r = 0 ∧ guarded_failed w0 base page_count w')).
Proof.
  intros base next w0 Hinv Hb Hm Hc Hn Hsm. unfold vmm_alloc_guarded.
  unfold VMM_DYNAMIC_VBASE in Hb. subst next. unfold base, PAGE_SIZE in Hn, Hm.
  assert (Hu1 : u64 (dynamic_next_vaddr (w_vmm w) + PAGE_SIZE) = base)
    by (apply u64_small; unfold base, PAGE_SIZE; lia).
  assert (Hu2 : u64 (page_count * PAGE_SIZE) = page_count * PAGE_SIZE)
    by (apply u64_small; unfold PAGE_SIZE; lia).
  assert (Hu3 : u64 (u64 (base + page_count * PAGE_SIZE) + PAGE_SIZE) = base + (page_count + 1) * PAGE_SIZE).
  { rewrite !u64_small; unfold base, PAGE_SIZE; try lia. rewrite u64_small; lia. }
  rewrite Hu1, Hu2, Hu3. fold w0.
  assert (Hinv0 : vmm_inv w0 T) by by apply set_vmm_inv.
  destruct (for_break_spec (guarded_loop w0 T base flags) (guarded_failed w0 base page_count)
    0 page_count (guarded_body base flags) w0) as (o & Ho & HQ); [lia | | |].
  - exists T, []. split_and!; [done | constructor | set_solver | by apply effect_refl
      | set_solver | done | lia].
  - intros i w1 Hi. eapply guarded_step; [| | | done | exact Hsm].
    + unfold VMM_DYNAMIC_VBASE, base, PAGE_SIZE. lia.
    + unfold base, PAGE_SIZE. rewrite Z.add_mod by lia. by rewrite Hm.
    + unfold base, PAGE_SIZE. lia.
  - rewrite Ho. rsimpl. destruct o as [w'|w'].
    + exists base, w'. by split; [|left].
    + exists 0, w'. by split; [|right].
Qed.

End invariant.
