(* ===== verification/AddressSpace.v ===== *)
(** * The address space (kernel/arch/x86_64/mm/vmm.c): properties

    The theorems of the virtual memory manager, over any frame allocator that
    satisfies its contract, judged by the processor's page walk; then the
    machine that runs it over the physical memory manager. *)

From S2P Require Import Prelude Word Mem FrameAlloc BootInfo Pmm Paging Isr Vmm.

Section address_space.
Context {A : Type} `{FrameAllocator A}.

Implicit Types (w : world A) (T : gmap (list Z) Z).

(** The walk is reasoned about through its lemmas only. *)
#[local] Opaque walk indices.

(** C5: [vmm_map] always returns. On success the processor's walk of [virt]
    ends in an entry with the physical page and the flags asked for, whose
    effective permissions are exactly those flags when the entries above allow
    everything, and the stale translation is flushed; it fails only when the
    allocator had fewer than the three frames the tables may need, and then [virt] translates as before. In both
    cases every other page translates as before, the page-table and allocator
    invariants hold again, and no memory changed outside the page tables, the
    allocator's own bytes and frames that were available. *)
Theorem vmm_map_correct w T virt phys flags :
  vmm_inv w T → small_page w virt → 0 ≤ phys →
  ∃ ok w' T', vmm_map w virt phys flags = Ok (ok, w') ∧ vmm_inv w' T' ∧
    (if ok then
       ∃ es, wwalk w' virt = Some (es ++ [leaf_entry phys flags]) ∧
         w_invlpg w' = virt :: w_invlpg w ∧
         (open_path w T virt →
            eff_writable (es ++ [leaf_entry phys flags]) = has flags VMM_WRITABLE ∧
            eff_user (es ++ [leaf_entry phys flags]) = has flags VMM_USER ∧
            eff_no_execute (es ++ [leaf_entry phys flags]) = has flags VMM_NO_EXECUTE)
     else w_avail w' = ∅ ∧ (size (w_avail w) < 3)%nat ∧ wwalk w' virt = wwalk w virt) ∧
    (∀ v, indices v ≠ indices virt → wwalk w' v = wwalk w v) ∧
    (∀ v, open_path w T v → open_path w' T' v) ∧
    w_avail w' ⊆ w_avail w ∧
    (∀ x, ¬ vmm_bytes w T x → w_mem w' !! x = w_mem w !! x).
Proof.
  intros Hinv Hsm Hp.
  destruct (vmm_map_spec w T virt phys flags Hinv Hsm Hp) as (ok & w' & T' & -> & Hef & Hout).
  exists ok, w', T'. split_and!; try done; try apply Hef.
  destruct ok.
  - destruct Hout as ((es & _ & Hw & Ho) & Hl & _). eauto.
  - destruct Hout as (? & ? & _ & ?). split_and!; [done | lia | done].
Qed.

(** C34: [vmm_unmap] always returns, leaves [virt] untranslated and every other
    page as it was, takes no frame from the allocator and gives none back. *)
Theorem vmm_unmap_correct w T virt :
  vmm_inv w T → small_page w virt →
  ∃ w', vmm_unmap w virt = Ok w' ∧ vmm_inv w' T ∧ wwalk w' virt = None ∧
    (∀ v, indices v ≠ indices virt → wwalk w' v = wwalk w v) ∧
    w_avail w' = w_avail w ∧
    (∀ es, wwalk w virt = Some es → w_invlpg w' = virt :: w_invlpg w).
Proof.
  intros Hinv Hsm. destruct (vmm_unmap_spec w T virt Hinv Hsm) as (w' & -> & Hef & Hw & Hav & Hl).
  exists w'. split_and!; try done; try apply Hef.
  intros es Hes. destruct Hl as [->|?]; [congruence | done].
Qed.

(** Mapping a page that was not mapped and unmapping it again gives back
    the translation of every address. *)
Theorem vmm_map_unmap_roundtrip w T virt phys flags w1 w2 :
  vmm_inv w T → wwalk w virt = None → 0 ≤ phys →
  vmm_map w virt phys flags = Ok (true, w1) → vmm_unmap w1 virt = Ok w2 →
  ∀ v, wwalk w2 v = wwalk w v.
Proof.
  intros Hinv Hnone Hp Hmap Hunmap v.
  assert (Hsm : small_page w virt) by (intros es Hes; congruence).
  destruct (vmm_map_spec w T virt phys flags Hinv Hsm Hp) as (ok & w' & T' & Hm & Hef & _).
  rewrite Hmap in Hm. injection Hm as <- <-.
  destruct (vmm_unmap_spec w1 T' virt (ef_inv _ _ _ _ _ Hef) (ef_small _ _ _ _ _ Hef virt Hsm))
    as (w'' & Hu & Hef2 & Hw & _).
  rewrite Hunmap in Hu. injection Hu as <-.
  destruct (decide (indices v = indices virt)) as [Heq|Hne].
  - unfold wwalk in *. by rewrite Heq, Hw, Hnone.
  - by rewrite (ef_walk _ _ _ _ _ Hef2 v Hne), (ef_walk _ _ _ _ _ Hef v Hne).
Qed.

(** C25: the page-fault handler always returns. A protection violation or a
    page of no registered region changes nothing and is reported as unresolved.
    Success means the faulting address now translates to a zero-filled frame
    taken from the allocator and owned by nobody else, with the flags of the
    first region that covers it; a failure inside a region means the allocator
    ran out of frames, and four are enough. No other page is affected. *)
Theorem vmm_page_fault_correct w T addr error_code :
  let page := addr / 4096 * 4096 in
  vmm_inv w T → 0 ≤ addr < 2 ^ 64 → small_page w page →
  ∃ ok w' T', vmm_handle_page_fault w addr error_code = Ok (ok, w') ∧ vmm_inv w' T' ∧
    (Z.testbit error_code 0 = true ∨ lazy_region_of w page = None → ok = false ∧ w' = w) ∧
    (ok = false → w' = w ∨ w_avail w' = ∅) ∧
    (Z.testbit error_code 0 = false → is_Some (lazy_region_of w page) → ok = false →
       (size (w_avail w) < 4)%nat ∧ w_avail w' = ∅ ∧ wwalk w' addr = wwalk w addr) ∧
    (ok = true → ∃ r frame es, lazy_region_of w page = Some r ∧
       wwalk w' addr = Some (es ++ [leaf_entry frame (flags r)]) ∧
       frame ∈ w_avail w ∧ owned w' T' frame ∧
       filled (w_mem w') (w_hhdm w' + frame) PAGE_SIZE 0) ∧
    (∀ v, indices v ≠ indices addr → wwalk w' v = wwalk w v).
Proof.
  intros page Hinv Ha Hsm.
  assert (Hpage : indices page = indices addr) by (apply indices_inj; unfold page; f_equal; dlia).
  assert (Hwalk : ∀ u, wwalk u addr = wwalk u page) by (intros u; unfold wwalk; by rewrite Hpage).
  destruct (vmm_handle_page_fault_spec w T addr error_code Hinv Ha Hsm) as (ok & w' & -> & Hout).
  fold page in Hout. exists ok, w'. clearbody page.
  destruct Hout as [Hec|Hec Hr|r Hec Hr Hav|r f w' T' Hec Hr Hf Hef Hw Hav Hs|r f w' T' Hec Hr Hf Hef Hm Hz Ho _];
    [exists T; split_and!; [reflexivity | exact Hinv | by split | by left
       | intros Hec'; by rewrite Hec in Hec' | discriminate | reflexivity]
    |exists T; split_and!; [reflexivity | exact Hinv | by split | by left
       | rewrite Hr; by intros _ [? ?] | discriminate | reflexivity]
    |exists T; split_and!; [reflexivity | exact Hinv | by split | by left
       | intros _ _ _; rewrite Hav, size_empty; split_and!; [lia | done | done] | discriminate | reflexivity] | |];
    assert (Hother : ∀ v, indices v ≠ indices addr → wwalk w' v = wwalk w v)
      by (intros v Hv; apply (ef_walk _ _ _ _ _ Hef); unfold same_page; by rewrite Hpage);
    exists T'.
  - split_and!; [reflexivity | apply Hef | intros [?|?]; congruence | auto
      | intros _ _ _; rewrite !Hwalk; split_and!; [lia | done | done] | discriminate | exact Hother].
  - split_and!; [reflexivity | apply Hef | intros [?|?]; congruence | discriminate | discriminate
      | | exact Hother].
    intros _. destruct Hm as (es & _ & Hw & _). exists r, f, es. rewrite Hwalk. auto.
Qed.

(** A page mapped with [VMM_WRITABLE] alone, as the heap, the thread stacks and
    the kernel-entry stack are, can be executed. *)
Theorem writable_pages_executable w T w' virt phys :
  maps_to w T w' virt phys VMM_WRITABLE → open_path w T virt →
  ∃ es, wwalk w' virt = Some es ∧ eff_writable es = true ∧ eff_no_execute es = false.
Proof.
  intros (es & _ & Hw & Hp) Ho. destruct (Hp Ho) as (H1 & _ & H3). eexists. split; [exact Hw|].
  split; [exact H1 | exact H3].
Qed.

(** The outcome of [vmm_alloc_guarded], for its callers. *)
Lemma vmm_alloc_guarded_outcome w T page_count flags :
  let base := dynamic_next_vaddr (w_vmm w) + PAGE_SIZE in
  let next := base + (page_count + 1) * PAGE_SIZE in
  vmm_inv w T → VMM_DYNAMIC_VBASE ≤ dynamic_next_vaddr (w_vmm w) →
  dynamic_next_vaddr (w_vmm w) mod PAGE_SIZE = 0 → 0 ≤ page_count → next < 2 ^ 64 →
  (∀ k, 0 ≤ k < page_count → small_page w (base + k * PAGE_SIZE)) →
  ∃ r w' T', vmm_alloc_guarded w page_count flags = Ok (r, w') ∧ vmm_inv w' T' ∧
    dynamic_next_vaddr (w_vmm w') = next ∧
    (r = 0 ∧ Z.of_nat (size (w_avail w)) < 4 * page_count ∧
       (w_avail w' = ∅ ∨ ∃ f, w_avail w' = {[f]}) ∨
     r = base ∧ ∃ frames, Z.of_nat (length frames) = page_count ∧ NoDup frames ∧
       (∀ f, f ∈ frames → f ∈ w_avail w ∧ owned w' T' f ∧
          filled (w_mem w') (w_hhdm w' + f) PAGE_SIZE 0) ∧
       (∀ k f, frames !! k = Some f →
          maps_to w T w' (base + Z.of_nat k * PAGE_SIZE) f flags)) ∧
    (∀ v, (∀ k, 0 ≤ k < page_count → indices v ≠ indices (base + k * PAGE_SIZE)) →
       wwalk w' v = wwalk w v) ∧
    wwalk w' (base - PAGE_SIZE) = wwalk w (base - PAGE_SIZE) ∧
    wwalk w' (base + page_count * PAGE_SIZE) = wwalk w (base + page_count * PAGE_SIZE) ∧
    (wwalk w (base - PAGE_SIZE) = None → wwalk w (base + page_count * PAGE_SIZE) = None →
     wwalk w' (base - PAGE_SIZE) = None ∧ wwalk w' (base + page_count * PAGE_SIZE) = None).
Proof.
  intros base next Hinv Hb Hm Hc Hn Hsm.
  destruct (vmm_alloc_guarded_spec w T page_count flags Hinv Hb Hm Hc Hn Hsm)
    as (r & w' & -> & Hout). fold base in Hout. fold next in Hout.
  set (w0 := set_vmm w _) in Hout. exists r, w'.
  assert (Hguard : ∀ g, g = base - PAGE_SIZE ∨ g = base + page_count * PAGE_SIZE →
    ∀ k, 0 ≤ k < page_count → indices g ≠ indices (base + k * PAGE_SIZE)).
  { intros g Hg k Hk Heq. clear Hsm Hout w0 Hinv.
    set (b := dynamic_next_vaddr (w_vmm w)) in *. unfold base in *.
    pose proof (same_page_range b (page_count + 1) (k + 1)
      (if decide (g = b) then 0 else page_count + 1)) as Hs.
    assert (k + 1 = if decide (g = b) then 0 else page_count + 1); [|case_decide; lia].
    apply Hs; unfold next, VMM_DYNAMIC_VBASE, PAGE_SIZE in *; try (case_decide; lia).
    unfold same_page. replace (b + (k + 1) * 4096) with (b + 4096 + k * 4096) by lia.
    rewrite <-Heq. f_equal. case_decide; lia. }
  destruct Hout as [(-> & T' & frames & Hlen & Hnd & Hfr & Hef & Hfill & Hmaps & _)
    |(-> & [T' HT'] & Hv & Hav & Hw & _ & Hsz)].
  - exists T'.
    assert (Hwalk : ∀ v, (∀ k, 0 ≤ k < page_count → indices v ≠ indices (base + k * PAGE_SIZE)) →
       wwalk w' v = wwalk w v).
    { intros v Hv. apply (ef_walk _ _ _ _ _ Hef). intros (k & Hk & Hs). by apply (Hv k Hk). }
    split_and!; [done | apply Hef | | | exact Hwalk | apply Hwalk | apply Hwalk | rewrite !Hwalk]; auto.
    + by rewrite (ef_vmm _ _ _ _ _ Hef).
    + right. split; [done|]. exists frames. split_and!; try done. intros f Hf.
      destruct (Hfill f Hf). auto.
  - exists T'.
    assert (Hwalk : ∀ v, (∀ k, 0 ≤ k < page_count → indices v ≠ indices (base + k * PAGE_SIZE)) →
       wwalk w' v = wwalk w v).
    { intros v Hv'. apply Hw. intros (k & Hk & Hs). by apply (Hv' k Hk). }
    split_and!; [done | done | by rewrite Hv | | exact Hwalk | apply Hwalk | apply Hwalk | rewrite !Hwalk]; auto.
    left. split_and!; [done | done |]. destruct Hav as [?|(f & _ & ?)]; [by left | right; by exists f].
Qed.

(** C26: on a range that does not wrap, [vmm_alloc_guarded] returns the address
    after a guard page, with every page of the range mapped, with the flags
    asked for, to a zero-filled frame of its own, all distinct; or [NULL] when
    frames ran out, which needs fewer than four per page. Both guard pages, and
    every page outside the range, keep their translation: guard pages that had
    none, as in a range not used before, have none afterwards, so that an access
    to them faults. The next call starts past the upper guard page. *)
Theorem vmm_alloc_guarded_correct w T page_count flags :
  let base := dynamic_next_vaddr (w_vmm w) + PAGE_SIZE in
  let next := base + (page_count + 1) * PAGE_SIZE in
  vmm_inv w T → VMM_DYNAMIC_VBASE ≤ dynamic_next_vaddr (w_vmm w) →
  dynamic_next_vaddr (w_vmm w) mod PAGE_SIZE = 0 → 0 ≤ page_count → next < 2 ^ 64 →
  (∀ k, 0 ≤ k < page_count → small_page w (base + k * PAGE_SIZE)) →
  ∃ r w' T', vmm_alloc_guarded w page_count flags = Ok (r, w') ∧ vmm_inv w' T' ∧
    dynamic_next_vaddr (w_vmm w') = next ∧
    (r = 0 ∧ Z.of_nat (size (w_avail w)) < 4 * page_count ∧
       (w_avail w' = ∅ ∨ ∃ f, w_avail w' = {[f]}) ∨
     r = base ∧ ∃ frames, Z.of_nat (length frames) = page_count ∧ NoDup frames ∧
       (∀ f, f ∈ frames → f ∈ w_avail w ∧ owned w' T' f ∧
          filled (w_mem w') (w_hhdm w' + f) PAGE_SIZE 0) ∧
       (∀ k f, frames !! k = Some f →
          maps_to w T w' (base + Z.of_nat k * PAGE_SIZE) f flags)) ∧
    (∀ v, (∀ k, 0 ≤ k < page_count → indices v ≠ indices (base + k * PAGE_SIZE)) →
       wwalk w' v = wwalk w v) ∧
    wwalk w' (base - PAGE_SIZE) = wwalk w (base - PAGE_SIZE) ∧
    wwalk w' (base + page_count * PAGE_SIZE) = wwalk w (base + page_count * PAGE_SIZE) ∧
    (wwalk w (base - PAGE_SIZE) = None → wwalk w (base + page_count * PAGE_SIZE) = None →
     wwalk w' (base - PAGE_SIZE) = None ∧ wwalk w' (base + page_count * PAGE_SIZE) = None).
Proof. apply vmm_alloc_guarded_outcome. Qed.

(** [vmm_map_mmio] hands out the next page of its own range and maps it to
    the device page: writable, uncached, never executable, not for user mode;
    it panics only when fewer than three frames are left for page tables. *)
Theorem vmm_map_mmio_correct w T phys :
  let virt := mmio_next_vaddr (w_vmm w) in
  vmm_inv w T → 0 ≤ phys → VMM_MMIO_VBASE ≤ virt → virt + PAGE_SIZE < 2 ^ 64 →
  small_page w virt →
  ((size (w_avail w) < 3)%nat ∧ vmm_map_mmio w phys = Panic (panicf "vmm_map_mmio: failed to map phys 0x%lx" [PNum phys])) ∨
  (∃ w' T' es e, vmm_map_mmio w phys = Ok (virt, w') ∧ vmm_inv w' T' ∧
     mmio_next_vaddr (w_vmm w') = virt + PAGE_SIZE ∧
     wwalk w' virt = Some (es ++ [e]) ∧ Z.land e PTE_ADDR_MASK = Z.land phys PTE_ADDR_MASK ∧
     has e PTE_CACHE_DISABLE = true ∧
     eff_no_execute (es ++ [e]) = true ∧ eff_user (es ++ [e]) = false ∧
     (open_path w T virt → eff_writable (es ++ [e]) = true) ∧
     (∀ v, indices v ≠ indices virt → wwalk w' v = wwalk w v)).
Proof.
  intros virt Hinv Hp Hv Hn Hsm. unfold vmm_map_mmio. fold virt. set (w0 := set_vmm w _).
  assert (Hinv0 : vmm_inv w0 T) by by apply set_vmm_inv.
  destruct (vmm_map_spec w0 T virt phys (Z.lor (Z.lor VMM_WRITABLE VMM_NO_CACHE) VMM_NO_EXECUTE)
    Hinv0 Hsm Hp) as (ok & w' & T' & -> & Hef & Hout).
  rsimpl. destruct ok; [right | left; destruct Hout as (_ & _ & _ & Hs); split; [exact (le_n_S _ _ Hs) | done]].
  destruct Hout as ((es & _ & Hw & Ho) & _).
  set (fl := Z.lor (Z.lor VMM_WRITABLE VMM_NO_CACHE) VMM_NO_EXECUTE) in *.
  destruct (leaf_entry_bits phys fl Hp) as (_ & _ & _ & Hu & Hnx & Hm).
  exists w', T', es, (leaf_entry phys fl).
  split_and!; [reflexivity | apply Hef | | exact Hw | exact Hm | | | | |].
  - rewrite (ef_vmm _ _ _ _ _ Hef). simpl. apply u64_small.
    unfold VMM_MMIO_VBASE, PAGE_SIZE in *. lia.
  - change PTE_CACHE_DISABLE with (Z.shiftl 1 4). rewrite has_testbit by lia.
    unfold leaf_entry. by rewrite Z.lor_spec, orb_comm.
  - unfold eff_no_execute. rewrite existsb_app. simpl. by rewrite Hnx, orb_true_r.
  - unfold eff_user. rewrite forallb_app. simpl. by rewrite Hu, andb_false_r.
  - intros Hop. by apply Ho.
  - intros v Hne. by apply (ef_walk _ _ _ _ _ Hef).
Qed.

(** ** Several mappings in a row

    What a sequence of mappings and of writes to the bytes in [X] keeps, up to
    the two bump pointers; the translations of the pages in [P] may change. *)
Record grown (P X : Z → Prop) w T w' T' : Prop := {
  gr_inv : vmm_inv w' T';
  gr_lazy : lazy_regions (w_vmm w') = lazy_regions (w_vmm w);
  gr_cr3 : w_cr3 w' = w_cr3 w;
  gr_hhdm : w_hhdm w' = w_hhdm w;
  gr_avail : w_avail w' ⊆ w_avail w;
  gr_bytes x : vmm_bytes w' T' x → vmm_bytes w T x;
  gr_mem : modifies (λ x, vmm_bytes w T x ∨ X x) (w_mem w) (w_mem w');
  gr_walk v : ¬ P v → wwalk w' v = wwalk w v;
  gr_open v : open_path w T v → open_path w' T' v;
  gr_small v : small_page w v → small_page w' v;
}.

Lemma grown_refl P X w T : vmm_inv w T → grown P X w T w T.
Proof. by constructor. Qed.

Lemma grown_trans P X w T w' T' w'' T'' : grown P X w T w' T' → grown P X w' T' w'' T'' → grown P X w T w'' T''.
Proof.
  intros [Hi1 Hl1 Hc1 Hh1 Ha1 Hb1 Hx1 Hw1 Ho1 Hs1] [Hi2 Hl2 Hc2 Hh2 Ha2 Hb2 Hx2 Hw2 Ho2 Hs2].
  constructor; try congruence; auto.
  - by etransitivity.
  - etransitivity; [exact Hx1 |]. eapply modifies_mono; [|exact Hx2]. intros x [Hx|Hx]; auto.
  - intros v Hv. by rewrite Hw2, Hw1.
Qed.

Lemma grown_mono (P Q X Y : Z → Prop) w T w' T' :
  (∀ v, P v → Q v) → (∀ x, X x → Y x) → grown P X w T w' T' → grown Q Y w T w' T'.
Proof.
  intros HPQ HXY []. constructor; auto. eapply modifies_mono; [|done]. intros x [Hx|Hx]; auto.
Qed.

(** A bump and an effect. *)
Lemma effect_grown P X w T v w' T' :
  hhdm_offset v = hhdm_offset (w_vmm w) → lazy_regions v = lazy_regions (w_vmm w) →
  effect P (set_vmm w v) T w' T' → grown P X w T w' T'.
Proof.
  intros Hh Hl [Hi _ Hv Hc Hd Hhh Ha _ Hb Hx Hw Ho Hs]. constructor; try done; [by rewrite Hv|].
  eapply modifies_mono; [|exact Hx]. by left.
Qed.

(** The bytes that are not the manager's stay. *)
Lemma grown_byte P X w T w' T' x : grown P X w T w' T' → ¬ vmm_bytes w T x → ¬ X x → w_mem w' !! x = w_mem w !! x.
Proof. intros Hg Hv HX. apply (modifies_lookup _ _ _ _ (gr_mem _ _ _ _ _ _ Hg)). tauto. Qed.

(** With enough frames [vmm_map_mmio] and [vmm_alloc_guarded] succeed. *)
Lemma map_mmio_ok w T phys :
  let virt := mmio_next_vaddr (w_vmm w) in
  vmm_inv w T → 0 ≤ phys → VMM_MMIO_VBASE ≤ virt → virt + PAGE_SIZE < 2 ^ 64 →
  small_page w virt → (3 ≤ size (w_avail w))%nat →
  ∃ w' T', vmm_map_mmio w phys = Ok (virt, w') ∧ grown (same_page virt) (λ _, False) w T w' T' ∧
    w_handlers w' = w_handlers w ∧
    dynamic_next_vaddr (w_vmm w') = dynamic_next_vaddr (w_vmm w) ∧
    mmio_next_vaddr (w_vmm w') = virt + PAGE_SIZE ∧
    maps_to w T w' virt phys (Z.lor (Z.lor VMM_WRITABLE VMM_NO_CACHE) VMM_NO_EXECUTE) ∧
    (size (w_avail w) ≤ size (w_avail w') + 3)%nat.
Proof.
  pose proof (missing_le T (mmio_next_vaddr (w_vmm w))) as Hle. intros virt Hinv Hp Hv Hn Hsm Hsz. unfold vmm_map_mmio. fold virt. set (v := mk_vmm _ _ _ _).
  assert (Hinv0 : vmm_inv (set_vmm w v) T) by by apply set_vmm_inv.
  destruct (vmm_map_spec (set_vmm w v) T virt phys (Z.lor (Z.lor VMM_WRITABLE VMM_NO_CACHE) VMM_NO_EXECUTE)
    Hinv0 Hsm Hp) as (ok & w' & T' & -> & Hef & Hout).
  rsimpl. destruct ok; [|destruct Hout as (_ & _ & _ & Hs); change (w_avail (set_vmm w v)) with (w_avail w) in Hs; lia].
  destruct Hout as (Hm & _ & Hs). change (w_avail (set_vmm w v)) with (w_avail w) in Hs. fold virt in Hle.
  exists w', T'. split_and!; [done | eapply effect_grown; [| |exact Hef]; done | apply Hef | | | exact Hm | lia];
    rewrite (ef_vmm _ _ _ _ _ Hef); [done|]. simpl. apply u64_small. unfold VMM_MMIO_VBASE, PAGE_SIZE in *. lia.
Qed.

Definition guarded_pages (base n : Z) (v : Z) : Prop := ∃ k, 0 ≤ k < n ∧ same_page (base + k * PAGE_SIZE) v.

Lemma guarded_ok w T page_count flags :
  let base := dynamic_next_vaddr (w_vmm w) + PAGE_SIZE in
  let next := base + (page_count + 1) * PAGE_SIZE in
  vmm_inv w T → VMM_DYNAMIC_VBASE ≤ dynamic_next_vaddr (w_vmm w) →
  dynamic_next_vaddr (w_vmm w) mod PAGE_SIZE = 0 → 0 ≤ page_count → next < 2 ^ 64 →
  (∀ k, 0 ≤ k < page_count → small_page w (base + k * PAGE_SIZE)) →
  4 * page_count ≤ Z.of_nat (size (w_avail w)) →
  ∃ w' T', vmm_alloc_guarded w page_count flags = Ok (base, w') ∧
    grown (guarded_pages base page_count) (λ _, False) w T w' T' ∧ w_handlers w' = w_handlers w ∧
    dynamic_next_vaddr (w_vmm w') = next ∧ mmio_next_vaddr (w_vmm w') = mmio_next_vaddr (w_vmm w) ∧
    Z.of_nat (size (w_avail w)) ≤ Z.of_nat (size (w_avail w')) + 4 * page_count.
Proof.
  intros base next Hinv Hb Hm Hc Hn Hsm Hsz.
  destruct (vmm_alloc_guarded_spec w T page_count flags Hinv Hb Hm Hc Hn Hsm)
    as (r & w' & Hal & [(-> & T' & frames & _ & _ & _ & Hef & _ & _ & Hs)|(-> & _ & _ & _ & _ & Hs)]).
  - exists w', T'. split_and!; [exact Hal | eapply effect_grown; [| |exact Hef]; done | apply Hef | | | exact Hs]; by rewrite (ef_vmm _ _ _ _ _ Hef).
  - change (w_avail (set_vmm w _)) with (w_avail w) in Hs. lia.
Qed.

(** Registering a lazy region fails only when the eight slots are in use and
    then changes nothing; otherwise the pages that belong to a region are the old
    ones and those of the new region, whose flags are used for every page no
    earlier region covers. Nothing but the region table changes. *)
Theorem vmm_register_lazy_region_correct w start end_ flags :
  let r := mk_lazy_region start end_ flags true in
  let '(ok, w') := vmm_register_lazy_region w start end_ flags in
  (ok = false ↔ Forall (λ s, used s = true) (lazy_regions (w_vmm w))) ∧
  (ok = false → w' = w) ∧
  (ok = true →
    length (lazy_regions (w_vmm w')) = length (lazy_regions (w_vmm w)) ∧
    (∀ page, (∃ s, s ∈ lazy_regions (w_vmm w') ∧ in_lazy_region page s = true) ↔
       start ≤ page < end_ ∨
       ∃ s, s ∈ lazy_regions (w_vmm w) ∧ in_lazy_region page s = true) ∧
    (∀ page, start ≤ page < end_ → lazy_region_of w page = None →
       lazy_region_of w' page = Some r)) ∧
  w' = set_vmm w (set_lazy_regions (w_vmm w) (lazy_regions (w_vmm w'))).
Proof.
  intros r. unfold vmm_register_lazy_region. fold r.
  destruct (register_in_spec (lazy_regions (w_vmm w)) r) as [(l1 & s & l2 & Heq & Hs & Hl1 & ->)|[-> Hall]].
  - rewrite Heq. split_and!; [| done | | done].
    + split; [done|]. intros [_ [Hs' _]%Forall_cons]%Forall_app. congruence.
    + intros _. simpl. unfold lazy_region_of. simpl. rewrite Heq. split_and!.
      * by rewrite !length_app.
      * intros page. setoid_rewrite elem_of_app. setoid_rewrite elem_of_cons.
        assert (Hr : in_lazy_region page r = true ↔ start ≤ page < end_).
        { unfold in_lazy_region, r. simpl. rewrite andb_true_iff, Z.leb_le, Z.ltb_lt. done. }
        assert (Hs' : in_lazy_region page s = false) by (unfold in_lazy_region; by rewrite Hs).
        split.
        -- intros (x & [?|[->|?]] & Hx); [right; eauto | left; by apply Hr | right; eauto].
        -- intros [Hp|(x & [?|[->|?]] & Hx)]; [exists r; split; [auto | by apply Hr]
             | eauto | congruence | eauto].
      * intros page Hp. assert (Hr : in_lazy_region page r = true).
        { unfold in_lazy_region, r. simpl. rewrite andb_true_iff, Z.leb_le, Z.ltb_lt. done. }
        clear - Hr. induction l1 as [|x l1 IH]; simpl; [by rewrite Hr|].
        destruct (in_lazy_region page x); [done | apply IH].
  - split_and!; [done | done | done |]. by destruct w as [? ? [] ? ? ?].
Qed.
End address_space.

(** ** The kernel's machine

    The VMM over the PMM, as the kernel runs it: CR3 points to a zeroed frame
    of the small machine of Pmm.v, and a device range is registered for demand
    paging. *)

Definition ex_vmm : vmm :=
  mk_vmm ex_hhdm VMM_DYNAMIC_VBASE VMM_MMIO_VBASE
    (mk_lazy_region 0xffffffffa0000000 0xffffffffa1000000 VMM_WRITABLE true ::
     replicate 7 (mk_lazy_region 0 0 0 false)).

(** The tree of a root table without children. *)
Lemma singleton_tree (r : Z) :
  ∃ T : gmap (list Z) Z, ∀ p t, T !! p = Some t ↔ p = [] ∧ r = t.
Proof.
  exists (singletonM [] r). intros p t. rewrite lookup_singleton_Some.
  split; intros [<- <-]; split; reflexivity.
Qed.

(** A zeroed root table maps nothing and restricts nothing. *)
Lemma empty_tables (hhdm r : Z) (m : mem) :
  filled m (hhdm + r) PAGE_SIZE 0 → 0 < r < 2 ^ 52 → r mod PAGE_SIZE = 0 → 0 ≤ hhdm →
  hhdm + r + PAGE_SIZE ≤ 2 ^ 64 →
  ∃ T, (∀ p t, T !! p = Some t ↔ p = [] ∧ r = t) ∧ tables_ok hhdm r m T ∧
    (∀ x, walk m hhdm r (indices x) = None) ∧ (∀ i, 0 ≤ i < 512 → load64 m (entry_at hhdm r i) = Ok 0).
Proof.
  intros Hz Hr Hra Hh Hb. destruct (singleton_tree r) as [T Hlook]. exists T. split; [exact Hlook|].
  assert (Hentry : ∀ i, 0 ≤ i < 512 → load64 m (entry_at hhdm r i) = Ok 0).
  { intros i Hi. apply load_le_zero. intros x Hx. apply Hz.
    unfold entry_at, in_range, PAGE_SIZE in *. lia. }
  assert (Hm : mapped m (hhdm + r) PAGE_SIZE) by (intros x Hx; exists 0; by apply Hz).
  split_and!; [| |exact Hentry].
  - constructor.
    + by apply Hlook.
    + intros p t i [-> <-]%Hlook _ Hi. exists 0. split; [by apply Hentry|]. simpl.
      destruct (T !! [i]) eqn:Hi'; [|done]. by apply Hlook in Hi' as [? _].
    + intros p t [-> <-]%Hlook. split; [simpl; lia | done].
    + intros p i t [Hp _]%Hlook. by destruct p.
    + intros p q t [-> _]%Hlook [-> _]%Hlook. done.
    + intros p t [-> <-]%Hlook. split_and!; [lia | lia | done | lia | done].
  - intros x. rewrite indices_eq, walk_cons. by rewrite Hentry by (apply Z.mod_pos_bound; lia).
Qed.

(** A machine whose CR3 points to a zeroed frame outside the allocator maps
    nothing. *)
Lemma empty_machine {A} `{FrameAllocator A} (a : A) (m : mem) (v : vmm) (r : Z) :
  fa_inv a m → hhdm_offset v = fa_hhdm a → fa_managed a m r → r ∉ fa_avail a m →
  filled m (fa_hhdm a + r) PAGE_SIZE 0 →
  let w := mk_world m a v r [] ∅ in
  ∃ T, vmm_inv w T ∧ (∀ x, wwalk w x = None) ∧ (∀ x, open_path w T x).
Proof.
  intros Hinv Hh Hman Hna Hz w.
  destruct (fa_managed_law a m r Hinv Hman) as (Hr & Hra & Hh0 & Hrh & Hrm & Hrp).
  destruct (empty_tables (fa_hhdm a) r m Hz Hr Hra Hh0 Hrh) as (T & Hlook & Htab & Hwalk & Hentry). exists T.
  assert (Hroot : w_root w = r) by (apply aligned_masked; [lia | done]).
  split_and!.
  - constructor; change (w_hhdm w) with (fa_hhdm a); rewrite ?Hroot; [done | done | done | done |].
    intros p t [-> <-]%Hlook. by split.
  - intros x. unfold wwalk. rewrite Hroot. apply Hwalk.
  - intros x q i rest t e Hidx Hne [-> <-]%Hlook He Hpr. unfold entry in He.
    change (w_hhdm w) with (fa_hhdm a) in He. rewrite indices_eq in Hidx. injection Hidx as <- _.
    rewrite Hentry in He by (apply Z.mod_pos_bound; lia). by injection He as <-.
Qed.

Lemma ex_machine :
  ∃ (w : world pmm) (T : gmap (list Z) Z), vmm_inv w T ∧ w_vmm w = ex_vmm ∧
    size (w_avail w) = 5%nat ∧ (∀ v, wwalk w v = None) ∧ (∀ v, open_path w T v).
Proof.
  destruct (pmm_alloc_law ex_pmm ex_mem ex_inv) as (r & s & m & _ & Hr).
  assert (Hav0 : size (avail ex_pmm ex_mem) = 6%nat).
  { unfold avail. rewrite ex_free_set. reflexivity. }
  destruct Hr as [(He & _)|(Hin & Hinv & Hav & Hpriv & Hh & Hman & Hz & Hmod)].
  { rewrite He in Hav0. discriminate Hav0. }
  destruct (@empty_machine pmm pmm_frame_allocator s m ex_vmm r Hinv) as (T & HT & Hw & Ho).
  - symmetry. exact Hh.
  - apply Hman, avail_managed; [exact ex_inv | exact Hin].
  - change (r ∉ avail s m). rewrite Hav. apply not_elem_of_difference. right.
    apply elem_of_singleton. reflexivity.
  - change (filled m (Pmm.hhdm_offset s + r) PAGE_SIZE 0). rewrite Hh. exact Hz.
  - eexists _, T. split; [exact HT|]. split; [reflexivity|]. split_and!; [|exact Hw | exact Ho].
    change (size (avail s m) = 5%nat). rewrite Hav, size_difference by (apply singleton_subseteq_l; exact Hin).
    rewrite Hav0, size_singleton. reflexivity.
Qed.

(** The same machine with the facts the witnesses use. *)
Lemma ex_machine_small (w : world pmm) v : (∀ v, wwalk w v = None) → small_page w v.
Proof. intros Hw es Hes. by rewrite Hw in Hes. Qed.

Lemma vmm_map_correct_witness :
  ∃ (w w' : world pmm) es,
    vmm_map w 0x400000 0xfee00000 VMM_WRITABLE = Ok (true, w') ∧
    wwalk w' 0x400000 = Some (es ++ [leaf_entry 0xfee00000 VMM_WRITABLE]) ∧
    eff_writable (es ++ [leaf_entry 0xfee00000 VMM_WRITABLE]) = true ∧
    eff_user (es ++ [leaf_entry 0xfee00000 VMM_WRITABLE]) = false.
Proof.
  destruct ex_machine as (w & T & Hinv & _ & Hsize & Hw & Ho).
  destruct (vmm_map_correct w T 0x400000 0xfee00000 VMM_WRITABLE Hinv (ex_machine_small w _ Hw))
    as (ok & w' & T' & Hmap & _ & Hok & _); [lia|]. destruct ok.
  - destruct Hok as (es & Hwk & _ & Hp). exists w, w', es.
    split; [exact Hmap|]. split; [exact Hwk|].
    destruct (Hp (Ho _)) as (H1 & H2 & _). split; [exact H1 | exact H2].
  - exfalso. destruct Hok as (_ & Hs & _). rewrite Hsize in Hs. lia.
Defined.

Lemma vmm_unmap_correct_witness :
  ∃ w w' : world pmm, is_Some (wwalk w 0x400000) ∧ vmm_unmap w 0x400000 = Ok w' ∧ wwalk w' 0x400000 = None ∧
    w_invlpg w' = 0x400000 :: w_invlpg w.
Proof.
  destruct ex_machine as (w & T & Hinv & _ & Hsize & Hw & _).
  destruct (vmm_map_spec w T 0x400000 0x2000 VMM_USER Hinv (ex_machine_small w _ Hw))
    as (ok & w1 & T1 & _ & Hef & Hok); [lia|].
  destruct ok; [|destruct Hok as (_ & _ & _ & Hs); rewrite Hsize in Hs; lia].
  destruct Hok as ((es & _ & Hes & _) & _).
  destruct (vmm_unmap_correct w1 T1 0x400000 (ef_inv _ _ _ _ _ Hef)) as (w2 & Hu & _ & Hn & _ & _ & Hl).
  { apply (ef_small _ _ _ _ _ Hef), ex_machine_small, Hw. }
  exists w1, w2. split; [by eexists|]. split; [exact Hu|]. split; [exact Hn | exact (Hl _ Hes)].
Defined.

Lemma vmm_map_unmap_roundtrip_witness :
  ∃ w w1 w2 : world pmm, vmm_map w 0x400000 0x2000 VMM_USER = Ok (true, w1) ∧
    vmm_unmap w1 0x400000 = Ok w2 ∧ ∀ v, wwalk w2 v = wwalk w v.
Proof.
  destruct ex_machine as (w & T & Hinv & _ & Hsize & Hw & _).
  destruct (vmm_map_spec w T 0x400000 0x2000 VMM_USER Hinv (ex_machine_small w _ Hw))
    as (ok & w1 & T1 & Hmap & Hef & Hok); [lia|].
  destruct ok; [|destruct Hok as (_ & _ & _ & Hs); rewrite Hsize in Hs; lia].
  destruct (vmm_unmap_spec w1 T1 0x400000 (ef_inv _ _ _ _ _ Hef)) as (w2 & Hu & _).
  { apply (ef_small _ _ _ _ _ Hef), ex_machine_small, Hw. }
  exists w, w1, w2. split; [exact Hmap|]. split; [exact Hu|].
  apply (vmm_map_unmap_roundtrip w T 0x400000 0x2000 VMM_USER w1 w2 Hinv (Hw _)); [lia | exact Hmap | exact Hu].
Defined.

Lemma vmm_page_fault_correct_witness :
  ∃ (w w' : world pmm) es f,
    vmm_handle_page_fault w 0xffffffffa0000123 2 = Ok (true, w') ∧
    wwalk w' 0xffffffffa0000123 = Some (es ++ [leaf_entry f VMM_WRITABLE]).
Proof.
  destruct ex_machine as (w & T & Hinv & Hv & Hsize & Hw & _).
  assert (Hreg : lazy_region_of w (0xffffffffa0000123 / 4096 * 4096) =
    Some (mk_lazy_region 0xffffffffa0000000 0xffffffffa1000000 VMM_WRITABLE true)).
  { unfold lazy_region_of. rewrite Hv. vm_compute. reflexivity. }
  destruct (vmm_page_fault_correct w T 0xffffffffa0000123 2 Hinv) as
    (ok & w' & T' & Hpf & _ & _ & _ & Hfail & Hok & _); [lia | by apply ex_machine_small |].
  destruct ok.
  - destruct (Hok eq_refl) as (r & f & es & Hr & Hwk & _). rewrite Hreg in Hr. injection Hr as <-.
    exists w, w', es, f. split; [exact Hpf | exact Hwk].
  - exfalso. destruct (Hfail eq_refl) as (Hs & _); [rewrite Hreg; by eexists | reflexivity |].
    rewrite Hsize in Hs. lia.
Defined.

Lemma vmm_alloc_guarded_correct_witness :
  ∃ (w w' : world pmm) T f,
    vmm_alloc_guarded w 1 VMM_WRITABLE = Ok (0xffffffffb0001000, w') ∧
    maps_to w T w' 0xffffffffb0001000 f VMM_WRITABLE ∧
    wwalk w' 0xffffffffb0000000 = None ∧ wwalk w' 0xffffffffb0002000 = None.
Proof.
  destruct ex_machine as (w & T & Hinv & Hv & Hsize & Hw & _).
  assert (Hd : dynamic_next_vaddr (w_vmm w) = VMM_DYNAMIC_VBASE) by (rewrite Hv; reflexivity).
  destruct (vmm_alloc_guarded_correct w T 1 VMM_WRITABLE Hinv) as
    (r & w' & T' & Hg & _ & _ & Hr & _ & _ & _ & Hguard); rewrite ?Hd.
  - lia.
  - reflexivity.
  - lia.
  - reflexivity.
  - intros k _. by apply ex_machine_small.
  - destruct Hr as [(_ & Hs & _)|(-> & frames & Hlen & _ & _ & Hmaps)].
    + rewrite Hsize in Hs. lia.
    + rewrite Hd in Hg, Hmaps. destruct frames as [|f frames]; [discriminate Hlen|].
      exists w, w', T, f. split; [exact Hg|]. split; [exact (Hmaps 0%nat f eq_refl)|].
      rewrite Hd in Hguard. exact (Hguard (Hw _) (Hw _)).
Defined.

Lemma vmm_map_mmio_correct_witness :
  ∃ w w' : world pmm, vmm_map_mmio w 0xfee00000 = Ok (VMM_MMIO_VBASE, w') ∧
    mmio_next_vaddr (w_vmm w') = VMM_MMIO_VBASE + PAGE_SIZE.
Proof.
  destruct ex_machine as (w & T & Hinv & Hv & Hsize & Hw & _). exists w.
  assert (Hd : mmio_next_vaddr (w_vmm w) = VMM_MMIO_VBASE) by (rewrite Hv; reflexivity).
  destruct (vmm_map_mmio_correct w T 0xfee00000 Hinv) as [[Hs _]|(w' & T' & es & e & Hm & _ & Hn & _)];
    rewrite ?Hd; [lia | lia | reflexivity | by apply ex_machine_small | rewrite Hsize in Hs; lia |].
  exists w'. rewrite Hd in Hm, Hn. split; [exact Hm | exact Hn].
Defined.
