(* ===== verification/VmmCalls.v ===== *)
(** * Any sequence of calls of the virtual memory manager

    The functions of vmm.h as one type of calls and their execution one after
    another: with arguments of their types, and while the two bump pointers have
    room below the end of the address space, no sequence of them leaves the
    well-formed address spaces. *)

From S2P Require Import Prelude Word Mem BootInfo FrameAlloc Pmm Paging Vmm AddressSpace.

(** ** Calls *)

Section calls.
Context {A : Type} `{FrameAllocator A}.
Implicit Types (w : world A) (T : gmap (list Z) Z).

(** The functions of vmm.h that change the state, [vmm_handle_page_fault] as
    the page-fault handler calls it, and [pmm_alloc_frame] by anybody. *)
Inductive call :=
  | Map (virt phys flags : Z)
  | Unmap (virt : Z)
  | AllocGuarded (page_count flags : Z)
  | MapMmio (phys : Z)
  | RegisterLazy (start end_ flags : Z)
  | PageFault (addr error_code : Z)
  | AllocFrame.

(** A call, whatever it returns. *)
Definition do_call (c : call) (w : world A) : res (world A) :=
  match c with
  | Map virt phys flags => '(_, w) ← vmm_map w virt phys flags; Ok w
  | Unmap virt => vmm_unmap w virt
  | AllocGuarded page_count flags => '(_, w) ← vmm_alloc_guarded w page_count flags; Ok w
  | MapMmio phys => '(_, w) ← vmm_map_mmio w phys; Ok w
  | RegisterLazy start end_ flags => Ok (vmm_register_lazy_region w start end_ flags).2
  | PageFault addr error_code => '(_, w) ← vmm_handle_page_fault w addr error_code; Ok w
  | AllocFrame => '(_, w) ← pmm_alloc w; Ok w
  end.

Fixpoint do_calls (l : list call) (w : world A) : res (world A) :=
  match l with
  | [] => Ok w
  | c :: l => w ← do_call c w; do_calls l w
  end.

(** ** Specification *)

(** Where the tables have no large pages: not in the bootloader's direct map,
    but wherever the kernel allocates addresses. *)
Context (S : Z → Prop) (HS : ∀ v, VMM_DYNAMIC_VBASE ≤ v < 2 ^ 64 → S v).

(** An address space: a tree of page tables apart from the free frames, four
    levels deep for what it maps in [S], and the two bump pointers in their
    ranges. *)
Record well_formed w T : Prop := {
  wf_inv : vmm_inv w T;
  wf_small v : S v → small_page w v;
  wf_dynamic : VMM_DYNAMIC_VBASE ≤ dynamic_next_vaddr (w_vmm w) ∧ dynamic_next_vaddr (w_vmm w) mod PAGE_SIZE = 0;
  wf_mmio : VMM_MMIO_VBASE ≤ mmio_next_vaddr (w_vmm w);
}.

(** The arguments are values of their types, and addresses are in [S]. *)
Definition call_ok (c : call) : Prop :=
  match c with
  | Map virt phys _ => S virt ∧ 0 ≤ phys
  | Unmap virt => S virt
  | MapMmio phys => 0 ≤ phys
  | AllocGuarded page_count _ => 0 ≤ page_count
  | PageFault addr _ => 0 ≤ addr < 2 ^ 64 ∧ S (addr / 4096 * 4096)
  | _ => True
  end.

(** How many pages a call takes of each of the two ranges, guard pages
    included. *)
Definition dynamic_use (c : call) : Z := match c with AllocGuarded page_count _ => page_count + 2 | _ => 0 end.
Definition mmio_use (c : call) : Z := match c with MapMmio _ => 1 | _ => 0 end.
Definition dynamic_total (l : list call) : Z := foldr (λ c, Z.add (dynamic_use c)) 0 l.
Definition mmio_total (l : list call) : Z := foldr (λ c, Z.add (mmio_use c)) 0 l.

(** The pages whose translation a call may change: those it names, or pages of
    the two ranges. *)
Definition in_ranges (v : Z) : Prop := ∃ u, VMM_DYNAMIC_VBASE ≤ u < 2 ^ 64 ∧ same_page u v.
Definition call_page (c : call) (v : Z) : Prop :=
  match c with
  | Map virt _ _ | Unmap virt => same_page virt v
  | PageFault addr _ => same_page (addr / 4096 * 4096) v
  | AllocGuarded _ _ | MapMmio _ => in_ranges v
  | _ => False
  end.

Definition out_of_tables (c : call) (msg : panic_call) : Prop :=
  ∃ phys, c = MapMmio phys ∧ msg = panicf "vmm_map_mmio: failed to map phys 0x%lx" [PNum phys].

(** ** Lemmas *)

(** What a call leaves, when the bump pointers move by [d] and [m] pages. *)
Definition kept_by (P : Z → Prop) (d m : Z) w w' : Prop :=
  (∃ T', well_formed w' T') ∧ dynamic_next_vaddr (w_vmm w') = dynamic_next_vaddr (w_vmm w) + d * PAGE_SIZE ∧
  mmio_next_vaddr (w_vmm w') = mmio_next_vaddr (w_vmm w) + m * PAGE_SIZE ∧ ∀ v, ¬ P v → wwalk w' v = wwalk w v.

Lemma kept_by_refl P w T : well_formed w T → kept_by P 0 0 w w.
Proof. intros Hw. split_and!; [by exists T | lia | lia | done]. Qed.

Lemma effect_kept P w T w' T' : well_formed w T → effect P w T w' T' → kept_by P 0 0 w w'.
Proof.
  intros [_ Hs [Hd Ha] Hm] Hef. pose proof (ef_vmm _ _ _ _ _ Hef) as Hv.
  split_and!; [|rewrite Hv; lia | rewrite Hv; lia | apply Hef]. exists T'.
  constructor; rewrite ?Hv; [apply Hef | intros v HSv; by apply (ef_small _ _ _ _ _ Hef), Hs | done | done].
Qed.

Lemma guarded_kept w T page_count flags :
  well_formed w T → 0 ≤ page_count → dynamic_next_vaddr (w_vmm w) + (page_count + 2) * PAGE_SIZE < 2 ^ 64 →
  ∃ r w', vmm_alloc_guarded w page_count flags = Ok (r, w') ∧ kept_by in_ranges (page_count + 2) 0 w w'.
Proof.
  intros [Hinv Hs [Hd Ha] Hm] Hc Hn.
  destruct (vmm_alloc_guarded_spec w T page_count flags Hinv Hd Ha Hc) as (r & w' & Hal & Hout);
    [unfold PAGE_SIZE in *; lia | intros k Hk; apply Hs, HS; unfold PAGE_SIZE in *; lia |].
  set (base := dynamic_next_vaddr (w_vmm w) + PAGE_SIZE) in *. set (w0 := set_vmm w _) in *. exists r, w'. split; [done|].
  assert (Hr : ∀ v, (∃ k, 0 ≤ k < page_count ∧ same_page (base + k * PAGE_SIZE) v) → in_ranges v).
  { intros v (k & Hk & Hsp). exists (base + k * PAGE_SIZE). split; [unfold base, PAGE_SIZE in *; lia | done]. }
  assert (Hkept : ∀ T', vmm_inv w' T' → w_vmm w' = w_vmm w0 → (∀ v, small_page w0 v → small_page w' v) →
    (∀ v, ¬ (∃ k, 0 ≤ k < page_count ∧ same_page (base + k * PAGE_SIZE) v) → wwalk w' v = wwalk w0 v) →
    kept_by in_ranges (page_count + 2) 0 w w').
  { intros T' Hi Hv Hsm Hw. split_and!; [exists T'; constructor | | |]; rewrite ?Hv; cbn [w0 set_vmm w_vmm dynamic_next_vaddr mmio_next_vaddr].
    - exact Hi.
    - intros v HSv. by apply Hsm, Hs.
    - split; [unfold base, PAGE_SIZE in *; lia|].
      replace (base + (page_count + 1) * PAGE_SIZE) with (dynamic_next_vaddr (w_vmm w) + (page_count + 2) * PAGE_SIZE) by (unfold base; lia).
      by rewrite Z.mod_add.
    - done.
    - unfold base. lia.
    - lia.
    - intros v Hv'. rewrite Hw; [done|]. intros Hp. by apply Hv', Hr. }
  destruct Hout as [(_ & T' & frames & _ & _ & _ & Hef & _ & _ & _)|(_ & [T' HT'] & Hv & _ & Hw & Hsm & _)].
  - apply (Hkept T'); [apply Hef | apply Hef | apply Hef | intros v; apply (ef_walk _ _ _ _ _ Hef)].
  - by apply (Hkept T').
Qed.

Lemma mmio_kept w T phys :
  well_formed w T → 0 ≤ phys → mmio_next_vaddr (w_vmm w) + PAGE_SIZE < 2 ^ 64 →
  vmm_map_mmio w phys = Panic (panicf "vmm_map_mmio: failed to map phys 0x%lx" [PNum phys]) ∨
  ∃ r w', vmm_map_mmio w phys = Ok (r, w') ∧ kept_by in_ranges 0 1 w w'.
Proof.
  intros [Hinv Hs [Hd Ha] Hm] Hp Hn. unfold vmm_map_mmio. set (virt := mmio_next_vaddr (w_vmm w)) in *. set (v := mk_vmm _ _ _ _).
  assert (Hnext : u64 (virt + PAGE_SIZE) = virt + PAGE_SIZE) by (apply u64_small; unfold VMM_MMIO_VBASE, PAGE_SIZE in *; lia).
  assert (Hinv0 : vmm_inv (set_vmm w v) T) by by apply set_vmm_inv.
  destruct (vmm_map_spec (set_vmm w v) T virt phys (Z.lor (Z.lor VMM_WRITABLE VMM_NO_CACHE) VMM_NO_EXECUTE) Hinv0)
    as (ok & w' & T' & -> & Hef & _); [apply Hs, HS; unfold VMM_MMIO_VBASE, VMM_DYNAMIC_VBASE, PAGE_SIZE in *; lia | done |].
  rsimpl. destruct ok; [right | by left]. exists virt, w'. split; [done|].
  pose proof (ef_vmm _ _ _ _ _ Hef) as Hv. split_and!; [exists T'; constructor | | |]; rewrite ?Hv; cbn [v set_vmm w_vmm dynamic_next_vaddr mmio_next_vaddr].
  - apply Hef.
  - intros u HSu. by apply (ef_small _ _ _ _ _ Hef), Hs.
  - done.
  - rewrite Hnext. unfold PAGE_SIZE. lia.
  - lia.
  - rewrite Hnext. lia.
  - intros u Hu. apply (ef_walk _ _ _ _ _ Hef). intros Hsp. apply Hu. exists virt. split; [unfold VMM_MMIO_VBASE, VMM_DYNAMIC_VBASE, PAGE_SIZE in *; lia | done].
Qed.

(** One call. *)
Lemma do_call_spec c w T :
  well_formed w T → call_ok c → dynamic_next_vaddr (w_vmm w) + dynamic_use c * PAGE_SIZE < 2 ^ 64 →
  mmio_next_vaddr (w_vmm w) + mmio_use c * PAGE_SIZE < 2 ^ 64 →
  (∃ msg, out_of_tables c msg ∧ do_call c w = Panic msg) ∨
  ∃ w', do_call c w = Ok w' ∧ kept_by (call_page c) (dynamic_use c) (mmio_use c) w w'.
Proof.
  intros Hw Hc Hd Hm. pose proof Hw as [Hinv Hs _ _].
  destruct c as [virt phys flags|virt|n flags|phys|a b flags|addr ec|]; cbn [call_ok dynamic_use mmio_use do_call call_page] in *.
  - right. destruct (vmm_map_spec w T virt phys flags Hinv (Hs _ (proj1 Hc)) (proj2 Hc)) as (ok & w' & T' & -> & Hef & _). exists w'. split; [done|]. by eapply effect_kept.
  - right. destruct (vmm_unmap_spec w T virt Hinv (Hs _ Hc)) as (w' & -> & Hef & _). exists w'. split; [done|]. by eapply effect_kept.
  - right. destruct (guarded_kept w T n flags Hw Hc Hd) as (r & w' & -> & Hk). by exists w'.
  - destruct (mmio_kept w T phys Hw Hc) as [-> | (r & w' & -> & Hk)]; [lia | left; eexists; split; [by exists phys | done] | right; by exists w'].
  - right. eexists. split; [done|]. pose proof (vmm_register_lazy_region_correct w a b flags) as Hr. cbv zeta in Hr.
    destruct (vmm_register_lazy_region w a b flags) as [ok w']. destruct Hr as (_ & _ & _ & Hw'). cbn [snd].
    rewrite Hw'. split_and!; [exists T; constructor | | |]; cbn [set_vmm set_lazy_regions w_vmm dynamic_next_vaddr mmio_next_vaddr];
      [by apply set_vmm_inv | exact Hs | apply Hw | apply Hw | lia | lia | done].
  - right. destruct (vmm_handle_page_fault_spec w T addr ec Hinv (proj1 Hc) (Hs _ (proj2 Hc))) as (ok & w' & -> & Hout). exists w'. split; [done|].
    destruct Hout as [|?|?|? ? ? T' ? ? ? Hef|? ? ? T' ? ? ? Hef]; [by eapply kept_by_refl.. | |]; by eapply effect_kept.
  - right. destruct (world_alloc_spec w T Hinv) as (f & w' & -> & [(_ & _ & ->)|(_ & _ & Hex & _)]); eexists; (split; [done|]).
    + by eapply kept_by_refl.
    + eapply effect_kept; [exact Hw | by apply extends_effect].
Qed.

Lemma use_nonneg l : Forall call_ok l → 0 ≤ dynamic_total l ∧ 0 ≤ mmio_total l.
Proof.
  induction 1 as [|c l Hc _ IH]; cbn [dynamic_total mmio_total foldr]; [lia|].
  unfold dynamic_total, mmio_total in IH. destruct c; cbn [dynamic_use mmio_use call_ok] in *; lia.
Qed.

(** ** Property *)

(** C24: the address space is well typed, and stays so. Whatever sequence of
    mappings, unmappings, guarded allocations, device mappings, lazy regions, page
    faults and frame allocations is performed on a well-formed address space, with
    arguments of their types, away from large pages of the bootloader, and with
    room for the pages it takes of the two bump ranges, no call reads or writes outside the machine's memory or goes wrong
    in any other way but the documented panic of [vmm_map_mmio], with the address
    that it was to map; the tables are
    a well-formed tree again, apart from every free frame; and a page that no
    call names, outside the two ranges, is translated as before. *)
Theorem vmm_calls_well_formed l w T :
  well_formed w T → Forall call_ok l →
  dynamic_next_vaddr (w_vmm w) + dynamic_total l * PAGE_SIZE < 2 ^ 64 →
  mmio_next_vaddr (w_vmm w) + mmio_total l * PAGE_SIZE < 2 ^ 64 →
  (∃ msg, Exists (λ c, out_of_tables c msg) l ∧ do_calls l w = Panic msg) ∨
  ∃ w' T', do_calls l w = Ok w' ∧ well_formed w' T' ∧
    ∀ v, ¬ Exists (λ c, call_page c v) l → wwalk w' v = wwalk w v.
Proof.
  intros Hw Hl. revert w T Hw. induction Hl as [|c l Hc Hl IH]; intros w T Hw Hd Hm.
  { right. by exists w, T. }
  destruct (use_nonneg l Hl) as [Hn1 Hn2]. cbn [dynamic_total mmio_total foldr] in Hd, Hm.
  change (foldr _ 0 l) with (dynamic_total l) in Hd. change (foldr _ 0 l) with (mmio_total l) in Hm. cbn [do_calls].
  destruct (do_call_spec c w T Hw Hc) as [(msg & Ho & ->)|(w1 & -> & [T1 Hw1] & Hd1 & Hm1 & Hk1)];
    [unfold PAGE_SIZE in *; lia.. | left; exists msg; split; [by left | done] |]. cbn [mbind res_bind].
  destruct (IH w1 T1 Hw1) as [(msg & Ho & Hp)|(w' & T' & Hok & Hw' & Hk)]; [rewrite Hd1; lia | rewrite Hm1; lia | left; exists msg; split; [by right | done] |].
  right. exists w', T'. split_and!; [done | done |]. intros v Hv. rewrite Hk, Hk1; [done | |]; intros Hp; apply Hv; [by left | by right].
Qed.
End calls.

(** ** Witness *)

Lemma vmm_calls_well_formed_witness :
  ∃ (w w' : world pmm) T', do_calls [RegisterLazy 0x400000 0x500000 VMM_WRITABLE; PageFault 0x401234 2; Map 0x500000 0x7000 VMM_USER;
    AllocGuarded 4 VMM_WRITABLE; Unmap 0x401000; AllocFrame] w = Ok w' ∧ well_formed (λ _, True) w' T'.
Proof.
  destruct ex_machine as (w & T & Hinv & Hv & _ & Hw & _). exists w.
  destruct (vmm_calls_well_formed (λ _, True) (λ _ _, I) [RegisterLazy 0x400000 0x500000 VMM_WRITABLE; PageFault 0x401234 2; Map 0x500000 0x7000 VMM_USER;
    AllocGuarded 4 VMM_WRITABLE; Unmap 0x401000; AllocFrame] w T) as [(msg & Ho & _)|(w' & T' & Hok & Hw' & _)].
  - constructor; [exact Hinv | intros v _; by apply ex_machine_small | rewrite Hv; by vm_compute | rewrite Hv; by vm_compute].
  - repeat (constructor; [cbn; lia|]); constructor.
  - rewrite Hv. by vm_compute.
  - rewrite Hv. by vm_compute.
  - exfalso. repeat (apply Exists_cons in Ho as [(p & Hp & _)|Ho]; [discriminate Hp|]). by apply Exists_nil in Ho.
  - exists w', T'. split; [exact Hok | exact Hw'].
Defined.
