(* ===== verification/Demand.v ===== *)
(** * Demand paging (kernel/arch/x86_64/mm/vmm.c): what a lazy region is to its
      users

    A range registered with [vmm_register_lazy_region] starts with no frame at
    all: the first access to each page faults, the handler maps a zeroed frame
    and the instruction restarts. The theorems say that code which reads and
    writes such a range sees plain zero-initialised memory; Heap.v relies on
    it. The processor translates by its page walk. *)

From S2P Require Import Prelude Word Mem FrameAlloc Pmm Paging Isr Vmm AddressSpace.

(** ** The processor's accesses *)

(** The bits of the error code of a page fault (SDM Vol. 3A, 4.7): the page was
    present, the access was a write. *)
Definition fault_code (present write : bool) : Z :=
  Z.lor (if present then 1 else 0) (if write then 2 else 0).

(** What the processor and the stub save of the code whose access to [v] faults:
    its registers, its address and its flags are the code's own business. *)
Class Trap : Set := trap_registers : Z → interrupt_frame.

Definition fault_frame `{Trap} (v code : Z) : interrupt_frame :=
  let r := trap_registers v in
  mk_frame (r15 r) (r14 r) (r13 r) (r12 r) (r11 r) (r10 r) (r9 r) (r8 r) (rbp r) (rdi r) (rsi r) (rdx r)
    (rcx r) (rbx r) (rax r) 14 code (rip r) (cs r) (rflags r).

Section access.
Context {A : Type} `{FrameAllocator A} {TR : Trap}.
Implicit Types w : world A.

(** A supervisor's access to the byte at [v]: the physical address, or the
    error code of the page fault. Large pages are not translated here; no
    region of vmm.c has one. *)
Definition page_access w (v : Z) (write : bool) : Z + Z :=
  match wwalk w v with
  | None => inr (fault_code false write)
  | Some es =>
      if write && negb (eff_writable es) then inr (fault_code true write)
      else inl (Z.land (List.last es 0) PTE_ADDR_MASK + v mod PAGE_SIZE)
  end.

(** An instruction that accesses [v] restarts when the handler of the page
    fault returns. *)
Fixpoint virt_access (fuel : nat) w (v : Z) (write : bool) : res (Z * world A) :=
  match fuel with
  | O => Fuel
  | S fuel =>
      match page_access w v write with
      | inl phys => Ok (phys, w)
      | inr error_code => w ← page_fault_isr w v (fault_frame v error_code); virt_access fuel w v write
      end
  end.

(** One fault is enough. *)
Definition access_fuel : nat := 2.

Definition virt_load w (v : Z) : res (Z * world A) :=
  '(phys, w) ← virt_access access_fuel w v false;
  b ← load8 (w_mem w) (w_hhdm w + phys);
  Ok (b, w).

Definition virt_store w (v b : Z) : res (world A) :=
  '(phys, w) ← virt_access access_fuel w v true;
  m ← store8 (w_mem w) (w_hhdm w + phys) b;
  Ok (set_mem w m).

(** A store of the [n] bytes that [m] has at [a]. *)
Definition store_through w (m : mem) (a n : Z) : res (world A) :=
  for_range 0 n (λ i w, b ← load8 m (a + i); virt_store w (a + i) b) w.

(** A client of the range: a sequence of byte accesses. *)
Inductive access : Set :=
  | Load (v : Z)
  | Store (v b : Z).

Definition address_of (x : access) : Z := match x with Load v => v | Store v _ => v end.

Definition virt_step w (x : access) : res (list Z * world A) :=
  match x with
  | Load v => '(b, w) ← virt_load w v; Ok ([b], w)
  | Store v b => w ← virt_store w v b; Ok ([], w)
  end.

(** The panic of an access to a page that the handler cannot map. *)
Definition access_panic (v : Z) (write : bool) : panic_call :=
  panic_frame (fault_frame v (fault_code false write)).

Definition step_panic (x : access) : panic_call :=
  match x with Load v => access_panic v false | Store v _ => access_panic v true end.

(** The bytes read, in order. *)
Fixpoint virt_run (l : list access) w : res (list Z * world A) :=
  match l with
  | [] => Ok ([], w)
  | x :: l => '(o, w) ← virt_step w x; '(os, w) ← virt_run l w; Ok (o ++ os, w)
  end.
End access.

(** ** Specification: plain memory *)

Definition plain_step (m : Z → Z) (x : access) : list Z * (Z → Z) :=
  match x with
  | Load v => ([m v], m)
  | Store v b => ([], λ u, if u =? v then b else m u)
  end.

Fixpoint plain_run (l : list access) (m : Z → Z) : list Z * (Z → Z) :=
  match l with
  | [] => ([], m)
  | x :: l => let '(o, m) := plain_step m x in let '(os, m) := plain_run l m in (o ++ os, m)
  end.

Section region.
Context {A : Type} `{FrameAllocator A}.
Implicit Types (w : world A) (T : gmap (list Z) Z).

(** The frame behind the page of [v], and the byte a user of the region sees at
    [v]: 0 as long as there is no frame. *)
Definition frame_of w (v : Z) : option Z := (λ es, Z.land (List.last es 0) PTE_ADDR_MASK) <$> wwalk w v.

Definition contents w (v : Z) : Z :=
  match frame_of w v with
  | Some f => default 0 (w_mem w !! (w_hhdm w + f + v mod PAGE_SIZE))
  | None => 0
  end.

(** The pages of [lo, hi) that have no frame yet. *)
Definition pages (lo hi : Z) : gset Z := list_to_set (seqZ (lo / PAGE_SIZE) (hi / PAGE_SIZE - lo / PAGE_SIZE)).
Definition untouched w (lo hi : Z) : gset Z := filter (λ p, wwalk w (p * PAGE_SIZE) = None) (pages lo hi).

(** The range is covered by writable lazy regions; each of its mapped pages has
    a writable frame of its own that nobody else touches. *)
Record demand_inv w T (lo hi : Z) : Prop := {
  di_vmm : vmm_inv w T;
  di_range : 0 ≤ lo ∧ hi ≤ 2 ^ 64 ∧ hi - lo ≤ 2 ^ 48 ∧ lo mod PAGE_SIZE = 0 ∧ hi mod PAGE_SIZE = 0;
  di_region p : lo ≤ p < hi → p mod PAGE_SIZE = 0 →
    ∃ r, lazy_region_of w p = Some r ∧ has (flags r) VMM_WRITABLE = true;
  di_small v : lo ≤ v < hi → small_page w v;
  di_open v : lo ≤ v < hi → open_path w T v;
  di_frame v es f : lo ≤ v < hi → wwalk w v = Some es → frame_of w v = Some f →
    eff_writable es = true ∧ fa_managed (w_alloc w) (w_mem w) f ∧ owned w T f;
  di_own u v f : lo ≤ u < hi → lo ≤ v < hi → frame_of w u = Some f → frame_of w v = Some f →
    u / PAGE_SIZE = v / PAGE_SIZE;
}.
End region.

(** ** Lemmas *)

Section lemmas.
Context {A : Type} `{FrameAllocator A} {TR : Trap}.
Implicit Types (w : world A) (T : gmap (list Z) Z).

#[local] Opaque walk indices.

(** Writing to a frame that nobody else touches. *)
Lemma outside_write w T m' (X : Z → Prop) :
  vmm_inv w T → modifies X (w_mem w) m' → (∀ x, X x → ¬ vmm_bytes w T x) →
  let w' := set_mem w m' in
  vmm_inv w' T ∧ (∀ v, wwalk w' v = wwalk w v) ∧ w_avail w' = w_avail w ∧
  (∀ q, fa_managed (w_alloc w') (w_mem w') q ↔ fa_managed (w_alloc w) (w_mem w) q) ∧
  (∀ v, open_path w T v → open_path w' T v).
Proof.
  intros Hinv Hmod HX w'. pose proof Hinv as [Hal Hh Hnn Htab Hown].
  destruct (fa_frame_law (w_alloc w) (w_mem w) m' X Hal Hmod) as (Hal' & Hav & Hman).
  { intros x Hx Hp. apply (HX x Hx). by left. }
  assert (HXt : ∀ x, X x → ¬ table_bytes (w_hhdm w) T x).
  { intros x Hx Ht. apply (HX x Hx). by right; right. }
  assert (Hwalk : ∀ v, wwalk w' v = wwalk w v).
  { intros v. unfold wwalk, w_root, w_hhdm. simpl. eapply walk_modifies; [exact Htab | exact Hmod | exact HXt | apply indices_length | apply indices_range]. }
  split_and!; [|done|done|done|].
  - constructor; [done | done | done | by eapply tables_ok_modifies|].
    intros p t Hp. unfold w_avail. simpl. rewrite Hav. exact (Hown p t Hp).
  - intros v Ho q i r t e Hidx Hr Hq He. apply (Ho q i r t e Hidx Hr Hq).
    destruct (indices_at _ _ _ _ Hidx) as [Hi _].
    rewrite <-He. unfold entry. symmetry. apply (load64_modifies _ _ _ _ Hmod). intros x Hx HXx.
    apply (HXt x HXx). exists q, t. split; [done|]. eapply entry_in_frame; [exact Hi | exact Hx].
Qed.

Lemma indices_page v : indices (v / PAGE_SIZE * PAGE_SIZE) = indices v.
Proof. apply indices_inj. f_equal. unfold PAGE_SIZE. dlia. Qed.

Lemma wwalk_page w v : wwalk w (v / PAGE_SIZE * PAGE_SIZE) = wwalk w v.
Proof. unfold wwalk. by rewrite indices_page. Qed.

Section inv.
Context (lo hi : Z).

Lemma region_page w T v :
  demand_inv w T lo hi → lo ≤ v < hi →
  lo ≤ v / PAGE_SIZE * PAGE_SIZE < hi ∧ v / PAGE_SIZE * PAGE_SIZE mod PAGE_SIZE = 0 ∧ 0 ≤ v < 2 ^ 64.
Proof.
  intros Hd Hv. destruct (di_range _ _ _ _ Hd) as (H0 & Hhi & _ & Hl & Hh).
  split; [unfold PAGE_SIZE in *; dlia|]. split; [by rewrite Z.mod_mul | lia].
Qed.

(** Within the range, the indices of two addresses agree only within a page. *)
Lemma region_indices w T u v :
  demand_inv w T lo hi → lo ≤ u < hi → lo ≤ v < hi → indices u = indices v → u / PAGE_SIZE = v / PAGE_SIZE.
Proof.
  intros Hd Hu Hv Hi%indices_inj. destruct (di_range _ _ _ _ Hd) as (H0 & Hhi & Hsz & Hl & Hh).
  unfold PAGE_SIZE in *. change (2 ^ 48) with (4096 * 2 ^ 36) in Hsz.
  pose proof (Z.div_mod (u / 4096) (2 ^ 36) ltac:(lia)). pose proof (Z.div_mod (v / 4096) (2 ^ 36) ltac:(lia)).
  assert (Hb : - 2 ^ 36 < u / 4096 - v / 4096 < 2 ^ 36) by dlia.
  rewrite Hi in *. nia.
Qed.

Lemma frame_of_page w u v : indices u = indices v → frame_of w u = frame_of w v.
Proof. intros Hi. unfold frame_of, wwalk. by rewrite Hi. Qed.

Lemma page_indices u v : u / PAGE_SIZE = v / PAGE_SIZE → indices u = indices v.
Proof. intros Heq. rewrite <-(indices_page u), <-(indices_page v). by rewrite Heq. Qed.

(** A page with a frame: the access goes to a byte of the frame. *)
Lemma access_mapped w T v f write :
  demand_inv w T lo hi → lo ≤ v < hi → frame_of w v = Some f →
  page_access w v write = inl (f + v mod PAGE_SIZE) ∧
  ∃ b, w_mem w !! (w_hhdm w + f + v mod PAGE_SIZE) = Some b ∧ contents w v = b.
Proof.
  intros Hd Hv Hf. unfold page_access. pose proof Hf as Hf'. unfold frame_of in Hf'.
  destruct (wwalk w v) as [es|] eqn:Hes; [|done]. injection Hf' as Hf'. 
  destruct (di_frame _ _ _ _ Hd v es f Hv Hes Hf) as (Hw & Hman & Hown).
  rewrite Hw, andb_false_r, Hf'. split; [done|].
  destruct (fa_managed_law _ _ _ (vi_alloc _ _ (di_vmm _ _ _ _ Hd)) Hman) as (_ & _ & _ & _ & Hm & _).
  destruct (Hm (w_hhdm w + f + v mod PAGE_SIZE)) as [b Hb].
  { pose proof (Z.mod_pos_bound v PAGE_SIZE ltac:(done)). unfold in_range, w_hhdm. lia. }
  exists b. split; [done|]. unfold contents. by rewrite Hf, Hb.
Qed.

Lemma frame_of_masked w v f : frame_of w v = Some f → ∃ es, wwalk w v = Some es ∧ f = Z.land (List.last es 0) PTE_ADDR_MASK.
Proof. unfold frame_of. destruct (wwalk w v) as [es|]; [|done]. intros [= <-]. by exists es. Qed.

(** The translations after the handler has mapped the frame [f] at the page of
    [v]. *)
Lemma fault_walks w T v r f w' T' :
  demand_inv w T lo hi → lo ≤ v < hi → lazy_region_of w (v / PAGE_SIZE * PAGE_SIZE) = Some r →
  0 < f < 2 ^ 52 → f mod PAGE_SIZE = 0 →
  effect (same_page (v / PAGE_SIZE * PAGE_SIZE)) w T w' T' →
  maps_to w T w' (v / PAGE_SIZE * PAGE_SIZE) f (flags r) →
  ∃ es, eff_writable es = true ∧ ∀ u, lo ≤ u < hi →
    wwalk w' u = (if decide (u / PAGE_SIZE = v / PAGE_SIZE) then Some es else wwalk w u) ∧
    frame_of w' u = (if decide (u / PAGE_SIZE = v / PAGE_SIZE) then Some f else frame_of w u).
Proof.
  intros Hd Hv Hr Hf52 Hfa Hef (es & _ & Hw & Hperm).
  destruct (region_page w T v Hd Hv) as (Hp & Hpa & H64).
  destruct (leaf_entry_bits f (flags r) ltac:(lia)) as (_ & _ & _ & _ & _ & Hmask).
  rewrite (aligned_masked f ltac:(lia) Hfa) in Hmask.
  exists (es ++ [leaf_entry f (flags r)]). split.
  { destruct (Hperm (di_open _ _ _ _ Hd _ Hp)) as [-> _].
    destruct (di_region _ _ _ _ Hd _ Hp Hpa) as (r' & Hr' & Hfl). congruence. }
  intros u Hu. unfold frame_of. destruct (decide (u / PAGE_SIZE = v / PAGE_SIZE)) as [Heq|Hne].
  - assert (Hwu : wwalk w' u = Some (es ++ [leaf_entry f (flags r)])) by (rewrite <-(wwalk_page w' u), Heq; exact Hw).
    rewrite Hwu. cbn [fmap option_fmap option_map]. by rewrite List.last_last, Hmask.
  - assert (Hwu : wwalk w' u = wwalk w u); [|by rewrite Hwu].
    apply (ef_walk _ _ _ _ _ Hef). unfold same_page. rewrite indices_page. intros Hi.
    by apply Hne, (region_indices w T).
Qed.

(** The range after the handler has mapped a frame at the page of [v]. *)
Lemma fault_mapped_inv w T v r f w' T' :
  demand_inv w T lo hi → lo ≤ v < hi → wwalk w v = None →
  lazy_region_of w (v / PAGE_SIZE * PAGE_SIZE) = Some r → f ∈ w_avail w →
  effect (same_page (v / PAGE_SIZE * PAGE_SIZE)) w T w' T' →
  maps_to w T w' (v / PAGE_SIZE * PAGE_SIZE) f (flags r) →
  filled (w_mem w') (w_hhdm w' + f) PAGE_SIZE 0 → owned w' T' f →
  demand_inv w' T' lo hi ∧ frame_of w' v = Some f ∧ (∀ u, lo ≤ u < hi → contents w' u = contents w u).
Proof.
  intros Hd Hv Hnone Hr Hf Hef Hmaps Hfill Hown.
  pose proof (fa_avail_managed _ _ _ (vi_alloc _ _ (di_vmm _ _ _ _ Hd)) Hf) as Hman.
  destruct (fa_managed_law _ _ _ (vi_alloc _ _ (di_vmm _ _ _ _ Hd)) Hman) as (Hf52 & Hfa & _).
  destruct (fault_walks w T v r f w' T' Hd Hv Hr Hf52 Hfa Hef Hmaps) as (es & Hwr & Hwalks).
  assert (Hold : ∀ u g, lo ≤ u < hi → frame_of w u = Some g → g ≠ f).
  { intros u g Hu Hg ->. destruct (frame_of_masked _ _ _ Hg) as (es' & Hes' & _).
    destruct (di_frame _ _ _ _ Hd u es' f Hu Hes' Hg) as (_ & _ & Ho). by apply (owned_not_avail _ _ _ Ho). }
  split; [|split].
  - constructor; [apply Hef | apply Hd | | | | |].
    + intros p Hp' Hpa'. unfold lazy_region_of. rewrite (ef_vmm _ _ _ _ _ Hef). by apply (di_region _ _ _ _ Hd).
    + intros u Hu. by apply (ef_small _ _ _ _ _ Hef), (di_small _ _ _ _ Hd).
    + intros u Hu. by apply (ef_open _ _ _ _ _ Hef), (di_open _ _ _ _ Hd).
    + intros u es' g Hu. destruct (Hwalks u Hu) as [-> ->]. destruct (decide (u / PAGE_SIZE = v / PAGE_SIZE)).
      * intros [= <-] [= <-]. split; [done|]. split; [by apply (ef_managed _ _ _ _ _ Hef) | done].
      * intros Hes' Hg. destruct (di_frame _ _ _ _ Hd u es' g Hu Hes' Hg) as (? & ? & ?).
        split; [done|]. split; [by apply (ef_managed _ _ _ _ _ Hef) | by eapply owned_effect].
    + intros u u' g Hu Hu'. destruct (Hwalks u Hu) as [_ ->], (Hwalks u' Hu') as [_ ->]. intros Hg Hg'.
      destruct (decide (u / PAGE_SIZE = v / PAGE_SIZE)) as [E1|E1], (decide (u' / PAGE_SIZE = v / PAGE_SIZE)) as [E2|E2].
      * congruence.
      * injection Hg as <-. by destruct (Hold u' f Hu' Hg').
      * injection Hg' as <-. by destruct (Hold u f Hu Hg).
      * by apply (di_own _ _ _ _ Hd u u' g).
  - destruct (Hwalks v Hv) as [_ ->]. by rewrite decide_True.
  - intros u Hu. unfold contents. destruct (Hwalks u Hu) as [_ ->]. destruct (decide (u / PAGE_SIZE = v / PAGE_SIZE)) as [E|E].
    + rewrite (frame_of_page w u v (page_indices u v E)). unfold frame_of. rewrite Hnone. cbn [fmap option_fmap option_map].
      rewrite Hfill; [done|]. pose proof (Z.mod_pos_bound u PAGE_SIZE ltac:(done)). unfold in_range. lia.
    + destruct (frame_of w u) as [g|] eqn:Hg; [|done]. destruct (frame_of_masked _ _ _ Hg) as (es' & Hes' & _).
      destruct (di_frame _ _ _ _ Hd u es' g Hu Hes' Hg) as (_ & _ & Ho).
      rewrite (ef_hhdm _ _ _ _ _ Hef). f_equal. apply (modifies_lookup _ _ _ _ (ef_mem _ _ _ _ _ Hef)). apply Ho.
      pose proof (Z.mod_pos_bound u PAGE_SIZE ltac:(done)). unfold frame_bytes, in_range. lia.
Qed.

(** The page fault of an access to a page without a frame: it is resolved, or
    the kernel panics because fewer than four frames were left. *)
Lemma fault_spec w T v write :
  demand_inv w T lo hi → lo ≤ v < hi → wwalk w v = None →
  (page_fault_isr w v (fault_frame v (fault_code false write)) = Panic (access_panic v write) ∧ (size (w_avail w) < 4)%nat) ∨
  ∃ w' T' f, page_fault_isr w v (fault_frame v (fault_code false write)) = Ok w' ∧ demand_inv w' T' lo hi ∧
    (effect (same_page v) w T w' T' ∧ f ∈ w_avail w ∧ size (w_avail w) = (size (w_avail w') + 1 + missing T v)%nat ∧
     ∃ r, lazy_region_of w (v / PAGE_SIZE * PAGE_SIZE) = Some r ∧ maps_to w T w' (v / PAGE_SIZE * PAGE_SIZE) f (flags r)) ∧
    frame_of w' v = Some f ∧ (∀ u, lo ≤ u < hi → contents w' u = contents w u) ∧
    (∀ u, lo ≤ u < hi → u / PAGE_SIZE ≠ v / PAGE_SIZE → wwalk w' u = wwalk w u).
Proof.
  intros Hd Hv Hnone. destruct (region_page w T v Hd Hv) as (Hp & Hpa & H64).
  destruct (vmm_handle_page_fault_spec w T v (fault_code false write) (di_vmm _ _ _ _ Hd) H64) as (ok & w' & Hh & Hout).
  { apply (di_small _ _ _ _ Hd). exact Hp. }
  fold PAGE_SIZE in Hout. unfold page_fault_isr, access_panic. cbn [fault_frame error_code]. rewrite Hh. cbn [mbind res_bind].
  destruct (di_region _ _ _ _ Hd _ Hp Hpa) as (r0 & Hr0 & Hfl).
  destruct Hout as [Hec|Hec Hr|r Hec Hr Hav|r f w' T' Hec Hr Hf Hef Hw Hav Hs|r f w' T' Hec Hr Hf Hef Hm Hz Ho Hs].
  - by destruct write.
  - congruence.
  - left. split; [done|]. rewrite Hav, size_empty. lia.
  - left. split; [done | lia].
  - right. destruct (fault_mapped_inv w T v r f w' T' Hd Hv Hnone Hr Hf Hef Hm Hz Ho) as (Hd' & Hfr & Hc).
    exists w', T', f. split_and!; try done.
    { eapply effect_mono; [|exact Hef]. intros u. unfold same_page. by rewrite indices_page. }
    { unfold missing in Hs. by rewrite indices_page in Hs. }
    { by exists r. }
    intros u Hu Hne. apply (ef_walk _ _ _ _ _ Hef). unfold same_page. rewrite indices_page.
    intros Hi. by apply Hne, (region_indices w T).
Qed.

Lemma elem_of_untouched w p :
  p ∈ untouched w lo hi ↔ lo / PAGE_SIZE ≤ p < hi / PAGE_SIZE ∧ wwalk w (p * PAGE_SIZE) = None.
Proof.
  unfold untouched, pages. rewrite elem_of_filter, elem_of_list_to_set, elem_of_seqZ.
  split; [intros [? ?]; split; [lia | done] | intros [? ?]; split; [done | lia]].
Qed.

Lemma untouched_page w T v : demand_inv w T lo hi → lo ≤ v < hi → wwalk w v = None → v / PAGE_SIZE ∈ untouched w lo hi.
Proof.
  intros Hd Hv Hn. destruct (di_range _ _ _ _ Hd) as (_ & _ & _ & Hl & Hh). apply elem_of_untouched.
  rewrite wwalk_page. split; [unfold PAGE_SIZE in *; dlia | done].
Qed.

Lemma fault_untouched w T w' v f :
  demand_inv w T lo hi → lo ≤ v < hi → frame_of w' v = Some f →
  (∀ u, lo ≤ u < hi → u / PAGE_SIZE ≠ v / PAGE_SIZE → wwalk w' u = wwalk w u) →
  untouched w' lo hi ⊆ untouched w lo hi ∖ {[v / PAGE_SIZE]}.
Proof.
  intros Hd Hv Hf Hw p [Hp Hn]%elem_of_untouched. destruct (di_range _ _ _ _ Hd) as (_ & _ & _ & Hl & Hh).
  assert (Hne : p ≠ v / PAGE_SIZE).
  { intros ->. rewrite wwalk_page in Hn. unfold frame_of in Hf. by rewrite Hn in Hf. }
  apply elem_of_difference. split; [|by rewrite elem_of_singleton]. apply elem_of_untouched. split; [done|].
  rewrite <-Hw; [done | unfold PAGE_SIZE in *; dlia | unfold PAGE_SIZE; rewrite Z.div_mul; [done|lia]].
Qed.

(** Four frames for each page still without one. *)
Definition enough w : Prop := (4 * size (untouched w lo hi) ≤ size (w_avail w))%nat.

(** What an access leaves behind. *)
Definition accessed w w' T' v f : Prop :=
  demand_inv w' T' lo hi ∧ frame_of w' v = Some f ∧ (∀ u, lo ≤ u < hi → contents w' u = contents w u) ∧
  (enough w → enough w').

Lemma virt_access_spec w T v write :
  demand_inv w T lo hi → lo ≤ v < hi →
  (virt_access access_fuel w v write = Panic (access_panic v write) ∧ (size (w_avail w) < 4)%nat ∧ ¬ enough w) ∨
  ∃ w' T' f, virt_access access_fuel w v write = Ok (f + v mod PAGE_SIZE, w') ∧ accessed w w' T' v f.
Proof.
  intros Hd Hv. unfold access_fuel. cbn [virt_access]. destruct (wwalk w v) as [es|] eqn:Hes.
  - right. assert (Hf : frame_of w v = Some (Z.land (List.last es 0) PTE_ADDR_MASK)) by (unfold frame_of; by rewrite Hes).
    destruct (access_mapped w T v _ write Hd Hv Hf) as [-> _]. exists w, T. eexists. split; [done|]. by split_and!.
  - assert (Hpa : page_access w v write = inr (fault_code false write)) by (unfold page_access; by rewrite Hes).
    rewrite !Hpa. pose proof (untouched_page w T v Hd Hv Hes) as Hun.
    assert (Hsz : size (untouched w lo hi) = S (size (untouched w lo hi ∖ {[v / PAGE_SIZE]}))).
    { rewrite (union_difference_singleton_L _ _ Hun) at 1. rewrite size_union by set_solver. by rewrite size_singleton. }
    destruct (fault_spec w T v write Hd Hv Hes) as [[E Hav]|(w' & T' & f & E & Hd' & (_ & _ & Hav & _) & Hf & Hc & Hw)].
    + left. rewrite E. split_and!; [done | done | unfold enough; lia].
    + right. rewrite E. cbn [mbind res_bind]. destruct (access_mapped w' T' v f write Hd' Hv Hf) as [-> _].
      exists w', T', f. split; [done|]. split_and!; [done..|]. unfold enough. intros Hen.
      pose proof (subseteq_size _ _ (fault_untouched w T w' v f Hd Hv Hf Hw)). pose proof (missing_le T v). lia.
Qed.

(** A write to a page with a frame changes the contents at that address. *)
Lemma store_mapped w T v f b :
  demand_inv w T lo hi → lo ≤ v < hi → frame_of w v = Some f →
  ∃ m, store8 (w_mem w) (w_hhdm w + (f + v mod PAGE_SIZE)) b = Ok m ∧
    modifies (frame_bytes (w_hhdm w) f) (w_mem w) m ∧ demand_inv (set_mem w m) T lo hi ∧
    (∀ u, lo ≤ u < hi → contents (set_mem w m) u = if u =? v then b else contents w u) ∧
    (enough w → enough (set_mem w m)).
Proof.
  intros Hd Hv Hf. destruct (access_mapped w T v f true Hd Hv Hf) as (_ & b0 & Hb0 & _).
  destruct (frame_of_masked _ _ _ Hf) as (es & Hes & _).
  destruct (di_frame _ _ _ _ Hd v es f Hv Hes Hf) as (_ & Hman & Hown).
  set (a := w_hhdm w + f + v mod PAGE_SIZE) in *. replace (w_hhdm w + (f + v mod PAGE_SIZE)) with a by lia.
  rewrite store8_mapped by (by eexists). exists (<[a := b]> (w_mem w)). split; [done|].
  assert (Hin : ∀ u, 0 ≤ u mod PAGE_SIZE < PAGE_SIZE) by (intros u; by apply Z.mod_pos_bound).
  assert (Hout : ¬ vmm_bytes w T a) by (apply Hown; unfold frame_bytes, in_range; specialize (Hin v); lia).
  assert (Hmod : modifies (λ x, x = a) (w_mem w) (<[a := b]> (w_mem w))) by (apply modifies_insert; by eexists).
  destruct (outside_write w T _ _ (di_vmm _ _ _ _ Hd) Hmod) as (Hinv & Hwalk & Hav & Hmm & Hopen); [by intros x ->|].
  set (w' := set_mem w (<[a := b]> (w_mem w))) in *.
  assert (Hfo : ∀ u, frame_of w' u = frame_of w u) by (intros u; unfold frame_of; by rewrite Hwalk).
  split; [|split; [|split]].
  - eapply modifies_mono; [|exact Hmod]. intros x ->. unfold frame_bytes, in_range, a. specialize (Hin v). lia.
  - constructor; [done | apply Hd | | | | |].
    + intros p. apply (di_region _ _ _ _ Hd).
    + intros u Hu es'. rewrite Hwalk. by apply (di_small _ _ _ _ Hd).
    + intros u Hu. by apply Hopen, (di_open _ _ _ _ Hd).
    + intros u es' g Hu. rewrite Hwalk, Hfo, Hmm. intros He Hg.
      destruct (di_frame _ _ _ _ Hd u es' g Hu He Hg) as (? & ? & Ho). split_and!; [done | done |].
      intros x Hx. unfold vmm_bytes. rewrite Hav. by apply Ho.
    + intros u u' g Hu Hu'. rewrite !Hfo. by apply (di_own _ _ _ _ Hd).
  - intros u Hu. unfold contents. rewrite Hfo. destruct (Z.eqb_spec u v) as [->|Hne].
    + rewrite Hf. cbn. fold a. by rewrite lookup_insert_eq.
    + destruct (frame_of w u) as [g|] eqn:Hg; [|done]. cbn. change (w_hhdm w') with (w_hhdm w).
      rewrite lookup_insert_ne; [done|]. intros Heq. apply Hne.
      destruct (frame_of_masked _ _ _ Hg) as (es' & Hes' & _).
      destruct (di_frame _ _ _ _ Hd u es' g Hu Hes' Hg) as (_ & Hman' & _).
      assert (Hfg : g = f).
      { apply (managed_disjoint (w_alloc w) (w_mem w) g f a); [apply (di_vmm _ _ _ _ Hd) | done | done |
          unfold frame_bytes, in_range; rewrite Heq; specialize (Hin u); unfold w_hhdm; lia
          | unfold frame_bytes, in_range, a, w_hhdm; specialize (Hin v); lia]. }
      subst g. pose proof (di_own _ _ _ _ Hd u v f Hu Hv Hg Hf) as Hq. subst a.
      rewrite (Z.div_mod u PAGE_SIZE), (Z.div_mod v PAGE_SIZE), Hq by done. lia.
  - unfold enough. intros Hen. rewrite Hav. etransitivity; [|exact Hen]. apply Nat.mul_le_mono_l, subseteq_size.
    intros p Hp%elem_of_untouched. rewrite Hwalk in Hp. by apply elem_of_untouched.
Qed.

(** A store of several bytes into a page with a frame. *)
Lemma store_through_mapped w T v f m a n :
  demand_inv w T lo hi → lo ≤ v < hi → frame_of w v = Some f → 0 ≤ n →
  (∀ x, in_range a n x → lo ≤ x < hi ∧ x / PAGE_SIZE = v / PAGE_SIZE) → mapped m a n →
  ∃ m', store_through w m a n = Ok (set_mem w m') ∧ modifies (frame_bytes (w_hhdm w) f) (w_mem w) m' ∧
    demand_inv (set_mem w m') T lo hi ∧ frame_of (set_mem w m') v = Some f ∧
    ∀ u, lo ≤ u < hi → contents (set_mem w m') u = if decide (in_range a n u) then default 0 (m !! u) else contents w u.
Proof.
  intros Hd Hv Hf Hn Hpage Hm. unfold store_through.
  destruct (for_range_spec (λ i w1, ∃ m1, w1 = set_mem w m1 ∧ modifies (frame_bytes (w_hhdm w) f) (w_mem w) m1 ∧
    demand_inv (set_mem w m1) T lo hi ∧ frame_of (set_mem w m1) v = Some f ∧
    ∀ u, lo ≤ u < hi → contents (set_mem w m1) u = if decide (in_range a i u) then default 0 (m !! u) else contents w u)
    0 n (λ i w, b ← load8 m (a + i); virt_store w (a + i) b) w) as (w' & Hr & m' & -> & H'); [done | | |by exists m'].
  - exists (w_mem w).
    destruct w. split_and!; [done | done | done | done |]. intros u Hu. rewrite decide_False; [done|]. unfold in_range. lia.
  - intros i w1 Hi (m1 & -> & Hmod & Hd1 & Hf1 & Hc1).
    assert (Hx : in_range a n (a + i)) by (unfold in_range; lia).
    destruct (Hpage _ Hx) as [Hr Hp]. destruct (Hm _ Hx) as [b Hb]. rewrite (proj2 (load8_Ok _ _ _) Hb). cbn [mbind res_bind].
    assert (Hfx : frame_of (set_mem w m1) (a + i) = Some f) by (rewrite (frame_of_page _ _ v); [done | by apply page_indices]).
    unfold virt_store, access_fuel. cbn [virt_access].
    destruct (access_mapped _ T _ f true Hd1 Hr Hfx) as [-> _]. cbn [mbind res_bind].
    destruct (store_mapped _ T _ f b Hd1 Hr Hfx) as (m2 & -> & Hmod2 & Hd2 & Hc2 & _). cbn [mbind res_bind].
    change (set_mem (set_mem w m1) m2) with (set_mem w m2) in *. change (w_mem (set_mem w m1)) with m1 in Hmod2.
    change (w_hhdm (set_mem w m1)) with (w_hhdm w) in Hmod2.
    exists (set_mem w m2). split; [done|]. exists m2. split_and!; [done | by etransitivity | done | |].
    + assert (Hw2 : wwalk (set_mem w m2) v = wwalk (set_mem w m1) v); [|unfold frame_of in *; by rewrite Hw2].
      destruct (frame_of_masked _ _ _ Hf1) as (es & Hes & _). destruct (di_frame _ _ _ _ Hd1 v es f Hv Hes Hf1) as (_ & _ & Hown).
      eapply (outside_write (set_mem w m1) T m2 _ (di_vmm _ _ _ _ Hd1) Hmod2). intros x Hxf. by apply Hown.
    + intros u Hu. rewrite Hc2 by done. destruct (Z.eqb_spec u (a + i)) as [->|Hne].
      * rewrite decide_True by (unfold in_range; lia). by rewrite Hb.
      * rewrite Hc1 by done. destruct (decide (in_range a i u)), (decide (in_range a (i + 1) u)); try done; unfold in_range in *; lia.
Qed.

(** Stores into such a page change neither a translation nor the allocator. *)
Lemma stores_outside w T v f m' :
  demand_inv w T lo hi → lo ≤ v < hi → frame_of w v = Some f → modifies (frame_bytes (w_hhdm w) f) (w_mem w) m' →
  (∀ u, wwalk (set_mem w m') u = wwalk w u) ∧ w_avail (set_mem w m') = w_avail w ∧
  (∀ u, open_path w T u → open_path (set_mem w m') T u).
Proof.
  intros Hd Hv Hf Hmod. destruct (frame_of_masked _ _ _ Hf) as (es & Hes & _).
  destruct (di_frame _ _ _ _ Hd v es f Hv Hes Hf) as (_ & _ & Hown).
  by destruct (outside_write w T m' _ (di_vmm _ _ _ _ Hd) Hmod) as (_ & ? & ? & _ & ?).
Qed.

(** The first store into a page without a frame: the page fault, and then the
    store into the frame that the handler mapped. *)
Lemma store_through_fault w T a :
  demand_inv w T lo hi → lo ≤ a < hi → wwalk w a = None → (4 ≤ size (w_avail w))%nat →
  ∃ w1 T1 f, (∀ m n, 0 < n → store_through w m a n = store_through w1 m a n) ∧ demand_inv w1 T1 lo hi ∧
    effect (same_page a) w T w1 T1 ∧ f ∈ w_avail w ∧ size (w_avail w) = (size (w_avail w1) + 1 + missing T a)%nat ∧
    frame_of w1 a = Some f ∧ (∀ u, lo ≤ u < hi → contents w1 u = contents w u) ∧
    (∃ frame, page_fault_isr w a frame = Ok w1) ∧
    ∃ r, lazy_region_of w (a / PAGE_SIZE * PAGE_SIZE) = Some r ∧ maps_to w T w1 (a / PAGE_SIZE * PAGE_SIZE) f (flags r).
Proof.
  intros Hd Ha Hnone Hsz.
  destruct (fault_spec w T a true Hd Ha Hnone) as [[_ Hlt]|(w1 & T1 & f & E & Hd1 & (Hef & Hin & Hav & Hreg) & Hf & Hc & _)]; [lia|].
  exists w1, T1, f. split_and!; try done; [|by eexists]. intros m n Hn. unfold store_through, for_range.
  destruct (Z.to_nat (n - 0)) as [|k] eqn:Hk; [lia|]. cbn [for_loop]. rewrite Z.add_0_r.
  destruct (load8 m a) as [b| | |]; try done. cbn [mbind res_bind].
  assert (Hst : virt_store w a b = virt_store w1 a b); [|by rewrite Hst].
  unfold virt_store, access_fuel. cbn [virt_access].
  assert (Hpa : page_access w a true = inr (fault_code false true)) by (unfold page_access; by rewrite Hnone).
  rewrite Hpa, E. cbn [mbind res_bind]. by destruct (access_mapped w1 T1 a f true Hd1 Ha Hf) as [-> _].
Qed.

(** One access, against the plain memory. *)
Lemma virt_step_spec w T x :
  demand_inv w T lo hi → lo ≤ address_of x < hi →
  (virt_step w x = Panic (step_panic x) ∧ ¬ enough w) ∨
  ∃ w' T', virt_step w x = Ok ((plain_step (contents w) x).1, w') ∧ demand_inv w' T' lo hi ∧
    (∀ u, lo ≤ u < hi → contents w' u = (plain_step (contents w) x).2 u) ∧ (enough w → enough w').
Proof.
  intros Hd Hx. destruct x as [v|v b]; simpl in Hx; cbn [virt_step plain_step fst snd]; unfold virt_load, virt_store.
  - destruct (virt_access_spec w T v false Hd Hx) as [(-> & _ & Hno)|(w' & T' & f & -> & Hd' & Hf & Hc & Hen)]; [by left | right].
    cbn [mbind res_bind]. destruct (access_mapped w' T' v f false Hd' Hx Hf) as (_ & b & Hb & Hcb).
    rewrite Z.add_assoc, (proj2 (load8_Ok _ _ _) Hb). cbn [mbind res_bind].
    exists w', T'. rewrite <-(Hc v Hx), Hcb. by split_and!.
  - destruct (virt_access_spec w T v true Hd Hx) as [(-> & _ & Hno)|(w' & T' & f & -> & Hd' & Hf & Hc & Hen)]; [by left | right].
    cbn [mbind res_bind]. destruct (store_mapped w' T' v f b Hd' Hx Hf) as (m & -> & _ & Hd2 & Hc2 & Hen2).
    cbn [mbind res_bind]. exists (set_mem w' m), T'. split_and!; [done | done | | auto].
    intros u Hu. rewrite Hc2 by done. by destruct (u =? v); [|apply Hc].
Qed.

Lemma plain_step_ext m m' x :
  (∀ u, lo ≤ u < hi → m u = m' u) → lo ≤ address_of x < hi →
  (plain_step m x).1 = (plain_step m' x).1 ∧ ∀ u, lo ≤ u < hi → (plain_step m x).2 u = (plain_step m' x).2 u.
Proof.
  intros Hm Hx. destruct x as [v|v b]; simpl in *; [by rewrite Hm|]. split; [done|].
  intros u Hu. by rewrite Hm.
Qed.

Lemma plain_run_ext l m m' :
  (∀ u, lo ≤ u < hi → m u = m' u) → Forall (λ x, lo ≤ address_of x < hi) l →
  (plain_run l m).1 = (plain_run l m').1 ∧ ∀ u, lo ≤ u < hi → (plain_run l m).2 u = (plain_run l m').2 u.
Proof.
  intros Hm Hl. revert m m' Hm. induction Hl as [|x l Hx Hl IH]; intros m m' Hm; [by split|].
  cbn [plain_run]. destruct (plain_step_ext m m' x Hm Hx) as [Ho Hm1].
  destruct (plain_step m x) as [o m1], (plain_step m' x) as [o' m1']. simpl in Ho, Hm1. subst o'.
  destruct (IH m1 m1' Hm1) as [Hos Hm2]. destruct (plain_run l m1), (plain_run l m1'). simpl in *. by subst.
Qed.

Lemma virt_run_spec l w T :
  demand_inv w T lo hi → Forall (λ x, lo ≤ address_of x < hi) l →
  (∃ x, x ∈ l ∧ virt_run l w = Panic (step_panic x) ∧ ¬ enough w) ∨
  ∃ w' T', virt_run l w = Ok ((plain_run l (contents w)).1, w') ∧ demand_inv w' T' lo hi ∧
    (∀ u, lo ≤ u < hi → contents w' u = (plain_run l (contents w)).2 u) ∧ (enough w → enough w').
Proof.
  intros Hd Hl. revert w T Hd. induction Hl as [|x l Hx Hl IH]; intros w T Hd.
  - right. exists w, T. by split_and!.
  - cbn [virt_run plain_run].
    destruct (virt_step_spec w T x Hd Hx) as [[-> Hno]|(w1 & T1 & -> & Hd1 & Hc1 & Hen1)]; [left; exists x; split_and!; [by left | done | done]|]. cbn [mbind res_bind].
    destruct (plain_step (contents w) x) as [o m1] eqn:Hps. cbn [fst snd] in *.
    destruct (plain_run_ext l (contents w1) m1 Hc1 Hl) as [Ho Hm].
    destruct (IH w1 T1 Hd1) as [(y & Hy & -> & Hno)|(w' & T' & -> & Hd' & Hc' & Hen')]; [left; exists y; split_and!; [by right | done | auto] | right]. cbn [mbind res_bind].
    exists w', T'. destruct (plain_run l m1) as [os m2]. cbn [fst snd] in *. rewrite Ho.
    split_and!; [done | done | | auto]. intros u Hu. rewrite Hc' by done. auto.
Qed.
End inv.
End lemmas.

(** ** Properties *)

Section theorems.
Context {A : Type} `{FrameAllocator A} {TR : Trap}.

(** C10: a lazy region is zero-initialised memory to its users. Any sequence of
    loads and stores in a range covered by writable lazy regions, with the page
    faults its accesses raise and the handler's work in between, reads exactly
    the bytes a plain memory with the same initial contents (0 on every page not
    yet touched) would give, and leaves those of the plain memory; the only
    other outcome is a call of [panic_exception] with the frame of the page fault
    of one of the accesses, impossible while four frames are left for each page
    not yet touched. *)
Theorem demand_paging_refines (w : world A) T lo hi l :
  demand_inv w T lo hi → Forall (λ x, lo ≤ address_of x < hi) l →
  (∃ x, x ∈ l ∧ virt_run l w = Panic (step_panic x) ∧ ¬ enough lo hi w) ∨
  ∃ w' T', virt_run l w = Ok ((plain_run l (contents w)).1, w') ∧ demand_inv w' T' lo hi ∧
    (∀ u, lo ≤ u < hi → contents w' u = (plain_run l (contents w)).2 u) ∧
    (enough lo hi w → enough lo hi w').
Proof. intros Hd Hl. by apply (virt_run_spec lo hi l w T). Qed.
End theorems.

(** ** Witness: the machine of AddressSpace.v, one page of its lazy region *)

Definition ref_trap : Trap := λ _, mk_frame 0 0 0 0 0 0 0 0 0 0 0 0 0 0 0 0 0 0 0 0.
#[local] Existing Instance ref_trap.

Definition ex_lo : Z := 0xffffffffa0000000.

Lemma ex_demand :
  ∃ (w : world pmm) T, demand_inv w T ex_lo (ex_lo + PAGE_SIZE) ∧ enough ex_lo (ex_lo + PAGE_SIZE) w ∧
    ∀ v, contents w v = 0.
Proof.
  destruct ex_machine as (w & T & Hinv & Hv & Hsize & Hw & Ho). exists w, T.
  assert (Hf : ∀ v, frame_of w v = None) by (intros v; unfold frame_of; by rewrite Hw).
  split; [|split].
  - constructor; [exact Hinv | by vm_compute | | | | |].
    + intros p Hp Hpa. exists (mk_lazy_region 0xffffffffa0000000 0xffffffffa1000000 VMM_WRITABLE true).
      split; [|reflexivity]. unfold lazy_region_of. rewrite Hv. unfold AddressSpace.ex_vmm. cbn [lazy_regions List.find].
      unfold in_lazy_region at 1. cbn [used start end_]. unfold ex_lo, PAGE_SIZE in Hp.
      rewrite (proj2 (Z.leb_le _ _)), (proj2 (Z.ltb_lt _ _)) by lia. reflexivity.
    + intros v _. by apply ex_machine_small.
    + intros v _. apply Ho.
    + intros v es f _ Hes. by rewrite Hw in Hes.
    + intros u v f _ _ Hu. by rewrite Hf in Hu.
  - unfold enough. rewrite Hsize.
    assert (Hs : (size (untouched w ex_lo (ex_lo + PAGE_SIZE)) ≤ 1)%nat); [|lia].
    transitivity (size ({[ex_lo / PAGE_SIZE]} : gset Z)); [|by rewrite size_singleton].
    apply subseteq_size. intros p [Hp _]%elem_of_untouched. apply elem_of_singleton.
    change ((ex_lo + PAGE_SIZE) / PAGE_SIZE) with (ex_lo / PAGE_SIZE + 1) in Hp. lia.
  - intros v. unfold contents. by rewrite Hf.
Qed.

Lemma demand_paging_refines_witness :
  ∃ w w' : world pmm,
    virt_run [Load (ex_lo + 5); Store (ex_lo + 5) 7; Load (ex_lo + 6); Load (ex_lo + 5)] w = Ok ([0; 0; 7], w').
Proof.
  destruct ex_demand as (w & T & Hd & Hen & Hc). exists w.
  destruct (demand_paging_refines w T ex_lo (ex_lo + PAGE_SIZE)
    [Load (ex_lo + 5); Store (ex_lo + 5) 7; Load (ex_lo + 6); Load (ex_lo + 5)] Hd) as [(x & _ & _ & Hno)|(w' & T' & Hr & _)].
  - repeat constructor; unfold ex_lo, PAGE_SIZE; simpl; lia.
  - exfalso. exact (Hno Hen).
  - exists w'. rewrite Hr. cbn [plain_run plain_step fst app]. rewrite !Hc.
    rewrite (proj2 (Z.eqb_neq (ex_lo + 6) (ex_lo + 5))), Z.eqb_refl by lia. reflexivity.
Defined.
