(* ===== verification/Heap.v ===== *)
(** * Kernel heap (kernel/mm/heap.c)

    The allocator works on the bytes of its 16 MiB range, which demand paging
    makes accessible (Demand.v): headers are read and written field by field, in
    the same memory the clients' data live in. [NULL] is 0. [heap_init] is given
    the page tables too, since its first store is the one that faults in the
    first frame of the range. *)

From S2P Require Import Prelude Word Mem FrameAlloc Pmm Paging Isr Vmm AddressSpace Demand.

(** ** Constants and headers *)

Definition HEAP_VBASE : Z := 0xffffffff90000000.
Definition HEAP_SIZE : Z := 16 * 1024 * 1024.
Definition MIN_SPLIT_SIZE : Z := 16.

(** [struct block_header]: its fields and size in memory. *)
Record block_header := mk_header {
  size : Z;
  free : bool;
  prev : Z;
  next : Z;
}.

Definition sizeof_block_header : Z := 32.

Definition get_size (m : mem) (node : Z) : res Z := load64 m node.
Definition get_free (m : mem) (node : Z) : res bool :=
  b ← load8 m (node + 8); Ok (negb (b =? 0)).
Definition get_prev (m : mem) (node : Z) : res Z := load64 m (node + 16).
Definition get_next (m : mem) (node : Z) : res Z := load64 m (node + 24).

Definition set_size (m : mem) (node v : Z) : res mem := store64 m node v.
Definition set_free (m : mem) (node : Z) (v : bool) : res mem :=
  store8 m (node + 8) (if v then 1 else 0).
Definition set_prev (m : mem) (node v : Z) : res mem := store64 m (node + 16) v.
Definition set_next (m : mem) (node v : Z) : res mem := store64 m (node + 24) v.

(** ** Operations

    [fl] is the static variable [free_list]. *)

(** [heap_init]. [m] is the range as its users see it; each store of the new
    header also goes through the page tables of [w], where the first one faults. *)
Definition heap_init {A} `{FrameAllocator A} {TR : Trap} (w : world A) (m : mem) : res (Z * world A * mem) :=
  let '(ok, w) := vmm_register_lazy_region w HEAP_VBASE (HEAP_VBASE + HEAP_SIZE) VMM_WRITABLE in
  if negb ok then Panic "heap: failed to register lazy region"
  else
    let free_list := HEAP_VBASE in
    m ← set_size m free_list (HEAP_SIZE - sizeof_block_header);
    w ← store_through w m free_list 8;
    m ← set_free m free_list true;
    w ← store_through w m (free_list + 8) 1;
    m ← set_prev m free_list 0;
    w ← store_through w m (free_list + 16) 8;
    m ← set_next m free_list 0;
    w ← store_through w m (free_list + 24) 8;
    Ok (free_list, w, m).

(** The part of the loop body after the [continue]: split if worthwhile, take
    the block. *)
Definition take_block (m : mem) (node size : Z) : res (Z * mem) :=
  node_size ← get_size m node;
  let remaining := u64 (node_size - size) in
  m' ← (if sizeof_block_header + MIN_SPLIT_SIZE <=? remaining then
          let new_node := u64 (node + sizeof_block_header + size) in
          m1 ← set_size m new_node (u64 (remaining - sizeof_block_header));
          m2 ← set_free m1 new_node true;
          m3 ← set_prev m2 new_node node;
          nx ← get_next m3 node;
          m4 ← set_next m3 new_node nx;
          nx2 ← get_next m4 new_node;
          m5 ← (if negb (nx2 =? 0) then set_prev m4 nx2 new_node else Ok m4);
          m6 ← set_size m5 node size;
          set_next m6 node new_node
        else Ok m);
  m'' ← set_free m' node false;
  Ok (u64 (node + sizeof_block_header), m'').

Fixpoint kmalloc_loop (fuel : nat) (m : mem) (node size : Z) : res (Z * mem) :=
  match fuel with
  | O => Fuel
  | S fuel =>
      if node =? 0 then Ok (0, m)
      else
        f ← get_free m node;
        fits ← (if negb f then Ok false else sz ← get_size m node; Ok (negb (sz <? size)));
        if negb fits then nx ← get_next m node; kmalloc_loop fuel m nx size
        else take_block m node size
  end.

(** More blocks than the heap can hold. *)
Definition heap_fuel : nat := Z.to_nat (HEAP_SIZE / sizeof_block_header + 1).

Definition kmalloc (fl : Z) (m : mem) (size : Z) : res (Z * mem) :=
  if size =? 0 then Ok (0, m)
  else kmalloc_loop heap_fuel m fl (align_up size MIN_SPLIT_SIZE).

(** The two [if] statements of [kfree]: merge with the next block, merge into
    the previous one. *)
Definition merge_next (m : mem) (node : Z) : res mem :=
  nx ← get_next m node;
  nx_free ← (if negb (nx =? 0) then get_free m nx else Ok false);
  if (nx_free : bool) then
    sz ← get_size m node;
    nsz ← get_size m nx;
    m1 ← set_size m node (u64 (sz + u64 (sizeof_block_header + nsz)));
    nx1 ← get_next m1 node;
    nnx ← get_next m1 nx1;
    m2 ← set_next m1 node nnx;
    nx2 ← get_next m2 node;
    if negb (nx2 =? 0) then set_prev m2 nx2 node else Ok m2
  else Ok m.

Definition merge_prev (m : mem) (node : Z) : res mem :=
  pv ← get_prev m node;
  pv_free ← (if negb (pv =? 0) then get_free m pv else Ok false);
  if (pv_free : bool) then
    psz ← get_size m pv;
    sz ← get_size m node;
    m1 ← set_size m pv (u64 (psz + u64 (sizeof_block_header + sz)));
    pv1 ← get_prev m1 node;
    nx1 ← get_next m1 node;
    m2 ← set_next m1 pv1 nx1;
    nx2 ← get_next m2 node;
    if negb (nx2 =? 0) then pv2 ← get_prev m2 node; set_prev m2 nx2 pv2 else Ok m2
  else Ok m.

Definition kfree (m : mem) (ptr : Z) : res mem :=
  if ptr =? 0 then Ok m
  else
    let node := u64 (ptr - sizeof_block_header) in
    m1 ← set_free m node true;
    m2 ← merge_next m1 node;
    merge_prev m2 node.

(** ** Specification: the list of blocks

    A block is its payload size and whether it is free; blocks tile the range
    from its start, each behind a 32-byte header. *)

Definition block : Type := Z * bool.

(** The end of the blocks [l] laid out from address [a]. *)
Fixpoint end_of (a : Z) (l : list block) : Z :=
  match l with
  | [] => a
  | (sz, _) :: l => end_of (a + sizeof_block_header + sz) l
  end.

(** What is left of a free block of [bsz] bytes when [sz] of them are taken. *)
Definition taken (bsz sz : Z) (l : list block) : list block :=
  if sizeof_block_header + MIN_SPLIT_SIZE <=? bsz - sz
  then (sz, false) :: (bsz - sz - sizeof_block_header, true) :: l
  else (bsz, false) :: l.

(** First fit: the payload address and the new list of blocks. *)
Fixpoint first_fit (a sz : Z) (l : list block) : option (Z * list block) :=
  match l with
  | [] => None
  | (bsz, fr) :: l =>
      if fr && (sz <=? bsz) then
        Some (a + sizeof_block_header,
              taken bsz sz l)
      else
        '(r, l') ← first_fit (a + sizeof_block_header + bsz) sz l;
        Some (r, (bsz, fr) :: l')
  end.

(** Release: mark the block free and merge neighbouring free blocks. *)
Fixpoint mark_free (a ptr : Z) (l : list block) : list block :=
  match l with
  | [] => []
  | (sz, fr) :: l =>
      (sz, fr || (ptr =? a + sizeof_block_header)) ::
        mark_free (a + sizeof_block_header + sz) ptr l
  end.

Definition merge (b : block) (l : list block) : list block :=
  match b, l with
  | (sz, true), (sz', true) :: l' => (sz + sizeof_block_header + sz', true) :: l'
  | _, _ => b :: l
  end.

#[global] Arguments merge : simpl nomatch.

Definition coalesce (l : list block) : list block := foldr merge [] l.

Definition release (a ptr : Z) (l : list block) : list block := coalesce (mark_free a ptr l).

(** No two neighbouring blocks are free. *)
Fixpoint coalesced (l : list block) : bool :=
  match l with
  | [] => true
  | b :: l => match l with b' :: _ => negb (b.2 && b'.2) | [] => true end && coalesced l
  end.

Definition block_ok (b : block) : Prop := 0 ≤ b.1 ∧ b.1 mod MIN_SPLIT_SIZE = 0.

(** The blocks in use: payload address and size. *)
Fixpoint live (a : Z) (l : list block) : list (Z * Z) :=
  match l with
  | [] => []
  | (sz, fr) :: l =>
      (if fr then [] else [(a + sizeof_block_header, sz)]) ++
        live (a + sizeof_block_header + sz) l
  end.

Definition live_bytes (a : Z) (l : list block) (x : Z) : Prop :=
  ∃ p sz, (p, sz) ∈ live a l ∧ in_range p sz x.

(** ** Representation in memory *)

(** The header at [a]. *)
Record header_at (m : mem) (a : Z) (h : block_header) : Prop := {
  h_size : get_size m a = Ok (size h);
  h_free : get_free m a = Ok (free h);
  h_prev : get_prev m a = Ok (prev h);
  h_next : get_next m a = Ok (next h);
}.

(** The address of the first block of [l] laid out at [a], [nx] without one. *)
Definition head_or (a nx : Z) (l : list block) : Z := match l with [] => nx | _ => a end.

(** The blocks [l] from address [a], after the block at [p] and before the
    block at [nx] ([0] where there is none). *)
Fixpoint seg (m : mem) (p a : Z) (l : list block) (nx : Z) : Prop :=
  match l with
  | [] => True
  | (sz, fr) :: l' =>
      let a' := a + sizeof_block_header + sz in
      header_at m a (mk_header sz fr p (head_or a' nx l')) ∧
      seg m a a' l' nx
  end.

Record heap_inv (fl : Z) (m : mem) (l : list block) : Prop := {
  hi_list : fl = HEAP_VBASE;
  hi_ne : l ≠ [];
  hi_seg : seg m 0 HEAP_VBASE l 0;
  hi_ok : Forall block_ok l;
  hi_end : end_of HEAP_VBASE l = HEAP_VBASE + HEAP_SIZE;
  hi_coalesced : coalesced l = true;
  hi_mapped : mapped m HEAP_VBASE HEAP_SIZE;
}.

(** ** Lemmas: header fields *)

Lemma header_modifies X m m' a h :
  header_at m a h → modifies X m m' → (∀ x, in_range a sizeof_block_header x → ¬ X x) →
  header_at m' a h.
Proof.
  intros [Hs Hf Hp Hn] Hmod HX. unfold sizeof_block_header, in_range in HX.
  assert (Hld : ∀ k, 0 ≤ k ≤ 24 → load64 m' (a + k) = load64 m (a + k)).
  { intros k Hk. apply (load64_modifies _ _ _ _ Hmod). intros x Hx. apply HX.
    unfold in_range in Hx. lia. }
  constructor.
  - unfold get_size in *. rewrite <-(Z.add_0_r a), Hld, Z.add_0_r by lia. done.
  - unfold get_free, load8 in *. rewrite (modifies_lookup _ _ _ _ Hmod); [done | apply HX; lia].
  - unfold get_prev in *. by rewrite Hld by lia.
  - unfold get_next in *. by rewrite Hld by lia.
Qed.

Lemma mapped_header m a :
  mapped m a sizeof_block_header → ∃ h, header_at m a h.
Proof.
  intros Hm. unfold sizeof_block_header in Hm.
  assert (H64 : ∀ k, 0 ≤ k ≤ 24 → ∃ v, load64 m (a + k) = Ok v).
  { intros k Hk. apply load64_mapped. eapply mapped_sub; [exact Hm | lia | lia]. }
  destruct (H64 0) as [s Hs]; [lia|]. destruct (H64 16) as [p Hp]; [lia|].
  destruct (H64 24) as [n Hn]; [lia|]. rewrite Z.add_0_r in Hs.
  destruct (load8_mapped m (a + 8)) as (b & Hb & _); [apply Hm; unfold in_range; lia|].
  exists (mk_header s (negb (b =? 0)) p n). constructor; [done | | done | done].
  unfold get_free. by rewrite Hb.
Qed.

(** The setters: each changes its own field. *)
Lemma field64_spec m a k v :
  mapped m a sizeof_block_header → 0 ≤ k ≤ 24 → 0 ≤ v < 2 ^ 64 →
  ∃ m', store64 m (a + k) v = Ok m' ∧ load64 m' (a + k) = Ok v ∧
    modifies (in_range (a + k) 8) m m'.
Proof.
  intros Hm Hk Hv. unfold sizeof_block_header in Hm.
  destruct (store64_spec m (a + k) v) as (m' & -> & Hmod & Hld);
    [eapply mapped_sub; [exact Hm | lia | lia] | done |]. by exists m'.
Qed.

Definition put_size (h : block_header) v := mk_header v (free h) (prev h) (next h).
Definition put_free (h : block_header) v := mk_header (size h) v (prev h) (next h).
Definition put_prev (h : block_header) v := mk_header (size h) (free h) v (next h).
Definition put_next (h : block_header) v := mk_header (size h) (free h) (prev h) v.

(** Fields outside the written bytes read as before. *)
Ltac other_field Hmod Hold :=
  unfold get_size, get_free, get_prev, get_next, load8 in *;
  first [rewrite (load64_modifies _ _ _ _ Hmod)
        |rewrite (modifies_lookup _ _ _ _ Hmod)];
  [exact Hold | unfold in_range; lia].

Ltac header_write :=
  eapply modifies_mono; [|eassumption]; unfold in_range, sizeof_block_header; lia.

Lemma set_size_spec m a h v :
  header_at m a h → mapped m a sizeof_block_header → 0 ≤ v < 2 ^ 64 →
  ∃ m', set_size m a v = Ok m' ∧ header_at m' a (put_size h v) ∧
    modifies (in_range a sizeof_block_header) m m'.
Proof.
  intros [Hs Hf Hp Hn] Hm Hv. destruct (field64_spec m a 0 v Hm) as (m' & Hst & Hld & Hmod); [lia..|].
  rewrite Z.add_0_r in *. exists m'. split_and!; [done | | header_write].
  constructor; simpl; [done | other_field Hmod Hf | other_field Hmod Hp | other_field Hmod Hn].
Qed.

Lemma set_prev_spec m a h v :
  header_at m a h → mapped m a sizeof_block_header → 0 ≤ v < 2 ^ 64 →
  ∃ m', set_prev m a v = Ok m' ∧ header_at m' a (put_prev h v) ∧
    modifies (in_range a sizeof_block_header) m m'.
Proof.
  intros [Hs Hf Hp Hn] Hm Hv. destruct (field64_spec m a 16 v Hm) as (m' & Hst & Hld & Hmod); [lia..|].
  exists m'. split_and!; [done | | header_write].
  constructor; simpl; [other_field Hmod Hs | other_field Hmod Hf | done | other_field Hmod Hn].
Qed.

Lemma set_next_spec m a h v :
  header_at m a h → mapped m a sizeof_block_header → 0 ≤ v < 2 ^ 64 →
  ∃ m', set_next m a v = Ok m' ∧ header_at m' a (put_next h v) ∧
    modifies (in_range a sizeof_block_header) m m'.
Proof.
  intros [Hs Hf Hp Hn] Hm Hv. destruct (field64_spec m a 24 v Hm) as (m' & Hst & Hld & Hmod); [lia..|].
  exists m'. split_and!; [done | | header_write].
  constructor; simpl; [other_field Hmod Hs | other_field Hmod Hf | other_field Hmod Hp | done].
Qed.

Lemma set_free_spec m a h v :
  header_at m a h → mapped m a sizeof_block_header →
  ∃ m', set_free m a v = Ok m' ∧ header_at m' a (put_free h v) ∧
    modifies (in_range a sizeof_block_header) m m'.
Proof.
  intros [Hs Hf Hp Hn] Hm. unfold set_free.
  assert (Ha : is_Some (m !! (a + 8))) by (apply Hm; unfold in_range, sizeof_block_header; lia).
  rewrite store8_mapped by done. eexists. split; [done|].
  pose proof (modifies_insert m (a + 8) (if v then 1 else 0) Ha) as Hmod. split; [|header_write].
  constructor; simpl; [other_field Hmod Hs | | other_field Hmod Hp | other_field Hmod Hn].
  unfold get_free, load8. rewrite lookup_insert_eq. by destruct v.
Qed.

(** ** Lemmas: layout *)

(** [lia] on block addresses. *)
Ltac blia :=
  simpl in *; unfold in_range, block_ok, sizeof_block_header, MIN_SPLIT_SIZE in *; simpl in *; lia.

Lemma end_of_app a l1 l2 : end_of a (l1 ++ l2) = end_of (end_of a l1) l2.
Proof. revert a. induction l1 as [|[sz fr] l1 IH]; intros a; simpl; auto. Qed.

Lemma end_of_ge a l : Forall block_ok l → a + sizeof_block_header * Z.of_nat (length l) ≤ end_of a l.
Proof.
  unfold sizeof_block_header. intros Hok. revert a.
  induction Hok as [|[sz fr] l [Hb _] _ IH]; intros a; simpl in *; [lia|].
  specialize (IH (a + 32 + sz)). unfold sizeof_block_header. lia.
Qed.

Lemma end_of_le a l : Forall block_ok l → a ≤ end_of a l.
Proof. intros Hok. pose proof (end_of_ge a l Hok). unfold sizeof_block_header in *. lia. Qed.

Lemma live_bytes_cons a sz fr l x :
  live_bytes a ((sz, fr) :: l) x ↔
    (fr = false ∧ in_range (a + sizeof_block_header) sz x) ∨
    live_bytes (a + sizeof_block_header + sz) l x.
Proof.
  unfold live_bytes. simpl. setoid_rewrite elem_of_app. split.
  - intros (p & s & [Hin|Hin] & Hx); [|by right; exists p, s].
    destruct fr; [by apply elem_of_nil in Hin|].
    apply list_elem_of_singleton in Hin as [= -> ->]. by left.
  - intros [[-> Hx]|(p & s & Hin & Hx)].
    + eexists _, _. split; [left; by apply list_elem_of_singleton | done].
    + exists p, s. auto.
Qed.

Lemma live_bytes_nil a x : ¬ live_bytes a [] x.
Proof. intros (p & s & Hin & _). by apply elem_of_nil in Hin. Qed.

Lemma live_bytes_range a l x :
  Forall block_ok l → live_bytes a l x → a + sizeof_block_header ≤ x < end_of a l.
Proof.
  intros Hok. revert a. induction Hok as [|[sz fr] l [Hb _] Hok IH]; intros a.
  - by intros ?%live_bytes_nil.
  - rewrite live_bytes_cons. simpl in *. intros [[_ Hx]|Hx%IH].
    + pose proof (end_of_le (a + sizeof_block_header + sz) l Hok).
      unfold in_range, sizeof_block_header in *. lia.
    + unfold sizeof_block_header in *. lia.
Qed.

(** The headers survive any change outside them. *)
Lemma seg_modifies X m m' p a l nx :
  seg m p a l nx → Forall block_ok l → modifies X m m' →
  (∀ x, a ≤ x < end_of a l → X x → live_bytes a l x) → seg m' p a l nx.
Proof.
  intros Hseg Hok Hmod. revert p a Hseg. induction Hok as [|[sz fr] l [Hb _] Hok IH];
    intros p a; simpl in *; [done|]. intros [Hh Hseg] HX.
  pose proof (end_of_le (a + sizeof_block_header + sz) l Hok) as Hend. split.
  - eapply header_modifies; [exact Hh | exact Hmod |]. intros x Hx HXx.
    assert (Hin : a ≤ x < end_of (a + sizeof_block_header + sz) l)
      by (unfold in_range, sizeof_block_header in *; lia).
    specialize (HX x Hin HXx). apply live_bytes_cons in HX as [[_ HX]|HX%live_bytes_range];
      unfold in_range, sizeof_block_header in *; [lia.. | done].
  - apply IH; [done|]. intros x Hx HXx.
    assert (Hin : a ≤ x < end_of (a + sizeof_block_header + sz) l)
      by (unfold sizeof_block_header in *; lia).
    specialize (HX x Hin HXx). apply live_bytes_cons in HX as [[_ HX]|HX]; [|done].
    unfold in_range in *. lia.
Qed.

Lemma head_or_app a nx l1 l2 :
  head_or a nx (l1 ++ l2) = head_or a (head_or (end_of a l1) nx l2) l1.
Proof. by destruct l1. Qed.

(** The address of the last block of [l1]. *)
Fixpoint last_addr (p a : Z) (l : list block) : Z :=
  match l with
  | [] => p
  | (sz, _) :: l => last_addr a (a + sizeof_block_header + sz) l
  end.

Lemma seg_app m p a l1 l2 nx :
  seg m p a (l1 ++ l2) nx ↔
    seg m p a l1 (head_or (end_of a l1) nx l2) ∧ seg m (last_addr p a l1) (end_of a l1) l2 nx.
Proof.
  revert p a. induction l1 as [|[sz fr] l1 IH]; intros p a; simpl; [tauto|].
  rewrite IH, head_or_app. tauto.
Qed.

(** Setting the back pointer of the block that follows, as the code does where
    there is one. *)
Lemma relink m p p' a l nx :
  seg m p a l nx → Forall block_ok l → mapped m a (end_of a l - a) → 0 < a → 0 ≤ p' < 2 ^ 64 →
  ∃ m', (if negb (head_or a 0 l =? 0) then set_prev m (head_or a 0 l) p' else Ok m) = Ok m' ∧
    seg m' p' a l nx ∧ modifies (λ x, l ≠ [] ∧ in_range a sizeof_block_header x) m m'.
Proof.
  intros Hseg Hok Hm Ha Hp'. destruct l as [|[sz fr] l]; simpl; [by exists m|].
  rewrite (proj2 (Z.eqb_neq a 0)) by lia. simpl. destruct Hseg as [Hh Hseg].
  inversion_clear Hok as [|? ? [Hb _] Hok']. simpl in *.
  pose proof (end_of_le (a + sizeof_block_header + sz) l Hok') as Hend.
  destruct (set_prev_spec m a _ p' Hh) as (m' & -> & Hh' & Hmod);
    [eapply mapped_sub; [exact Hm | lia | unfold sizeof_block_header in *; lia] | done |].
  exists m'. split_and!; [done | exact Hh' | | by eapply modifies_mono].
  eapply seg_modifies; [done..|]. unfold in_range. lia.
Qed.

(** ** kmalloc *)

(** The bytes the allocator may write: headers and free payload. *)
Definition heap_bytes (a : Z) (l : list block) (x : Z) : Prop :=
  a ≤ x < end_of a l ∧ ¬ live_bytes a l x.

Lemma heap_bytes_header a sz fr l x :
  Forall block_ok ((sz, fr) :: l) → in_range a sizeof_block_header x →
  heap_bytes a ((sz, fr) :: l) x.
Proof.
  intros Hok Hx. inversion_clear Hok as [|? ? [Hb _] Hok']. simpl in *.
  pose proof (end_of_le (a + sizeof_block_header + sz) l Hok').
  split; [blia|]. rewrite live_bytes_cons.
  intros [[_ ?]|Hl%live_bytes_range]; [blia | blia | done].
Qed.

Lemma heap_bytes_tail a sz fr l x :
  Forall block_ok ((sz, fr) :: l) → heap_bytes (a + sizeof_block_header + sz) l x →
  heap_bytes a ((sz, fr) :: l) x.
Proof.
  intros Hok [Hx Hl]. inversion_clear Hok as [|? ? [Hb _] Hok']. simpl in *.
  split; simpl; [unfold sizeof_block_header in *; lia|]. rewrite live_bytes_cons.
  unfold in_range. intros [[_ ?]|?]; [lia | done].
Qed.

Lemma heap_bytes_free a sz l x :
  Forall block_ok ((sz, true) :: l) → a ≤ x < a + sizeof_block_header + sz →
  heap_bytes a ((sz, true) :: l) x.
Proof.
  intros Hok Hx. inversion_clear Hok as [|? ? [Hb _] Hok']. simpl in *.
  pose proof (end_of_le (a + sizeof_block_header + sz) l Hok').
  split; [blia|]. rewrite live_bytes_cons.
  intros [[? _]|Hl%live_bytes_range]; [done | blia | done].
Qed.

(** Writing the header of the upper part of a split block. *)
Lemma split_header m n a nxv s :
  mapped m n sizeof_block_header → 0 ≤ s < 2 ^ 64 → 0 ≤ a < 2 ^ 64 → 0 ≤ nxv < 2 ^ 64 →
  (∀ x, in_range a sizeof_block_header x → ¬ in_range n sizeof_block_header x) →
  get_next m a = Ok nxv →
  (∀ m', modifies (in_range n sizeof_block_header) m m' → get_next m' a = Ok nxv) →
  ∃ m1 m2 m3 m4, set_size m n s = Ok m1 ∧ set_free m1 n true = Ok m2 ∧ set_prev m2 n a = Ok m3 ∧
    get_next m3 a = Ok nxv ∧ set_next m3 n nxv = Ok m4 ∧
    header_at m4 n (mk_header s true a nxv) ∧
    modifies (in_range n sizeof_block_header) m m4.
Proof.
  intros Hm Hs Ha Hnx Hdis Hgn Hkeep. destruct (mapped_header m n Hm) as [h0 Hh0].
  destruct (set_size_spec m n h0 s Hh0 Hm Hs) as (m1 & E1 & Hh1 & M1).
  assert (Hm1 := modifies_mapped _ _ _ _ _ M1 Hm).
  destruct (set_free_spec m1 n _ true Hh1 Hm1) as (m2 & E2 & Hh2 & M2).
  assert (Hm2 := modifies_mapped _ _ _ _ _ M2 Hm1).
  destruct (set_prev_spec m2 n _ a Hh2 Hm2 Ha) as (m3 & E3 & Hh3 & M3).
  assert (Hm3 := modifies_mapped _ _ _ _ _ M3 Hm2).
  destruct (set_next_spec m3 n _ nxv Hh3 Hm3 Hnx) as (m4 & E4 & Hh4 & M4).
  assert (M13 : modifies (in_range n sizeof_block_header) m m3) by by do 2 (etransitivity; [|eassumption]).
  exists m1, m2, m3, m4. split_and!; [done..| by apply Hkeep | done | exact Hh4 |].
  by etransitivity.
Qed.

(** Shrinking the lower part and taking it. *)
Lemma take_header m a bsz p nxv sz n :
  header_at m a (mk_header bsz true p nxv) → mapped m a sizeof_block_header →
  0 ≤ sz < 2 ^ 64 → 0 ≤ n < 2 ^ 64 →
  ∃ m1 m2 m3, set_size m a sz = Ok m1 ∧ set_next m1 a n = Ok m2 ∧ set_free m2 a false = Ok m3 ∧
    header_at m3 a (mk_header sz false p n) ∧
    modifies (in_range a sizeof_block_header) m m3.
Proof.
  intros Hh Hm Hs Hn.
  destruct (set_size_spec m a _ sz Hh Hm Hs) as (m1 & E1 & Hh1 & M1).
  assert (Hm1 := modifies_mapped _ _ _ _ _ M1 Hm).
  destruct (set_next_spec m1 a _ n Hh1 Hm1 Hn) as (m2 & E2 & Hh2 & M2).
  assert (Hm2 := modifies_mapped _ _ _ _ _ M2 Hm1).
  destruct (set_free_spec m2 a _ false Hh2 Hm2) as (m3 & E3 & Hh3 & M3).
  exists m1, m2, m3. split_and!; [done..|]. by do 2 (etransitivity; [|eassumption]).
Qed.

(** The facts the heap lemmas share about a run of blocks. *)
Record run (m : mem) (p a : Z) (l : list block) : Prop := {
  r_seg : seg m p a l 0;
  r_ok : Forall block_ok l;
  r_mapped : mapped m a (end_of a l - a);
  r_low : 0 < a;
  r_high : end_of a l < 2 ^ 64;
}.

Lemma run_tail m p a sz fr l :
  run m p a ((sz, fr) :: l) → run m a (a + sizeof_block_header + sz) l.
Proof.
  intros [Hseg Hok Hm Hl Hh]. inversion_clear Hok as [|? ? [Hb _] Hok'].
  pose proof (end_of_le (a + sizeof_block_header + sz) l Hok').
  constructor; [apply Hseg | done | | blia | done].
  eapply mapped_sub; [exact Hm | blia | blia].
Qed.

(** The header, the room behind it, and the address after the first block. *)
Lemma run_head m p a sz fr l :
  run m p a ((sz, fr) :: l) →
  header_at m a (mk_header sz fr p (head_or (a + sizeof_block_header + sz) 0 l)) ∧
  mapped m a (sizeof_block_header + sz) ∧
  0 ≤ sz ∧ sz mod MIN_SPLIT_SIZE = 0 ∧ 0 < a ∧ a + sizeof_block_header + sz < 2 ^ 64 ∧
  0 ≤ head_or (a + sizeof_block_header + sz) 0 l < 2 ^ 64 ∧ Forall block_ok l.
Proof.
  intros [[Hh Hseg] Hok Hm Hl Hhi]. inversion_clear Hok as [|? ? [Hb Hb16] Hok'].
  pose proof (end_of_ge (a + sizeof_block_header + sz) l Hok').
  split_and!; try done; [| blia | |].
  - eapply mapped_sub; [exact Hm | lia | blia].
  - destruct l; blia.
  - destruct l; blia.
Qed.

(** Changes outside a run, or to its free bytes, keep it. *)
Lemma run_modifies X m m' p a l :
  run m p a l → modifies X m m' → (∀ x, a ≤ x < end_of a l → X x → live_bytes a l x) →
  run m' p a l.
Proof.
  intros [Hseg Hok Hm Hl Hh] Hmod HX. constructor; [|done|eauto with mem|done..].
  by eapply seg_modifies.
Qed.

Lemma run_cons m p a sz fr l :
  header_at m a (mk_header sz fr p (head_or (a + sizeof_block_header + sz) 0 l)) →
  mapped m a (sizeof_block_header + sz) → block_ok (sz, fr) → 0 < a →
  run m a (a + sizeof_block_header + sz) l → run m p a ((sz, fr) :: l).
Proof.
  intros Hh Hm Hb Ha [Hseg Hok Hml Hl Hhi]. constructor; [done | by constructor | | done | done].
  intros x Hx. destruct (decide (x < a + sizeof_block_header + sz)); [apply Hm | apply Hml]; blia.
Qed.

(** The two blocks after a split, the header of the first written last. *)
Lemma split_run m m' p a bsz l sz n a2 :
  n = a + sizeof_block_header + sz → a2 = a + sizeof_block_header + bsz →
  sizeof_block_header + MIN_SPLIT_SIZE ≤ bsz - sz → block_ok (sz, false) → bsz mod MIN_SPLIT_SIZE = 0 → 0 < a →
  run m n a2 l → header_at m n (mk_header (bsz - sz - sizeof_block_header) true a (head_or a2 0 l)) →
  mapped m a (sizeof_block_header + bsz) → header_at m' a (mk_header sz false p n) →
  modifies (in_range a sizeof_block_header) m m' →
  run m' p a ((sz, false) :: (bsz - sz - sizeof_block_header, true) :: l).
Proof.
  intros Hn Ha2 Hsplit Hb H16 Ha Hrun Hhn Hm Hh' Hmod. pose proof Hb as [Hsz0 Hsz16].
  assert (He : n + sizeof_block_header + (bsz - sz - sizeof_block_header) = a2) by blia.
  apply run_cons; [by rewrite <-Hn | eapply mapped_sub; [eauto with mem | lia | blia] | done | done |].
  rewrite <-Hn. apply run_cons; rewrite ?He.
  - eapply header_modifies; [exact Hhn | exact Hmod | blia].
  - eapply mapped_sub; [eapply modifies_mapped; [exact Hmod | exact Hm] | blia | blia].
  - split; unfold MIN_SPLIT_SIZE, sizeof_block_header in *; simpl in *; dlia.
  - blia.
  - eapply run_modifies; [exact Hrun | exact Hmod | blia].
Qed.

Lemma take_block_spec m p a bsz l sz :
  run m p a ((bsz, true) :: l) → 0 ≤ sz ≤ bsz → sz mod MIN_SPLIT_SIZE = 0 →
  ∃ m', take_block m a sz = Ok (a + sizeof_block_header, m') ∧
    run m' p a (taken bsz sz l) ∧ modifies (heap_bytes a ((bsz, true) :: l)) m m'.
Proof.
  intros Hrun Hsz H16. pose proof (r_ok _ _ _ _ Hrun) as Hok.
  destruct (run_head _ _ _ _ _ _ Hrun) as (Hh & Hm & Hb0 & Hb16 & Ha & Hhi & Hnx & Hokl).
  pose proof (run_tail _ _ _ _ _ _ Hrun) as Htail.
  unfold take_block. rewrite (h_size _ _ _ Hh). rsimpl. rewrite (u64_small (bsz - sz)) by blia.
  rewrite (u64_small (a + sizeof_block_header)) by blia. unfold taken.
  destruct (Z.leb_spec (sizeof_block_header + MIN_SPLIT_SIZE) (bsz - sz)) as [Hsplit|Hno].
  - remember (a + sizeof_block_header + sz) as n eqn:Hn.
    remember (a + sizeof_block_header + bsz) as a2 eqn:Ha2.
    destruct (split_header m n a (head_or a2 0 l) (bsz - sz - sizeof_block_header))
      as (m1 & m2 & m3 & m4 & E1 & E2 & E3 & E4 & E5 & Hn4 & M4);
      [eapply mapped_sub; [exact Hm | blia | blia] | blia | blia | done | blia
      | apply (h_next _ _ _ Hh) | |].
    { intros m' M. eapply (h_next _ _ (mk_header _ _ _ _)), header_modifies; [exact Hh | exact M | blia]. }
    rewrite (u64_small n) by blia. rewrite (u64_small (bsz - sz - sizeof_block_header)) by blia.
    rewrite E1. rsimpl. rewrite E2. rsimpl. rewrite E3. rsimpl. rewrite E4. rsimpl. rewrite E5. rsimpl.
    rewrite (h_next _ _ _ Hn4). rsimpl.
    assert (Hrun4 : run m4 a a2 l) by (eapply run_modifies; [exact Htail | exact M4 | blia]).
    destruct (relink m4 a n a2 l 0 (r_seg _ _ _ _ Hrun4) Hokl (r_mapped _ _ _ _ Hrun4))
      as (m5 & -> & Hseg5 & M5); [blia | blia |]. rsimpl.
    assert (Hrun5 : run m5 n a2 l)
      by (constructor; [done | done | eapply modifies_mapped; [exact M5 | apply Hrun4] | blia | apply Hrun4]).
    assert (Hn5 := header_modifies _ _ _ _ _ Hn4 M5 ltac:(blia)).
    assert (Ha5 := header_modifies _ _ _ _ _ (header_modifies _ _ _ _ _ Hh M4 ltac:(blia)) M5 ltac:(blia)).
    assert (M05 : modifies (λ x, n ≤ x < a2 + sizeof_block_header ∧ (a2 ≤ x → l ≠ [])) m m5).
    { transitivity m4; [eapply modifies_mono; [|exact M4] | eapply modifies_mono; [|exact M5]].
      - blia.
      - intros x [? Hx]. split; [blia | done]. }
    assert (Hm5 := modifies_mapped _ _ _ _ _ M05 Hm).
    destruct (take_header m5 a bsz p (head_or a2 0 l) sz n Ha5) as (m6 & m7 & m8 & -> & E7 & E8 & Hh8 & M8);
      [eapply mapped_sub; [exact Hm5 | lia | blia] | blia | blia |].
    rsimpl. rewrite E7. rsimpl. rewrite E8. rsimpl.
    exists m8. split_and!; [done | |].
    + eapply (split_run m5); [exact Hn | exact Ha2 | done | by split; [blia|] | done | done | exact Hrun5 | exact Hn5
        | exact Hm5 | exact Hh8 | exact M8].
    + transitivity m5; [eapply modifies_mono; [|exact M05] | eapply modifies_mono; [|exact M8]].
      * intros x [Hx Hne]. destruct (decide (x < a2)); [apply heap_bytes_free; [done | blia]|].
        apply heap_bytes_tail; [done|]. rewrite <-Ha2. destruct l as [|[? ?] ?]; [exfalso; apply Hne; [lia | done]|].
        apply heap_bytes_header; [done | blia].
      * intros x. by apply heap_bytes_header.
  - destruct (set_free_spec m a _ false Hh) as (m' & -> & Hh' & Hmod);
      [eapply mapped_sub; [exact Hm | lia | blia]|].
    exists m'. rsimpl. split_and!; [done | |].
    + apply run_cons; [exact Hh' | eauto with mem | done | done |].
      eapply run_modifies; [exact Htail | exact Hmod |]. blia.
    + eapply modifies_mono; [|exact Hmod]. intros x. by apply heap_bytes_header.
Qed.

Lemma run_nil m p a : 0 < a < 2 ^ 64 → run m p a [].
Proof. intros Ha. constructor; simpl; [done | done | | lia | lia]. intros x Hx. blia. Qed.

Lemma first_fit_ne a sz l r l' : first_fit a sz l = Some (r, l') → l ≠ [] ∧ l' ≠ [].
Proof.
  destruct l as [|[bsz fr] l]; simpl; [done|]. destruct (fr && (sz <=? bsz)).
  - intros [= <- <-]. unfold taken. by case_match.
  - destruct (first_fit _ _ _) as [[r0 l0]|]; simpl; [|done]. by intros [= <- <-].
Qed.

(** The search: first fit, by induction on the blocks still to visit. *)
Lemma kmalloc_loop_spec m sz l p a fuel :
  run m p a l → 0 ≤ sz → sz mod MIN_SPLIT_SIZE = 0 → (length l < fuel)%nat →
  ∃ r m', kmalloc_loop fuel m (head_or a 0 l) sz = Ok (r, m') ∧
    match first_fit a sz l with
    | None => r = 0 ∧ m' = m
    | Some (r', l') => r = r' ∧ run m' p a l' ∧ modifies (heap_bytes a l) m m'
    end.
Proof.
  intros Hrun Hsz H16. revert p a fuel Hrun.
  induction l as [|[bsz fr] l IH]; intros p a [|fuel] Hrun Hfuel; simpl in Hfuel; try lia.
  { by exists 0, m. }
  destruct (run_head _ _ _ _ _ _ Hrun) as (Hh & Hm & Hb0 & Hb16 & Ha & Hhi & Hnx & Hokl).
  simpl. rewrite (proj2 (Z.eqb_neq a 0)), (h_free _ _ _ Hh) by lia. rsimpl.
  destruct (fr && (sz <=? bsz)) eqn:Hfit.
  - apply andb_true_iff in Hfit as [-> Hle]. rewrite (h_size _ _ _ Hh). rsimpl.
    apply Z.leb_le in Hle. rewrite (proj2 (Z.ltb_ge _ _)) by done. simpl.
    destruct (take_block_spec m p a bsz l sz Hrun) as (m' & -> & Hrun' & Hmod); [lia | done |].
    by exists (a + sizeof_block_header), m'.
  - destruct (IH a (a + sizeof_block_header + bsz) fuel) as (r & m' & Hloop & Hres);
      [by eapply run_tail | lia |].
    exists r, m'. split.
    + rewrite (h_next _ _ _ Hh), (h_size _ _ _ Hh). rsimpl. destruct fr; simpl; [|done].
      simpl in Hfit. apply Z.leb_gt in Hfit. by rewrite (proj2 (Z.ltb_lt _ _)).
    + destruct (first_fit _ sz l) as [[r' l']|] eqn:Hff; simpl; [|done].
      destruct Hres as (-> & Hrun' & Hmod). apply first_fit_ne in Hff as [Hl Hl'].
      assert (Hmod' : modifies (heap_bytes a ((bsz, fr) :: l)) m m').
      { eapply modifies_mono; [|exact Hmod]. intros x. apply heap_bytes_tail. apply Hrun. }
      split_and!; [done | | done].
      apply run_cons; [| eauto with mem | done | done | done].
      replace (head_or (a + sizeof_block_header + bsz) 0 l')
        with (head_or (a + sizeof_block_header + bsz) 0 l) by (by destruct l, l').
      eapply header_modifies; [exact Hh | exact Hmod |]. intros x Hx [Hx' _]. blia.
Qed.

(** ** kfree *)

(** The writes that make the block at [a] swallow the next one. *)
Lemma absorb m p a s1 f2 s2 l :
  run m p a ((s1, true) :: (s2, f2) :: l) →
  let a2 := a + sizeof_block_header + s1 in
  let nnx := head_or (a2 + sizeof_block_header + s2) 0 l in
  ∃ m1 m2 m3, set_size m a (s1 + sizeof_block_header + s2) = Ok m1 ∧
    header_at m1 a (mk_header (s1 + sizeof_block_header + s2) true p a2) ∧
    header_at m1 a2 (mk_header s2 f2 a nnx) ∧
    set_next m1 a nnx = Ok m2 ∧
    header_at m2 a (mk_header (s1 + sizeof_block_header + s2) true p nnx) ∧
    header_at m2 a2 (mk_header s2 f2 a nnx) ∧
    (if negb (nnx =? 0) then set_prev m2 nnx a else Ok m2) = Ok m3 ∧
    run m3 p a ((s1 + sizeof_block_header + s2, true) :: l) ∧
    modifies (λ x, in_range a sizeof_block_header x ∨
      (l ≠ [] ∧ in_range (a2 + sizeof_block_header + s2) sizeof_block_header x)) m m3.
Proof.
  intros Hrun a2 nnx.
  destruct (run_head _ _ _ _ _ _ Hrun) as (Hh & Hm & Hb0 & Hb16 & Ha & Hhi & _ & Hokl).
  pose proof (run_tail _ _ _ _ _ _ Hrun) as Hrun2. fold a2 in Hrun2.
  destruct (run_head _ _ _ _ _ _ Hrun2) as (Hh2 & Hm2 & Hc0 & Hc16 & Ha2 & Hhi2 & Hnx2 & Hokl2).
  pose proof (run_tail _ _ _ _ _ _ Hrun2) as Hrun3. fold nnx in Hh2, Hnx2.
  simpl in Hh. fold a2 in Hh, Hhi.
  pose proof (r_mapped _ _ _ _ Hrun) as Hmall. simpl in Hmall. fold a2 in Hmall.
  pose proof (end_of_le (a2 + sizeof_block_header + s2) l Hokl2) as Hend.
  assert (Ha2eq : a2 = a + sizeof_block_header + s1) by done.
  assert (Hnnx : nnx = head_or (a2 + sizeof_block_header + s2) 0 l) by done. clearbody a2 nnx.
  destruct (set_size_spec m a _ (s1 + sizeof_block_header + s2) Hh) as (m1 & E1 & Hh1 & M1);
    [eapply mapped_sub; [exact Hm | lia | blia] | blia |].
  destruct (set_next_spec m1 a _ nnx Hh1) as (m2 & E2 & Hh1' & M2);
    [eapply mapped_sub; [eapply modifies_mapped; [exact M1 | exact Hm] | lia | blia] | done |].
  assert (M12 : modifies (in_range a sizeof_block_header) m m2) by by etransitivity.
  assert (Hrun3' : run m2 a2 (a2 + sizeof_block_header + s2) l)
    by (eapply run_modifies; [exact Hrun3 | exact M12 | blia]).
  assert (Hh2' : header_at m1 a2 (mk_header s2 f2 a nnx))
    by (eapply header_modifies; [exact Hh2 | exact M1 | blia]).
  destruct (relink m2 a2 a _ l 0 (r_seg _ _ _ _ Hrun3') Hokl2 (r_mapped _ _ _ _ Hrun3'))
    as (m3 & E3 & Hseg3 & M3); [blia | blia |]. rewrite <-Hnnx in E3.
  exists m1, m2, m3. split_and!; [exact E1 | exact Hh1 | exact Hh2' | exact E2 | exact Hh1' | | exact E3 | |].
  - eapply header_modifies; [exact Hh2' | exact M2 | blia].
  - apply run_cons; [| | split; unfold MIN_SPLIT_SIZE, sizeof_block_header in *; simpl; dlia | done |].
    + replace (a + sizeof_block_header + (s1 + sizeof_block_header + s2))
        with (a2 + sizeof_block_header + s2) by blia.
      rewrite <-Hnnx. eapply header_modifies; [exact Hh1' | exact M3 | blia].
    + eapply mapped_sub; [eapply modifies_mapped; [exact M3 | eapply modifies_mapped; [exact M12 | exact Hmall]]
        | lia | blia].
    + replace (a + sizeof_block_header + (s1 + sizeof_block_header + s2))
        with (a2 + sizeof_block_header + s2) by blia.
      constructor; [| done | eapply modifies_mapped; [exact M3 | apply Hrun3'] | blia | apply Hrun3'].
      destruct l as [|[s3 f3] l]; [done|]. simpl in *.
      replace (a + sizeof_block_header + (s1 + sizeof_block_header + s2))
        with (a2 + sizeof_block_header + s2) by blia. exact Hseg3.
  - transitivity m2; [eapply modifies_mono; [|exact M12] | eapply modifies_mono; [|exact M3]]; tauto.
Qed.

(** The bytes [absorb] writes may be written. *)
Lemma absorb_bytes a s1 f2 s2 l x :
  Forall block_ok ((s1, true) :: (s2, f2) :: l) →
  in_range a sizeof_block_header x ∨
    (l ≠ [] ∧ in_range (a + sizeof_block_header + s1 + sizeof_block_header + s2)
       sizeof_block_header x) →
  heap_bytes a ((s1, true) :: (s2, f2) :: l) x.
Proof.
  intros Hok [Hx|[Hl Hx]]; [by apply heap_bytes_header|].
  pose proof Hok as [_ Hok2]%Forall_cons. pose proof Hok2 as [_ Hok3]%Forall_cons.
  apply heap_bytes_tail; [done|]. apply heap_bytes_tail; [done|].
  destruct l as [|[s3 f3] l]; [done|]. by apply heap_bytes_header.
Qed.

Lemma merge_next_spec m p a s1 l :
  run m p a ((s1, true) :: l) →
  ∃ m', merge_next m a = Ok m' ∧ run m' p a (merge (s1, true) l) ∧
    modifies (heap_bytes a ((s1, true) :: l)) m m'.
Proof.
  intros Hrun. unfold merge_next.
  destruct (run_head _ _ _ _ _ _ Hrun) as (Hh & Hm & Hb0 & Hb16 & Ha & Hhi & _ & Hokl).
  rewrite (h_next _ _ _ Hh). rsimpl.
  destruct l as [|[s2 f2] l]; simpl; [by exists m|].
  destruct (run_head _ _ _ _ _ _ (run_tail _ _ _ _ _ _ Hrun))
    as (Hh2 & _ & Hc0 & _ & Ha2 & Hhi2 & _ & _).
  rewrite (proj2 (Z.eqb_neq _ 0)), (h_free _ _ _ Hh2) by lia. simpl.
  destruct f2; [|by exists m].
  rewrite (h_size _ _ _ Hh), (h_size _ _ _ Hh2). simpl.
  replace (u64 (s1 + u64 (sizeof_block_header + s2))) with (s1 + sizeof_block_header + s2)
    by (rewrite !u64_small; rewrite ?u64_small; blia).
  destruct (absorb m p a s1 true s2 l Hrun)
    as (m1 & m2 & m3 & -> & H1 & H12 & E2 & H2 & H22 & E3 & Hrun3 & Hmod). simpl.
  rewrite (h_next _ _ _ H1). simpl. rewrite (h_next _ _ _ H12). simpl. rewrite E2. simpl.
  rewrite (h_next _ _ _ H2). simpl. rewrite E3. exists m3. split_and!; [done | exact Hrun3 |].
  eapply modifies_mono; [|exact Hmod]. intros x. by apply absorb_bytes, Hrun.
Qed.

Lemma merge_prev_first m a sz l : run m 0 a ((sz, true) :: l) → merge_prev m a = Ok m.
Proof.
  intros Hrun. destruct (run_head _ _ _ _ _ _ Hrun) as (Hh & _).
  unfold merge_prev. by rewrite (h_prev _ _ _ Hh).
Qed.

Lemma merge_prev_spec m p a s1 f1 s2 l :
  run m p a ((s1, f1) :: (s2, true) :: l) →
  ∃ m', merge_prev m (a + sizeof_block_header + s1) = Ok m' ∧
    run m' p a (merge (s1, f1) ((s2, true) :: l)) ∧
    modifies (heap_bytes a ((s1, f1) :: (s2, true) :: l)) m m'.
Proof.
  intros Hrun. unfold merge_prev.
  destruct (run_head _ _ _ _ _ _ Hrun) as (Hh & Hm & Hb0 & Hb16 & Ha & Hhi & _ & Hokl).
  destruct (run_head _ _ _ _ _ _ (run_tail _ _ _ _ _ _ Hrun))
    as (Hh2 & _ & Hc0 & _ & Ha2 & Hhi2 & _ & _).
  rewrite (h_prev _ _ _ Hh2). simpl. rewrite (proj2 (Z.eqb_neq a 0)), (h_free _ _ _ Hh) by lia.
  simpl. destruct f1; [|by exists m].
  rewrite (h_size _ _ _ Hh), (h_size _ _ _ Hh2). simpl.
  replace (u64 (s1 + u64 (sizeof_block_header + s2))) with (s1 + sizeof_block_header + s2)
    by (rewrite !u64_small; rewrite ?u64_small; blia).
  destruct (absorb m p a s1 true s2 l Hrun)
    as (m1 & m2 & m3 & -> & H1 & H12 & E2 & H2 & H22 & E3 & Hrun3 & Hmod). simpl.
  rewrite (h_prev _ _ _ H12), (h_next _ _ _ H12). simpl. rewrite E2. simpl.
  rewrite (h_next _ _ _ H22), (h_prev _ _ _ H22). simpl. rewrite E3.
  exists m3. split_and!; [done | exact Hrun3 |].
  eapply modifies_mono; [|exact Hmod]. intros x. by apply absorb_bytes, Hrun.
Qed.

(** A change of the last blocks of a run, seen from its first. *)
Lemma run_replace X m m' p a l1 l2 l2' :
  run m p a (l1 ++ l2) → l2 ≠ [] → l2' ≠ [] →
  run m' (last_addr p a l1) (end_of a l1) l2' →
  modifies X m m' → (∀ x, X x → end_of a l1 ≤ x) → run m' p a (l1 ++ l2').
Proof.
  intros Hrun Hl2 Hl2' Hrun2 Hmod. revert p a Hrun Hrun2.
  induction l1 as [|[sz fr] l1 IH]; intros p a Hrun Hrun2 HX; [done|]. simpl in *.
  destruct (run_head _ _ _ _ _ _ Hrun) as (Hh & Hm & Hb0 & Hb16 & Ha & Hhi & _ & Hokl).
  pose proof (IH _ _ (run_tail _ _ _ _ _ _ Hrun) Hrun2 HX) as Hrun'.
  apply Forall_app in Hokl as [Hok1 _].
  pose proof (end_of_le (a + sizeof_block_header + sz) l1 Hok1).
  apply run_cons; [| eauto with mem | done | done | exact Hrun'].
  replace (head_or (a + sizeof_block_header + sz) 0 (l1 ++ l2'))
    with (head_or (a + sizeof_block_header + sz) 0 (l1 ++ l2)) by (by destruct l1, l2, l2').
  eapply header_modifies; [exact Hh | exact Hmod |]. intros x Hx Hx'%HX. blia.
Qed.

Lemma run_app_r m p a l1 l2 :
  run m p a (l1 ++ l2) → run m (last_addr p a l1) (end_of a l1) l2.
Proof.
  revert p a. induction l1 as [|[sz fr] l1 IH]; intros p a Hrun; [done|].
  simpl. by apply IH, run_tail with (fr := fr) (p := p).
Qed.

Lemma heap_bytes_app a l1 l2 x :
  Forall block_ok (l1 ++ l2) → heap_bytes (end_of a l1) l2 x → heap_bytes a (l1 ++ l2) x.
Proof.
  revert a. induction l1 as [|[sz fr] l1 IH]; intros a Hok Hx; [done|]. simpl in *.
  apply heap_bytes_tail; [done|]. apply IH; [by apply Forall_cons in Hok as [_ ?] | done].
Qed.

Lemma last_addr_app p a l1 sz fr : last_addr p a (l1 ++ [(sz, fr)]) = end_of a l1.
Proof. revert p a. induction l1 as [|[s f] l1 IH]; intros p a; simpl; auto. Qed.

(** What [kfree] makes of the blocks before the freed one, once it has been
    merged with the one after. *)
Fixpoint merge_last (l1 : list block) (l2 : list block) : list block :=
  match l1 with
  | [] => l2
  | b :: l1' => match l1' with [] => merge b l2 | _ => b :: merge_last l1' l2 end
  end.

Lemma merge_last_snoc l1 b l2 : merge_last (l1 ++ [b]) l2 = l1 ++ merge b l2.
Proof.
  induction l1 as [|b' l1 IH]; [done|]. simpl. rewrite IH. by destruct (l1 ++ [b]) eqn:He; [destruct l1|].
Qed.

Lemma merge_free_head sz l2 : ∃ s l, merge (sz, true) l2 = (s, true) :: l.
Proof. destruct l2 as [|[s2 []] l2]; simpl; eauto. Qed.

Lemma merge_ne b l : merge b l ≠ [].
Proof. by destruct b as [? []], l as [|[? []] ?]. Qed.

(** Merging changes neither the extent of the blocks nor those in use. *)
Lemma live_app a l1 l2 : live a (l1 ++ l2) = live a l1 ++ live (end_of a l1) l2.
Proof.
  revert a. induction l1 as [|[sz fr] l1 IH]; intros a; simpl; [done|]. by rewrite IH, <-app_assoc.
Qed.

Lemma live_merge a b l : live a (merge b l) = live a (b :: l).
Proof.
  destruct b as [sz []], l as [|[sz' []] l]; simpl; try done.
  by replace (a + sizeof_block_header + (sz + sizeof_block_header + sz'))
    with (a + sizeof_block_header + sz + sizeof_block_header + sz') by lia.
Qed.

Lemma end_of_merge a b l : end_of a (merge b l) = end_of a (b :: l).
Proof.
  destruct b as [sz []], l as [|[sz' []] l]; simpl; try done.
  by replace (a + sizeof_block_header + (sz + sizeof_block_header + sz'))
    with (a + sizeof_block_header + sz + sizeof_block_header + sz') by lia.
Qed.

Lemma heap_bytes_ext a l l' x :
  end_of a l = end_of a l' → live a l = live a l' → heap_bytes a l x → heap_bytes a l' x.
Proof. unfold heap_bytes, live_bytes. by intros -> ->. Qed.

(** [kfree] of the block after [l1]. *)
Lemma kfree_run m a l1 sz l2 :
  run m 0 a (l1 ++ (sz, false) :: l2) →
  ∃ m', kfree m (end_of a l1 + sizeof_block_header) = Ok m' ∧
    run m' 0 a (merge_last l1 (merge (sz, true) l2)) ∧
    modifies (heap_bytes a (l1 ++ (sz, true) :: l2)) m m'.
Proof.
  intros Hrun. pose proof (run_app_r _ _ _ _ _ Hrun) as Hnode.
  destruct (run_head _ _ _ _ _ _ Hnode) as (Hh & Hm & Hb0 & Hb16 & Ha & Hhi & _ & Hokl).
  set (node := end_of a l1) in *.
  pose proof (live_merge node (sz, true) l2) as Hlive.
  pose proof (end_of_merge node (sz, true) l2) as Hend.
  pose proof (merge_next_spec) as Hnext. specialize Hnext with (s1 := sz) (l := l2) (a := node).
  destruct (merge_free_head sz l2) as (s & l & Hml). rewrite Hml in Hnext, Hlive, Hend |- *.
  unfold kfree. rewrite (proj2 (Z.eqb_neq _ 0)) by blia. rewrite (u64_small _) by blia.
  replace (node + sizeof_block_header - sizeof_block_header) with node by lia.
  destruct (set_free_spec m node _ true Hh) as (m1 & -> & Hh1 & M1);
    [eapply mapped_sub; [exact Hm | lia | blia]|]. cbn [mbind res_bind].
  assert (Hnode1 : run m1 (last_addr 0 a l1) node ((sz, true) :: l2)).
  { apply run_cons; [exact Hh1 | eauto with mem | done | done |].
    eapply run_modifies; [by eapply run_tail | exact M1 | blia]. }
  assert (Hrun1 : run m1 0 a (l1 ++ (sz, true) :: l2))
    by (eapply run_replace; [exact Hrun | done | done | exact Hnode1 | exact M1 | unfold node; blia]).
  pose proof (r_ok _ _ _ _ Hrun1) as Hok1.
  destruct (Hnext m1 _ Hnode1) as (m2 & -> & Hnode2 & M2). cbn [mbind res_bind].
  assert (M12 : modifies (heap_bytes a (l1 ++ (sz, true) :: l2)) m m2).
  { transitivity m1; [eapply modifies_mono; [|exact M1] | eapply modifies_mono; [|exact M2]];
      intros x Hx; apply heap_bytes_app; try done.
    apply heap_bytes_header; [by apply Forall_app in Hok1 as [_ ?] | done]. }
  destruct l1 as [|[psz pfr] l1' _] using rev_ind.
  - rewrite (merge_prev_first m2 node s l Hnode2). by exists m2.
  - rewrite merge_last_snoc.
    assert (Hnode_eq : node = end_of a l1' + sizeof_block_header + psz)
      by (unfold node; by rewrite end_of_app).
    assert (Hrun2 : run m2 0 a ((l1' ++ [(psz, pfr)]) ++ (s, true) :: l)).
    { eapply run_replace; [exact Hrun1 | done | done | exact Hnode2 | exact M2 | by intros x [[? _] _]]. }
    rewrite <-app_assoc in Hrun2. simpl in Hrun2.
    pose proof (run_app_r _ _ _ _ _ Hrun2) as Hprev.
    destruct (merge_prev_spec m2 _ _ psz pfr s l Hprev) as (m3 & E3 & Hprev3 & M3).
    rewrite <-Hnode_eq in E3. exists m3. split_and!; [done | |].
    + eapply run_replace; [exact Hrun2 | done | apply merge_ne | exact Hprev3 | exact M3
        | by intros x [[? _] _]].
    + transitivity m2; [exact M12 | eapply modifies_mono; [|exact M3]]. intros x Hx.
      apply heap_bytes_app in Hx; [|by apply Hrun2]. revert Hx. rewrite <-app_assoc.
      apply heap_bytes_ext.
      * rewrite !end_of_app. simpl. rewrite <-Hnode_eq. exact Hend.
      * rewrite !live_app. simpl. rewrite <-Hnode_eq. simpl in Hlive. by rewrite Hlive, app_nil_r.
Qed.

(** ** The specification, on its own *)

Lemma coalesced_merge b l : coalesced l = true → coalesced (merge b l) = true.
Proof.
  destruct b as [sz []], l as [|[sz' []] l]; simpl; try done.
Qed.

Lemma coalesced_coalesce l : coalesced (coalesce l) = true.
Proof. induction l as [|b l IH]; simpl; [done|]. by apply coalesced_merge. Qed.

Lemma coalesce_id l : coalesced l = true → coalesce l = l.
Proof.
  induction l as [|[sz fr] l IH]; simpl; [done|]. intros [Hb Hl]%andb_true_iff.
  rewrite IH by done. by destruct fr, l as [|[sz' []] l].
Qed.

Lemma live_coalesce a l : live a (coalesce l) = live a l.
Proof.
  revert a. induction l as [|[sz fr] l IH]; intros a; [done|].
  change (coalesce ((sz, fr) :: l)) with (merge (sz, fr) (coalesce l)).
  rewrite live_merge. simpl. by rewrite IH.
Qed.

Lemma end_of_coalesce a l : end_of a (coalesce l) = end_of a l.
Proof.
  revert a. induction l as [|[sz fr] l IH]; intros a; [done|].
  change (coalesce ((sz, fr) :: l)) with (merge (sz, fr) (coalesce l)).
  rewrite end_of_merge. simpl. by rewrite IH.
Qed.

Lemma mark_free_past a ptr l :
  Forall block_ok l → ptr < a + sizeof_block_header → mark_free a ptr l = l.
Proof.
  intros Hok. revert a. induction Hok as [|[sz fr] l [Hb _] _ IH]; intros a Hp; simpl; [done|].
  rewrite IH by blia. by rewrite (proj2 (Z.eqb_neq _ _)), orb_false_r by lia.
Qed.

Lemma mark_free_at a l1 sz fr l2 :
  Forall block_ok (l1 ++ (sz, fr) :: l2) →
  mark_free a (end_of a l1 + sizeof_block_header) (l1 ++ (sz, fr) :: l2) = l1 ++ (sz, true) :: l2.
Proof.
  revert a. induction l1 as [|[s f] l1 IH]; intros a Hok; simpl in *.
  - apply Forall_cons in Hok as [[Hb _] Hok]. rewrite mark_free_past by (done || blia).
    by rewrite Z.eqb_refl, orb_true_r.
  - apply Forall_cons in Hok as [[Hb _] Hok]. rewrite IH by done.
    apply Forall_app in Hok as [Hok _].
    pose proof (end_of_le (a + sizeof_block_header + s) l1 Hok).
    by rewrite (proj2 (Z.eqb_neq _ _)), orb_false_r by blia.
Qed.

Lemma live_split a l p s :
  (p, s) ∈ live a l →
  ∃ l1 l2, l = l1 ++ (s, false) :: l2 ∧ p = end_of a l1 + sizeof_block_header.
Proof.
  revert a. induction l as [|[sz fr] l IH]; intros a; simpl; [by intros ?%elem_of_nil|].
  rewrite elem_of_app. intros [Hin|Hin].
  - destruct fr; [by apply elem_of_nil in Hin|]. apply list_elem_of_singleton in Hin as [= -> ->].
    by exists [], l.
  - destruct (IH _ Hin) as (l1 & l2 & -> & ->). by exists ((sz, fr) :: l1), l2.
Qed.

(** Releasing the block after [l1] is what [kfree_run] computes. *)
Lemma release_at a l1 sz l2 :
  Forall block_ok (l1 ++ (sz, false) :: l2) → coalesced (l1 ++ (sz, false) :: l2) = true →
  release a (end_of a l1 + sizeof_block_header) (l1 ++ (sz, false) :: l2) =
    merge_last l1 (merge (sz, true) l2).
Proof.
  intros Hok Hc. unfold release. rewrite mark_free_at by done. clear Hok.
  induction l1 as [|[s f] l1 IH]; simpl in *.
  - apply andb_true_iff in Hc as [_ Hc]. by rewrite coalesce_id.
  - apply andb_true_iff in Hc as [Hb Hc]. rewrite IH by done.
    destruct l1 as [|[s' f'] l1]; [done|]. simpl in Hb.
    assert (Hhead : ∃ s2 l', merge_last ((s', f') :: l1) (merge (sz, true) l2) = (s2, f') :: l').
    { simpl. destruct l1 as [|b l1]; [|eauto].
      destruct f', (merge_free_head sz l2) as (s2 & l' & ->); simpl; eauto. }
    destruct Hhead as (s2 & l' & Heq). rewrite Heq. by destruct f, f'.
Qed.

(** First fit takes from the first free block that is large enough. *)
Lemma first_fit_spec a sz l :
  match first_fit a sz l with
  | None => Forall (λ b, b.2 = true → b.1 < sz) l
  | Some (r, l') =>
      ∃ l1 bsz l2, l = l1 ++ (bsz, true) :: l2 ∧ r = end_of a l1 + sizeof_block_header ∧
        l' = l1 ++ taken bsz sz l2 ∧ sz ≤ bsz ∧ Forall (λ b, b.2 = true → b.1 < sz) l1
  end.
Proof.
  revert a. induction l as [|[bsz fr] l IH]; intros a; simpl; [done|].
  destruct (fr && (sz <=? bsz)) eqn:Hfit.
  - apply andb_true_iff in Hfit as [-> Hle%Z.leb_le]. exists [], bsz, l. done.
  - specialize (IH (a + sizeof_block_header + bsz)).
    assert (Hb : (bsz, fr).2 = true → (bsz, fr).1 < sz).
    { simpl. intros ->. simpl in Hfit. by apply Z.leb_gt. }
    destruct (first_fit _ sz l) as [[r l']|]; simpl.
    + destruct IH as (l1 & b & l2 & -> & -> & -> & Hle & Hl1).
      exists ((bsz, fr) :: l1), b, l2. split_and!; [done..|]. by constructor.
    + by constructor.
Qed.

Lemma taken_ok bsz sz l :
  block_ok (bsz, true) → 0 ≤ sz ≤ bsz → sz mod MIN_SPLIT_SIZE = 0 → Forall block_ok l →
  Forall block_ok (taken bsz sz l).
Proof.
  intros [Hb H16] Hs Hs16 Hok. unfold taken. case_match eqn:Hc; [apply Z.leb_le in Hc|].
  - repeat (apply Forall_cons; split); [..|done].
    + by split; [blia|].
    + split; unfold MIN_SPLIT_SIZE, sizeof_block_header in *; simpl in *; dlia.
  - by apply Forall_cons.
Qed.

Lemma end_of_taken a bsz sz l : end_of a (taken bsz sz l) = end_of a ((bsz, true) :: l).
Proof. unfold taken. case_match; simpl; f_equal; lia. Qed.

Lemma live_taken a bsz sz l :
  ∃ s, live a (taken bsz sz l) = (a + sizeof_block_header, s) :: live (a + sizeof_block_header + bsz) l ∧
    (sz ≤ bsz → sz ≤ s ≤ bsz).
Proof.
  unfold taken. case_match eqn:Hc; simpl; [|by exists bsz].
  exists sz. split; [do 2 f_equal; lia | lia].
Qed.

Lemma coalesced_app_r l1 l2 : coalesced (l1 ++ l2) = true → coalesced l2 = true.
Proof. induction l1; simpl; [done|]. intros [_ ?]%andb_true_iff. auto. Qed.

Lemma coalesced_replace l1 b b' l2 l2' :
  coalesced (l1 ++ b :: l2) = true → (b'.2 = true → b.2 = true) →
  coalesced (b' :: l2') = true → coalesced (l1 ++ b' :: l2') = true.
Proof.
  intros Hc Hb Hc'. induction l1 as [|c l1 IH]; [done|]. simpl in *.
  apply andb_true_iff in Hc as [H1 H2]. rewrite IH by done. rewrite andb_true_r.
  destruct l1; simpl in *; [|done]. destruct c.2, b'.2, b.2; naive_solver.
Qed.

Lemma taken_coalesced l1 bsz sz l2 :
  coalesced (l1 ++ (bsz, true) :: l2) = true → coalesced (l1 ++ taken bsz sz l2) = true.
Proof.
  intros Hc. pose proof (coalesced_app_r _ _ Hc) as Hr. simpl in Hr.
  apply andb_true_iff in Hr as [Hr1 Hr2].
  unfold taken. destruct (_ <=? bsz - sz);
    (eapply coalesced_replace; [exact Hc | done |]); simpl.
  - by rewrite Hr1, Hr2.
  - rewrite Hr2. by destruct l2.
Qed.

(** Releasing what first fit took restores the blocks. *)
Lemma release_first_fit a sz l r l' :
  Forall block_ok l → coalesced l = true → 0 ≤ sz → sz mod MIN_SPLIT_SIZE = 0 →
  first_fit a sz l = Some (r, l') → release a r l' = l.
Proof.
  intros Hok Hc Hsz H16 Hff. pose proof (first_fit_spec a sz l) as Hs. rewrite Hff in Hs.
  destruct Hs as (l1 & bsz & l2 & -> & -> & -> & Hle & _).
  apply Forall_app in Hok as [Hok1 [Hokb Hok2]%Forall_cons].
  assert (Hokt := taken_ok bsz sz l2 Hokb (conj Hsz Hle) H16 Hok2).
  unfold release. transitivity (coalesce (l1 ++ (bsz, true) :: l2)); [|by apply coalesce_id].
  pose proof (coalesced_app_r _ _ Hc) as Hr. simpl in Hr. apply andb_true_iff in Hr as [Hr1 Hr2].
  unfold taken in *. destruct (_ <=? bsz - sz); (rewrite mark_free_at by (apply Forall_app; done)); [|done].
  pose proof (coalesce_id l2 Hr2) as Hid. unfold coalesce, block in *. rewrite !foldr_app. f_equal.
  simpl. rewrite Hid.
  destruct l2 as [|[s2 []] l2]; simpl; [| done |]; do 2 f_equal; lia.
Qed.

(** ** The heap as a whole *)

Lemma heap_run fl m l : heap_inv fl m l → run m 0 HEAP_VBASE l.
Proof.
  intros [_ _ Hseg Hok Hend _ Hm]. constructor; [done | done | | done | by rewrite Hend].
  rewrite Hend. eapply mapped_sub; [exact Hm | lia | lia].
Qed.

Lemma heap_inv_run fl m m' l l' X :
  heap_inv fl m l → run m' 0 HEAP_VBASE l' → l' ≠ [] → coalesced l' = true →
  end_of HEAP_VBASE l' = end_of HEAP_VBASE l → modifies X m m' → heap_inv fl m' l'.
Proof.
  intros [Hfl _ _ _ Hend _ Hm] [Hseg Hok _ _ _] Hne Hc He Hmod.
  constructor; try done; [by rewrite He | eauto with mem].
Qed.

Lemma heap_blocks fl m l : heap_inv fl m l → (length l < heap_fuel)%nat.
Proof.
  intros Hinv. pose proof (end_of_ge HEAP_VBASE l (hi_ok _ _ _ Hinv)) as Hge.
  rewrite (hi_end _ _ _ Hinv) in Hge. unfold heap_fuel, sizeof_block_header, HEAP_SIZE in *.
  apply Nat2Z.inj_lt. rewrite Z2Nat.id by done.
  change (16 * 1024 * 1024 / 32 + 1) with 524289. lia.
Qed.

(** Clients may write to blocks in use. *)
Lemma heap_inv_write fl m m' l X :
  heap_inv fl m l → modifies X m m' → (∀ x, X x → live_bytes HEAP_VBASE l x) → heap_inv fl m' l.
Proof.
  intros Hinv Hmod HX.
  eapply heap_inv_run; [exact Hinv | | apply Hinv | apply Hinv | done | exact Hmod].
  eapply run_modifies; [by eapply heap_run | exact Hmod | auto].
Qed.

(** [kmalloc] follows first fit, at the rounded size as the machine computes
    it. *)
Lemma kmalloc_first_fit fl m l size :
  heap_inv fl m l → 0 < size < 2 ^ 64 →
  ∃ r m', kmalloc fl m size = Ok (r, m') ∧
    match first_fit HEAP_VBASE (align_up size MIN_SPLIT_SIZE) l with
    | None => r = 0 ∧ m' = m
    | Some (r', l') => r = r' ∧ run m' 0 HEAP_VBASE l' ∧ modifies (heap_bytes HEAP_VBASE l) m m'
    end.
Proof.
  intros Hinv Hsz. unfold kmalloc. rewrite (proj2 (Z.eqb_neq size 0)) by lia.
  replace fl with (head_or HEAP_VBASE 0 l)
    by (rewrite (hi_list _ _ _ Hinv); by destruct l; [destruct (hi_ne _ _ _ Hinv)|]).
  assert (Hal : 0 ≤ align_up size MIN_SPLIT_SIZE ∧ align_up size MIN_SPLIT_SIZE mod MIN_SPLIT_SIZE = 0).
  { unfold align_up, MIN_SPLIT_SIZE. change (16 - 1) with (2 ^ 4 - 1).
    rewrite land_not64_pow2 by (auto with words; lia). change (2 ^ 4) with 16.
    pose proof (u64_range (size + (16 - 1))).
    split; [apply Z.mul_nonneg_nonneg; [apply Z.div_pos; lia | lia] | by apply Z.mod_mul]. }
  apply kmalloc_loop_spec; [by eapply heap_run | apply Hal | apply Hal | by eapply heap_blocks].
Qed.

(** The new list of blocks is a heap again. *)
Lemma first_fit_inv fl m m' l sz r l' :
  heap_inv fl m l → 0 ≤ sz → sz mod MIN_SPLIT_SIZE = 0 →
  first_fit HEAP_VBASE sz l = Some (r, l') → run m' 0 HEAP_VBASE l' →
  modifies (heap_bytes HEAP_VBASE l) m m' →
  heap_inv fl m' l' ∧
  ∃ k1 k2 s, live HEAP_VBASE l = k1 ++ k2 ∧ live HEAP_VBASE l' = k1 ++ (r, s) :: k2 ∧ sz ≤ s ∧
    r mod 16 = 0 ∧ HEAP_VBASE + sizeof_block_header ≤ r ∧ r + s ≤ HEAP_VBASE + HEAP_SIZE ∧
    (∀ x, in_range r s x → ¬ live_bytes HEAP_VBASE l x).
Proof.
  intros Hinv Hsz H16 Hff Hrun Hmod. pose proof (first_fit_spec HEAP_VBASE sz l) as Hs.
  rewrite Hff in Hs. destruct Hs as (l1 & bsz & l2 & -> & -> & -> & Hle & _).
  destruct (live_taken (end_of HEAP_VBASE l1) bsz sz l2) as (s & Hlive & Hsb). specialize (Hsb Hle).
  pose proof (hi_ok _ _ _ Hinv) as Hok. pose proof (hi_end _ _ _ Hinv) as Hend.
  apply Forall_app in Hok as [Hok1 Hok2]. pose proof (end_of_le HEAP_VBASE l1 Hok1).
  pose proof Hok2 as [Hb Hok3]%Forall_cons. rewrite end_of_app in Hend. simpl in Hend.
  pose proof (end_of_le (end_of HEAP_VBASE l1 + sizeof_block_header + bsz) l2 Hok3).
  split.
  - eapply heap_inv_run; [done | done | unfold taken; by destruct l1, (_ <=? bsz - sz) | | | done].
    + apply taken_coalesced, Hinv.
    + by rewrite !end_of_app, end_of_taken.
  - exists (live HEAP_VBASE l1), (live (end_of HEAP_VBASE l1 + sizeof_block_header + bsz) l2), s.
    rewrite !live_app, Hlive. split_and!; try done; [lia | | blia | blia |].
    + assert (Hmod16 : ∀ l a, Forall block_ok l → a mod 16 = 0 → end_of a l mod 16 = 0).
      { clear. intros l a Hok. revert a. induction Hok as [|[sz fr] l [_ Hb] _ IH]; intros a Ha; [done|].
        apply IH. unfold MIN_SPLIT_SIZE, sizeof_block_header in *. simpl in *. dlia. }
      specialize (Hmod16 l1 HEAP_VBASE Hok1 eq_refl). unfold sizeof_block_header. dlia.
    + intros x Hx Hl. eapply (proj2 (heap_bytes_app HEAP_VBASE l1 _ x (hi_ok _ _ _ Hinv)
        (heap_bytes_free (end_of HEAP_VBASE l1) bsz l2 x Hok2 ltac:(blia)))), Hl.
Qed.

(** ** Blocks in use *)

Lemma live_bounds a l p s :
  Forall block_ok l → (p, s) ∈ live a l →
  a + sizeof_block_header ≤ p ∧ 0 ≤ s ∧ p + s ≤ end_of a l.
Proof.
  intros Hok Hin. destruct (live_split _ _ _ _ Hin) as (l1 & l2 & -> & ->).
  apply Forall_app in Hok as [Hok1 [[Hb _] Hok2]%Forall_cons].
  pose proof (end_of_le a l1 Hok1).
  pose proof (end_of_le (end_of a l1 + sizeof_block_header + s) l2 Hok2).
  rewrite end_of_app. blia.
Qed.

Lemma live_NoDup a l : Forall block_ok l → NoDup (live a l).*1.
Proof.
  intros Hok. revert a. induction Hok as [|[sz fr] l [Hb _] Hok IH]; intros a; simpl; [constructor|].
  rewrite fmap_app. destruct fr; simpl; [apply IH|]. constructor; [|apply IH].
  intros ([p s] & Heq & Hin)%list_elem_of_fmap. simpl in Heq. subst p.
  pose proof (live_bounds _ _ _ _ Hok Hin). blia.
Qed.

Lemma live_disjoint a l p s q t x :
  Forall block_ok l → (p, s) ∈ live a l → (q, t) ∈ live a l →
  in_range p s x → in_range q t x → p = q.
Proof.
  intros Hok. revert a. induction Hok as [|[sz fr] l [Hb _] Hok IH]; intros a; simpl;
    [by intros ?%elem_of_nil|].
  rewrite !elem_of_app. intros [Hp|Hp] [Hq|Hq] Hx Hy; [| | | by eapply IH].
  - destruct fr; [by apply elem_of_nil in Hp|].
    apply list_elem_of_singleton in Hp as [= -> ->]. by apply list_elem_of_singleton in Hq as [= -> ->].
  - destruct fr; [by apply elem_of_nil in Hp|].
    apply list_elem_of_singleton in Hp as [= -> ->]. pose proof (live_bounds _ _ _ _ Hok Hq). blia.
  - destruct fr; [by apply elem_of_nil in Hq|].
    apply list_elem_of_singleton in Hq as [= -> ->]. pose proof (live_bounds _ _ _ _ Hok Hp). blia.
Qed.

(** Both outcomes of [kmalloc]. *)
Lemma kmalloc_spec fl m l size :
  heap_inv fl m l → 0 < size ≤ 2 ^ 64 - 16 →
  ∃ r m' l', kmalloc fl m size = Ok (r, m') ∧ heap_inv fl m' l' ∧
    (∀ x, live_bytes HEAP_VBASE l x → m' !! x = m !! x) ∧
    ((r = 0 ∧ m' = m ∧ l' = l ∧ (∀ s, (s, true) ∈ l → s < size)) ∨
     (∃ k1 k2 s, live HEAP_VBASE l = k1 ++ k2 ∧ live HEAP_VBASE l' = k1 ++ (r, s) :: k2 ∧
       size ≤ s ∧ r mod 16 = 0 ∧ HEAP_VBASE < r ∧ r + s ≤ HEAP_VBASE + HEAP_SIZE ∧
       (∀ x, in_range r s x → ¬ live_bytes HEAP_VBASE l x))).
Proof.
  intros Hinv Hsz. destruct (kmalloc_first_fit fl m l size Hinv) as (r & m' & Hk & Hr); [lia|].
  exists r, m'. unfold MIN_SPLIT_SIZE in Hr. rewrite align_up_16 in Hr by lia.
  set (sz := (size + 15) / 16 * 16) in *.
  assert (Hle : size ≤ sz) by (unfold sz; dlia).
  assert (H16 : sz mod MIN_SPLIT_SIZE = 0) by by apply Z.mod_mul.
  destruct (first_fit HEAP_VBASE sz l) as [[r' l']|] eqn:Hff.
  - destruct Hr as (-> & Hrun & Hmod). exists l'.
    destruct (first_fit_inv fl m m' l sz r' l' Hinv ltac:(lia) H16 Hff Hrun Hmod)
      as (Hinv' & k1 & k2 & s & H1 & H2 & H3 & H4 & H5 & H6 & H7).
    split_and!; [done | done | |].
    + intros x Hx. apply (modifies_lookup _ _ _ _ Hmod). by intros [_ ?].
    + right. exists k1, k2, s. split_and!; try done; blia.
  - destruct Hr as [-> ->]. exists l. split_and!; [done | done | done |]. left.
    split_and!; [done..|]. intros s Hs. pose proof (first_fit_spec HEAP_VBASE sz l) as Hno.
    rewrite Hff in Hno. rewrite Forall_forall in Hno. specialize (Hno _ Hs eq_refl). simpl in Hno.
    pose proof (hi_ok _ _ _ Hinv) as Hok. rewrite Forall_forall in Hok.
    destruct (Hok _ Hs) as [_ Hs16]. unfold MIN_SPLIT_SIZE, sz in *. simpl in Hs16. dlia.
Qed.

(** ** Initialisation *)

(** The bytes of the fields of the first header; the seven after the second are
    padding. *)
Definition header_fields (x : Z) : Prop := in_range HEAP_VBASE 9 x ∨ in_range (HEAP_VBASE + 16) 16 x.

#[export] Instance header_fields_dec x : Decision (header_fields x).
Proof. unfold header_fields. apply _. Defined.

Lemma store64_only m a v m' : store64 m a v = Ok m' → mapped m a 8 → 0 ≤ v < 2 ^ 64 → modifies (in_range a 8) m m'.
Proof. intros E Hm Hv. destruct (store64_spec m a v Hm Hv) as (m2 & E2 & Hmod & _). rewrite E in E2. by injection E2 as <-. Qed.

Lemma init_header m s :
  mapped m HEAP_VBASE HEAP_SIZE → 0 ≤ s < 2 ^ 64 →
  ∃ m1 m2 m3 m4, set_size m HEAP_VBASE s = Ok m1 ∧ set_free m1 HEAP_VBASE true = Ok m2 ∧
    set_prev m2 HEAP_VBASE 0 = Ok m3 ∧ set_next m3 HEAP_VBASE 0 = Ok m4 ∧
    header_at m4 HEAP_VBASE (mk_header s true 0 0) ∧
    modifies (in_range HEAP_VBASE 8) m m1 ∧ modifies (in_range (HEAP_VBASE + 8) 1) m1 m2 ∧
    modifies (in_range (HEAP_VBASE + 16) 8) m2 m3 ∧ modifies (in_range (HEAP_VBASE + 24) 8) m3 m4.
Proof.
  intros Hm Hs.
  assert (Hm0 : mapped m HEAP_VBASE sizeof_block_header) by (eapply mapped_sub; [exact Hm | lia | done]).
  destruct (mapped_header m HEAP_VBASE Hm0) as [h0 Hh0].
  destruct (set_size_spec m _ h0 s Hh0 Hm0 Hs) as (m1 & E1 & Hh1 & M1).
  assert (Hm1 := modifies_mapped _ _ _ _ _ M1 Hm0).
  destruct (set_free_spec m1 _ _ true Hh1 Hm1) as (m2 & E2 & Hh2 & M2).
  assert (Hm2 := modifies_mapped _ _ _ _ _ M2 Hm1).
  destruct (set_prev_spec m2 _ _ 0 Hh2 Hm2) as (m3 & E3 & Hh3 & M3); [lia|].
  assert (Hm3 := modifies_mapped _ _ _ _ _ M3 Hm2).
  destruct (set_next_spec m3 _ _ 0 Hh3 Hm3) as (m4 & E4 & Hh4 & M4); [lia|].
  assert (Hsub : ∀ m a n, mapped m HEAP_VBASE sizeof_block_header → 0 ≤ a → a + n ≤ 32 → mapped m (HEAP_VBASE + a) n)
    by (intros m' a n Hm' H0 H1; eapply mapped_sub; [exact Hm' | lia | unfold sizeof_block_header; lia]).
  exists m1, m2, m3, m4. split_and!; [done..| exact Hh4 | | | |].
  - eapply store64_only; [exact E1 | rewrite <-(Z.add_0_r HEAP_VBASE); apply Hsub; [done | lia | lia] | done].
  - unfold set_free in E2. rewrite store8_mapped in E2 by (apply Hm1; unfold in_range, sizeof_block_header; lia).
    injection E2 as <-. eapply modifies_mono; [|apply modifies_insert; apply Hm1; unfold in_range, sizeof_block_header; lia].
    intros x ->. unfold in_range. lia.
  - eapply store64_only; [exact E3 | apply Hsub; [done | lia | lia] | lia].
  - eapply store64_only; [exact E4 | apply Hsub; [done | lia | lia] | lia].
Qed.

Lemma header_modified m m1 m2 m3 m4 :
  modifies (in_range HEAP_VBASE 8) m m1 → modifies (in_range (HEAP_VBASE + 8) 1) m1 m2 →
  modifies (in_range (HEAP_VBASE + 16) 8) m2 m3 → modifies (in_range (HEAP_VBASE + 24) 8) m3 m4 →
  modifies header_fields m m4.
Proof.
  intros M1 M2 M3 M4. etransitivity; [|etransitivity; [|etransitivity]];
    [eapply modifies_mono; [|exact M1] | eapply modifies_mono; [|exact M2] | eapply modifies_mono; [|exact M3]
    |eapply modifies_mono; [|exact M4]]; intros x; unfold header_fields, in_range; lia.
Qed.

(** The heap after its first header. *)
Lemma first_block_inv m m4 :
  mapped m HEAP_VBASE HEAP_SIZE → modifies header_fields m m4 →
  header_at m4 HEAP_VBASE (mk_header (HEAP_SIZE - sizeof_block_header) true 0 0) →
  heap_inv HEAP_VBASE m4 [(HEAP_SIZE - sizeof_block_header, true)].
Proof.
  intros Hm M Hh. constructor; [done | done | by split | | done | done | eauto with mem].
  repeat constructor; unfold HEAP_SIZE, sizeof_block_header; simpl; lia.
Qed.

(** The range once it is a lazy region that nothing maps yet. *)
Definition heap_region : lazy_region := mk_lazy_region HEAP_VBASE (HEAP_VBASE + HEAP_SIZE) VMM_WRITABLE true.

Lemma heap_demand {A} `{FrameAllocator A} (w : world A) T :
  vmm_inv w T → (∀ u, in_range HEAP_VBASE HEAP_SIZE u → wwalk w u = None ∧ open_path w T u) →
  (∀ p, in_range HEAP_VBASE HEAP_SIZE p → lazy_region_of w p = Some heap_region) →
  demand_inv w T HEAP_VBASE (HEAP_VBASE + HEAP_SIZE) ∧ ∀ u, in_range HEAP_VBASE HEAP_SIZE u → contents w u = 0.
Proof.
  intros Hinv Hw Hl.
  assert (Hf : ∀ u, in_range HEAP_VBASE HEAP_SIZE u → frame_of w u = None)
    by (intros u Hu; unfold frame_of; by rewrite (proj1 (Hw u Hu))).
  split; [|by intros u Hu; unfold contents; rewrite Hf].
  constructor; [exact Hinv | by vm_compute | | | | |].
  - intros p Hp _. exists heap_region. split; [by apply Hl | reflexivity].
  - intros u Hu es Hes. by rewrite (proj1 (Hw u Hu)) in Hes.
  - intros u Hu. by apply Hw.
  - intros u es f Hu Hes. by rewrite (proj1 (Hw u Hu)) in Hes.
  - intros u u' f Hu _ Hfu. by rewrite Hf in Hfu.
Qed.

(** The state after [heap_init]: the page fault of the first store took [w0] to
    [w1], which has the frame [f] behind the first page of the range, and the
    stores changed bytes of [f] alone. *)
Record heap_started {A} `{FrameAllocator A} (w0 : world A) T0 w1 T1 (f : Z) (mp : mem) (m m' : mem) : Prop := {
  hs_fault : ∃ frame, page_fault_isr w0 HEAP_VBASE frame = Ok w1;
  hs_maps : ∃ r, lazy_region_of w0 HEAP_VBASE = Some r ∧ maps_to w0 T0 w1 HEAP_VBASE f (flags r);
  hs_effect : effect (same_page HEAP_VBASE) w0 T0 w1 T1;
  hs_frame : f ∈ w_avail w0 ∧ frame_of (set_mem w1 mp) HEAP_VBASE = Some f;
  hs_avail : base.size (w_avail w0) = (base.size (w_avail w1) + 1 + missing T0 HEAP_VBASE)%nat;
  hs_stores : modifies (frame_bytes (w_hhdm w1) f) (w_mem w1) mp;
  hs_kept : (∀ u, wwalk (set_mem w1 mp) u = wwalk w1 u) ∧ w_avail (set_mem w1 mp) = w_avail w1 ∧
    (∀ u, open_path w1 T1 u → open_path (set_mem w1 mp) T1 u);
  hs_demand : demand_inv (set_mem w1 mp) T1 HEAP_VBASE (HEAP_VBASE + HEAP_SIZE);
  hs_contents u : in_range HEAP_VBASE HEAP_SIZE u →
    contents (set_mem w1 mp) u = if decide (header_fields u) then default 0 (m' !! u) else contents w0 u;
  hs_heap : heap_inv HEAP_VBASE m' [(HEAP_SIZE - sizeof_block_header, true)];
  hs_header : modifies header_fields m m';
}.

Lemma heap_init_spec {A} `{FrameAllocator A} {TR : Trap} (w w0 : world A) T0 m :
  vmm_register_lazy_region w HEAP_VBASE (HEAP_VBASE + HEAP_SIZE) VMM_WRITABLE = (true, w0) →
  demand_inv w0 T0 HEAP_VBASE (HEAP_VBASE + HEAP_SIZE) → wwalk w0 HEAP_VBASE = None → (4 ≤ base.size (w_avail w0))%nat →
  mapped m HEAP_VBASE HEAP_SIZE →
  ∃ w1 T1 f mp m', heap_init w m = Ok (HEAP_VBASE, set_mem w1 mp, m') ∧ heap_started w0 T0 w1 T1 f mp m m'.
Proof.
  intros Hreg Hd Hnone Hsz Hm. unfold heap_init. rewrite Hreg. cbn [negb].
  destruct (init_header m (HEAP_SIZE - sizeof_block_header) Hm) as (m1 & m2 & m3 & m4 & E1 & E2 & E3 & E4 & Hh & M1 & M2 & M3 & M4); [done|].
  rewrite E1. cbn [mbind res_bind]. assert (HV : HEAP_VBASE ≤ HEAP_VBASE < HEAP_VBASE + HEAP_SIZE) by (unfold HEAP_SIZE; lia).
  destruct (store_through_fault HEAP_VBASE (HEAP_VBASE + HEAP_SIZE) w0 T0 HEAP_VBASE Hd HV Hnone Hsz)
    as (w1 & T1 & f & Hst & Hd1 & Hef & Hin & Hav & Hf & Hc & Hpf & Hreg1).
  assert (Hpage : ∀ a n x, HEAP_VBASE ≤ a → a + n ≤ HEAP_VBASE + PAGE_SIZE → in_range a n x →
    HEAP_VBASE ≤ x < HEAP_VBASE + HEAP_SIZE ∧ x / PAGE_SIZE = HEAP_VBASE / PAGE_SIZE)
    by (unfold in_range, HEAP_VBASE, HEAP_SIZE, PAGE_SIZE; intros; dlia).
  pose proof (modifies_mapped _ _ _ _ _ M1 Hm) as Hm1. pose proof (modifies_mapped _ _ _ _ _ M2 Hm1) as Hm2.
  pose proof (modifies_mapped _ _ _ _ _ M3 Hm2) as Hm3. pose proof (modifies_mapped _ _ _ _ _ M4 Hm3) as Hm4.
  assert (Hsub : ∀ m a n, mapped m HEAP_VBASE HEAP_SIZE → HEAP_VBASE ≤ a → a + n ≤ HEAP_VBASE + 32 → mapped m a n)
    by (intros m' a n Hm' H0 H1; eapply mapped_sub; [exact Hm' | lia | unfold HEAP_SIZE; lia]).
  rewrite Hst by lia.
  destruct (store_through_mapped _ _ w1 T1 HEAP_VBASE f m1 HEAP_VBASE 8 Hd1 HV Hf) as (p1 & -> & P1 & D1 & F1 & C1);
    [lia | intros x; apply Hpage; unfold PAGE_SIZE; lia | by apply Hsub; [|lia|lia] |].
  cbn [mbind res_bind]. rewrite E2. cbn [mbind res_bind].
  destruct (store_through_mapped _ _ _ T1 HEAP_VBASE f m2 (HEAP_VBASE + 8) 1 D1 HV F1) as (p2 & -> & P2 & D2 & F2 & C2);
    [lia | intros x; apply Hpage; unfold PAGE_SIZE; lia | by apply Hsub; [|lia|lia] |].
  cbn [mbind res_bind]. rewrite E3. cbn [mbind res_bind].
  destruct (store_through_mapped _ _ _ T1 HEAP_VBASE f m3 (HEAP_VBASE + 16) 8 D2 HV F2) as (p3 & -> & P3 & D3 & F3 & C3);
    [lia | intros x; apply Hpage; unfold PAGE_SIZE; lia | by apply Hsub; [|lia|lia] |].
  cbn [mbind res_bind]. rewrite E4. cbn [mbind res_bind].
  destruct (store_through_mapped _ _ _ T1 HEAP_VBASE f m4 (HEAP_VBASE + 24) 8 D3 HV F3) as (p4 & -> & P4 & D4 & F4 & C4);
    [lia | intros x; apply Hpage; unfold PAGE_SIZE; lia | by apply Hsub; [|lia|lia] |].
  cbn [mbind res_bind].
  repeat change (set_mem (set_mem w1 ?a) ?b) with (set_mem w1 b) in *.
  repeat change (w_hhdm (set_mem w1 ?a)) with (w_hhdm w1) in *. cbn [set_mem w_mem] in P2, P3, P4.
  assert (M : modifies header_fields m m4) by exact (header_modified _ _ _ _ _ M1 M2 M3 M4).
  assert (P : modifies (frame_bytes (w_hhdm w1) f) (w_mem w1) p4)
    by (etransitivity; [exact P1|]; etransitivity; [exact P2|]; etransitivity; [exact P3|]; exact P4).
  exists w1, T1, f, p4, m4. split; [reflexivity|]. constructor.
  - exact Hpf.
  - exact Hreg1.
  - exact Hef.
  - split; [exact Hin | exact F4].
  - exact Hav.
  - exact P.
  - exact (stores_outside _ _ w1 T1 HEAP_VBASE f p4 Hd1 HV Hf P).
  - exact D4.
  - intros u Hu. assert (Hu' : HEAP_VBASE ≤ u < HEAP_VBASE + HEAP_SIZE) by exact Hu.
    rewrite C4, C3, C2, C1, Hc by done. unfold header_fields.
    pose proof (modifies_lookup _ _ _ u M4) as L4. pose proof (modifies_lookup _ _ _ u M3) as L3. pose proof (modifies_lookup _ _ _ u M2) as L2.
    unfold in_range in *. repeat case_decide; try lia; rewrite ?L4, ?L3, ?L2 by lia; done.
  - by eapply first_block_inv.
  - exact M.
Qed.

(** [kfree] of a block in use. *)
Lemma kfree_spec fl m l p s :
  heap_inv fl m l → (p, s) ∈ live HEAP_VBASE l →
  ∃ m' k1 k2, kfree m p = Ok m' ∧ heap_inv fl m' (release HEAP_VBASE p l) ∧
    live HEAP_VBASE l = k1 ++ (p, s) :: k2 ∧
    live HEAP_VBASE (release HEAP_VBASE p l) = k1 ++ k2 ∧
    (∀ x, live_bytes HEAP_VBASE (release HEAP_VBASE p l) x → m' !! x = m !! x) ∧
    kfree m 0 = Ok m.
Proof.
  intros Hinv Hp. destruct (live_split _ _ _ _ Hp) as (l1 & l2 & -> & ->).
  pose proof (hi_ok _ _ _ Hinv) as Hok. pose proof (hi_coalesced _ _ _ Hinv) as Hc.
  destruct (kfree_run m HEAP_VBASE l1 s l2 (heap_run _ _ _ Hinv)) as (m' & Hk & Hrun & Hmod).
  rewrite <-(release_at HEAP_VBASE l1 s l2 Hok Hc) in Hrun.
  assert (Hlive : live HEAP_VBASE (release HEAP_VBASE (end_of HEAP_VBASE l1 + sizeof_block_header)
     (l1 ++ (s, false) :: l2)) = live HEAP_VBASE (l1 ++ (s, true) :: l2)).
  { unfold release. by rewrite mark_free_at, live_coalesce. }
  assert (Hne : release HEAP_VBASE (end_of HEAP_VBASE l1 + sizeof_block_header)
     (l1 ++ (s, false) :: l2) ≠ []).
  { intros He. pose proof (r_mapped _ _ _ _ Hrun) as _. apply (f_equal (end_of HEAP_VBASE)) in He.
    unfold release in He. rewrite mark_free_at, end_of_coalesce in He by done.
    pose proof (hi_end _ _ _ Hinv) as Hend. rewrite end_of_app in *. simpl in *.
    unfold HEAP_SIZE in Hend. lia. }
  exists m', (live HEAP_VBASE l1), (live (end_of HEAP_VBASE l1 + sizeof_block_header + s) l2).
  split_and!; [done | | by rewrite live_app | by rewrite Hlive, live_app | | done].
  - eapply heap_inv_run; [done | done | done | apply coalesced_coalesce | | exact Hmod].
    unfold release. rewrite mark_free_at, end_of_coalesce, !end_of_app by done. done.
  - intros x Hx. apply (modifies_lookup _ _ _ _ Hmod). intros [_ Hn]. apply Hn.
    revert Hx. unfold live_bytes. by rewrite Hlive.
Qed.

(** Freeing what [kmalloc] just returned. *)
Lemma kmalloc_kfree_spec fl m m' l size r :
  heap_inv fl m l → 0 < size ≤ 2 ^ 64 - 16 → kmalloc fl m size = Ok (r, m') → r ≠ 0 →
  ∃ m'', kfree m' r = Ok m'' ∧ heap_inv fl m'' l ∧
    modifies (in_range HEAP_VBASE HEAP_SIZE) m' m''.
Proof.
  intros Hinv Hsz Hk Hr0. destruct (kmalloc_first_fit fl m l size Hinv) as (r2 & m2 & Hk2 & Hr); [lia|].
  rewrite Hk in Hk2. injection Hk2 as <- <-.
  unfold MIN_SPLIT_SIZE in Hr. rewrite align_up_16 in Hr by lia.
  set (sz := (size + 15) / 16 * 16) in *. assert (Hsz0 : 0 ≤ sz) by (unfold sz; dlia).
  assert (H16 : sz mod MIN_SPLIT_SIZE = 0) by by apply Z.mod_mul.
  destruct (first_fit HEAP_VBASE sz l) as [[r' l']|] eqn:Hff; [|by destruct Hr].
  destruct Hr as (<- & Hrun & Hmod).
  destruct (first_fit_inv fl m m' l sz r l' Hinv Hsz0 H16 Hff Hrun Hmod)
    as (Hinv' & k1 & k2 & s & _ & Hlive & _).
  pose proof (release_first_fit HEAP_VBASE sz l r l' (hi_ok _ _ _ Hinv) (hi_coalesced _ _ _ Hinv)
    Hsz0 H16 Hff) as Hrel.
  destruct (live_split HEAP_VBASE l' r s) as (l1 & l2 & -> & ->); [rewrite Hlive; set_solver|].
  destruct (kfree_run m' HEAP_VBASE l1 s l2 (heap_run _ _ _ Hinv')) as (m'' & Hf & Hrun2 & Hmod2).
  rewrite <-(release_at HEAP_VBASE l1 s l2 (hi_ok _ _ _ Hinv') (hi_coalesced _ _ _ Hinv')), Hrel in Hrun2.
  exists m''. split_and!; [done | |].
  - eapply heap_inv_run; [exact Hinv' | exact Hrun2 | apply Hinv | apply Hinv | | exact Hmod2].
    by rewrite (hi_end _ _ _ Hinv), (hi_end _ _ _ Hinv').
  - eapply modifies_mono; [|exact Hmod2]. intros x [Hx _]. pose proof (hi_end _ _ _ Hinv') as He.
    rewrite end_of_app in Hx, He. simpl in *. blia.
Qed.

(** [kmalloc] writes to the heap's range only. *)
Lemma kmalloc_frame fl m m' l size r :
  heap_inv fl m l → 0 < size < 2 ^ 64 → kmalloc fl m size = Ok (r, m') →
  modifies (in_range HEAP_VBASE HEAP_SIZE) m m'.
Proof.
  intros Hinv Hsz Hk. destruct (kmalloc_first_fit fl m l size Hinv Hsz) as (r2 & m2 & Hk2 & Hr).
  rewrite Hk in Hk2. injection Hk2 as <- <-. destruct (first_fit _ _ _) as [[r' l']|].
  - destruct Hr as (_ & _ & Hmod). eapply modifies_mono; [|exact Hmod]. intros x [Hx _].
    rewrite (hi_end _ _ _ Hinv) in Hx. unfold in_range. lia.
  - destruct Hr as [_ ->]. reflexivity.
Qed.

(** The heap only depends on the bytes of its range. *)
Lemma header_agree m m' a h :
  (∀ x, in_range a sizeof_block_header x → m' !! x = m !! x) → header_at m a h → header_at m' a h.
Proof.
  intros Hag [Hs Hf Hp Hn]. unfold get_size, get_free, get_prev, get_next, load64, load8 in *.
  constructor; unfold get_size, get_free, get_prev, get_next, load64, load8.
  - rewrite (load_le_agree 8 m m'); [exact Hs|]. intros x Hx. apply Hag. blia.
  - by rewrite Hag by blia.
  - rewrite (load_le_agree 8 m m'); [exact Hp|]. intros x Hx. apply Hag. blia.
  - rewrite (load_le_agree 8 m m'); [exact Hn|]. intros x Hx. apply Hag. blia.
Qed.

Lemma seg_agree m m' p a l nx :
  Forall block_ok l → (∀ x, a ≤ x < end_of a l → m' !! x = m !! x) →
  seg m p a l nx → seg m' p a l nx.
Proof.
  intros Hok. revert p a. induction Hok as [|[sz fr] l [Hb _] Hok IH]; intros p a Hag Hseg; [done|].
  simpl in *. destruct Hseg as [Hh Hseg]. pose proof (end_of_le (a + sizeof_block_header + sz) l Hok).
  split.
  - eapply header_agree; [|exact Hh]. intros x Hx. apply Hag. blia.
  - apply IH; [|done]. intros x Hx. apply Hag. blia.
Qed.

Lemma heap_inv_agree fl m m' l :
  heap_inv fl m l → (∀ x, in_range HEAP_VBASE HEAP_SIZE x → m' !! x = m !! x) → heap_inv fl m' l.
Proof.
  intros [Hl Hne Hseg Hok He Hc Hm] Hag. constructor; try done.
  - eapply seg_agree; [done | | exact Hseg]. intros x Hx. apply Hag. rewrite He in Hx. blia.
  - intros x Hx. rewrite Hag by done. by apply Hm.
Qed.

(** C18: [kmalloc] never loops and never faults on a well-formed heap. A request
    that the address arithmetic can round up either gets a 16-byte aligned
    payload of at least its size, inside the heap, which no block in use
    overlaps, or [NULL] with nothing changed, and then no free block is large
    enough. The heap stays well formed and no byte of a block in use changes. *)
Theorem kmalloc_correct fl m l size :
  heap_inv fl m l → 0 < size ≤ 2 ^ 64 - 16 →
  ∃ r m' l', kmalloc fl m size = Ok (r, m') ∧ heap_inv fl m' l' ∧
    (∀ x, live_bytes HEAP_VBASE l x → m' !! x = m !! x) ∧
    ((r = 0 ∧ m' = m ∧ l' = l ∧ (∀ s, (s, true) ∈ l → s < size)) ∨
     (∃ k1 k2 s, live HEAP_VBASE l = k1 ++ k2 ∧ live HEAP_VBASE l' = k1 ++ (r, s) :: k2 ∧
       size ≤ s ∧ r mod 16 = 0 ∧ HEAP_VBASE < r ∧ r + s ≤ HEAP_VBASE + HEAP_SIZE ∧
       (∀ x, in_range r s x → ¬ live_bytes HEAP_VBASE l x))).
Proof. apply kmalloc_spec. Qed.

(** C19: [kfree] of a block in use never loops and never faults: the blocks
    become those the specification gives (the block marked free, neighbouring
    free blocks merged), every other block in use stays where it is with its
    bytes unchanged, and the heap stays well formed. [kfree(NULL)] does
    nothing. *)
Theorem kfree_correct fl m l p s :
  heap_inv fl m l → (p, s) ∈ live HEAP_VBASE l →
  ∃ m' k1 k2, kfree m p = Ok m' ∧ heap_inv fl m' (release HEAP_VBASE p l) ∧
    live HEAP_VBASE l = k1 ++ (p, s) :: k2 ∧
    live HEAP_VBASE (release HEAP_VBASE p l) = k1 ++ k2 ∧
    (∀ x, live_bytes HEAP_VBASE (release HEAP_VBASE p l) x → m' !! x = m !! x) ∧
    kfree m 0 = Ok m.
Proof. apply kfree_spec. Qed.

(** Freeing what [kmalloc] just returned restores the heap exactly, block
    for block. *)
Theorem kmalloc_kfree_roundtrip fl m m' l size r :
  heap_inv fl m l → 0 < size ≤ 2 ^ 64 - 16 → kmalloc fl m size = Ok (r, m') → r ≠ 0 →
  ∃ m'', kfree m' r = Ok m'' ∧ heap_inv fl m'' l.
Proof.
  intros Hinv Hsz Hk Hr. destruct (kmalloc_kfree_spec fl m m' l size r Hinv Hsz Hk Hr) as (m'' & ? & ? & _).
  by exists m''.
Qed.

(** Nothing is ever lost to fragmentation: a heap with no block in use is
    one free block of the whole range, and a request for any part of it, up to
    all of it, succeeds. *)
Theorem heap_all_free fl m l :
  heap_inv fl m l → live HEAP_VBASE l = [] →
  l = [(HEAP_SIZE - sizeof_block_header, true)] ∧
  ∀ size, 0 < size ≤ HEAP_SIZE - sizeof_block_header →
    ∃ r m', kmalloc fl m size = Ok (r, m') ∧ r ≠ 0.
Proof.
  intros Hinv Hlive. assert (Hl : l = [(HEAP_SIZE - sizeof_block_header, true)]).
  { pose proof (hi_end _ _ _ Hinv) as Hend. pose proof (hi_coalesced _ _ _ Hinv) as Hc.
    destruct l as [|[sz fr] l]; [by destruct (hi_ne _ _ _ Hinv)|]. simpl in *.
    destruct fr; [|done]. simpl in Hlive.
    destruct l as [|[sz' []] l]; [|done..].
    simpl in Hend. do 2 f_equal. unfold HEAP_SIZE, sizeof_block_header in *. lia. }
  split; [done|]. subst l. intros size Hsz.
  destruct (kmalloc_spec fl m _ size Hinv) as (r & m' & l' & Hk & _ & _ & Hcase);
    [unfold HEAP_SIZE in Hsz; blia|].
  exists r, m'. split; [done|].
  destruct Hcase as [(_ & _ & _ & Hno)|(_ & _ & _ & _ & _ & _ & _ & Hb & _)].
  - specialize (Hno (HEAP_SIZE - sizeof_block_header) ltac:(left)). lia.
  - unfold HEAP_VBASE in Hb. lia.
Qed.

(** ** Clients

    Any interleaving of requests, releases of blocks held and writes to blocks
    held; [held] maps a pointer to the size it was requested with. *)

Definition held_bytes (held : gmap Z Z) (x : Z) : Prop :=
  ∃ p n, held !! p = Some n ∧ in_range p n x.

Inductive heap_step (fl : Z) : mem * gmap Z Z → mem * gmap Z Z → Prop :=
  | heap_alloc m held size r m' :
      0 < size ≤ 2 ^ 64 - 16 → kmalloc fl m size = Ok (r, m') → r ≠ 0 →
      heap_step fl (m, held) (m', <[r := size]> held)
  | heap_null m held size m' :
      0 < size ≤ 2 ^ 64 - 16 → kmalloc fl m size = Ok (0, m') →
      heap_step fl (m, held) (m', held)
  | heap_free m held p n m' :
      held !! p = Some n → kfree m p = Ok m' →
      heap_step fl (m, held) (m', delete p held)
  | heap_write m held m' :
      modifies (held_bytes held) m m' → heap_step fl (m, held) (m', held).

(** The blocks in use are those the client holds, at least as large as asked. *)
Definition client_heap (fl : Z) (c : mem * gmap Z Z) (l : list block) : Prop :=
  heap_inv fl c.1 l ∧
  (∀ p s, (p, s) ∈ live HEAP_VBASE l → ∃ n, c.2 !! p = Some n ∧ n ≤ s) ∧
  (∀ p n, c.2 !! p = Some n → ∃ s, (p, s) ∈ live HEAP_VBASE l).

Lemma client_heap_live fl c l p n :
  client_heap fl c l → c.2 !! p = Some n → ∃ s, (p, s) ∈ live HEAP_VBASE l ∧ n ≤ s.
Proof.
  intros (_ & H1 & H2) Hp. destruct (H2 p n Hp) as [s Hs]. exists s. split; [done|].
  destruct (H1 p s Hs) as (n' & Hn' & Hle). congruence.
Qed.

(** A payload address occurs once among the blocks in use. *)
Lemma live_fresh a l k1 k2 r s t :
  Forall block_ok l → live a l = k1 ++ (r, s) :: k2 → (r, t) ∉ k1 ++ k2.
Proof.
  intros Hok Hl Hin. pose proof (live_NoDup a l Hok) as Hnd. rewrite Hl in Hnd.
  rewrite fmap_app in Hnd. simpl in Hnd. apply NoDup_app in Hnd as (_ & Hn1 & [Hn2 _]%NoDup_cons).
  apply elem_of_app in Hin as [Hin|Hin].
  - apply (Hn1 r); [apply (list_elem_of_fmap_2 fst _ _ Hin) | left].
  - by apply Hn2, (list_elem_of_fmap_2 fst _ _ Hin).
Qed.

Lemma client_heap_step fl c c' l :
  client_heap fl c l → heap_step fl c c' → ∃ l', client_heap fl c' l'.
Proof.
  intros Hc Hstep. pose proof Hc as (Hinv & H1 & H2).
  destruct Hstep as [m held size r m' Hsz Hk Hr|m held size m' Hsz Hk|m held p n m' Hp Hk|m held m' Hmod];
    simpl in *.
  - destruct (kmalloc_spec fl m l size Hinv Hsz) as (r2 & m2 & l' & Hk2 & Hinv' & _ & Hcase).
    rewrite Hk in Hk2. injection Hk2 as <- <-. destruct Hcase as [(-> & _)|(k1 & k2 & s & Hl & Hl' & Hs & _)]; [done|].
    assert (Hfresh : ∀ t, (r, t) ∉ live HEAP_VBASE l)
      by (intros t; rewrite Hl; eapply live_fresh; [apply Hinv' | exact Hl']).
    assert (Hiff : ∀ q t, (q, t) ∈ live HEAP_VBASE l' ↔ (q = r ∧ t = s) ∨ (q, t) ∈ live HEAP_VBASE l).
    { intros q t. rewrite Hl, Hl', !elem_of_app, elem_of_cons. naive_solver. }
    exists l'. split_and!; [done | |]; simpl.
    + intros q t [[-> ->]|Hq]%Hiff; [by exists size; rewrite lookup_insert_eq|].
      rewrite lookup_insert_ne by (intros ->; by apply (Hfresh t)). by apply H1.
    + intros q n. destruct (decide (q = r)) as [->|Hne]; [intros _; exists s; apply Hiff; by left|].
      rewrite lookup_insert_ne by done. intros [t Ht]%H2. exists t. apply Hiff. by right.
  - destruct (kmalloc_spec fl m l size Hinv Hsz) as (r2 & m2 & l' & Hk2 & Hinv' & _ & Hcase).
    rewrite Hk in Hk2. injection Hk2 as <- <-.
    destruct Hcase as [(_ & -> & -> & _)|(k1 & k2 & s & _ & _ & _ & _ & Hb & _)]; [by exists l|].
    unfold HEAP_VBASE in Hb. lia.
  - destruct (H2 p n Hp) as [s Hs].
    destruct (kfree_spec fl m l p s Hinv Hs) as (m2 & k1 & k2 & Hk2 & Hinv' & Hl & Hl' & _).
    rewrite Hk in Hk2. injection Hk2 as <-. exists (release HEAP_VBASE p l).
    assert (Hfresh : ∀ t, (p, t) ∉ k1 ++ k2) by (intros t; eapply live_fresh; [apply Hinv | exact Hl]).
    split_and!; [done | |]; simpl; rewrite Hl'.
    + intros q t Hq. rewrite lookup_delete_ne by (intros ->; by apply (Hfresh t)).
      apply H1. rewrite Hl. set_solver.
    + intros q n' [Hne Hq]%lookup_delete_Some. destruct (H2 q n' Hq) as [t Ht]. exists t.
      rewrite Hl in Ht. set_solver.
  - exists l. split_and!; [| done | done]. eapply heap_inv_write; [done | exact Hmod |].
    intros x (p & n & Hp & Hx). destruct (client_heap_live fl (m, held) l p n Hc Hp) as (s & Hs & Hle).
    exists p, s. split; [done|]. unfold in_range in *. lia.
Qed.

Lemma client_heap_reachable fl m0 c l0 :
  heap_inv fl m0 l0 → live HEAP_VBASE l0 = [] → rtc (heap_step fl) (m0, ∅) c →
  ∃ l, client_heap fl c l.
Proof.
  intros Hinv Hl Hr. assert (H0 : ∃ l, client_heap fl (m0, ∅) l).
  { exists l0. split_and!; [done | |].
    - intros p s Hp. rewrite Hl in Hp. by apply elem_of_nil in Hp.
    - intros p n Hp. simpl in Hp. by rewrite lookup_empty in Hp. }
  revert H0. induction Hr as [c|c c1 c2 Hs _ IH]; [done|]. intros [l Hl']. apply IH.
  by eapply client_heap_step.
Qed.

(** C4: however clients interleave requests, releases of blocks they hold and
    writes to those blocks, the heap keeps its promises: blocks held never
    overlap, the next request returns (never loops, never faults) a block that
    overlaps none of them or [NULL], releasing any block held succeeds, and
    neither call changes a byte of the other blocks held. *)
Theorem heap_clients_isolated fl m0 l0 m held :
  heap_inv fl m0 l0 → live HEAP_VBASE l0 = [] → rtc (heap_step fl) (m0, ∅) (m, held) →
  (∀ p q n k x, held !! p = Some n → held !! q = Some k → in_range p n x → in_range q k x → p = q) ∧
  (∀ size, 0 < size ≤ 2 ^ 64 - 16 →
     ∃ r m', kmalloc fl m size = Ok (r, m') ∧
       (∀ x, held_bytes held x → m' !! x = m !! x) ∧
       (r ≠ 0 → held !! r = None ∧ ∀ x, in_range r size x → ¬ held_bytes held x)) ∧
  (∀ p n, held !! p = Some n →
     ∃ m', kfree m p = Ok m' ∧ ∀ x, held_bytes (delete p held) x → m' !! x = m !! x).
Proof.
  intros Hinv0 Hl0 Hr. destruct (client_heap_reachable _ _ _ _ Hinv0 Hl0 Hr) as [l Hc].
  pose proof Hc as (Hinv & H1 & H2). simpl in *.
  assert (Hlive : ∀ x, held_bytes held x → live_bytes HEAP_VBASE l x).
  { intros x (p & n & Hp & Hx). destruct (client_heap_live fl (m, held) l p n Hc Hp) as (s & Hs & Hle).
    exists p, s. split; [done|]. unfold in_range in *. lia. }
  split_and!.
  - intros p q n k x Hp Hq Hx Hy.
    destruct (client_heap_live fl (m, held) l p n Hc Hp) as (s & Hs & Hle).
    destruct (client_heap_live fl (m, held) l q k Hc Hq) as (t & Ht & Hle').
    eapply (live_disjoint HEAP_VBASE l p s q t x); try done; [apply Hinv | |]; unfold in_range in *; lia.
  - intros size Hsz. destruct (kmalloc_spec fl m l size Hinv Hsz)
      as (r & m' & l' & Hk & Hinv' & Hkeep & Hcase). exists r, m'. split_and!; [done | auto |].
    intros Hr0. destruct Hcase as [(-> & _)|(k1 & k2 & s & Hl & Hl' & Hs & _ & _ & _ & Hdis)]; [done|].
    split.
    + destruct (held !! r) as [n|] eqn:Hh; [|done]. destruct (H2 r n Hh) as [t Ht].
      rewrite Hl in Ht. exfalso. eapply live_fresh; [apply Hinv' | exact Hl' | exact Ht].
    + intros x Hx Hb. apply (Hdis x); [unfold in_range in *; lia | auto].
  - intros p n Hp. destruct (H2 p n Hp) as [s Hs].
    destruct (kfree_spec fl m l p s Hinv Hs) as (m' & k1 & k2 & Hk & Hinv' & Hl & Hl' & Hkeep & _).
    exists m'. split; [done|]. intros x (q & k & [Hne Hq]%lookup_delete_Some & Hx). apply Hkeep.
    destruct (client_heap_live fl (m, held) l q k Hc Hq) as (t & Ht & Hle).
    exists q, t. split; [|unfold in_range in *; lia]. rewrite Hl in Ht. rewrite Hl'.
    apply elem_of_app in Ht as [?|[[= -> ->]|?]%elem_of_cons]; [set_solver | done | set_solver].
Qed.

(** [heap_init] panics when the region table is full. Otherwise it registers the
    range for demand paging; its first store page-faults in a frame for the first
    page of the range, with the tables missing on the way to it; and it leaves
    one free block of the whole range, in the frame as in the view of the
    heap's users. *)
Theorem heap_init_correct {A} `{FrameAllocator A} {TR : Trap} (w w0 : world A) T0 m ok :
  vmm_register_lazy_region w HEAP_VBASE (HEAP_VBASE + HEAP_SIZE) VMM_WRITABLE = (ok, w0) →
  mapped m HEAP_VBASE HEAP_SIZE →
  if ok then
    demand_inv w0 T0 HEAP_VBASE (HEAP_VBASE + HEAP_SIZE) → wwalk w0 HEAP_VBASE = None → (4 ≤ base.size (w_avail w0))%nat →
    ∃ w1 T1 f mp m', heap_init w m = Ok (HEAP_VBASE, set_mem w1 mp, m') ∧ heap_started w0 T0 w1 T1 f mp m m'
  else heap_init w m = Panic "heap: failed to register lazy region".
Proof.
  intros Hreg Hm. destruct ok; [intros Hd Hn Hs; by apply heap_init_spec|]. unfold heap_init. by rewrite Hreg.
Qed.

(** The rounding of a request within 15 bytes of [2^64] wraps to 0, and
    [kmalloc] then returns a block, not [NULL], with at most 47 bytes. *)
Theorem kmalloc_huge_wraps fl m l size s0 :
  heap_inv fl m l → 2 ^ 64 - 16 < size < 2 ^ 64 → (s0, true) ∈ l →
  ∃ r m' l' s, kmalloc fl m size = Ok (r, m') ∧ r ≠ 0 ∧ heap_inv fl m' l' ∧
    (r, s) ∈ live HEAP_VBASE l' ∧ s < 48.
Proof.
  intros Hinv Hsz Hfree. destruct (kmalloc_first_fit fl m l size Hinv) as (r & m' & Hk & Hr); [lia|].
  assert (Hal : align_up size MIN_SPLIT_SIZE = 0).
  { unfold align_up, MIN_SPLIT_SIZE. change (16 - 1) with (2 ^ 4 - 1).
    rewrite land_not64_pow2 by (auto with words; lia).
    replace (u64 (size + (2 ^ 4 - 1))) with (size + 15 - 2 ^ 64); [dlia|].
    unfold u64. apply (Z.mod_unique _ _ 1); lia. }
  rewrite Hal in Hr. pose proof (first_fit_spec HEAP_VBASE 0 l) as Hs.
  destruct (first_fit HEAP_VBASE 0 l) as [[r' l']|] eqn:Hff.
  - destruct Hr as (-> & Hrun & Hmod).
    destruct (first_fit_inv fl m m' l 0 r' l' Hinv ltac:(lia) eq_refl Hff Hrun Hmod)
      as (Hinv' & _ & _ & _ & _ & _ & _ & _ & Hlow & _).
    destruct Hs as (l1 & bsz & l2 & _ & -> & -> & _).
    exists (end_of HEAP_VBASE l1 + sizeof_block_header), m', (l1 ++ taken bsz 0 l2).
    exists (if sizeof_block_header + MIN_SPLIT_SIZE <=? bsz - 0 then 0 else bsz).
    split_and!; [done | unfold HEAP_VBASE in *; blia | done | |].
    + rewrite live_app. unfold taken. destruct (_ <=? bsz - 0); simpl; set_solver.
    + destruct (Z.leb_spec (sizeof_block_header + MIN_SPLIT_SIZE) (bsz - 0)); blia.
  - rewrite Forall_forall in Hs. specialize (Hs _ Hfree eq_refl). simpl in Hs.
    pose proof (hi_ok _ _ _ Hinv) as Hok. rewrite Forall_forall in Hok.
    destruct (Hok _ Hfree) as [? _]. simpl in *. lia.
Qed.

(** ** Witnesses: the heap [heap_init] leaves over zeroed pages *)

Definition ex_heap_mem : mem := zeros HEAP_VBASE HEAP_SIZE.

Lemma ex_heap :
  ∃ m, heap_inv HEAP_VBASE m [(HEAP_SIZE - sizeof_block_header, true)].
Proof.
  assert (Hm : mapped ex_heap_mem HEAP_VBASE HEAP_SIZE) by apply zeros_mapped.
  destruct (init_header ex_heap_mem (HEAP_SIZE - sizeof_block_header) Hm) as (m1 & m2 & m3 & m4 & _ & _ & _ & _ & Hh & M1 & M2 & M3 & M4); [done|].
  exists m4. exact (first_block_inv _ _ Hm (header_modified _ _ _ _ _ M1 M2 M3 M4) Hh).
Qed.

Lemma kmalloc_correct_witness :
  ∃ m r m', kmalloc HEAP_VBASE m 100 = Ok (r, m') ∧ r ≠ 0 ∧ r mod 16 = 0.
Proof.
  destruct ex_heap as [m Hinv].
  destruct (kmalloc_correct HEAP_VBASE m _ 100 Hinv) as (r & m' & l' & Hk & _ & _ & Hc); [lia|].
  exists m, r, m'. split; [exact Hk|]. destruct Hc as [(_ & _ & _ & Hno)|(k1 & k2 & s & _ & _ & _ & H16 & Hb & _)].
  - specialize (Hno (HEAP_SIZE - sizeof_block_header)). exfalso.
    unfold HEAP_SIZE, sizeof_block_header in Hno.
    assert (16 * 1024 * 1024 - 32 < 100) by (apply Hno; left). lia.
  - split; [unfold HEAP_VBASE in Hb; lia | exact H16].
Defined.

(** A heap with one block in use. *)
Lemma ex_heap_used :
  ∃ m r m' l s, heap_inv HEAP_VBASE m [(HEAP_SIZE - sizeof_block_header, true)] ∧
    kmalloc HEAP_VBASE m 100 = Ok (r, m') ∧ r ≠ 0 ∧
    heap_inv HEAP_VBASE m' l ∧ (r, s) ∈ live HEAP_VBASE l.
Proof.
  destruct ex_heap as [m Hinv].
  destruct (kmalloc_spec HEAP_VBASE m _ 100 Hinv) as (r & m' & l' & Hk & Hinv' & _ & Hc); [lia|].
  destruct Hc as [(_ & _ & _ & Hno)|(k1 & k2 & s & _ & Hl & _ & _ & Hb & _)].
  - specialize (Hno (HEAP_SIZE - sizeof_block_header)). exfalso.
    unfold HEAP_SIZE, sizeof_block_header in Hno.
    assert (16 * 1024 * 1024 - 32 < 100) by (apply Hno; left). lia.
  - exists m, r, m', l', s. split_and!; [done | done | unfold HEAP_VBASE in Hb; lia | done |].
    rewrite Hl. set_solver.
Qed.

Lemma kfree_correct_witness :
  ∃ m p m', kfree m p = Ok m' ∧ p ≠ 0.
Proof.
  destruct ex_heap_used as (m & r & m' & l & s & _ & _ & Hr & Hinv & Hin).
  destruct (kfree_correct HEAP_VBASE m' l r s Hinv Hin) as (m'' & _ & _ & Hk & _).
  exists m', r, m''. split; [exact Hk | exact Hr].
Defined.

Lemma kmalloc_kfree_roundtrip_witness :
  ∃ m r m' m'', kmalloc HEAP_VBASE m 100 = Ok (r, m') ∧ kfree m' r = Ok m'' ∧
    heap_inv HEAP_VBASE m'' [(HEAP_SIZE - sizeof_block_header, true)].
Proof.
  destruct ex_heap_used as (m & r & m' & l & s & Hinv & Hk & Hr & _).
  destruct (kmalloc_kfree_roundtrip HEAP_VBASE m m' _ 100 r Hinv ltac:(lia) Hk Hr) as (m'' & Hf & Hi).
  exists m, r, m', m''. split; [exact Hk|]. split; [exact Hf | exact Hi].
Defined.

Lemma heap_all_free_witness :
  ∃ m l, heap_inv HEAP_VBASE m l ∧ l = [(HEAP_SIZE - sizeof_block_header, true)].
Proof.
  destruct ex_heap as [m Hinv]. exists m, [(HEAP_SIZE - sizeof_block_header, true)].
  split; [exact Hinv|]. apply (heap_all_free HEAP_VBASE m _ Hinv). reflexivity.
Defined.

Lemma heap_clients_isolated_witness :
  ∃ m r m' n, rtc (heap_step HEAP_VBASE) (m, ∅) (m', {[r := n]}) ∧ ∃ m'', kfree m' r = Ok m''.
Proof.
  destruct ex_heap_used as (m & r & m' & l & s & Hinv & Hk & Hr & _).
  assert (Hstep : rtc (heap_step HEAP_VBASE) (m, ∅) (m', {[r := 100]})).
  { apply rtc_once. apply (heap_alloc HEAP_VBASE m ∅ 100 r m'); [lia | exact Hk | exact Hr]. }
  exists m, r, m', 100. split; [exact Hstep|].
  destruct (heap_clients_isolated HEAP_VBASE m _ m' {[r := 100]} Hinv eq_refl Hstep) as (_ & _ & Hf).
  destruct (Hf r 100) as (m'' & Hm & _); [apply lookup_singleton_eq|]. exists m''. exact Hm.
Defined.

Lemma heap_init_correct_witness :
  ∃ (w w1 : world pmm) m', heap_init (TR := ref_trap) w ex_heap_mem = Ok (HEAP_VBASE, w1, m') ∧
    wwalk w HEAP_VBASE = None ∧ is_Some (wwalk w1 HEAP_VBASE).
Proof.
  destruct ex_machine as (w & T & Hinv & Hv & Hsize & Hw & Ho). exists w.
  set (w0 := set_vmm w (set_lazy_regions (w_vmm w)
    (mk_lazy_region 0xffffffffa0000000 0xffffffffa1000000 VMM_WRITABLE true :: heap_region :: replicate 6 (mk_lazy_region 0 0 0 false)))).
  assert (Hreg : vmm_register_lazy_region w HEAP_VBASE (HEAP_VBASE + HEAP_SIZE) VMM_WRITABLE = (true, w0)).
  { unfold vmm_register_lazy_region, w0. rewrite Hv. reflexivity. }
  destruct (heap_demand w0 T) as [Hd _].
  - by apply set_vmm_inv.
  - intros u _. split; [apply Hw | apply Ho].
  - intros p Hp. unfold lazy_region_of, w0. cbn [set_vmm w_vmm set_lazy_regions lazy_regions List.find].
    unfold in_lazy_region, heap_region, in_range, HEAP_VBASE, HEAP_SIZE in *. cbn [used start end_].
    rewrite (proj2 (Z.leb_gt _ _)) by lia. cbn [andb]. by rewrite (proj2 (Z.leb_le _ _)), (proj2 (Z.ltb_lt _ _)) by lia.
  - assert (Hs : (4 ≤ base.size (w_avail w0))%nat) by (change (w_avail w0) with (w_avail w); rewrite Hsize; lia).
    destruct (heap_init_correct (TR := ref_trap) w w0 T ex_heap_mem true Hreg (zeros_mapped _ _) Hd (Hw _) Hs) as (w1 & T1 & f & mp & m' & Hi & Hst).
    exists (set_mem w1 mp), m'. split; [exact Hi|]. split; [exact (Hw _)|].
    destruct (frame_of_masked _ _ _ (proj2 (hs_frame _ _ _ _ _ _ _ _ Hst))) as (es & Hes & _). exists es. exact Hes.
Defined.

Lemma kmalloc_huge_wraps_witness :
  ∃ m r m', kmalloc HEAP_VBASE m (2 ^ 64 - 1) = Ok (r, m') ∧ r ≠ 0.
Proof.
  destruct ex_heap as [m Hinv].
  destruct (kmalloc_huge_wraps HEAP_VBASE m _ (2 ^ 64 - 1) (HEAP_SIZE - sizeof_block_header) Hinv)
    as (r & m' & l' & s & Hk & Hr & _); [lia | left |].
  exists m, r, m'. split; [exact Hk | exact Hr].
Defined.
