(* ===== verification/Stack.v ===== *)
(** * Machine stacks

    [push] and [pop] of the assembly files, on the shared memory, with the
    stack pointer passed explicitly, and the values a stack holds. *)

From S2P Require Import Prelude Word Mem.

(** ** Instructions *)

Definition push (m : mem) (sp v : Z) : res (mem * Z) :=
  m' ← store64 m (u64 (sp - 8)) v; Ok (m', u64 (sp - 8)).

Definition pop (m : mem) (sp : Z) : res (Z * Z) :=
  v ← load64 m sp; Ok (v, u64 (sp + 8)).

(** Runs of pushes and of pops. *)
Fixpoint push_all (m : mem) (sp : Z) (l : list Z) : res (mem * Z) :=
  match l with
  | [] => Ok (m, sp)
  | v :: l => '(m, sp) ← push m sp v; push_all m sp l
  end.

Fixpoint pop_all (n : nat) (m : mem) (sp : Z) : res (list Z * Z) :=
  match n with
  | O => Ok ([], sp)
  | S n => '(v, sp) ← pop m sp; '(l, sp) ← pop_all n m sp; Ok (v :: l, sp)
  end.

(** ** Contents *)

Definition word64 (x : Z) : Prop := 0 ≤ x < 2 ^ 64.

(** The values on the stack, from the stack pointer up. *)
Definition saved_at (m : mem) (sp : Z) (vs : list Z) : Prop :=
  ∀ i v, vs !! i = Some v → load64 m (sp + 8 * Z.of_nat i) = Ok v.

(** ** Lemmas *)

Lemma push_spec m sp v vs :
  8 ≤ sp < 2 ^ 64 → mapped m (sp - 8) 8 → word64 v → saved_at m sp vs →
  ∃ m', push m sp v = Ok (m', sp - 8) ∧ saved_at m' (sp - 8) (v :: vs) ∧
    modifies (in_range (sp - 8) 8) m m'.
Proof.
  intros Hsp Hm Hv Hvs. unfold push. rewrite u64_small by lia.
  destruct (store64_spec m (sp - 8) v Hm Hv) as (m' & -> & Hmod & Hld).
  exists m'. split_and!; [done | | done]. intros [|i] w; simpl.
  - intros [= <-]. by rewrite Z.mul_0_r, Z.add_0_r.
  - intros Hi. rewrite <-(Hvs i w Hi).
    replace (sp - 8 + 8 * Z.of_nat (S i)) with (sp + 8 * Z.of_nat i) by lia.
    apply (load64_modifies _ _ _ _ Hmod). unfold in_range. lia.
Qed.

Lemma saved_nil m sp : saved_at m sp [].
Proof. intros i v Hi. by rewrite lookup_nil in Hi. Qed.

Lemma saved_one m sp v : load64 m sp = Ok v → saved_at m sp [v].
Proof. intros Hv [|i] w Hw; simplify_eq/=. by rewrite Z.mul_0_r, Z.add_0_r. Qed.

Lemma pop_spec m sp v vs :
  0 ≤ sp → sp + 8 < 2 ^ 64 → saved_at m sp (v :: vs) →
  pop m sp = Ok (v, sp + 8) ∧ saved_at m (sp + 8) vs.
Proof.
  intros Hsp Hlt Hvs. unfold pop. split.
  - pose proof (Hvs 0%nat v eq_refl) as Hv. rewrite Z.mul_0_r, Z.add_0_r in Hv. rewrite Hv. rsimpl.
    by rewrite u64_small by lia.
  - intros i w Hi. replace (sp + 8 + 8 * Z.of_nat i) with (sp + 8 * Z.of_nat (S i)) by lia.
    by apply Hvs.
Qed.

Lemma saved_modifies X m m' sp vs :
  saved_at m sp vs → modifies X m m' →
  (∀ x, in_range sp (8 * Z.of_nat (length vs)) x → ¬ X x) → saved_at m' sp vs.
Proof.
  intros Hvs Hmod HX i v Hi. rewrite <-(Hvs i v Hi). apply (load64_modifies _ _ _ _ Hmod).
  apply lookup_lt_Some in Hi. intros x Hx. apply HX. unfold in_range in *. lia.
Qed.

Lemma push_all_spec l m sp vs :
  8 * Z.of_nat (length l) ≤ sp < 2 ^ 64 → mapped m (sp - 8 * Z.of_nat (length l)) (8 * Z.of_nat (length l)) →
  Forall word64 l → saved_at m sp vs →
  ∃ m', push_all m sp l = Ok (m', sp - 8 * Z.of_nat (length l)) ∧
    saved_at m' (sp - 8 * Z.of_nat (length l)) (rev l ++ vs) ∧
    modifies (in_range (sp - 8 * Z.of_nat (length l)) (8 * Z.of_nat (length l))) m m'.
Proof.
  revert m sp vs. induction l as [|v l IH]; intros m sp vs Hsp Hm Hw Hvs; cbn [push_all length rev] in *.
  - exists m. rewrite Z.mul_0_r, Z.sub_0_r. done.
  - apply Forall_cons in Hw as [Hv Hw].
    destruct (push_spec m sp v vs) as (m1 & -> & Hs1 & Hmod1);
      [lia | eapply mapped_sub; [exact Hm|lia|lia] | done | done |].
    cbn [mbind res_bind]. destruct (IH m1 (sp - 8) (v :: vs)) as (m' & Hp & Hs & Hmod);
      [lia | eapply mapped_sub; [by eapply modifies_mapped|lia|lia] | done | done |].
    replace (sp - 8 * Z.of_nat (S (length l))) with (sp - 8 - 8 * Z.of_nat (length l)) by lia.
    exists m'. split_and!; [done | by rewrite <-app_assoc |].
    etransitivity; (eapply modifies_mono; [|eassumption]); intros x; unfold in_range; lia.
Qed.

Lemma pop_all_spec l m sp vs :
  0 ≤ sp → sp + 8 * Z.of_nat (length l) < 2 ^ 64 → saved_at m sp (l ++ vs) →
  pop_all (length l) m sp = Ok (l, sp + 8 * Z.of_nat (length l)) ∧ saved_at m (sp + 8 * Z.of_nat (length l)) vs.
Proof.
  revert sp. induction l as [|v l IH]; intros sp Hsp Hlt Hs; cbn [pop_all length] in *.
  - by rewrite Z.mul_0_r, Z.add_0_r.
  - apply pop_spec in Hs as [Hp Hs]; [|lia..]. rewrite Hp. cbn [mbind res_bind].
    destruct (IH (sp + 8)) as [Hl Hs']; [lia..|done|]. rewrite Hl. cbn [mbind res_bind].
    replace (sp + 8 * Z.of_nat (S (length l))) with (sp + 8 + 8 * Z.of_nat (length l)) by lia. done.
Qed.
