(* ===== verification/Spinlock.v ===== *)
(** * Spinlock (kernel/sched/spinlock.c)

    The functions, on one CPU's flags and the lock word, and the interleaving
    of any number of CPUs that run them, one atomic access at a time. Accesses
    are sequentially consistent, which is what acquire/release gives a program
    that only communicates through the lock. *)

From S2P Require Import Prelude Word.

(** ** State *)

Record spinlock := mk_spinlock { locked : Z }.

Definition SPINLOCK_INIT : spinlock := mk_spinlock 0.

Definition spinlock_init (lock : spinlock) : spinlock := mk_spinlock 0.

(** RFLAGS: the interrupt flag is bit 9. *)
Definition IF_BIT : Z := 9.

Definition interrupts_enabled (rflags : Z) : bool := Z.testbit rflags IF_BIT.

(** [pushfq; pop; cli] and [push; popfq]. *)
Definition read_and_disable_interrupts (rflags : Z) : Z * Z :=
  (rflags, Z.clearbit rflags IF_BIT).

Definition restore_interrupt_state (flags : Z) : Z := flags.

(** ** The functions, on one CPU

    [spinlock_acquire] spins while the word is set; run alone it either finds
    it clear or never returns ([Fuel] for every amount). *)

(** The inner loop: read until the word is clear. *)
Fixpoint spin_while_locked (fuel : nat) (lock : spinlock) : res () :=
  match fuel with
  | O => Fuel
  | S fuel => if negb (locked lock =? 0) then spin_while_locked fuel lock else Ok ()
  end.

Fixpoint spinlock_acquire (fuel : nat) (lock : spinlock) : res spinlock :=
  match fuel with
  | O => Fuel
  | S fuel =>
      let old := locked lock in
      let lock := mk_spinlock 1 in
      if negb (old =? 0) then
        _ ← spin_while_locked fuel lock;
        spinlock_acquire fuel lock
      else Ok lock
  end.

Definition spinlock_release (lock : spinlock) : spinlock := mk_spinlock 0.

Definition spinlock_acquire_irqsave (fuel : nat) (lock : spinlock) (rflags : Z)
  : res (Z * spinlock * Z) :=
  let '(flags, rflags) := read_and_disable_interrupts rflags in
  lock ← spinlock_acquire fuel lock;
  Ok (flags, lock, rflags).

Definition spinlock_release_irqrestore (lock : spinlock) (flags : Z) : spinlock * Z :=
  (spinlock_release lock, restore_interrupt_state flags).

(** ** Interleaving

    Where a CPU is in [spinlock_acquire_irqsave], its critical section, or
    [spinlock_release_irqrestore]; [saved] is the value the first returned. *)
Inductive pc : Set :=
  | Outside
  | Exchange (saved : Z)
  | Spin (saved : Z)
  | Critical (saved : Z)
  | Restore (saved : Z).

Record cpu := mk_cpu { at_ : pc; rflags : Z }.

(** One access or one flag instruction of a CPU. *)
Definition cpu_step (lock : spinlock) (c : cpu) : spinlock * cpu :=
  match at_ c with
  | Outside =>
      let '(flags, rf) := read_and_disable_interrupts (rflags c) in
      (lock, mk_cpu (Exchange flags) rf)
  | Exchange saved =>
      let old := locked lock in
      (mk_spinlock 1,
       mk_cpu (if negb (old =? 0) then Spin saved else Critical saved) (rflags c))
  | Spin saved =>
      (lock, mk_cpu (if negb (locked lock =? 0) then Spin saved else Exchange saved) (rflags c))
  | Critical saved => (spinlock_release lock, mk_cpu (Restore saved) (rflags c))
  | Restore saved => (lock, mk_cpu Outside (restore_interrupt_state saved))
  end.

(** The CPUs share the lock word; any of them may move, and a CPU outside may
    change its own flags. An interrupt handler can only start on a CPU whose
    interrupts are enabled; [irq_ok] below says that such a CPU is outside, so a
    handler that takes the lock is that CPU's next pass through the protocol. *)
Inductive sys_step : spinlock * list cpu → spinlock * list cpu → Prop :=
  | sys_cpu lock cpus i c lock' c' :
      cpus !! i = Some c → cpu_step lock c = (lock', c') →
      sys_step (lock, cpus) (lock', <[i := c']> cpus)
  | sys_flags lock cpus i rf rf' :
      cpus !! i = Some (mk_cpu Outside rf) →
      sys_step (lock, cpus) (lock, <[i := mk_cpu Outside rf']> cpus).

Definition in_critical (c : cpu) : bool :=
  match at_ c with Critical _ => true | _ => false end.

Definition holds (c : cpu) : Prop := in_critical c = true.

#[export] Instance holds_dec c : Decision (holds c).
Proof. unfold holds. apply _. Defined.

(** Interrupts are off from the first instruction of the acquire to the last
    but one of the release. *)
Definition irq_ok (c : cpu) : Prop :=
  at_ c ≠ Outside → interrupts_enabled (rflags c) = false.

(** The lock word counts the CPUs in their critical section. *)
Definition sys_inv (s : spinlock * list cpu) : Prop :=
  locked s.1 = Z.of_nat (length (filter holds s.2)) ∧
  (length (filter holds s.2) ≤ 1)%nat ∧
  Forall irq_ok s.2.

(** ** Lemmas *)

(** Replacing one element changes a count by that element. *)
Lemma count_insert {A} (P : A → Prop) `{∀ x, Decision (P x)} (l : list A) i x y :
  l !! i = Some x →
  (length (filter P (<[i := y]> l)) + (if decide (P x) then 1 else 0) =
   length (filter P l) + (if decide (P y) then 1 else 0))%nat.
Proof.
  intros Hi. rewrite insert_take_drop by (by eapply lookup_lt_Some).
  rewrite <-(take_drop_middle l i x Hi) at 3. rewrite !filter_app, !filter_cons, !length_app.
  repeat case_decide; simpl; lia.
Qed.

(** Two elements of a list that satisfy [P] are the same when at most one
    does. *)
Lemma count_unique {A} (P : A → Prop) `{∀ x, Decision (P x)} (l : list A) i j x y :
  (length (filter P l) ≤ 1)%nat → l !! i = Some x → l !! j = Some y → P x → P y → i = j.
Proof.
  revert i j. induction l as [|z l IH]; intros i j Hle Hi Hj Hx Hy; [done|].
  rewrite filter_cons in Hle.
  assert (Hno : ∀ k w, l !! k = Some w → P w → (1 ≤ length (filter P l))%nat).
  { intros k w Hk Hw. assert (w ∈ filter P l) as Hin.
    { apply list_elem_of_filter. split; [done|]. by eapply list_elem_of_lookup_2. }
    destruct (filter P l); [by apply elem_of_nil in Hin | simpl; lia]. }
  destruct i as [|i], j as [|j]; simplify_eq/=; [done | | |].
  - rewrite decide_True in Hle by done. specialize (Hno _ _ Hj Hy). simpl in Hle. lia.
  - rewrite decide_True in Hle by done. specialize (Hno _ _ Hi Hx). simpl in Hle. lia.
  - f_equal. apply IH; try done. case_decide; simpl in Hle; lia.
Qed.

Lemma cli_disables rf : interrupts_enabled (Z.clearbit rf IF_BIT) = false.
Proof. unfold interrupts_enabled. by rewrite Z.clearbit_eq. Qed.

Lemma holds_count c : (if decide (holds c) then 1 else 0)%nat = Nat.b2n (in_critical c).
Proof. unfold holds. case_decide as H; [by rewrite H | by destruct (in_critical c)]. Qed.

(** One instruction: the count of holders and the word stay in step. *)
Lemma cpu_step_holds lock c lock' c' n :
  cpu_step lock c = (lock', c') →
  locked lock = Z.of_nat (n + Nat.b2n (in_critical c)) →
  (n + Nat.b2n (in_critical c) ≤ 1)%nat → irq_ok c →
  locked lock' = Z.of_nat (n + Nat.b2n (in_critical c')) ∧
  (n + Nat.b2n (in_critical c') ≤ 1)%nat ∧ irq_ok c'.
Proof.
  destruct c as [[|s|s|s|s] rf]; unfold cpu_step; simpl; intros [= <- <-] Hl Hn Hirq;
    unfold irq_ok, in_critical in *; simpl in *.
  - split_and!; [done | done |]. intros _. apply cli_disables.
  - destruct (Z.eqb_spec (locked lock) 0) as [H0|H0]; simpl;
      (split_and!; [lia | lia |]; intros _; by apply Hirq).
  - destruct (negb _); simpl; (split_and!; [lia | lia |]; intros _; by apply Hirq).
  - split_and!; [lia | lia |]. intros _. by apply Hirq.
  - by split_and!; [lia | lia |].
Qed.

Lemma sys_step_inv s s' : sys_inv s → sys_step s s' → sys_inv s'.
Proof.
  intros (Hl & Hn & Hirq) Hstep. destruct Hstep as [lock cpus i c lock' c' Hi Hc|lock cpus i rf rf' Hi];
    simpl in *.
  - pose proof (count_insert holds cpus i c c' Hi) as Hcount. rewrite !holds_count in Hcount.
    set (n := (length (filter holds cpus) - Nat.b2n (in_critical c))%nat).
    assert (Hge : (length (filter holds cpus) = n + Nat.b2n (in_critical c))%nat).
    { unfold n. destruct (in_critical c) eqn:Hh; simpl; [|lia].
      assert (c ∈ filter holds cpus) as Hin
        by (apply list_elem_of_filter; split; [done | by eapply list_elem_of_lookup_2]).
      destruct (filter holds cpus); [by apply elem_of_nil in Hin | simpl; lia]. }
    destruct (cpu_step_holds lock c lock' c' n Hc) as (H1 & H2 & H3).
    + by rewrite <-Hge.
    + lia.
    + rewrite Forall_lookup in Hirq. by apply (Hirq i).
    + split_and!; simpl; [rewrite H1; f_equal; lia | lia | by apply Forall_insert].
  - pose proof (count_insert holds cpus i _ (mk_cpu Outside rf') Hi) as Hcount.
    rewrite !holds_count in Hcount. simpl in Hcount.
    split_and!; simpl; [rewrite Hl; f_equal; lia | lia |]. apply Forall_insert; [done|].
    intros Hne. by destruct Hne.
Qed.

Lemma reachable_inv flags s :
  rtc sys_step (SPINLOCK_INIT, mk_cpu Outside <$> flags) s → sys_inv s.
Proof.
  assert (H0 : sys_inv (SPINLOCK_INIT, mk_cpu Outside <$> flags)).
  { assert (Hno : filter holds (mk_cpu Outside <$> flags) = []).
    { apply filter_none. by intros c (rf & -> & _)%list_elem_of_fmap. }
    unfold sys_inv. cbn [fst snd]. rewrite Hno. split_and!; [done | simpl; lia |].
    apply Forall_fmap, Forall_forall. intros rf _ Hne. by destruct Hne. }
  intros Hr. revert H0. induction Hr; eauto using sys_step_inv.
Qed.

(** ** Properties *)

(** C11: mutual exclusion: whatever the interleaving of any number of CPUs, two
    are never in their critical sections at once; the lock word is 1 exactly
    while one is; and a CPU between the first instruction of the acquire and the
    end of the release has interrupts disabled, so no handler can interrupt it
    and spin on a lock its own CPU holds. *)
Theorem spinlock_mutual_exclusion flags lock cpus :
  rtc sys_step (SPINLOCK_INIT, mk_cpu Outside <$> flags) (lock, cpus) →
  (∀ i j c d, cpus !! i = Some c → cpus !! j = Some d → holds c → holds d → i = j) ∧
  (locked lock = 1 ↔ ∃ i c, cpus !! i = Some c ∧ holds c) ∧
  (locked lock = 0 ∨ locked lock = 1) ∧
  (∀ i c, cpus !! i = Some c → at_ c ≠ Outside → interrupts_enabled (rflags c) = false).
Proof.
  intros Hr. destruct (reachable_inv _ _ Hr) as (Hl & Hn & Hirq). simpl in *. split_and!.
  - intros i j c d Hi Hj Hc Hd. by eapply (count_unique holds).
  - split.
    + intros H1. destruct (filter holds cpus) as [|c l] eqn:Hf; [simpl in Hl; lia|].
      assert (c ∈ filter holds cpus) as [Hc [i Hi]%list_elem_of_lookup]%list_elem_of_filter
        by (rewrite Hf; left). eauto.
    + intros (i & c & Hi & Hc).
      assert (c ∈ filter holds cpus) as Hin
        by (apply list_elem_of_filter; split; [done | by eapply list_elem_of_lookup_2]).
      destruct (filter holds cpus); [by apply elem_of_nil in Hin | simpl in *; lia].
  - lia.
  - intros i c Hi. rewrite Forall_lookup in Hirq. by apply (Hirq i).
Qed.

(** No deadlock: from every reachable state, a CPU waiting for the lock can
    still get it, after the holder (if any) leaves. *)
Theorem spinlock_can_acquire flags lock cpus i c s :
  rtc sys_step (SPINLOCK_INIT, mk_cpu Outside <$> flags) (lock, cpus) →
  cpus !! i = Some c → at_ c = Exchange s ∨ at_ c = Spin s →
  ∃ lock' cpus', rtc sys_step (lock, cpus) (lock', cpus') ∧
    cpus' !! i = Some (mk_cpu (Critical s) (rflags c)).
Proof.
  intros Hr Hi Hat. pose proof (reachable_inv _ _ Hr) as (Hl & Hn & _). simpl in *.
  assert (Hfree : ∃ lock1 cpus1, rtc sys_step (lock, cpus) (lock1, cpus1) ∧ locked lock1 = 0 ∧
    cpus1 !! i = Some c).
  { destruct (filter holds cpus) as [|d l] eqn:Hf; [by exists lock, cpus|].
    assert (d ∈ filter holds cpus) as [Hh [j Hj]%list_elem_of_lookup]%list_elem_of_filter
      by (rewrite Hf; left).
    assert (∃ sd, at_ d = Critical sd) as [sd Hd]
      by (unfold holds, in_critical in Hh; destruct (at_ d); naive_solver).
    exists (mk_spinlock 0), (<[j := mk_cpu (Restore sd) (rflags d)]> cpus). split_and!; [|done|].
    - apply rtc_once. eapply sys_cpu; [exact Hj|]. unfold cpu_step. by rewrite Hd.
    - rewrite list_lookup_insert_ne; [done|]. intros ->. simplify_eq. rewrite Hd in Hat. naive_solver. }
  destruct Hfree as (lock1 & cpus1 & Hr1 & H0 & Hi1).
  assert (Hex : ∃ cpus2, rtc sys_step (lock1, cpus1) (lock1, cpus2) ∧
    cpus2 !! i = Some (mk_cpu (Exchange s) (rflags c))).
  { destruct Hat as [Hat|Hat].
    - exists cpus1. split; [done|]. rewrite Hi1. destruct c. simpl in *. by subst.
    - exists (<[i := mk_cpu (Exchange s) (rflags c)]> cpus1). split.
      + apply rtc_once. eapply sys_cpu; [exact Hi1|]. unfold cpu_step. by rewrite Hat, H0.
      + apply list_lookup_insert_eq. by eapply lookup_lt_Some. }
  destruct Hex as (cpus2 & Hr2 & Hi2).
  exists (mk_spinlock 1), (<[i := mk_cpu (Critical s) (rflags c)]> cpus2). split.
  - etransitivity; [exact Hr1|]. etransitivity; [exact Hr2|]. apply rtc_once.
    eapply sys_cpu; [exact Hi2|]. unfold cpu_step. simpl. by rewrite H0.
  - apply list_lookup_insert_eq. by eapply lookup_lt_Some.
Qed.

(** On one CPU: a free lock is taken at once with interrupts off, and the
    release gives back the word and exactly the flags before, so a section
    entered with interrupts off ends with interrupts off; a lock that is held
    is waited for for ever, which is why code an interrupt handler shares the
    lock with must disable interrupts first. *)
Theorem spinlock_irqsave_nesting lock rf fuel :
  (locked lock = 0 → ∃ flags lock' rf',
     spinlock_acquire_irqsave (S fuel) lock rf = Ok (flags, lock', rf') ∧
     locked lock' = 1 ∧ interrupts_enabled rf' = false ∧
     spinlock_release_irqrestore lock' flags = (mk_spinlock 0, rf)) ∧
  (locked lock = 1 → spinlock_acquire_irqsave fuel lock rf = Fuel).
Proof.
  split.
  - intros H0. unfold spinlock_acquire_irqsave. simpl. rewrite H0. simpl.
    eexists _, _, _. split_and!; [done | done | apply cli_disables | done].
  - intros H1. unfold spinlock_acquire_irqsave. simpl.
    assert (Hspin : ∀ n, spin_while_locked n (mk_spinlock 1) = Fuel)
      by (induction n as [|n IH]; simpl; done).
    destruct fuel as [|fuel]; simpl; [done|]. rewrite H1. simpl. by rewrite Hspin.
Qed.

Lemma sys_cpu_eq lock cpus i c lock' c' cpus' :
  cpus !! i = Some c → cpu_step lock c = (lock', c') → cpus' = <[i := c']> cpus →
  sys_step (lock, cpus) (lock', cpus').
Proof. intros ?? ->. by eapply sys_cpu. Qed.

Lemma spinlock_mutual_exclusion_witness :
  ∃ lock cpus, rtc sys_step (SPINLOCK_INIT, mk_cpu Outside <$> [0x202; 0x202]) (lock, cpus) ∧
    locked lock = 1 ∧ ∀ c d, cpus !! 0%nat = Some c → cpus !! 1%nat = Some d → ¬ (holds c ∧ holds d).
Proof.
  assert (Hr : rtc sys_step (SPINLOCK_INIT, mk_cpu Outside <$> [0x202; 0x202])
    (mk_spinlock 1, [mk_cpu (Critical 0x202) 2; mk_cpu Outside 0x202])).
  { apply (rtc_l _ _ (mk_spinlock 0, [mk_cpu (Exchange 0x202) 2; mk_cpu Outside 0x202])).
    - apply (sys_cpu_eq _ _ 0%nat (mk_cpu Outside 0x202) _ (mk_cpu (Exchange 0x202) 2)); reflexivity.
    - apply rtc_once.
      apply (sys_cpu_eq _ _ 0%nat (mk_cpu (Exchange 0x202) 2) _ (mk_cpu (Critical 0x202) 2)); reflexivity. }
  exists (mk_spinlock 1), [mk_cpu (Critical 0x202) 2; mk_cpu Outside 0x202].
  split; [exact Hr|]. split; [reflexivity|]. intros c d Hc Hd [H1 H2].
  destruct (spinlock_mutual_exclusion _ _ _ Hr) as (Hmx & _).
  discriminate (Hmx 0%nat 1%nat c d Hc Hd H1 H2).
Defined.

Lemma spinlock_can_acquire_witness :
  ∃ lock cpus, rtc sys_step (mk_spinlock 0, [mk_cpu (Exchange 0x202) 2]) (lock, cpus) ∧
    cpus !! 0%nat = Some (mk_cpu (Critical 0x202) 2).
Proof.
  apply (spinlock_can_acquire [0x202] (mk_spinlock 0) _ 0%nat (mk_cpu (Exchange 0x202) 2) 0x202).
  - apply rtc_once.
    apply (sys_cpu_eq _ _ 0%nat (mk_cpu Outside 0x202) _ (mk_cpu (Exchange 0x202) 2)); reflexivity.
  - reflexivity.
  - left. reflexivity.
Defined.
