(* ===== verification/Sched.v ===== *)
(** * Scheduler and context switch (kernel/sched/sched.c,
      kernel/arch/x86_64/cpu/context_switch.S, kernel/drivers/timer/timer.c)

    The ready ring is a store of [struct thread]s linked by addresses; the
    stacks are ranges of memory; the registers are those [context_switch]
    saves, with the stack pointer, the instruction pointer, the flags and the
    first argument. *)

From S2P Require Import Prelude Word Mem Stack Spinlock.

(** ** State *)

Record thread := mk_thread {
  stack_pointer : Z;
  stack_base : Z;
  id : Z;
  next : Z;
}.

Record sched := mk_sched {
  ready_lock : spinlock;
  threads : gmap Z thread;
  current : Z;
  next_thread_id : Z;
  ticks_since_switch : Z;
}.

Record regs := mk_regs {
  r15 : Z; r14 : Z; r13 : Z; r12 : Z; rbx : Z; rbp : Z;
  rip : Z;
  rsp : Z;
  rdi : Z;
  rf : Z;
}.

Record machine := mk_machine {
  mm : mem;
  sc : sched;
  rg : regs;
}.

Definition SCHED_TIME_SLICE_TICKS : Z := 10.

(** ** context_switch.S *)

(** [context_switch(&prev->stack_pointer, new_sp)], entered with the return
    address on the stack: the value stored through [%rdi] is the second
    component of the result. *)
Definition context_switch (m : mem) (r : regs) (new_sp : Z) : res (mem * Z * regs) :=
  '(m, sp) ← push m (rsp r) (rbp r);
  '(m, sp) ← push m sp (rbx r);
  '(m, sp) ← push m sp (r12 r);
  '(m, sp) ← push m sp (r13 r);
  '(m, sp) ← push m sp (r14 r);
  '(m, sp) ← push m sp (r15 r);
  let old_sp := sp in
  let sp := new_sp in
  '(v15, sp) ← pop m sp;
  '(v14, sp) ← pop m sp;
  '(v13, sp) ← pop m sp;
  '(v12, sp) ← pop m sp;
  '(vbx, sp) ← pop m sp;
  '(vbp, sp) ← pop m sp;
  '(vip, sp) ← pop m sp;
  Ok (m, old_sp, mk_regs v15 v14 v13 v12 vbx vbp vip sp (rdi r) (rf r)).

(** [thread_trampoline]: [sti; mov %r13, %rdi; call *%r12], with the address
    after the call. *)
Definition thread_trampoline_code (m : mem) (r : regs) (ra : Z) : res (mem * regs) :=
  '(m, sp) ← push m (rsp r) ra;
  Ok (m, mk_regs (r15 r) (r14 r) (r13 r) (r12 r) (rbx r) (rbp r) (r12 r) sp (r13 r)
           (Z.setbit (rf r) IF_BIT)).

(** ** sched.c *)

(** An access through a thread pointer. *)
Definition thread_at (s : sched) (a : Z) : res thread := deref (threads s !! a).

Definition put_thread (s : sched) (a : Z) (t : thread) : sched :=
  mk_sched (ready_lock s) (<[a := t]> (threads s)) (current s) (next_thread_id s)
    (ticks_since_switch s).

(** The static variables, [bootstrap_thread] being the object at [boot]. *)
Definition sched_bss (boot : Z) : sched :=
  mk_sched SPINLOCK_INIT {[boot := mk_thread 0 0 0 0]} boot 1 0.

Definition sched_init (boot : Z) (s : sched) : res sched :=
  t ← thread_at s boot;
  let s := put_thread s boot (mk_thread (stack_pointer t) (stack_base t) 0 boot) in
  Ok (mk_sched (ready_lock s) (threads s) boot (next_thread_id s) (ticks_since_switch s)).

(** Fuel for the lock: one pass when it is free, and otherwise none is enough
    (Spinlock.v). *)
Definition lock_fuel : nat := 1.

Definition sched_add_thread (s : sched) (rflags thread : Z) : res (sched * Z) :=
  '(flags, lock, rflags) ← spinlock_acquire_irqsave lock_fuel (ready_lock s) rflags;
  let s := mk_sched lock (threads s) (current s) (next_thread_id s) (ticks_since_switch s) in
  t ← thread_at s thread;
  let s := put_thread s thread (mk_thread (stack_pointer t) (stack_base t) (next_thread_id s) (next t)) in
  let s := mk_sched (ready_lock s) (threads s) (current s) (u64 (next_thread_id s + 1))
             (ticks_since_switch s) in
  c ← thread_at s (current s);
  t ← thread_at s thread;
  let s := put_thread s thread (mk_thread (stack_pointer t) (stack_base t) (id t) (next c)) in
  c ← thread_at s (current s);
  let s := put_thread s (current s) (mk_thread (stack_pointer c) (stack_base c) (id c) thread) in
  let '(lock, rflags) := spinlock_release_irqrestore (ready_lock s) flags in
  Ok (mk_sched lock (threads s) (current s) (next_thread_id s) (ticks_since_switch s), rflags).

(** [switch_to_next] up to the release of the lock: the old and the new
    thread. *)
Definition pick_next (s : sched) (rflags : Z) : res (Z * Z * sched * Z) :=
  '(flags, lock, rflags) ← spinlock_acquire_irqsave lock_fuel (ready_lock s) rflags;
  let prev := current s in
  t ← thread_at s (current s);
  let nxt := next t in
  let '(lock, rflags) := spinlock_release_irqrestore lock flags in
  Ok (prev, nxt, mk_sched lock (threads s) nxt (next_thread_id s) (ticks_since_switch s), rflags).

Definition set_rf (r : regs) (f : Z) : regs :=
  mk_regs (r15 r) (r14 r) (r13 r) (r12 r) (rbx r) (rbp r) (rip r) (rsp r) (rdi r) f.
Definition set_rsp (r : regs) (sp : Z) : regs :=
  mk_regs (r15 r) (r14 r) (r13 r) (r12 r) (rbx r) (rbp r) (rip r) sp (rdi r) (rf r).

(** The call of [context_switch]: [ra] is the address after it. *)
Definition call_context_switch (M : machine) (prev nxt ra : Z) : res machine :=
  nt ← thread_at (sc M) nxt;
  '(m, sp) ← push (mm M) (rsp (rg M)) ra;
  '(m, old_sp, r) ← context_switch m (set_rsp (rg M) sp) (stack_pointer nt);
  p ← thread_at (sc M) prev;
  Ok (mk_machine m (put_thread (sc M) prev (mk_thread old_sp (stack_base p) (id p) (next p))) r).

Definition reset_ticks (s : sched) : sched :=
  mk_sched (ready_lock s) (threads s) (current s) (next_thread_id s) 0.

Definition switch_to_next (M : machine) (ra : Z) : res machine :=
  '(prev, nxt, s, f) ← pick_next (sc M) (rf (rg M));
  let M := mk_machine (mm M) (reset_ticks s) (set_rf (rg M) f) in
  if negb (nxt =? prev) then call_context_switch M prev nxt ra else Ok M.

Definition sched_tick (M : machine) (ra : Z) : res machine :=
  let s := sc M in
  let s := mk_sched (ready_lock s) (threads s) (current s) (next_thread_id s)
             (u64 (ticks_since_switch s + 1)) in
  let M := mk_machine (mm M) s (rg M) in
  if SCHED_TIME_SLICE_TICKS <=? ticks_since_switch s then switch_to_next M ra else Ok M.

Definition sched_yield (M : machine) (ra : Z) : res machine := switch_to_next M ra.

(** ** timer.c: the tick handler and the tick count *)

Definition timer_tick_handler (ticks : Z) (M : machine) (ra : Z) : res (Z * machine) :=
  let ticks := u64 (ticks + 1) in
  M ← sched_tick M ra;
  Ok (ticks, M).

Definition timer_get_ticks (ticks : Z) : Z := ticks.

(** ** Specification *)

(** The ring: the threads in the order they will run, the current one first. *)
Fixpoint links (th : gmap Z thread) (l : list Z) (first : Z) : Prop :=
  match l with
  | [] => True
  | a :: l => (∃ t, th !! a = Some t ∧ next t = match l with [] => first | b :: _ => b end) ∧
              links th l first
  end.

Definition ring (th : gmap Z thread) (cur : Z) (l : list Z) : Prop :=
  head l = Some cur ∧ NoDup l ∧ links th l cur.

Definition rotate (l : list Z) : list Z :=
  match l with [] => [] | a :: l => l ++ [a] end.

(** What [context_switch] keeps of a thread: the registers it saves, from the
    top of its stack, and the stack pointer once they are popped. *)
Definition frame (r : regs) : list Z := [r15 r; r14 r; r13 r; r12 r; rbx r; rbp r; rip r].

(** A suspended thread: its registers when it runs again (flags and [%rdi] are
    those of the moment). *)
Definition suspended (m : mem) (sp : Z) (r : regs) : Prop :=
  saved_at m sp (frame r) ∧ rsp r = u64 (sp + 56).

Definition same_context (r r' : regs) : Prop := frame r = frame r' ∧ rsp r = rsp r'.

(** The scheduler's invariant: [l] is the ring, [C] the context each suspended
    thread will resume with, [K] the stack each thread owns. *)
Record sched_rep (M : machine) (l : list Z) (C : gmap Z regs) (K : gmap Z (Z * Z)) : Prop := {
  sr_ring : ring (threads (sc M)) (current (sc M)) l;
  sr_lock : locked (ready_lock (sc M)) = 0;
  sr_regs : Forall word64 (frame (rg M));
  sr_stack t : t ∈ l → ∃ lo hi, K !! t = Some (lo, hi) ∧ 0 ≤ lo ∧ hi < 2 ^ 64 ∧
    mapped (mm M) lo (hi - lo);
  sr_disjoint t u lo hi lo' hi' : t ≠ u → K !! t = Some (lo, hi) → K !! u = Some (lo', hi') →
    hi ≤ lo' ∨ hi' ≤ lo;
  sr_saved t th : t ∈ l → t ≠ current (sc M) → threads (sc M) !! t = Some th →
    ∃ c lo hi, C !! t = Some c ∧ K !! t = Some (lo, hi) ∧
      suspended (mm M) (stack_pointer th) c ∧ Forall word64 (frame c) ∧
      lo ≤ stack_pointer th ∧ stack_pointer th + 56 ≤ hi;
  sr_rsp : ∃ lo hi, K !! current (sc M) = Some (lo, hi) ∧ lo + 56 ≤ rsp (rg M) ≤ hi;
}.

(** ** Lemmas: stacks *)

Lemma frame_inj r c : frame r = frame c → rsp r = rsp c → same_context r c.
Proof. done. Qed.

(** Popping a frame: the second half of [context_switch]. *)
Lemma pop_frame m sp c r0 :
  suspended m sp c → 0 ≤ sp → sp + 56 < 2 ^ 64 →
  ∃ s1 s2 s3 s4 s5 s6,
    pop m sp = Ok (r15 c, s1) ∧ pop m s1 = Ok (r14 c, s2) ∧ pop m s2 = Ok (r13 c, s3) ∧
    pop m s3 = Ok (r12 c, s4) ∧ pop m s4 = Ok (rbx c, s5) ∧ pop m s5 = Ok (rbp c, s6) ∧
    pop m s6 = Ok (rip c, rsp c) ∧
    same_context c (mk_regs (r15 c) (r14 c) (r13 c) (r12 c) (rbx c) (rbp c) (rip c) (rsp c) (rdi r0) (rf r0)).
Proof.
  intros [Hs Hrsp] H0 Hlt. rewrite u64_small in Hrsp by lia. unfold frame in Hs.
  apply pop_spec in Hs as [P1 Hs]; [|lia..]. apply pop_spec in Hs as [P2 Hs]; [|lia..].
  apply pop_spec in Hs as [P3 Hs]; [|lia..]. apply pop_spec in Hs as [P4 Hs]; [|lia..].
  apply pop_spec in Hs as [P5 Hs]; [|lia..]. apply pop_spec in Hs as [P6 Hs]; [|lia..].
  apply pop_spec in Hs as [P7 _]; [|lia..].
  do 6 eexists. split_and!; [done..| | done]. rewrite P7, Hrsp. do 2 f_equal. lia.
Qed.

(** Pushing a frame on top of a return address: the first half. *)
Lemma push_frame m r ra :
  48 ≤ rsp r < 2 ^ 64 → mapped m (rsp r - 48) 48 → Forall word64 (frame r) →
  saved_at m (rsp r) [ra] →
  ∃ m1 m2 m3 m4 m5 m6,
    push m (rsp r) (rbp r) = Ok (m1, rsp r - 8) ∧
    push m1 (rsp r - 8) (rbx r) = Ok (m2, rsp r - 16) ∧
    push m2 (rsp r - 16) (r12 r) = Ok (m3, rsp r - 24) ∧
    push m3 (rsp r - 24) (r13 r) = Ok (m4, rsp r - 32) ∧
    push m4 (rsp r - 32) (r14 r) = Ok (m5, rsp r - 40) ∧
    push m5 (rsp r - 40) (r15 r) = Ok (m6, rsp r - 48) ∧
    saved_at m6 (rsp r - 48) [r15 r; r14 r; r13 r; r12 r; rbx r; rbp r; ra] ∧
    modifies (in_range (rsp r - 48) 48) m m6.
Proof.
  intros Hsp Hm Hw Hra. unfold frame in Hw. rewrite !Forall_cons in Hw.
  destruct Hw as (W15 & W14 & W13 & W12 & Wbx & Wbp & _).
  assert (Hstep : ∀ m0 k v vs, mapped m0 (rsp r - 48) 48 → 0 ≤ k ≤ 40 → word64 v →
    saved_at m0 (rsp r - k) vs →
    ∃ m', push m0 (rsp r - k) v = Ok (m', rsp r - (k + 8)) ∧ saved_at m' (rsp r - (k + 8)) (v :: vs) ∧
      modifies (in_range (rsp r - 48) 48) m0 m' ∧ mapped m' (rsp r - 48) 48).
  { intros m0 k v vs Hm0 Hk Hv Hvs.
    destruct (push_spec m0 (rsp r - k) v vs) as (m' & Hp & Hs & Hmod); [lia | | done | done |].
    - eapply mapped_sub; [exact Hm0 | lia | lia].
    - replace (rsp r - k - 8) with (rsp r - (k + 8)) in * by lia.
      assert (Hmod' : modifies (in_range (rsp r - 48) 48) m0 m')
        by (eapply modifies_mono; [|exact Hmod]; unfold in_range; lia).
      exists m'. split_and!; [done | done | done | eauto with mem]. }
  rewrite <-(Z.sub_0_r (rsp r)) in Hra.
  destruct (Hstep m 0 (rbp r) _ Hm ltac:(lia) Wbp Hra) as (m1 & P1 & S1 & D1 & M1).
  destruct (Hstep m1 8 (rbx r) _ M1 ltac:(lia) Wbx S1) as (m2 & P2 & S2 & D2 & M2).
  destruct (Hstep m2 16 (r12 r) _ M2 ltac:(lia) W12 S2) as (m3 & P3 & S3 & D3 & M3).
  destruct (Hstep m3 24 (r13 r) _ M3 ltac:(lia) W13 S3) as (m4 & P4 & S4 & D4 & M4).
  destruct (Hstep m4 32 (r14 r) _ M4 ltac:(lia) W14 S4) as (m5 & P5 & S5 & D5 & M5).
  destruct (Hstep m5 40 (r15 r) _ M5 ltac:(lia) W15 S5) as (m6 & P6 & S6 & D6 & M6).
  exists m1, m2, m3, m4, m5, m6. rewrite Z.sub_0_r in P1. split_and!; [done..|].
  etransitivity; [exact D1|]. etransitivity; [exact D2|]. etransitivity; [exact D3|].
  etransitivity; [exact D4|]. by etransitivity.
Qed.

(** [context_switch] suspends the caller and resumes the other context. *)
Lemma context_switch_spec m r new_sp c ra :
  48 ≤ rsp r < 2 ^ 64 → mapped m (rsp r - 48) 48 → Forall word64 (frame r) →
  saved_at m (rsp r) [ra] →
  suspended m new_sp c → 0 ≤ new_sp → new_sp + 56 < 2 ^ 64 →
  new_sp + 56 ≤ rsp r - 48 ∨ rsp r ≤ new_sp →
  ∃ m' r', context_switch m r new_sp = Ok (m', rsp r - 48, r') ∧
    same_context c r' ∧ rdi r' = rdi r ∧ rf r' = rf r ∧
    saved_at m' (rsp r - 48) [r15 r; r14 r; r13 r; r12 r; rbx r; rbp r; ra] ∧
    modifies (in_range (rsp r - 48) 48) m m'.
Proof.
  intros Hsp Hm Hw Hra Hsus H0 Hlt Hdis. unfold context_switch.
  destruct (push_frame m r ra Hsp Hm Hw Hra)
    as (m1 & m2 & m3 & m4 & m5 & m6 & -> & P2 & P3 & P4 & P5 & P6 & Hs & Hmod).
  rsimpl. rewrite P2. rsimpl. rewrite P3. rsimpl. rewrite P4. rsimpl. rewrite P5. rsimpl.
  rewrite P6. rsimpl.
  assert (Hsus' : suspended m6 new_sp c).
  { destruct Hsus as [Hs1 Hs2]. split; [|done]. eapply saved_modifies; [exact Hs1 | exact Hmod |].
    unfold in_range. simpl. lia. }
  destruct (pop_frame m6 new_sp c r Hsus' H0 Hlt)
    as (s1 & s2 & s3 & s4 & s5 & s6 & -> & Q2 & Q3 & Q4 & Q5 & Q6 & Q7 & Hsame).
  rsimpl. rewrite Q2. rsimpl. rewrite Q3. rsimpl. rewrite Q4. rsimpl. rewrite Q5. rsimpl.
  rewrite Q6. rsimpl. rewrite Q7. rsimpl. eexists m6, _. split_and!; [done | exact Hsame | done..].
Qed.

(** ** Lemmas: the ring *)

Definition first_of (l : list Z) (first : Z) : Z := match l with [] => first | b :: _ => b end.

Lemma links_app th l1 l2 first :
  links th (l1 ++ l2) first ↔ links th l1 (first_of l2 first) ∧ links th l2 first.
Proof.
  induction l1 as [|a l1 IH]; simpl; [tauto|]. rewrite IH.
  destruct l1 as [|b l1], l2 as [|c l2]; simpl; tauto.
Qed.

(** Links only depend on the [next] fields of the threads of the list. *)
Lemma links_ext th th' l first :
  links th l first →
  (∀ a t, a ∈ l → th !! a = Some t → ∃ t', th' !! a = Some t' ∧ next t' = next t) →
  links th' l first.
Proof.
  induction l as [|a l IH]; simpl; [done|]. intros [(t & Ht & Hn) Hl] Hext. split.
  - destruct (Hext a t) as (t' & Ht' & Hn'); [left | done |]. exists t'. split; [done | congruence].
  - apply IH; [done|]. intros b u Hb. apply Hext. by right.
Qed.

Lemma links_put th a t t' l first :
  links th l first → th !! a = Some t → next t' = next t → links (<[a := t']> th) l first.
Proof.
  intros Hl Ha Hn. eapply links_ext; [exact Hl|]. intros b u _ Hu.
  destruct (decide (b = a)) as [->|Hne].
  - exists t'. rewrite lookup_insert_eq. split; [done | congruence].
  - exists u. by rewrite lookup_insert_ne.
Qed.

Lemma ring_cons th cur l : ring th cur l → ∃ l', l = cur :: l'.
Proof. intros [Hh _]. destruct l as [|a l]; simplify_eq/=. eauto. Qed.

(** The thread after the current one heads the rotated ring. *)
Lemma ring_rotate th cur l :
  ring th cur l → ∃ t nxt, th !! cur = Some t ∧ next t = nxt ∧ ring th nxt (rotate l) ∧
    (nxt = cur ↔ l = [cur]).
Proof.
  intros Hr. destruct (ring_cons _ _ _ Hr) as [l' ->]. destruct Hr as (_ & Hnd & Hl).
  simpl in Hl. destruct Hl as [(t & Ht & Hn) Hl]. exists t, (next t). rewrite Hn.
  apply NoDup_cons in Hnd as [Hc Hnd]. destruct l' as [|b l']; simpl in *.
  - split_and!; [done | done | | done]. split_and!; [done | by apply NoDup_singleton |]. simpl. eauto.
  - split_and!; [done | done | | split; [intros ->; set_solver | done]].
    split_and!; [done | |].
    + change (NoDup ((b :: l') ++ [cur])). apply NoDup_app. split_and!; [done | set_solver | apply NoDup_singleton].
    + change (links th ((b :: l') ++ [cur]) b). apply links_app. split; [done|]. simpl. eauto.
Qed.

Lemma acquire_free lock rflags :
  locked lock = 0 →
  spinlock_acquire_irqsave lock_fuel lock rflags =
    Ok (rflags, mk_spinlock 1, Z.clearbit rflags IF_BIT).
Proof. intros H0. unfold spinlock_acquire_irqsave, lock_fuel. simpl. by rewrite H0. Qed.

Lemma pick_next_spec s f l :
  ring (threads s) (current s) l → locked (ready_lock s) = 0 →
  ∃ nxt s', pick_next s f = Ok (current s, nxt, s', f) ∧ threads s' = threads s ∧
    current s' = nxt ∧ locked (ready_lock s') = 0 ∧ next_thread_id s' = next_thread_id s ∧
    ticks_since_switch s' = ticks_since_switch s ∧
    ring (threads s) nxt (rotate l) ∧ (nxt = current s ↔ l = [current s]).
Proof.
  intros Hr Hl. destruct (ring_rotate _ _ _ Hr) as (t & nxt & Ht & Hn & Hr' & Hiff).
  unfold pick_next, thread_at. rewrite acquire_free by done. rsimpl. rewrite Ht. simpl. rewrite Hn.
  by eexists nxt, _.
Qed.

(** ** Lemmas: switching *)

Definition set_rip (r : regs) (a : Z) : regs :=
  mk_regs (r15 r) (r14 r) (r13 r) (r12 r) (rbx r) (rbp r) a (rsp r) (rdi r) (rf r).

(** The stack of [t] in [K]. *)
Definition in_stack (K : gmap Z (Z * Z)) (t x : Z) : Prop :=
  ∃ lo hi, K !! t = Some (lo, hi) ∧ lo ≤ x < hi.

(** The part of the running thread's stack that is not in use. *)
Definition free_stack (K : gmap Z (Z * Z)) (M : machine) (x : Z) : Prop :=
  in_stack K (current (sc M)) x ∧ x < rsp (rg M).

(** The call, made on the stack [[lo, hi)]. *)
Lemma call_spec M prev nxt ra lo hi p nt c :
  lo + 56 ≤ rsp (rg M) ≤ hi → 0 ≤ lo → hi < 2 ^ 64 → mapped (mm M) lo (hi - lo) →
  Forall word64 (frame (rg M)) → word64 ra →
  threads (sc M) !! prev = Some p → threads (sc M) !! nxt = Some nt → 
  suspended (mm M) (stack_pointer nt) c → 0 ≤ stack_pointer nt → stack_pointer nt + 56 < 2 ^ 64 →
  stack_pointer nt + 56 ≤ lo ∨ hi ≤ stack_pointer nt →
  ∃ m' r', call_context_switch M prev nxt ra =
      Ok (mk_machine m' (put_thread (sc M) prev
            (mk_thread (rsp (rg M) - 56) (stack_base p) (id p) (next p))) r') ∧
    same_context c r' ∧ rf r' = rf (rg M) ∧
    suspended m' (rsp (rg M) - 56) (set_rip (rg M) ra) ∧
    modifies (in_range (rsp (rg M) - 56) 56) (mm M) m'.
Proof.
  intros Hsp Hlo Hhi Hmap Hregs Hra Hp Hnt Hsus Hsp0 Hsp1 Hd.
  unfold call_context_switch, thread_at. rewrite Hnt. simpl.
  destruct (push_spec (mm M) (rsp (rg M)) ra [] ltac:(lia)) as (m1 & -> & Hs1 & Hmod1);
    [eapply mapped_sub; [exact Hmap | lia | lia] | done | apply saved_nil |]. rsimpl.
  destruct (context_switch_spec m1 (set_rsp (rg M) (rsp (rg M) - 8)) (stack_pointer nt) c ra)
    as (m2 & r' & Hcs & Hsame & _ & Hrf & Hs2 & Hmod2); simpl; try lia; try done.
  - eapply modifies_mapped; [exact Hmod1|]. eapply mapped_sub; [exact Hmap | lia | lia].
  - destruct Hsus as [Hs Hr]. split; [|done]. eapply saved_modifies; [exact Hs | exact Hmod1 |].
    unfold in_range. simpl. lia.
  - simpl in Hcs. rewrite Hcs. rsimpl. rewrite Hp. simpl.
    replace (rsp (rg M) - 8 - 48) with (rsp (rg M) - 56) in * by lia.
    exists m2, r'. split_and!; [done | done | done | |].
    + split; [exact Hs2|]. simpl. rewrite u64_small; lia.
    + etransitivity; (eapply modifies_mono; [|eassumption]); unfold in_range; simpl; intros x Hx; lia.
Qed.

Lemma ring_thread th cur l t : ring th cur l → t ∈ l → is_Some (th !! t).
Proof.
  intros (_ & _ & Hl) [i Hi]%list_elem_of_lookup.
  rewrite <-(take_drop_middle l i t Hi) in Hl. apply links_app in Hl as [_ [(u & Hu & _) _]]. by exists u.
Qed.

Lemma call_context_switch_spec M prev nxt ra l C K p :
  sched_rep M l C K → word64 ra → prev = current (sc M) → prev ≠ nxt → nxt ∈ l →
  threads (sc M) !! prev = Some p →
  ∃ m' r' c, call_context_switch M prev nxt ra =
      Ok (mk_machine m' (put_thread (sc M) prev
            (mk_thread (rsp (rg M) - 56) (stack_base p) (id p) (next p))) r') ∧
    C !! nxt = Some c ∧ same_context c r' ∧ rf r' = rf (rg M) ∧
    suspended m' (rsp (rg M) - 56) (set_rip (rg M) ra) ∧
    modifies (free_stack K M) (mm M) m' ∧ Forall word64 (frame r') ∧
    (∃ lo hi, K !! nxt = Some (lo, hi) ∧ lo + 56 ≤ rsp r' ≤ hi).
Proof.
  intros Hrep Hra -> Hne Hin Hp. pose proof Hrep as [Hring Hlock Hregs Hstk Hdis Hsv (lo & hi & HK & Hsp)].
  assert (Hcur : current (sc M) ∈ l) by (destruct (ring_cons _ _ _ Hring) as [l' ->]; left).
  destruct (Hstk _ Hcur) as (lo' & hi' & HK' & Hlo & Hhi & Hmap). rewrite HK in HK'. injection HK' as <- <-.
  destruct (ring_thread _ _ _ _ Hring Hin) as [nt Hnt].
  destruct (Hsv nxt nt Hin ltac:(congruence) Hnt) as (c & lo2 & hi2 & HC & HK2 & Hsus & Hwc & Hb1 & Hb2).
  destruct (Hstk _ Hin) as (lo3 & hi3 & HK3 & Hlo3 & Hhi3 & _). rewrite HK2 in HK3. injection HK3 as <- <-.
  assert (Hd := Hdis _ _ _ _ _ _ Hne HK HK2).
  destruct (call_spec M (current (sc M)) nxt ra lo hi p nt c) as (m' & r' & Hcall & Hsame & Hrf & Hs & Hmod);
    try done; try lia.
  exists m', r', c. split_and!; [done..| | |].
  - eapply modifies_mono; [|exact Hmod]. intros x Hx. unfold in_range in Hx. split; [exists lo, hi; split; [done | lia] | lia].
  - by destruct Hsame as [<- _].
  - exists lo2, hi2. split; [done|]. destruct Hsame as [_ <-]. destruct Hsus as [_ ->].
    rewrite u64_small; lia.
Qed.

(** The invariant after a switch: the ring rotates, and the thread that gave up
    the CPU will resume after the call ([ra]) with the registers it had. *)
Lemma switched_rep M m' r' s' prev nxt ra l C K p :
  sched_rep M l C K → word64 ra → prev = current (sc M) → prev ≠ nxt → nxt ∈ l →
  threads (sc M) !! prev = Some p →
  ring (threads (sc M)) nxt (rotate l) →
  threads s' = <[prev := mk_thread (rsp (rg M) - 56) (stack_base p) (id p) (next p)]> (threads (sc M)) →
  current s' = nxt → locked (ready_lock s') = 0 →
  suspended m' (rsp (rg M) - 56) (set_rip (rg M) ra) →
  modifies (free_stack K M) (mm M) m' → Forall word64 (frame r') →
  (∃ lo hi, K !! nxt = Some (lo, hi) ∧ lo + 56 ≤ rsp r' ≤ hi) →
  sched_rep (mk_machine m' s' r') (rotate l) (<[prev := set_rip (rg M) ra]> C) K.
Proof.
  intros Hrep Hra Hprev Hne Hin Hp Hring' Hth Hcur' Hlock' Hsus Hmod Hw Hsp'. subst prev.
  pose proof Hrep as [Hring Hlock Hregs Hstk Hdis Hsv (lo & hi & HK & Hsp)].
  assert (Hiff : ∀ t, t ∈ rotate l ↔ t ∈ l).
  { intros t. destruct l as [|a l']; simpl; [done|]. rewrite elem_of_app, elem_of_cons. set_solver. }
  constructor; simpl.
  - rewrite Hth, Hcur'. destruct Hring' as (Hh & Hnd & Hl). split_and!; [done | done |].
    by apply (links_put _ _ p).
  - done.
  - done.
  - intros t Ht%Hiff. destruct (Hstk t Ht) as (lo' & hi' & ? & ? & ? & ?).
    exists lo', hi'. split_and!; [done..|]. eauto with mem.
  - done.
  - intros t th Ht%Hiff Htn Hth'. rewrite Hth in Hth'.
    destruct (decide (t = current (sc M))) as [->|Htc].
    + rewrite lookup_insert_eq in Hth'. injection Hth' as <-. simpl.
      exists (set_rip (rg M) ra), lo, hi. rewrite lookup_insert_eq. split_and!; try done; [|lia..].
      unfold frame, set_rip in *. simpl. rewrite !Forall_cons in *. tauto.
    + rewrite lookup_insert_ne in Hth' by congruence.
      destruct (Hsv t th Ht Htc Hth') as (c & lo' & hi' & HC & HK' & [Hs Hr] & Hwc & ? & ?).
      exists c, lo', hi'. rewrite lookup_insert_ne by congruence. split_and!; try done.
      split; [|done]. eapply saved_modifies; [exact Hs | exact Hmod |]. simpl.
      intros x Hx [(lo2 & hi2 & HK2 & Hx2) _]. rewrite HK in HK2. injection HK2 as <- <-.
      destruct (Hdis _ _ _ _ _ _ Htc HK' HK); unfold in_range in Hx; lia.
  - by rewrite Hcur'.
Qed.

Lemma switch_to_next_spec M l C K ra :
  sched_rep M l C K → word64 ra →
  ∃ M', switch_to_next M ra = Ok M' ∧ ticks_since_switch (sc M') = 0 ∧ rf (rg M') = rf (rg M) ∧
    head (rotate l) = Some (current (sc M')) ∧
    modifies (free_stack K M) (mm M) (mm M') ∧
    ((l = [current (sc M)] ∧ mm M' = mm M ∧ rg M' = rg M ∧ sched_rep M' l C K) ∨
     (current (sc M') ≠ current (sc M) ∧
      (∃ c, C !! current (sc M') = Some c ∧ same_context c (rg M')) ∧
      sched_rep M' (rotate l) (<[current (sc M) := set_rip (rg M) ra]> C) K)).
Proof.
  intros Hrep Hra. pose proof Hrep as [Hring Hlock Hregs Hstk Hdis Hsv Hsp].
  destruct (pick_next_spec (sc M) (rf (rg M)) l Hring Hlock)
    as (nxt & s' & Hpick & Hth & Hcur & Hlk & _ & _ & Hring' & Hiff).
  unfold switch_to_next. rewrite Hpick. rsimpl.
  assert (Hrf : set_rf (rg M) (rf (rg M)) = rg M) by (by destruct (rg M)). rewrite Hrf.
  assert (Hhead : head (rotate l) = Some nxt) by apply Hring'.
  destruct (Z.eqb_spec nxt (current (sc M))) as [Heq|Hne]; simpl.
  - eexists. split; [done|]. simpl. rewrite Hcur. split_and!; [done | done | done | done |].
    left. split_and!; [by apply Hiff | done | done |].
    constructor; simpl; rewrite ?Hth, ?Hcur, ?Heq; try done.
  - destruct (ring_cons _ _ _ Hring) as [l' Hl'].
    assert (Hin : nxt ∈ l).
    { rewrite Hl' in Hhead |- *. destruct l' as [|b l']; simplify_eq/=. right. left. }
    destruct (threads (sc M) !! current (sc M)) as [p|] eqn:Hp.
    2: { destruct (ring_thread _ _ l (current (sc M)) Hring) as [t Ht]; [rewrite Hl'; left | congruence]. }
    set (M1 := mk_machine (mm M) (reset_ticks s') (rg M)).
    assert (Hcall := call_context_switch_spec M (current (sc M)) nxt ra l C K p Hrep Hra eq_refl
      ltac:(congruence) Hin Hp).
    destruct Hcall as (m' & r' & c & Hcall & HC & Hsame & Hrf' & Hsus & Hmod & Hw & Hsp').
    assert (Hcall' : call_context_switch M1 (current (sc M)) nxt ra =
      Ok (mk_machine m' (put_thread (reset_ticks s') (current (sc M))
            (mk_thread (rsp (rg M) - 56) (stack_base p) (id p) (next p))) r')).
    { revert Hcall. unfold call_context_switch, thread_at, M1. simpl. rewrite Hth.
      destruct (threads (sc M) !! nxt); [|done]. rsimpl.
      destruct (push _ _ _) as [[??]|?| |]; [|done..].
      destruct (context_switch _ _ _) as [[[??]?]|?| |]; [|done..].
      rewrite Hp. simpl. unfold put_thread, reset_ticks. simpl. intros [= -> Hins ->].
      by rewrite Hth, Hins. }
    rewrite Hcall'. eexists. split; [done|]. simpl. rewrite Hcur.
    split_and!; [done | done | done | done |]. right. split_and!; [done | by exists c |].
    eapply (switched_rep M m' r' _ (current (sc M)) nxt ra l C K p); try done. simpl. by rewrite Hth.
Qed.

(** What [sched_add_thread] does, for its callers. *)
Lemma sched_add_thread_spec s f t th0 l :
  ring (threads s) (current s) (current s :: l) → locked (ready_lock s) = 0 →
  threads s !! t = Some th0 → t ∉ current s :: l →
  ∃ s', sched_add_thread s f t = Ok (s', f) ∧ current s' = current s ∧
    locked (ready_lock s') = 0 ∧ next_thread_id s' = u64 (next_thread_id s + 1) ∧
    ring (threads s') (current s) (current s :: t :: l) ∧
    (∃ th, threads s' !! t = Some th ∧ id th = next_thread_id s ∧
       stack_pointer th = stack_pointer th0 ∧ stack_base th = stack_base th0) ∧
    (∀ u, u ≠ t → u ≠ current s → threads s' !! u = threads s !! u).
Proof.
  intros (Hh & Hnd & Hl) Hlock Ht Hnin. simpl in Hl. destruct Hl as [(c & Hc & Hn) Hl].
  assert (Hne : t ≠ current s) by (intros ->; apply Hnin; left).
  unfold sched_add_thread, thread_at. rewrite acquire_free by done. rsimpl. rewrite Ht. simpl.
  rewrite lookup_insert_ne, Hc by done. simpl. rewrite lookup_insert_eq. simpl.
  rewrite lookup_insert_ne by done. rewrite lookup_insert_ne, Hc by done. simpl.
  eexists. split; [done|]. simpl. rewrite !insert_insert_eq. split_and!; try done.
  - apply NoDup_cons in Hnd as [Hcl Hnd]. split; [done|]. split.
    + apply NoDup_cons. split; [set_solver|]. apply NoDup_cons. split; [set_solver | done].
    + split; [eexists; split; [by rewrite lookup_insert_eq | done]|]. split.
      * eexists. split; [rewrite lookup_insert_ne, lookup_insert_eq by done; done|]. simpl. by rewrite Hn.
      * eapply links_ext; [exact Hl|]. intros a u Ha Hu. exists u.
        rewrite !lookup_insert_ne; [done | set_solver | set_solver].
  - eexists. rewrite lookup_insert_ne, lookup_insert_eq by done. by split_and!.
  - intros u Hu1 Hu2. by rewrite !lookup_insert_ne.
Qed.

(** A thread whose frame is in place joins the ring. *)
Lemma thread_added M l C K m' t th0 lo top c :
  sched_rep M l C K → t ∉ l →
  (∀ u lo' hi' x, u ∈ l → K !! u = Some (lo', hi') → lo' ≤ x < hi' → m' !! x = mm M !! x) →
  (∀ u lo' hi', K !! u = Some (lo', hi') → hi' ≤ lo ∨ top ≤ lo') →
  0 ≤ lo → lo + 56 ≤ top → top < 2 ^ 64 → mapped m' lo (top - lo) →
  suspended m' (top - 56) c → Forall word64 (frame c) → stack_pointer th0 = top - 56 →
  ∃ s' th, sched_add_thread (put_thread (sc M) t th0) (rf (rg M)) t = Ok (s', rf (rg M)) ∧
    sched_rep (mk_machine m' s' (rg M)) (current (sc M) :: t :: tail l) (<[t := c]> C) (<[t := (lo, top)]> K) ∧
    threads s' !! t = Some th ∧ id th = next_thread_id (sc M) ∧ stack_base th = stack_base th0 ∧
    current s' = current (sc M) ∧ next_thread_id s' = u64 (next_thread_id (sc M) + 1).
Proof.
  intros [Hring Hlock Hregs Hstk Hdis Hsv Hrsp] Hnin Hkeep Hfar H0 Hlo Htop Hm Hsus Hw Hsp.
  destruct (ring_cons _ _ _ Hring) as [l' ->]. simpl.
  set (cur := current (sc M)) in *.
  assert (Hne : cur ≠ t) by set_solver.
  assert (Hring0 : ring (threads (put_thread (sc M) t th0)) cur (cur :: l')).
  { destruct Hring as (Hh & Hnd & Hl). split_and!; [done | done |].
    eapply links_ext; [exact Hl|]. intros a u Ha Hu. exists u. simpl.
    rewrite lookup_insert_ne; [done | set_solver]. }
  destruct (sched_add_thread_spec (put_thread (sc M) t th0) (rf (rg M)) t th0 l' Hring0 Hlock)
    as (s' & -> & Hcur & Hlk & Hnid & Hr & (th & Hth & Hid & Hspt & Hbase) & Hoth);
    [simpl; apply lookup_insert_eq | done |].
  change (current (put_thread (sc M) t th0)) with cur in *.
  exists s', th. split_and!; [done | | done | done | done | done | done]. constructor; simpl.
  - by rewrite Hcur.
  - done.
  - done.
  - intros u Hu. destruct (decide (u = t)) as [->|Hut].
    + exists lo, top. rewrite lookup_insert_eq. by split_and!; try lia.
    + destruct (Hstk u) as (lo' & hi' & HK & ? & ? & Hmu); [set_solver|].
      exists lo', hi'. rewrite lookup_insert_ne by done. split_and!; [done | done | done |].
      intros x Hx. rewrite (Hkeep u lo' hi') by (try done; unfold in_range in *; (lia || set_solver)).
      by apply Hmu.
  - intros u v lo1 hi1 lo2 hi2 Huv Hu Hv. destruct (decide (u = t)) as [->|Hut].
    + rewrite lookup_insert_eq in Hu. injection Hu as <- <-.
      rewrite lookup_insert_ne in Hv by done. specialize (Hfar v _ _ Hv). lia.
    + rewrite lookup_insert_ne in Hu by done. destruct (decide (v = t)) as [->|Hvt].
      * rewrite lookup_insert_eq in Hv. injection Hv as <- <-. specialize (Hfar u _ _ Hu). lia.
      * rewrite lookup_insert_ne in Hv by done. by apply (Hdis u v).
  - intros u tu Hu Hucur Htu. rewrite Hcur in Hucur. destruct (decide (u = t)) as [->|Hut].
    + exists c, lo, top. rewrite !lookup_insert_eq. rewrite Hth in Htu. injection Htu as <-.
      rewrite Hspt, Hsp. split_and!; try done; lia.
    + rewrite Hoth in Htu by done. simpl in Htu. rewrite lookup_insert_ne in Htu by done.
      destruct (Hsv u tu) as (c' & lo' & hi' & HC & HK & [Hsu Hrs] & Hwc & Hb1 & Hb2); [set_solver | done | done |].
      exists c', lo', hi'. rewrite !lookup_insert_ne by done. split_and!; try done. split; [|done].
      intros i v Hi. rewrite <-(Hsu i v Hi). apply load_le_agree. intros x Hx.
      apply lookup_lt_Some in Hi. simpl in Hi.
      apply (Hkeep u lo' hi'); [set_solver | done | unfold in_range in Hx; lia].
  - rewrite Hcur. fold cur in Hrsp. by rewrite lookup_insert_ne.
Qed.

Lemma sched_add_slice s f t s' f' : sched_add_thread s f t = Ok (s', f') → ticks_since_switch s' = ticks_since_switch s.
Proof. unfold sched_add_thread. intros H0. repeat through H0. by injection H0 as <- _. Qed.

(** ** Executions

    Between calls of the scheduler the running thread does what it likes with
    its registers and with all memory but the stacks of the other threads, above
    the room a switch needs. The calls are the events: a tick of the timer, a
    [sched_yield], the start of the thread [t] (whose object and stack are new;
    its initial frame is in place when [sched_add_thread] is called). *)
Definition not_others (K : gmap Z (Z * Z)) (t x : Z) : Prop := ∀ u, u ≠ t → ¬ in_stack K u x.

Inductive event := Ticked | Yielding | Added (t : Z).

Inductive exec (K : gmap Z (Z * Z)) (M : machine) : list event → gmap Z (Z * Z) → machine → Prop :=
  | exec_refl : exec K M [] K M
  | exec_run es K1 M1 m r :
      exec K M es K1 M1 → modifies (not_others K1 (current (sc M1))) (mm M1) m →
      Forall word64 (frame r) →
      (∃ lo hi, K1 !! current (sc M1) = Some (lo, hi) ∧ lo + 56 ≤ rsp r ≤ hi) →
      exec K M es K1 (mk_machine m (sc M1) r)
  | exec_tick es K1 M1 ra M2 :
      exec K M es K1 M1 → word64 ra → sched_tick M1 ra = Ok M2 → exec K M (es ++ [Ticked]) K1 M2
  | exec_yield es K1 M1 ra M2 :
      exec K M es K1 M1 → word64 ra → sched_yield M1 ra = Ok M2 → exec K M (es ++ [Yielding]) K1 M2
  | exec_add es K1 M1 t th lo top c m s :
      exec K M es K1 M1 → threads (sc M1) !! t = None →
      (∀ u lo' hi', K1 !! u = Some (lo', hi') → hi' ≤ lo ∨ top ≤ lo') →
      (∀ u x, in_stack K1 u x → m !! x = mm M1 !! x) →
      0 ≤ lo → lo + 56 ≤ top → top < 2 ^ 64 → mapped m lo (top - lo) →
      suspended m (top - 56) c → Forall word64 (frame c) → stack_pointer th = top - 56 →
      sched_add_thread (put_thread (sc M1) t th) (rf (rg M1)) t = Ok (s, rf (rg M1)) →
      exec K M (es ++ [Added t]) (<[t := (lo, top)]> K1) (mk_machine m s (rg M1)).

(** What the events mean: the ring, the running thread first, and the ticks of
    its slice. A slice is ten ticks; giving up the processor ends it early; a
    thread that starts is the next to run. *)
Definition slice_step (s : list Z * nat) (e : event) : list Z * nat :=
  let '(l, k) := s in
  match e with
  | Ticked => if (k =? 9)%nat then (rotate l, O) else (l, S k)
  | Yielding => (rotate l, O)
  | Added t => (match l with [] => [t] | a :: l => a :: t :: l end, k)
  end.
Definition slices (es : list event) (s : list Z * nat) : list Z * nat := fold_left slice_step es s.

(** Thread activity keeps the invariant. *)
Lemma run_rep M l C K m r :
  sched_rep M l C K → modifies (not_others K (current (sc M))) (mm M) m → Forall word64 (frame r) →
  (∃ lo hi, K !! current (sc M) = Some (lo, hi) ∧ lo + 56 ≤ rsp r ≤ hi) →
  sched_rep (mk_machine m (sc M) r) l C K.
Proof.
  intros [Hring Hlock Hregs Hstk Hdis Hsv (lo & hi & HK & _)] Hmod Hw Hsp.
  constructor; simpl; try done.
  - intros t Ht. destruct (Hstk t Ht) as (lo' & hi' & ? & ? & ? & ?). exists lo', hi'.
    split_and!; [done..|]. eauto with mem.
  - intros t th Ht Htc Hth. destruct (Hsv t th Ht Htc Hth) as (c & lo' & hi' & HC & HK' & [Hs Hr] & ? & ? & ?).
    exists c, lo', hi'. split_and!; try done. split; [|done].
    eapply saved_modifies; [exact Hs | exact Hmod |]. simpl.
    intros x Hx Hno. apply (Hno t Htc). exists lo', hi'. split; [done|]. unfold in_range in Hx. lia.
Qed.

Definition with_ticks (M : machine) (k : Z) : machine :=
  mk_machine (mm M)
    (mk_sched (ready_lock (sc M)) (threads (sc M)) (current (sc M)) (next_thread_id (sc M)) k) (rg M).

Lemma with_ticks_rep M l C K k : sched_rep M l C K → sched_rep (with_ticks M k) l C K.
Proof. intros [? ? ? ? ? ? ?]. by constructor. Qed.

(** One tick: counted, or a switch on the tenth. *)
Lemma sched_tick_spec M l C K ra :
  sched_rep M l C K → word64 ra → 0 ≤ ticks_since_switch (sc M) < SCHED_TIME_SLICE_TICKS →
  ∃ M', sched_tick M ra = Ok M' ∧
    if ticks_since_switch (sc M) =? SCHED_TIME_SLICE_TICKS - 1
    then ticks_since_switch (sc M') = 0 ∧ head (rotate l) = Some (current (sc M')) ∧
      ∃ C', sched_rep M' (rotate l) C' K
    else M' = with_ticks M (ticks_since_switch (sc M) + 1).
Proof.
  intros Hrep Hra Ht. unfold SCHED_TIME_SLICE_TICKS in *. unfold sched_tick. rewrite u64_small by lia.
  change (mk_machine (mm M) _ (rg M)) with (with_ticks M (ticks_since_switch (sc M) + 1)).
  unfold SCHED_TIME_SLICE_TICKS. simpl.
  destruct (Z.eqb_spec (ticks_since_switch (sc M)) (10 - 1)) as [Heq|Hne].
  - rewrite (proj2 (Z.leb_le _ _)) by lia.
    destruct (switch_to_next_spec _ l C K ra (with_ticks_rep M l C K (ticks_since_switch (sc M) + 1) Hrep) Hra)
      as (M' & Hsw & Ht0 & _ & Hhead & _ & Hcase).
    exists M'. split_and!; [done..|]. destruct Hcase as [(Hl & _ & _ & Hr)|(_ & _ & Hr)]; [|by eexists].
    exists C. rewrite Hl in *. simpl. done.
  - rewrite (proj2 (Z.leb_gt _ _)) by lia. by eexists.
Qed.

Lemma rotate_iter_head (l : list Z) k a :
  l ≠ [] → l !! (k mod length l)%nat = Some a → head (Nat.iter k rotate l) = Some a.
Proof.
  intros Hl. assert (Hgen : ∀ k, Nat.iter k rotate l = drop (k mod length l) l ++ take (k mod length l) l).
  { clear k a. induction k as [|k IH].
    - rewrite Nat.Div0.mod_0_l, drop_0, take_0. by rewrite app_nil_r.
    - simpl. rewrite IH. assert (Hlen : length l ≠ 0%nat) by (by destruct l).
      pose proof (Nat.mod_upper_bound k (length l) Hlen) as Hub.
      destruct (lookup_lt_is_Some_2 l (k mod length l)) as [b Hb]; [done|].
      rewrite (drop_S _ _ _ Hb). simpl. rewrite <-app_assoc, <-(take_S_r _ _ _ Hb).
      destruct (decide (S (k mod length l) = length l)) as [He|Hne].
      + assert (Hs : (S k mod length l = 0)%nat).
        { replace (S k) with (k + 1)%nat by lia. rewrite Nat.Div0.add_mod.
          destruct (decide (length l = 1%nat)) as [E|E]; [by rewrite E, !Nat.mod_1_r|].
          rewrite (Nat.mod_small 1) by lia. replace (k mod length l + 1)%nat with (length l) by lia.
          apply Nat.Div0.mod_same. }
        rewrite Hs, He, drop_all, drop_0, take_0, app_nil_r. by rewrite take_ge by lia.
      + assert (Hs : (S k mod length l = S (k mod length l))%nat).
        { replace (S k) with (k + 1)%nat by lia. rewrite Nat.Div0.add_mod, (Nat.mod_small 1) by lia.
          rewrite Nat.mod_small by lia. lia. }
        by rewrite Hs. }
  rewrite Hgen. intros Ha. by rewrite (drop_S _ _ _ Ha).
Qed.

(** The machine follows the events. *)
Lemma exec_rep K M es K' M' l C k :
  sched_rep M l C K → ticks_since_switch (sc M) = Z.of_nat k → (k < 10)%nat → exec K M es K' M' →
  ∃ l' k' C', slices es (l, k) = (l', k') ∧ sched_rep M' l' C' K' ∧
    ticks_since_switch (sc M') = Z.of_nat k' ∧ (k' < 10)%nat.
Proof.
  intros Hrep H0 Hk Hex.
  induction Hex as [|es K1 M1 m r Hex IH Hmod Hw Hsp|es K1 M1 ra M2 Hex IH Hra Ht|es K1 M1 ra M2 Hex IH Hra Ht
    |es K1 M1 t th lo top c m s Hex IH Hnew Hfar Hkeep L1 L2 L3 Hm Hsus Hw Hsp Hadd].
  - by exists l, k, C.
  - destruct IH as (l1 & k1 & C1 & Hs & Hrep1 & Ht1 & Hk1). exists l1, k1, C1. split_and!; [done | by apply run_rep | done | done].
  - destruct IH as (l1 & k1 & C1 & Hs & Hrep1 & Ht1 & Hk1). unfold slices in *. rewrite fold_left_app, Hs. cbn [fold_left slice_step].
    destruct (sched_tick_spec M1 _ C1 K1 ra Hrep1 Hra) as (M3 & Hst & Hcase); [unfold SCHED_TIME_SLICE_TICKS; lia|].
    rewrite Ht in Hst. injection Hst as <-. rewrite Ht1 in Hcase. unfold SCHED_TIME_SLICE_TICKS in Hcase.
    destruct (Nat.eqb_spec k1 9) as [->|Hne].
    + destruct Hcase as (Ht0 & _ & C2 & Hrep2). exists (rotate l1), 0%nat, C2. split_and!; [done | done | done | lia].
    + rewrite (proj2 (Z.eqb_neq _ _)) in Hcase by lia. subst M2. exists l1, (S k1), C1.
      split_and!; [done | by apply with_ticks_rep | simpl; lia | lia].
  - destruct IH as (l1 & k1 & C1 & Hs & Hrep1 & Ht1 & Hk1). unfold slices in *. rewrite fold_left_app, Hs. cbn [fold_left slice_step].
    destruct (switch_to_next_spec M1 l1 C1 K1 ra Hrep1 Hra) as (M3 & Hst & Ht0 & _ & _ & _ & Hcase).
    unfold sched_yield in Ht. rewrite Ht in Hst. injection Hst as <-.
    destruct Hcase as [(Hl & _ & _ & Hr)|(_ & _ & Hr)]; [exists (rotate l1), 0%nat, C1 | eexists (rotate l1), 0%nat, _];
      (split_and!; [done | | done | lia]); [|exact Hr]. rewrite Hl in *. exact Hr.
  - destruct IH as (l1 & k1 & C1 & Hs & Hrep1 & Ht1 & Hk1). unfold slices in *. rewrite fold_left_app, Hs. cbn [fold_left slice_step].
    assert (Hl1 : t ∉ l1) by (intros Hl1; destruct (ring_thread _ _ _ _ (sr_ring _ _ _ _ Hrep1) Hl1); congruence).
    destruct (thread_added M1 l1 C1 K1 m t th lo top c Hrep1 Hl1) as (s' & th' & Hadd' & Hrep' & _);
      [intros; eapply Hkeep; by eexists _, _ | done..|].
    rewrite Hadd in Hadd'. injection Hadd' as <-. pose proof (sched_add_slice _ _ _ _ _ Hadd) as Hsl.
    destruct (ring_cons _ _ _ (sr_ring _ _ _ _ Hrep1)) as [l2 Hl2]. rewrite Hl2 in *. cbn [tail] in Hrep'.
    eexists _, k1, _. split; [reflexivity|]. split; [exact Hrep'|]. split; [|exact Hk1]. simpl. by rewrite Hsl.
Qed.

(** Ticks alone. *)
Lemma slices_ticks n l :
  slices (replicate n Ticked) (l, 0%nat) = (Nat.iter (n / 10) rotate l, (n mod 10)%nat).
Proof.
  induction n as [|n IH]; [done|]. rewrite replicate_S_end. unfold slices in *. rewrite fold_left_app, IH. cbn [fold_left slice_step].
  pose proof (Nat.mod_upper_bound n 10 ltac:(lia)) as Hub. pose proof (Nat.div_mod_eq n 10) as Hdm.
  destruct (Nat.eqb_spec (n mod 10) 9) as [He|Hne].
  - replace (S n) with (10 * (n / 10 + 1))%nat by lia. rewrite Nat.mul_comm, Nat.div_mul, Nat.Div0.mod_mul by lia. by rewrite Nat.add_1_r.
  - assert (Hq : (S n / 10 = n / 10)%nat) by (symmetry; apply (Nat.div_unique _ _ _ (n mod 10 + 1)); lia).
    assert (Hm : (S n mod 10 = S (n mod 10))%nat) by (symmetry; apply (Nat.mod_unique _ _ (n / 10)); lia).
    by rewrite Hq, Hm.
Qed.

(** ** Properties *)

(** C7: a voluntary or preemptive switch never faults: the next thread of the
    ring becomes current and runs with exactly the callee-saved registers,
    stack pointer and return address it was suspended with; the thread that
    gave up the CPU will resume after this call with those it has now; nothing
    is written but below its stack pointer on its own stack; and the ring, the lock and every suspended
    context are again as the scheduler needs them. A ring of one thread goes on
    with that thread. *)
Theorem switch_to_next_correct M l C K ra :
  sched_rep M l C K → word64 ra →
  ∃ M', switch_to_next M ra = Ok M' ∧ ticks_since_switch (sc M') = 0 ∧ rf (rg M') = rf (rg M) ∧
    head (rotate l) = Some (current (sc M')) ∧
    (∀ x, ¬ free_stack K M x → mm M' !! x = mm M !! x) ∧
    ((l = [current (sc M)] ∧ mm M' = mm M ∧ rg M' = rg M ∧ sched_rep M' l C K) ∨
     (current (sc M') ≠ current (sc M) ∧
      (∃ c, C !! current (sc M') = Some c ∧ same_context c (rg M')) ∧
      sched_rep M' (rotate l) (<[current (sc M) := set_rip (rg M) ra]> C) K)).
Proof.
  intros Hrep Hra. destruct (switch_to_next_spec M l C K ra Hrep Hra)
    as (M' & Hsw & Ht & Hrf & Hhead & Hmod & Hcase).
  exists M'. split_and!; [done..| |done]. intros x Hx. by apply (modifies_lookup _ _ _ _ Hmod).
Qed.

(** C22: the scheduler is fair and time slices are exact. From any state of the
    scheduler, whatever sequence of ticks, yields and starts of threads follows,
    with any activity of the running threads in between: the machine's ring, its
    running thread and the ticks of the slice are those that [slices] computes
    from the sequence (the processor is passed on in the order of the ring, on
    the tenth tick since the last switch or at a yield; a thread that starts
    comes next), and neither the next tick nor the next yield faults. When there
    are only ticks, [n] of them from the beginning of a slice, the thread at
    position [n / 10] of the ring (cyclically) is running, so each of [k] threads
    gets every [k]-th slice of ten ticks. *)
Theorem sched_round_robin M l C K k es K' M' :
  sched_rep M l C K → ticks_since_switch (sc M) = Z.of_nat k → (k < 10)%nat → exec K M es K' M' →
  let '(l', k') := slices es (l, k) in
  ring (threads (sc M')) (current (sc M')) l' ∧ head l' = Some (current (sc M')) ∧
  ticks_since_switch (sc M') = Z.of_nat k' ∧ (k' < 10)%nat ∧
  (∀ ra, word64 ra → (∃ M2, sched_tick M' ra = Ok M2) ∧ ∃ M2, sched_yield M' ra = Ok M2) ∧
  (∀ n, es = replicate n Ticked → k = 0%nat →
     l !! ((n / 10) mod length l)%nat = Some (current (sc M')) ∧ k' = (n mod 10)%nat).
Proof.
  intros Hrep H0 Hk Hex. destruct (exec_rep K M es K' M' l C k Hrep H0 Hk Hex) as (l' & k' & C' & Hs & Hrep' & Ht & Hk').
  rewrite Hs. pose proof (sr_ring _ _ _ _ Hrep') as Hring. pose proof (proj1 Hring) as Hh. split_and!; try done.
  - intros ra Hra. split.
    + destruct (sched_tick_spec M' _ C' K' ra Hrep' Hra) as (M2 & Hst & _); [|by exists M2].
      rewrite Ht. unfold SCHED_TIME_SLICE_TICKS. lia.
    + destruct (switch_to_next_spec M' _ C' K' ra Hrep' Hra) as (M2 & Hst & _). by exists M2.
  - intros n -> ->. rewrite slices_ticks in Hs. apply pair_equal_spec in Hs as [<- <-]. split; [|done].
    destruct (ring_cons _ _ _ (sr_ring _ _ _ _ Hrep)) as [l1 Hl1].
    destruct (lookup_lt_is_Some_2 l ((n / 10) mod length l)) as [a Ha]; [apply Nat.mod_upper_bound; by rewrite Hl1|].
    pose proof (rotate_iter_head l (n / 10) a ltac:(by rewrite Hl1) Ha) as Hh'. rewrite Ha. congruence.
Qed.

(** Adding a thread puts it right after the current one in the ring, with a
    fresh number, takes and releases the lock, and gives back the flags. *)
Theorem sched_add_thread_correct s f t th0 l :
  ring (threads s) (current s) (current s :: l) → locked (ready_lock s) = 0 →
  threads s !! t = Some th0 → t ∉ current s :: l →
  ∃ s', sched_add_thread s f t = Ok (s', f) ∧ current s' = current s ∧
    locked (ready_lock s') = 0 ∧ next_thread_id s' = u64 (next_thread_id s + 1) ∧
    ring (threads s') (current s) (current s :: t :: l) ∧
    (∃ th, threads s' !! t = Some th ∧ id th = next_thread_id s ∧
       stack_pointer th = stack_pointer th0 ∧ stack_base th = stack_base th0) ∧
    (∀ u, u ≠ t → u ≠ current s → threads s' !! u = threads s !! u).
Proof. apply sched_add_thread_spec. Qed.

(** [context_switch] away from a context and back again, whatever the other
    contexts do outside its stack frame, restores its registers, its stack
    pointer and its return address. *)
Theorem context_switch_roundtrip m r ra m1 old sp1 c1 r1 m2 r2 :
  48 ≤ rsp r → rsp r + 8 < 2 ^ 64 → mapped m (rsp r - 48) 48 → Forall word64 (frame r) → load64 m (rsp r) = Ok ra →
  suspended m sp1 c1 → 0 ≤ sp1 → sp1 + 56 < 2 ^ 64 → sp1 + 56 ≤ rsp r - 48 ∨ rsp r ≤ sp1 →
  context_switch m r sp1 = Ok (m1, old, r1) →
  (∀ x, in_range (rsp r - 48) 56 x → m2 !! x = m1 !! x) →
  48 ≤ rsp r2 < 2 ^ 64 → mapped m2 (rsp r2 - 48) 56 → Forall word64 (frame r2) →
  rsp r + 8 ≤ rsp r2 - 48 ∨ rsp r2 ≤ rsp r - 48 →
  ∃ m3 old2 r3, context_switch m2 r2 old = Ok (m3, old2, r3) ∧
    same_context (set_rip (set_rsp r (rsp r + 8)) ra) r3.
Proof.
  intros H48 Hr8 Hm Hw Hra Hsus H0 Hlt Hd Hcs Hkeep Hr2 Hm2 Hw2 Hd2.
  pose proof (saved_one m (rsp r) ra Hra) as Hs0.
  destruct (context_switch_spec m r sp1 c1 ra) as (m1' & r1' & Hcs' & _ & _ & _ & Hs1 & _); [lia | done..|].
  rewrite Hcs in Hcs'. injection Hcs' as <- -> <-.
  assert (Hsus2 : suspended m2 (rsp r - 48) (set_rip (set_rsp r (rsp r + 8)) ra)).
  { split; [|simpl; rewrite u64_small; lia]. intros i v Hi. rewrite <-(Hs1 i v Hi).
    apply load_le_agree. apply lookup_lt_Some in Hi. simpl in Hi. intros x Hx. apply Hkeep.
    unfold in_range in *. lia. }
  destruct (load64_mapped m2 (rsp r2)) as [ra2 Hra2]; [eapply mapped_sub; [exact Hm2 | lia | lia]|].
  pose proof (saved_one m2 (rsp r2) ra2 Hra2) as Hs2.
  destruct (context_switch_spec m2 r2 (rsp r - 48) _ ra2 Hr2 ltac:(eapply mapped_sub; [exact Hm2 | lia | lia])
    Hw2 Hs2 Hsus2 ltac:(lia) ltac:(lia) ltac:(lia)) as (m3 & r3 & Hcs3 & Hsame & _).
  by exists m3, (rsp r2 - 48), r3.
Qed.

(** The window between the release of the lock and the switch: a tick that
    preempts there finds the new thread current while the old one's stack is
    still in use. It saves the old thread's stack pointer as the new thread's,
    whose suspended context is lost. *)
Theorem switch_window_race M cur nxt n3 l C K ra s' f :
  sched_rep M (cur :: nxt :: n3 :: l) C K → word64 ra →
  pick_next (sc M) (rf (rg M)) = Ok (cur, nxt, s', f) →
  ∃ M2 th th0, switch_to_next (mk_machine (mm M) s' (rg M)) ra = Ok M2 ∧
    threads (sc M) !! nxt = Some th0 ∧ in_stack K nxt (stack_pointer th0) ∧
    threads (sc M2) !! nxt = Some th ∧ in_stack K cur (stack_pointer th).
Proof.
  intros Hrep Hra Hpick. pose proof Hrep as [Hring Hlock Hregs Hstk Hdis Hsv (lo & hi & HK & Hsp)].
  destruct (pick_next_spec (sc M) (rf (rg M)) _ Hring Hlock)
    as (nxt' & s2 & Hpick' & Hth & Hcur & Hlk & _ & _ & Hring' & _).
  assert (Hc : current (sc M) = cur) by (destruct Hring as [[= ->] _]; done).
  rewrite Hpick in Hpick'. injection Hpick' as _ <- <- ->.
  assert (Hnd : NoDup (cur :: nxt :: n3 :: l)) by apply Hring.
  apply NoDup_cons in Hnd as [Hn1 [Hn2 _]%NoDup_cons].
  destruct (pick_next_spec s' (rf (rg M)) (rotate (cur :: nxt :: n3 :: l)))
    as (n3' & s3 & Hpick3 & Hth3 & Hcur3 & _ & _ & _ & Hring3 & _);
    [by rewrite Hth, Hcur | done |].
  assert (Hn3' : n3' = n3) by (destruct Hring3 as [[= ->] _]; done).
  rewrite Hn3' in *. clear Hn3' n3'.
  assert (Hin1 : nxt ∈ cur :: nxt :: n3 :: l) by set_solver.
  assert (Hin3 : n3 ∈ cur :: nxt :: n3 :: l) by set_solver.
  assert (Hin0 : cur ∈ cur :: nxt :: n3 :: l) by set_solver.
  destruct (ring_thread _ _ _ _ Hring Hin1) as [p Hp]. destruct (ring_thread _ _ _ _ Hring Hin3) as [nt Hnt].
  destruct (Hsv n3 nt Hin3) as (c & lo2 & hi2 & HC & HK2 & Hsus & Hwc & Hb1 & Hb2); [rewrite Hc; set_solver | done |].
  destruct (Hsv nxt p Hin1) as (c1 & lo1 & hi1 & _ & HK1 & _ & _ & Hp1 & Hp2); [rewrite Hc; set_solver | done |].
  rewrite Hc in HK. destruct (Hstk cur Hin0) as (lo' & hi' & HK' & Hlo & Hhi & Hmap).
  rewrite HK in HK'. injection HK' as <- <-.
  destruct (Hstk n3 Hin3) as (lo3 & hi3 & HK3 & Hlo3 & Hhi3 & _). rewrite HK2 in HK3. injection HK3 as <- <-.
  assert (Hd := Hdis cur n3 _ _ _ _ ltac:(set_solver) HK HK2).
  unfold switch_to_next. simpl. rewrite Hpick3. rsimpl. rewrite Hcur.
  rewrite (proj2 (Z.eqb_neq n3 nxt)) by set_solver. simpl.
  assert (Hrf : set_rf (rg M) (rf (rg M)) = rg M) by (by destruct (rg M)). rewrite Hrf.
  destruct (call_spec (mk_machine (mm M) (reset_ticks s3) (rg M)) nxt n3 ra lo hi p nt c)
    as (m' & r' & -> & _); simpl; rewrite ?Hth3, ?Hth; try done; try lia.
  eexists _, _, p. split_and!; [done | done | by exists lo1, hi1; split; [done | lia] | |].
  - simpl. by rewrite lookup_insert_eq.
  - simpl. exists lo, hi. split; [done | lia].
Qed.

(** The flags are not part of the context: a thread resumes with those of the
    thread that switched to it. *)
Lemma context_switch_flags m r sp m' old r' : context_switch m r sp = Ok (m', old, r') → rf r' = rf r.
Proof.
  unfold context_switch. intros Hc.
  repeat match type of Hc with
  | (_ ≫= _) = Ok _ => let H := fresh in apply bind_Ok_inv in Hc as (? & _ & H); rename H into Hc; case_match
  end.
  by injection Hc as _ _ <-.
Qed.

Theorem switch_keeps_flags M ra M' :
  locked (ready_lock (sc M)) = 0 → switch_to_next M ra = Ok M' → rf (rg M') = rf (rg M).
Proof.
  intros Hl. unfold switch_to_next, pick_next, spinlock_acquire_irqsave, read_and_disable_interrupts, lock_fuel, spinlock_acquire.
  rewrite Hl. change (negb (0 =? 0)) with false. cbv iota. cbn [mbind res_bind].
  intros Hs. apply bind_Ok_inv in Hs as ([[[prev nxt] s] f] & Hp & Hs). apply bind_Ok_inv in Hp as (t & _ & Hp).
  injection Hp as <- <- <- <-. revert Hs. destruct (negb _); [|by intros [= <-]].
  unfold call_context_switch. cbn [rg mm sc]. intros Hs.
  apply bind_Ok_inv in Hs as (nt & _ & Hs). apply bind_Ok_inv in Hs as ([m sp] & _ & Hs).
  apply bind_Ok_inv in Hs as ([[m2 old] r] & Hcs & Hs). apply bind_Ok_inv in Hs as (p & _ & Hs). injection Hs as <-.
  cbn. by rewrite (context_switch_flags _ _ _ _ _ _ Hcs).
Qed.

(** ** Witnesses: three threads on zeroed stacks *)

Definition ex_stacks : mem := zeros 0x1000 0x300.
Definition ex_K : gmap Z (Z * Z) := {[1 := (0x1000, 0x1100); 2 := (0x1100, 0x1200); 3 := (0x1200, 0x1300)]}.
Definition ex_regs (sp : Z) : regs := mk_regs 0 0 0 0 0 0 0 sp 0 0x202.
Definition ex_C : gmap Z regs := {[2 := ex_regs 0x1200; 3 := ex_regs 0x1300]}.
Definition ex_threads : gmap Z thread :=
  {[1 := mk_thread 0 0 0 2; 2 := mk_thread 0x11c8 0x1100 1 3; 3 := mk_thread 0x12c8 0x1200 2 1]}.
Definition ex_machine : machine :=
  mk_machine ex_stacks (mk_sched SPINLOCK_INIT ex_threads 1 3 0) (ex_regs 0x1100).

Lemma ex_saved sp : 0x1000 ≤ sp → sp + 56 ≤ 0x1300 → suspended ex_stacks sp (ex_regs (sp + 56)).
Proof.
  intros H1 H2. split; [|simpl; by rewrite u64_small by lia].
  assert (Hz : ∀ i, (i < 7)%nat → load64 ex_stacks (sp + 8 * Z.of_nat i) = Ok 0).
  { intros i Hi. apply load_le_zero. intros x Hx. unfold ex_stacks, zeros. rewrite zeros_from_lookup.
    rewrite decide_True; [done|]. unfold in_range in *. lia. }
  intros i v Hi. pose proof (lookup_lt_Some _ _ _ Hi) as Hlt. simpl in Hlt. rewrite Hz by lia.
  do 7 (destruct i as [|i]; [by injection Hi as <-|]). simpl in Hlt. lia.
Qed.

Lemma ex_zero_frame sp : Forall word64 (frame (ex_regs sp)).
Proof. unfold frame. simpl. repeat (apply Forall_cons; split; [unfold word64; lia|]). by apply Forall_nil. Qed.

Lemma ex_K_lookup t lo hi :
  ex_K !! t = Some (lo, hi) → 1 ≤ t ≤ 3 ∧ lo = 0xf00 + 0x100 * t ∧ hi = lo + 0x100.
Proof.
  unfold ex_K. intros Ht. rewrite !lookup_insert_Some, lookup_singleton_Some in Ht.
  destruct Ht as [[<- [= <- <-]]|[_ [[<- [= <- <-]]|[_ [<- [= <- <-]]]]]]; lia.
Qed.

Lemma ex_rep : sched_rep ex_machine [1; 2; 3] ex_C ex_K.
Proof.
  constructor; simpl.
  - split; [done|]. split.
    + apply (bool_decide_unpack _). reflexivity.
    + repeat (split; [refine (ex_intro _ _ (conj eq_refl _)); reflexivity|]). exact I.
  - done.
  - apply (ex_zero_frame 0x1100).
  - intros t Ht. exists (0xf00 + 0x100 * t), (0x1000 + 0x100 * t).
    assert (1 ≤ t ≤ 3 ∧ ex_K !! t = Some (0xf00 + 0x100 * t, 0x1000 + 0x100 * t)) as [Hr HK].
    { rewrite !elem_of_cons, elem_of_nil in Ht. destruct Ht as [->|[->|[->|[]]]]; (split; [lia | reflexivity]). }
    split_and!; [done | lia | lia |]. eapply mapped_sub; [apply zeros_mapped | lia | lia].
  - intros t u lo hi lo' hi' Hne H1%ex_K_lookup H2%ex_K_lookup. lia.
  - intros t th Ht Hne Hth. rewrite !elem_of_cons, elem_of_nil in Ht.
    destruct Ht as [->|[->|[->|[]]]]; [done | |].
    + assert (th = mk_thread 0x11c8 0x1100 1 3) as -> by (vm_compute in Hth; congruence). simpl.
      exists (ex_regs 0x1200), 0x1100, 0x1200. split_and!; try reflexivity; [| apply (ex_zero_frame 0x1200) | lia].
      apply (ex_saved 0x11c8); lia.
    + assert (th = mk_thread 0x12c8 0x1200 2 1) as -> by (vm_compute in Hth; congruence). simpl.
      exists (ex_regs 0x1300), 0x1200, 0x1300. split_and!; try reflexivity; [| apply (ex_zero_frame 0x1300) | lia].
      apply (ex_saved 0x12c8); lia.
  - exists 0x1000, 0x1100. split; [reflexivity | lia].
Qed.

Lemma switch_to_next_correct_witness :
  ∃ M', switch_to_next ex_machine 0x400 = Ok M' ∧ current (sc M') = 2.
Proof.
  destruct (switch_to_next_correct ex_machine _ _ _ 0x400 ex_rep) as (M' & Hs & _ & _ & Hh & _);
    [unfold word64; lia|].
  exists M'. split; [exact Hs|]. by injection Hh as <-.
Defined.

(** Ticks and yields always go on. *)
Lemma exec_more K M es K1 M1 l C k es' :
  sched_rep M l C K → ticks_since_switch (sc M) = Z.of_nat k → (k < 10)%nat → exec K M es K1 M1 →
  Forall (λ e, e = Ticked ∨ e = Yielding) es' → ∃ M2, exec K M (es ++ es') K1 M2.
Proof.
  intros Hrep H0 Hk Hex. induction es' as [|e es' IH] using rev_ind; [rewrite app_nil_r; by exists M1|].
  intros [Hes [He _]%Forall_cons]%Forall_app. destruct (IH Hes) as [M2 Hex2]. rewrite app_assoc.
  destruct (exec_rep K M _ K1 M2 l C k Hrep H0 Hk Hex2) as (l' & k' & C' & _ & Hrep' & Ht & Hk').
  assert (Hra : word64 0x400) by (unfold word64; lia). destruct He as [-> | ->].
  - destruct (sched_tick_spec M2 _ C' K1 0x400 Hrep' Hra) as (M3 & Hst & _); [rewrite Ht; unfold SCHED_TIME_SLICE_TICKS; lia|].
    exists M3. by apply (exec_tick _ _ _ _ M2 0x400).
  - destruct (switch_to_next_spec M2 _ C' K1 0x400 Hrep' Hra) as (M3 & Hst & _). exists M3. by apply (exec_yield _ _ _ _ M2 0x400).
Qed.

(** The fourth thread starts, a slice passes, and that thread gives up the
    processor after three ticks. *)
Definition ex_events : list event := [Added 4] ++ replicate 10 Ticked ++ replicate 3 Ticked ++ [Yielding].

Lemma ex_add :
  ∃ K1 M1, exec ex_K ex_machine [Added 4] K1 M1.
Proof.
  set (m := zeros 0x1300 0x100 ∪ ex_stacks). eexists _, (mk_machine m _ (ex_regs 0x1100)).
  assert (Hz : ∀ x, in_range 0x1300 0x100 x → m !! x = Some 0).
  { intros x Hx. apply lookup_union_Some_l. unfold zeros. by rewrite zeros_from_lookup, decide_True. }
  apply (exec_add ex_K ex_machine [] ex_K ex_machine 4 (mk_thread 0x13c8 0x1300 0 0) 0x1300 0x1400 (ex_regs 0x1400) m); try done.
  - apply exec_refl.
  - intros u lo' hi' Hu%ex_K_lookup. lia.
  - intros u x (lo' & hi' & Hu%ex_K_lookup & Hx). apply lookup_union_r. unfold zeros. rewrite zeros_from_lookup, decide_False; [done|].
    unfold in_range. lia.
  - intros x Hx. rewrite Hz; [by eexists | exact Hx].
  - split; [|simpl; by rewrite u64_small by lia]. intros i v Hi. pose proof (lookup_lt_Some _ _ _ Hi) as Hlt. simpl in Hlt.
    assert (H0 : load64 m (0x1400 - 56 + 8 * Z.of_nat i) = Ok 0)
      by (apply load_le_zero; intros x Hx; apply Hz; unfold in_range in *; lia).
    rewrite H0. do 7 (destruct i as [|i]; [by injection Hi as <-|]). simpl in Hlt. lia.
  - apply (ex_zero_frame 0x1400).
Qed.

Lemma sched_round_robin_witness :
  ∃ K' M', exec ex_K ex_machine ex_events K' M' ∧ current (sc M') = 2 ∧ ring (threads (sc M')) 2 [2; 3; 1; 4].
Proof.
  destruct ex_add as (K1 & M1 & H1).
  destruct (exec_more ex_K ex_machine [Added 4] K1 M1 [1; 2; 3] ex_C 0 (replicate 10 Ticked ++ replicate 3 Ticked ++ [Yielding]) ex_rep eq_refl)
    as [M' Hex]; [lia | exact H1 | simpl; repeat (apply Forall_cons; split; [(by left) || by right|]); by apply Forall_nil |].
  exists K1, M'. split; [exact Hex|].
  pose proof (sched_round_robin ex_machine [1; 2; 3] ex_C ex_K 0 ex_events K1 M' ex_rep eq_refl ltac:(lia) Hex) as Hrr.
  change (slices ex_events ([1; 2; 3], 0%nat)) with ([2; 3; 1; 4], 0%nat) in Hrr. destruct Hrr as (Hr & Hh & _).
  injection Hh as Hc. symmetry in Hc. rewrite Hc in Hr. by split.
Defined.

(** The scheduler [sched_init] leaves. *)
Definition ex_sched : sched := mk_sched SPINLOCK_INIT {[1 := mk_thread 0 0 0 1]} 1 1 0.

Lemma sched_add_thread_correct_witness :
  ∃ s', sched_init 1 (sched_bss 1) = Ok ex_sched ∧
    sched_add_thread (put_thread ex_sched 2 (mk_thread 0x11c8 0x1100 0 0)) 0x202 2 = Ok (s', 0x202) ∧
    ring (threads s') 1 [1; 2].
Proof.
  destruct (sched_add_thread_correct (put_thread ex_sched 2 (mk_thread 0x11c8 0x1100 0 0))
    0x202 2 (mk_thread 0x11c8 0x1100 0 0) []) as (s' & Hs & _ & _ & _ & Hr & _).
  - split; [reflexivity|]. split; [apply NoDup_singleton|]. split; [by eexists | done].
  - reflexivity.
  - reflexivity.
  - simpl. set_solver.
  - exists s'. split; [vm_compute; reflexivity|]. split; [exact Hs | exact Hr].
Defined.

Lemma context_switch_roundtrip_witness :
  ∃ m1 old r1 m3 old2 r3, context_switch ex_stacks (ex_regs 0x10f8) 0x11c8 = Ok (m1, old, r1) ∧
    context_switch m1 (ex_regs 0x1200) old = Ok (m3, old2, r3) ∧
    same_context (ex_regs 0x1100) r3.
Proof.
  assert (Hra : load64 ex_stacks 0x10f8 = Ok 0).
  { apply load_le_zero. intros x Hx. unfold ex_stacks, zeros. rewrite zeros_from_lookup.
    rewrite decide_True; [done|]. unfold in_range in *. lia. }
  assert (Hm : mapped ex_stacks 0x1000 0x300) by apply zeros_mapped.
  assert (Hsus : suspended ex_stacks 0x11c8 (ex_regs 0x1200)) by (apply ex_saved; lia).
  pose proof (saved_one ex_stacks 0x10f8 0 Hra) as Hs.
  destruct (context_switch_spec ex_stacks (ex_regs 0x10f8) 0x11c8 (ex_regs 0x1200) 0)
    as (m1 & r1 & Hcs & _ & _ & _ & _ & Hmod);
    [simpl; lia | | apply (ex_zero_frame 0x10f8) | exact Hs | exact Hsus | lia | lia | simpl; lia |].
  { eapply mapped_sub; [exact Hm | simpl; lia | simpl; lia]. }
  destruct (context_switch_roundtrip ex_stacks (ex_regs 0x10f8) 0 m1 (0x10f8 - 48) 0x11c8 (ex_regs 0x1200) r1
    m1 (ex_regs 0x1200)) as (m3 & old2 & r3 & Hcs2 & Hsame);
    [simpl; lia | simpl; lia | | apply (ex_zero_frame 0x10f8) | exact Hra | exact Hsus | lia | lia
    | simpl; lia | exact Hcs | reflexivity | simpl; lia | | apply (ex_zero_frame 0x1200) | simpl; lia |].
  - eapply mapped_sub; [exact Hm | simpl; lia | simpl; lia].
  - eapply mapped_sub; [eapply modifies_mapped; [exact Hmod | exact Hm] | simpl; lia | simpl; lia].
  - exists m1, (0x10f8 - 48), r1, m3, old2, r3. split; [exact Hcs|]. split; [exact Hcs2 | exact Hsame].
Defined.

Lemma switch_window_race_witness :
  ∃ s' f M2, pick_next (sc ex_machine) 0x202 = Ok (1, 2, s', f) ∧
    switch_to_next (mk_machine ex_stacks s' (ex_regs 0x1100)) 0x400 = Ok M2.
Proof.
  destruct (pick_next_spec (sc ex_machine) 0x202 [1; 2; 3] (sr_ring _ _ _ _ ex_rep) eq_refl)
    as (nxt & s' & Hpick & _ & Hcur & _).
  assert (Hn : nxt = 2) by (vm_compute in Hpick; congruence). subst nxt.
  destruct (switch_window_race ex_machine 1 2 3 [] ex_C ex_K 0x400 s' 0x202 ex_rep
    ltac:(unfold word64; lia)) as (M2 & _ & _ & Hs & _); [rewrite <-Hn; exact Hpick|].
  exists s', 0x202, M2. split; [rewrite <-Hn; exact Hpick | exact Hs].
Defined.

(** A thread that yielded with interrupts on, and is switched back to from the
    timer's handler, continues with interrupts off: thread 1 yields to thread 2,
    whose time slice ends, and then that of thread 3. *)
Definition slice_over (M : machine) : machine :=
  let M := with_ticks M 9 in mk_machine (mm M) (sc M) (set_rf (rg M) (Z.clearbit (rf (rg M)) IF_BIT)).

Theorem yielded_thread_resumes_masked :
  ∃ M1 M2 M3, sched_yield ex_machine 0x400 = Ok M1 ∧ sched_tick (slice_over M1) 0x500 = Ok M2 ∧
    sched_tick (slice_over M2) 0x500 = Ok M3 ∧
    current (sc M3) = current (sc ex_machine) ∧ rip (rg M3) = 0x400 ∧
    interrupts_enabled (rf (rg ex_machine)) = true ∧ interrupts_enabled (rf (rg M3)) = false.
Proof.
  assert (Hrun : (M1 ← sched_yield ex_machine 0x400; M2 ← sched_tick (slice_over M1) 0x500;
      M3 ← sched_tick (slice_over M2) 0x500; Ok (current (sc M3), rip (rg M3), rf (rg M3)))
    = Ok (1, 0x400, 0x002)) by (vm_compute; reflexivity).
  apply bind_Ok_inv in Hrun as (M1 & E1 & Hrun). apply bind_Ok_inv in Hrun as (M2 & E2 & Hrun).
  apply bind_Ok_inv in Hrun as (M3 & E3 & Hrun). injection Hrun as Hc Hp Hf.
  exists M1, M2, M3. rewrite Hc, Hp, Hf. by split_and!.
Qed.
