(* ===== verification/Thread.v ===== *)
(** * Threads (kernel/sched/thread.c)

    [thread_create] over the heap, the VMM and the scheduler. A [struct
    thread] is an object of the thread store (Sched.v) at the address [kmalloc]
    returns; the store owns its 32 bytes from then on. *)

From S2P Require Import Prelude Word Mem FrameAlloc RefAlloc Paging Isr Vmm AddressSpace Heap Spinlock Stack Sched.

(** ** Operations *)

Definition THREAD_STACK_PAGES : Z := 4.

(** [sizeof(struct thread)]. *)
Definition sizeof_thread : Z := 32.

(** The object in fresh memory: the fields have the values of its bytes. *)
Definition fresh_thread (m : mem) (t : Z) : res thread :=
  sp ← load64 m t; base ← load64 m (t + 8); i ← load64 m (t + 16); nx ← load64 m (t + 24);
  Ok (mk_thread sp base i nx).

(** The virtual memory once [vmm_alloc_guarded] has mapped [n] bytes at [a] to
    zero-filled frames (AddressSpace.v). *)
Definition with_pages (m : mem) (a n : Z) : mem := zeros a n ∪ m.

(** [*(--sp) = v]. *)
Definition store_down (m : mem) (sp v : Z) : res (mem * Z) :=
  let sp := u64 (sp - 8) in
  m ← store64 m sp v; Ok (m, sp).

(** The frame [context_switch] and [thread_trampoline] expect. *)
Definition initial_frame (m : mem) (top trampoline entry arg : Z) : res (mem * Z) :=
  '(m, sp) ← store_down m top trampoline;
  '(m, sp) ← store_down m sp 0;
  '(m, sp) ← store_down m sp 0;
  '(m, sp) ← store_down m sp entry;
  '(m, sp) ← store_down m sp arg;
  '(m, sp) ← store_down m sp 0;
  store_down m sp 0.

Section thread_create.
Context {A : Type} `{FrameAllocator A}.

(** [fl] is the heap's [free_list]; the machine's memory is the kernel's
    virtual memory, its registers hold the flags. *)
Definition thread_create (fl : Z) (M : machine) (w : world A) (trampoline entry arg : Z)
  : res (Z * machine * world A) :=
  '(t, m) ← kmalloc fl (mm M) sizeof_thread;
  if t =? 0 then Ok (0, mk_machine m (sc M) (rg M), w)
  else
    '(stack, w) ← vmm_alloc_guarded w THREAD_STACK_PAGES VMM_WRITABLE;
    if stack =? 0 then
      m ← kfree m t;
      Ok (0, mk_machine m (sc M) (rg M), w)
    else
      let m := with_pages m stack (THREAD_STACK_PAGES * PAGE_SIZE) in
      '(m, sp) ← initial_frame m (u64 (stack + THREAD_STACK_PAGES * PAGE_SIZE)) trampoline entry arg;
      th ← fresh_thread m t;
      let s := put_thread (sc M) t (mk_thread sp stack (id th) (Sched.next th)) in
      '(s, f) ← sched_add_thread s (rf (rg M)) t;
      Ok (t, mk_machine m s (set_rf (rg M) f), w).

End thread_create.

Definition thread_exited : res () :=
  Panic "thread: entry function returned (thread exit is not implemented)".

(** ** Specification *)

(** The context a new thread starts with. *)
Definition new_context (trampoline entry arg top : Z) : regs :=
  mk_regs 0 0 arg entry 0 0 trampoline top 0 0.

(** What [thread_create] relies on and keeps: a well-formed heap and address
    space, the scheduler's invariant, threads that are heap blocks in use (the
    bootstrap thread apart), stacks outside the heap and below the part of the
    dynamic range that is still to be handed out, where no large page is. *)
Section env.
Context {A : Type} `{FrameAllocator A}.

Record thread_env (fl : Z) (M : machine) (w : world A) (T : gmap (list Z) Z) (lb : list block)
    (l : list Z) (C : gmap Z regs) (K : gmap Z (Z * Z)) : Prop := {
  te_heap : heap_inv fl (mm M) lb;
  te_vmm : vmm_inv w T;
  te_sched : sched_rep M l C K;
  te_threads t : t ∈ l → (∃ s, (t, s) ∈ live HEAP_VBASE lb) ∨ ¬ in_range HEAP_VBASE HEAP_SIZE t;
  te_stacks t lo hi : K !! t = Some (lo, hi) →
    (hi ≤ HEAP_VBASE ∨ HEAP_VBASE + HEAP_SIZE ≤ lo) ∧ hi ≤ dynamic_next_vaddr (w_vmm w);
  te_base : VMM_DYNAMIC_VBASE ≤ dynamic_next_vaddr (w_vmm w);
  te_aligned : dynamic_next_vaddr (w_vmm w) mod PAGE_SIZE = 0;
  te_small v : dynamic_next_vaddr (w_vmm w) ≤ v < 2 ^ 64 → small_page w v;
}.

End env.

(** ** Lemmas *)

Lemma with_pages_in m a n x : in_range a n x → with_pages m a n !! x = Some 0.
Proof.
  intros Hx. unfold with_pages, zeros. apply lookup_union_Some_l.
  rewrite zeros_from_lookup, decide_True; [done|]. unfold in_range in *. lia.
Qed.

Lemma with_pages_out m a n x : ¬ in_range a n x → with_pages m a n !! x = m !! x.
Proof.
  intros Hx. unfold with_pages, zeros. apply lookup_union_r.
  rewrite zeros_from_lookup, decide_False; [done|]. unfold in_range in *. lia.
Qed.

Lemma with_pages_mapped m a n : mapped (with_pages m a n) a n.
Proof. intros x Hx. rewrite with_pages_in by done. by eexists. Qed.

Lemma store_down_push m sp v : store_down m sp v = push m sp v.
Proof. done. Qed.

(** Writing the frame suspends the new context. *)
Lemma initial_frame_spec m lo top tr entry arg :
  lo + 56 ≤ top → 0 ≤ lo → top < 2 ^ 64 → mapped m lo (top - lo) →
  word64 tr → word64 entry → word64 arg →
  ∃ m', initial_frame m top tr entry arg = Ok (m', top - 56) ∧
    suspended m' (top - 56) (new_context tr entry arg top) ∧
    modifies (in_range lo (top - lo)) m m'.
Proof.
  intros Hlo H0 Htop Hm Htr Hen Harg.
  assert (Hz : word64 0) by (unfold word64; lia).
  assert (Hstep : ∀ m0 k k' v vs, mapped m0 lo (top - lo) → 0 ≤ k ≤ 48 → word64 v →
    saved_at m0 (top - k) vs → k' = k + 8 →
    ∃ m', store_down m0 (top - k) v = Ok (m', top - k') ∧ saved_at m' (top - k') (v :: vs) ∧
      modifies (in_range lo (top - lo)) m0 m' ∧ mapped m' lo (top - lo)).
  { intros m0 k k' v vs Hm0 Hk Hv Hvs ->. rewrite store_down_push.
    destruct (push_spec m0 (top - k) v vs) as (m' & Hp & Hs & Hmod); [lia | | done | done |].
    - eapply mapped_sub; [exact Hm0 | lia | lia].
    - replace (top - k - 8) with (top - (k + 8)) in * by lia.
      assert (Hmod' : modifies (in_range lo (top - lo)) m0 m')
        by (eapply modifies_mono; [|exact Hmod]; unfold in_range; lia).
      exists m'. split_and!; [done | done | done | eauto with mem]. }
  unfold initial_frame.
  pose proof (saved_nil m (top - 0)) as S0.
  destruct (Hstep m 0 8 tr _ Hm ltac:(lia) Htr S0 eq_refl) as (m1 & P1 & S1 & D1 & M1).
  destruct (Hstep m1 8 16 0 _ M1 ltac:(lia) Hz S1 eq_refl) as (m2 & P2 & S2 & D2 & M2).
  destruct (Hstep m2 16 24 0 _ M2 ltac:(lia) Hz S2 eq_refl) as (m3 & P3 & S3 & D3 & M3).
  destruct (Hstep m3 24 32 entry _ M3 ltac:(lia) Hen S3 eq_refl) as (m4 & P4 & S4 & D4 & M4).
  destruct (Hstep m4 32 40 arg _ M4 ltac:(lia) Harg S4 eq_refl) as (m5 & P5 & S5 & D5 & M5).
  destruct (Hstep m5 40 48 0 _ M5 ltac:(lia) Hz S5 eq_refl) as (m6 & P6 & S6 & D6 & M6).
  destruct (Hstep m6 48 56 0 _ M6 ltac:(lia) Hz S6 eq_refl) as (m7 & P7 & S7 & D7 & M7).
  rewrite Z.sub_0_r in P1. rewrite P1. rsimpl. rewrite P2. rsimpl. rewrite P3. rsimpl.
  rewrite P4. rsimpl. rewrite P5. rsimpl. rewrite P6. rsimpl.
  exists m7. split_and!; [exact P7 | split; [exact S7 | simpl; rewrite u64_small; lia] |].
  etransitivity; [exact D1|]. etransitivity; [exact D2|]. etransitivity; [exact D3|].
  etransitivity; [exact D4|]. etransitivity; [exact D5|]. by etransitivity.
Qed.

(** The scheduler's invariant depends on the stacks' bytes only. *)
Lemma sched_rep_agree M l C K m' :
  sched_rep M l C K →
  (∀ u lo hi x, u ∈ l → K !! u = Some (lo, hi) → lo ≤ x < hi → m' !! x = mm M !! x) →
  sched_rep (mk_machine m' (sc M) (rg M)) l C K.
Proof.
  intros [Hring Hlock Hregs Hstk Hdis Hsv Hrsp] Hkeep. constructor; simpl; try done.
  - intros t Ht. destruct (Hstk t Ht) as (lo & hi & HK & ? & ? & Hm). exists lo, hi.
    split_and!; [done..|]. intros x Hx. rewrite (Hkeep t lo hi) by (try done; unfold in_range in *; lia).
    by apply Hm.
  - intros u tu Hu Hucur Htu.
    destruct (Hsv u tu Hu Hucur Htu) as (c' & lo' & hi' & HC & HK & [Hsu Hrs] & Hwc & Hb1 & Hb2).
    exists c', lo', hi'. split_and!; try done. split; [|done].
    intros i v Hi. rewrite <-(Hsu i v Hi). apply load_le_agree. intros x Hx.
    apply lookup_lt_Some in Hi. simpl in Hi.
    apply (Hkeep u lo' hi'); [done | done | unfold in_range in Hx; lia].
Qed.

Lemma fresh_thread_mapped m t : mapped m t 32 → ∃ th, fresh_thread m t = Ok th.
Proof.
  intros Hm. unfold fresh_thread.
  assert (Hld : ∀ k, 0 ≤ k ≤ 24 → ∃ v, load64 m (t + k) = Ok v).
  { intros k Hk. apply load64_mapped. eapply mapped_sub; [exact Hm | lia | lia]. }
  destruct (Hld 0) as [v0 H0]; [lia|]. rewrite Z.add_0_r in H0. rewrite H0. rsimpl.
  destruct (Hld 8) as [v1 ->]; [lia|]. rsimpl. destruct (Hld 16) as [v2 ->]; [lia|]. rsimpl.
  destruct (Hld 24) as [v3 ->]; [lia|]. rsimpl. by eexists.
Qed.

(** Pages past the end of a range of the dynamic area are not in it. *)
Lemma indices_far base n k v :
  VMM_DYNAMIC_VBASE ≤ base → base mod PAGE_SIZE = 0 → 0 ≤ k < n → base + n * PAGE_SIZE ≤ v < 2 ^ 64 →
  indices v ≠ indices (base + k * PAGE_SIZE).
Proof.
  unfold VMM_DYNAMIC_VBASE, PAGE_SIZE. intros Hb Hm Hk Hv. rewrite indices_inj, Z.div_add by lia.
  assert (0xffffffffb0000 ≤ base / 4096) by (apply Z.div_le_lower_bound; lia).
  assert (base / 4096 + n ≤ v / 4096 < 2 ^ 52) by dlia.
  assert (Hr : ∀ x, 0xffffffffb0000 ≤ x < 2 ^ 52 → x mod 2 ^ 36 = x - (2 ^ 52 - 2 ^ 36)).
  { intros x Hx. symmetry. apply (Z.mod_unique _ _ 65535); lia. }
  rewrite !Hr by lia. lia.
Qed.

Section thread_create_correct.
Context {A : Type} `{FrameAllocator A}.

Lemma thread_env_keep fl M (w w' : world A) T T' lb l C K m' :
  thread_env fl M w T lb l C K → heap_inv fl m' lb →
  (∀ x, ¬ in_range HEAP_VBASE HEAP_SIZE x → m' !! x = mm M !! x) → vmm_inv w' T' →
  dynamic_next_vaddr (w_vmm w) ≤ dynamic_next_vaddr (w_vmm w') →
  dynamic_next_vaddr (w_vmm w') mod PAGE_SIZE = 0 →
  (∀ v, dynamic_next_vaddr (w_vmm w') ≤ v < 2 ^ 64 → small_page w' v) →
  thread_env fl (mk_machine m' (sc M) (rg M)) w' T' lb l C K.
Proof.
  intros Henv Hheap Hkeep Hvmm Hle Hal Hsm. constructor; try done.
  - eapply sched_rep_agree; [apply Henv|]. intros u lo hi x Hu HK Hx. apply Hkeep.
    destruct (te_stacks _ _ _ _ _ _ _ _ Henv u lo hi HK) as [Hd _]. unfold in_range. lia.
  - apply Henv.
  - intros t lo hi HK. destruct (te_stacks _ _ _ _ _ _ _ _ Henv t lo hi HK). split; [done | lia].
  - pose proof (te_base _ _ _ _ _ _ _ _ Henv). lia.
Qed.

(** The pages after the range [vmm_alloc_guarded] took are still small. *)
Lemma guarded_small fl M (w w' : world A) T lb l C K :
  let base := dynamic_next_vaddr (w_vmm w) + PAGE_SIZE in
  thread_env fl M w T lb l C K →
  (∀ v, (∀ k, 0 ≤ k < 4 → indices v ≠ indices (base + k * PAGE_SIZE)) → wwalk w' v = wwalk w v) →
  ∀ v, base + 5 * PAGE_SIZE ≤ v < 2 ^ 64 → small_page w' v.
Proof.
  intros base Henv Hw v Hv es. pose proof (te_base _ _ _ _ _ _ _ _ Henv) as Hb.
  pose proof (te_aligned _ _ _ _ _ _ _ _ Henv) as Hal. rewrite Hw.
  - apply (te_small _ _ _ _ _ _ _ _ Henv). unfold base, PAGE_SIZE in Hv. lia.
  - intros k Hk. apply (indices_far base 4); unfold base in *; [unfold PAGE_SIZE; lia | | done | unfold PAGE_SIZE in *; lia].
    unfold PAGE_SIZE in *. rewrite Z.add_mod, Hal by lia. done.
Qed.

(** The environment with one more thread. *)
Lemma env_added fl M M' (w w' : world A) T T' lb lb' l C K t s k1 k2 c stack top :
  thread_env fl M w T lb l C K → heap_inv fl (mm M') lb' → vmm_inv w' T' →
  sched_rep M' (current (sc M) :: t :: tail l) (<[t := c]> C) (<[t := (stack, top)]> K) →
  live HEAP_VBASE lb = k1 ++ k2 → live HEAP_VBASE lb' = k1 ++ (t, s) :: k2 →
  dynamic_next_vaddr (w_vmm w') = top + PAGE_SIZE → (top + PAGE_SIZE) mod PAGE_SIZE = 0 →
  HEAP_VBASE + HEAP_SIZE ≤ stack → dynamic_next_vaddr (w_vmm w) ≤ top →
  (∀ v, top + PAGE_SIZE ≤ v < 2 ^ 64 → small_page w' v) →
  thread_env fl M' w' T' lb' (current (sc M) :: t :: tail l) (<[t := c]> C) (<[t := (stack, top)]> K).
Proof.
  intros Henv Hheap Hvmm Hrep Hl Hl' Hdyn Hal Hst Htop Hsm.
  constructor; [exact Hheap | exact Hvmm | exact Hrep | | | | |].
  - intros u Hu. destruct (ring_cons _ _ _ (sr_ring _ _ _ _ (te_sched _ _ _ _ _ _ _ _ Henv))) as [l' ->]. simpl in Hu.
    destruct (decide (u = t)) as [->|Hne]; [left; exists s; rewrite Hl'; set_solver|].
    destruct (te_threads _ _ _ _ _ _ _ _ Henv u) as [[s0 Hs0]|Hn]; [set_solver | left | by right].
    exists s0. rewrite Hl'. rewrite Hl in Hs0. set_solver.
  - intros u lo hi HK. rewrite Hdyn. destruct (decide (u = t)) as [->|Hne].
    + rewrite lookup_insert_eq in HK. injection HK as <- <-. unfold PAGE_SIZE. lia.
    + rewrite lookup_insert_ne in HK by done.
      destruct (te_stacks _ _ _ _ _ _ _ _ Henv u lo hi HK). unfold PAGE_SIZE. lia.
  - pose proof (te_base _ _ _ _ _ _ _ _ Henv). rewrite Hdyn. unfold PAGE_SIZE. lia.
  - by rewrite Hdyn.
  - by rewrite Hdyn.
Qed.

(** Without a stack the heap block is given back and nothing is left of it. *)
Lemma create_no_stack fl M (w w' : world A) T T' lb l C K t m :
  thread_env fl M w T lb l C K → kmalloc fl (mm M) sizeof_thread = Ok (t, m) → t ≠ 0 → vmm_inv w' T' →
  dynamic_next_vaddr (w_vmm w) ≤ dynamic_next_vaddr (w_vmm w') → dynamic_next_vaddr (w_vmm w') mod PAGE_SIZE = 0 →
  (∀ v, dynamic_next_vaddr (w_vmm w') ≤ v < 2 ^ 64 → small_page w' v) →
  ∃ m', kfree m t = Ok m' ∧ thread_env fl (mk_machine m' (sc M) (rg M)) w' T' lb l C K ∧
    ∀ x, ¬ in_range HEAP_VBASE HEAP_SIZE x → m' !! x = mm M !! x.
Proof.
  intros Henv Hk Ht Hvmm Hle Hal Hsm. pose proof (te_heap _ _ _ _ _ _ _ _ Henv) as Hheap.
  assert (Hsz : 0 < sizeof_thread ≤ 2 ^ 64 - 16) by (unfold sizeof_thread; lia).
  pose proof (kmalloc_frame fl (mm M) m lb sizeof_thread t Hheap ltac:(lia) Hk) as Hmod.
  destruct (kmalloc_kfree_spec fl (mm M) m lb sizeof_thread t Hheap Hsz Hk Ht) as (m' & Hf & Hheap2 & Hmod2).
  assert (Hkeep : ∀ x, ¬ in_range HEAP_VBASE HEAP_SIZE x → m' !! x = mm M !! x)
    by (intros x Hx; rewrite (modifies_lookup _ _ _ _ Hmod2 Hx); exact (modifies_lookup _ _ _ _ Hmod Hx)).
  exists m'. split; [exact Hf|]. split; [by eapply thread_env_keep | exact Hkeep].
Qed.

(** The last part of [thread_create]: memory, thread and ring. *)
Lemma create_tail fl M (w w' : world A) T T' lb lb' l C K m t s k1 k2 tr entry arg :
  let stack := dynamic_next_vaddr (w_vmm w) + PAGE_SIZE in
  let top := stack + THREAD_STACK_PAGES * PAGE_SIZE in
  thread_env fl M w T lb l C K → heap_inv fl m lb' →
  (∀ x, ¬ in_range HEAP_VBASE HEAP_SIZE x → m !! x = mm M !! x) →
  live HEAP_VBASE lb = k1 ++ k2 → live HEAP_VBASE lb' = k1 ++ (t, s) :: k2 → 32 ≤ s →
  HEAP_VBASE < t → t + s ≤ HEAP_VBASE + HEAP_SIZE →
  vmm_inv w' T' → dynamic_next_vaddr (w_vmm w') = top + PAGE_SIZE → top + PAGE_SIZE < 2 ^ 64 →
  (∀ v, top + PAGE_SIZE ≤ v < 2 ^ 64 → small_page w' v) →
  word64 tr → word64 entry → word64 arg →
  ∃ m' th0 s' th, initial_frame (with_pages m stack (THREAD_STACK_PAGES * PAGE_SIZE)) top tr entry arg =
      Ok (m', top - 56) ∧ fresh_thread m' t = Ok th0 ∧
    sched_add_thread (put_thread (sc M) t (mk_thread (top - 56) stack (id th0) (Sched.next th0))) (rf (rg M)) t =
      Ok (s', rf (rg M)) ∧
    thread_env fl (mk_machine m' s' (rg M)) w' T' lb' (current (sc M) :: t :: tail l)
      (<[t := new_context tr entry arg top]> C) (<[t := (stack, top)]> K) ∧
    threads s' !! t = Some th ∧ id th = next_thread_id (sc M) ∧ stack_base th = stack ∧
    (∀ x, ¬ in_range HEAP_VBASE HEAP_SIZE x → ¬ in_range stack (top - stack) x → m' !! x = mm M !! x) ∧
    current s' = current (sc M) ∧ next_thread_id s' = u64 (next_thread_id (sc M) + 1).
Proof.
  intros stack top Henv Hheap Hkeep Hl Hl' Hs Ht1 Ht2 Hvmm Hdyn Htop Hsm Htr Hen Harg.
  pose proof (te_base _ _ _ _ _ _ _ _ Henv) as Hb. pose proof (te_aligned _ _ _ _ _ _ _ _ Henv) as Hal.
  assert (Hlen : THREAD_STACK_PAGES * PAGE_SIZE = 16384) by done. rewrite Hlen in *.
  assert (Hst : HEAP_VBASE + HEAP_SIZE ≤ stack ∧ 0 ≤ stack ∧
    stack = dynamic_next_vaddr (w_vmm w) + 4096)
    by (unfold stack, HEAP_VBASE, HEAP_SIZE, VMM_DYNAMIC_VBASE, PAGE_SIZE in *; lia).
  assert (Htop' : top = stack + 16384) by done. clearbody stack top.
  set (m1 := with_pages m stack 16384).
  assert (Hm1 : mapped m1 stack (top - stack))
    by (replace (top - stack) with 16384 by lia; apply with_pages_mapped).
  assert (Hm1out : ∀ x, ¬ in_range stack 16384 x → m1 !! x = m !! x)
    by (intros x; apply with_pages_out).
  clearbody m1.
  destruct (initial_frame_spec m1 stack top tr entry arg) as (m' & Hf & Hsus & Hmod);
    [lia | lia | unfold PAGE_SIZE in *; lia | exact Hm1 | exact Htr | exact Hen | exact Harg |].
  replace (top - stack) with 16384 in * by lia.
  assert (Hout : ∀ x, ¬ in_range stack 16384 x → m' !! x = m !! x).
  { intros x Hx. rewrite (modifies_lookup _ _ _ _ Hmod Hx). by apply Hm1out. }
  assert (Hheap' : heap_inv fl m' lb').
  { eapply heap_inv_agree; [exact Hheap|]. intros x Hx. apply Hout. unfold in_range in *. lia. }
  destruct (fresh_thread_mapped m' t) as [th0 Hth0].
  { eapply mapped_sub; [apply Hheap' | lia | lia]. }
  assert (Htl : t ∉ l).
  { intros Hin. destruct (te_threads _ _ _ _ _ _ _ _ Henv t Hin) as [[s0 Hs0]|Hn]; [|apply Hn; unfold in_range; lia].
    rewrite Hl in Hs0. eapply live_fresh; [apply Hheap' | exact Hl' | exact Hs0]. }
  pose proof (te_sched _ _ _ _ _ _ _ _ Henv) as Hrep.
  destruct (thread_added M l C K m' t (mk_thread (top - 56) stack (id th0) (Sched.next th0)) stack top
    (new_context tr entry arg top) Hrep Htl) as (s' & th & Hadd & Hrep' & Hth & Hid & Hbase & Hcs & Hns);
    [| | lia | lia | unfold PAGE_SIZE in *; lia
     | replace (top - stack) with 16384 by lia; eapply modifies_mapped; [exact Hmod | exact Hm1] | exact Hsus
     | | reflexivity |].
  { intros u lo hi x Hu HK Hx. destruct (te_stacks _ _ _ _ _ _ _ _ Henv u lo hi HK) as [Hd Hd2].
    rewrite Hout, Hkeep; [done | unfold in_range; lia | unfold in_range; lia]. }
  { intros u lo hi HK. left. destruct (te_stacks _ _ _ _ _ _ _ _ Henv u lo hi HK) as [_ ?]. lia. }
  { unfold new_context, frame. simpl. repeat (apply Forall_cons; split; [done || (unfold word64; lia)|]).
    by apply Forall_nil. }
  exists m', th0, s', th. split_and!; [exact Hf | exact Hth0 | exact Hadd | | exact Hth | exact Hid | exact Hbase | | exact Hcs | exact Hns].
  - eapply env_added; [exact Henv | exact Hheap' | exact Hvmm | exact Hrep' | exact Hl | exact Hl' | exact Hdyn | | lia | lia | exact Hsm].
    rewrite Htop', (proj2 (proj2 Hst)). unfold PAGE_SIZE in *. dlia.
  - intros x Hx1 Hx2. by rewrite Hout, Hkeep.
Qed.

End thread_create_correct.

Section thread_theorems.
Context {A : Type} `{FrameAllocator A}.

(** [thread_create], for its callers. *)
Lemma thread_create_spec fl M (w : world A) T lb l C K tr entry arg :
  let stack := dynamic_next_vaddr (w_vmm w) + PAGE_SIZE in
  let top := stack + THREAD_STACK_PAGES * PAGE_SIZE in
  thread_env fl M w T lb l C K → top + PAGE_SIZE < 2 ^ 64 →
  word64 tr → word64 entry → word64 arg →
  ∃ r M' w' T', thread_create fl M w tr entry arg = Ok (r, M', w') ∧ rg M' = rg M ∧
    (∀ x, ¬ in_range HEAP_VBASE HEAP_SIZE x → ¬ in_range stack (top - stack) x →
       mm M' !! x = mm M !! x) ∧
    ((r = 0 ∧ sc M' = sc M ∧ thread_env fl M' w' T' lb l C K ∧
        ((∀ s, (s, true) ∈ lb → s < sizeof_thread) ∨ Z.of_nat (base.size (w_avail w)) < 16)) ∨
     (∃ lb' k1 k2 s th, r ≠ 0 ∧
        thread_env fl M' w' T' lb' (current (sc M) :: r :: tail l)
          (<[r := new_context tr entry arg top]> C) (<[r := (stack, top)]> K) ∧
        live HEAP_VBASE lb = k1 ++ k2 ∧ live HEAP_VBASE lb' = k1 ++ (r, s) :: k2 ∧
        threads (sc M') !! r = Some th ∧ id th = next_thread_id (sc M) ∧ stack_base th = stack ∧
        (∀ k, 0 ≤ k < THREAD_STACK_PAGES →
           ∃ f, f ∈ w_avail w ∧ maps_to w T w' (stack + k * PAGE_SIZE) f VMM_WRITABLE) ∧
        wwalk w' (stack - PAGE_SIZE) = wwalk w (stack - PAGE_SIZE) ∧ wwalk w' top = wwalk w top)).
Proof.
  intros stack top Henv Htop Htr Hen Harg.
  pose proof (te_base _ _ _ _ _ _ _ _ Henv) as Hb. pose proof (te_aligned _ _ _ _ _ _ _ _ Henv) as Hal.
  pose proof (te_heap _ _ _ _ _ _ _ _ Henv) as Hheap. pose proof (te_vmm _ _ _ _ _ _ _ _ Henv) as Hvmm.
  assert (Hrg : rg M = set_rf (rg M) (rf (rg M))) by (by destruct (rg M)).
  destruct (kmalloc_spec fl (mm M) lb sizeof_thread Hheap) as (t & m & lb' & Hk & Hheap' & _ & Hcase);
    [unfold sizeof_thread; lia|].
  pose proof (kmalloc_frame fl (mm M) m lb sizeof_thread t Hheap ltac:(unfold sizeof_thread; lia) Hk) as Hmod.
  assert (Hkeep : ∀ x, ¬ in_range HEAP_VBASE HEAP_SIZE x → m !! x = mm M !! x)
    by (intros x; apply (modifies_lookup _ _ _ _ Hmod)).
  assert (Htopu : u64 (stack + THREAD_STACK_PAGES * PAGE_SIZE) = top).
  { clear - Htop Hb. apply u64_small. unfold top, stack, VMM_DYNAMIC_VBASE, THREAD_STACK_PAGES, PAGE_SIZE in *. lia. }
  unfold thread_create. rewrite Hk. cbn [mbind res_bind].
  destruct Hcase as [(-> & -> & -> & Hno)|(k1 & k2 & s & Hl & Hl' & Hs & _ & Ht1 & Ht2 & _)].
  { cbn [Z.eqb]. exists 0, M, w, T. destruct M as [m0 s0 r0].
    split_and!; [reflexivity | reflexivity | intros; reflexivity |].
    left. split_and!; [reflexivity | reflexivity | exact Henv | left; exact Hno]. }
  rewrite (proj2 (Z.eqb_neq t 0)) by (unfold HEAP_VBASE in Ht1; lia).
  destruct (vmm_alloc_guarded_outcome w T THREAD_STACK_PAGES VMM_WRITABLE)
    as (stk & w' & T' & Hg & Hvmm' & Hdyn & Hcase & Hw & Hg1 & Hg2 & _);
    [exact Hvmm | exact Hb | exact Hal | unfold THREAD_STACK_PAGES; lia | | |].
  { unfold top, stack, THREAD_STACK_PAGES, PAGE_SIZE in *. lia. }
  { intros k Hk'. apply (te_small _ _ _ _ _ _ _ _ Henv).
    unfold top, stack, THREAD_STACK_PAGES, PAGE_SIZE in *. lia. }
  rewrite Hg. cbn [mbind res_bind].
  assert (Hsm : ∀ v, top + PAGE_SIZE ≤ v < 2 ^ 64 → small_page w' v).
  { intros v Hv. eapply (guarded_small fl M w w'); [exact Henv | exact Hw |].
    unfold top, stack, THREAD_STACK_PAGES, PAGE_SIZE in *. lia. }
  assert (Hdyn' : dynamic_next_vaddr (w_vmm w') = top + PAGE_SIZE)
    by (rewrite Hdyn; unfold top, stack, THREAD_STACK_PAGES, PAGE_SIZE in *; lia).
  destruct Hcase as [(-> & Hav & _)|(-> & frames & Hlen & _ & Hfr & Hmaps)].
  - rewrite Z.eqb_refl.
    destruct (create_no_stack fl M w w' T T' lb l C K t m Henv Hk) as (m' & -> & Henv2 & Hkeep2);
      [unfold HEAP_VBASE in Ht1; lia | exact Hvmm' | rewrite Hdyn'; unfold top, stack, THREAD_STACK_PAGES, PAGE_SIZE in *; lia
      | rewrite Hdyn'; unfold top, stack, THREAD_STACK_PAGES, PAGE_SIZE in *; dlia | by rewrite Hdyn' |].
    cbn [mbind res_bind]. eexists 0, _, w', T'. split_and!; [reflexivity | reflexivity | intros x Hx _; exact (Hkeep2 x Hx) |].
    left. split_and!; [reflexivity | reflexivity | exact Henv2 | right; unfold THREAD_STACK_PAGES in Hav; lia].
  - fold stack. rewrite (proj2 (Z.eqb_neq stack 0)) by (unfold stack, VMM_DYNAMIC_VBASE, PAGE_SIZE in *; lia).
    rewrite Htopu. destruct (create_tail fl M w w' T T' lb lb' l C K m t s k1 k2 tr entry arg)
      as (m' & th0 & s' & th & Hf & Hth0 & Hadd & Henv' & Hth & Hid & Hbase & Hkeep' & _);
      [exact Henv | exact Hheap' | exact Hkeep | exact Hl | exact Hl' | exact Hs | exact Ht1 | exact Ht2
      | exact Hvmm' | exact Hdyn' | exact Htop | exact Hsm | exact Htr | exact Hen | exact Harg |].
    fold stack in Hf, Hadd, Henv', Hbase, Hkeep'. fold top in Hf, Hadd, Henv', Hkeep'.
    rewrite Hf. cbn [mbind res_bind]. rewrite Hth0. cbn [mbind res_bind]. rewrite Hadd. cbn [mbind res_bind].
    eexists t, _, w', T'. split_and!; [reflexivity | symmetry; exact Hrg | exact Hkeep' |].
    right. rewrite <-Hrg. exists lb', k1, k2, s, th.
    split_and!; [unfold HEAP_VBASE in Ht1; lia | exact Henv' | exact Hl | exact Hl' | exact Hth
      | exact Hid | exact Hbase | | exact Hg1 | exact Hg2].
    intros k Hk'. destruct (lookup_lt_is_Some_2 frames (Z.to_nat k)) as [f Hf'];
      [unfold THREAD_STACK_PAGES in *; lia|].
    exists f. split; [apply Hfr; eapply list_elem_of_lookup_2; exact Hf'|].
    rewrite <-(Z2Nat.id k) by lia. apply Hmaps. exact Hf'.
Qed.

(** With a heap block and sixteen frames to spare it succeeds, and what it gives
    is known. *)
Lemma thread_create_ok fl M (w : world A) T lb l C K tr entry arg t lb' :
  let stack := dynamic_next_vaddr (w_vmm w) + PAGE_SIZE in
  let top := stack + THREAD_STACK_PAGES * PAGE_SIZE in
  thread_env fl M w T lb l C K → top + PAGE_SIZE < 2 ^ 64 →
  word64 tr → word64 entry → word64 arg →
  first_fit HEAP_VBASE sizeof_thread lb = Some (t, lb') → (16 ≤ base.size (w_avail w))%nat →
  ∃ M' w' T', thread_create fl M w tr entry arg = Ok (t, M', w') ∧ rg M' = rg M ∧
    current (sc M') = current (sc M) ∧ next_thread_id (sc M') = u64 (next_thread_id (sc M) + 1) ∧
    thread_env fl M' w' T' lb' (current (sc M) :: t :: tail l)
      (<[t := new_context tr entry arg top]> C) (<[t := (stack, top)]> K) ∧
    grown (guarded_pages stack THREAD_STACK_PAGES) (λ _, False) w T w' T' ∧ w_handlers w' = w_handlers w ∧
    dynamic_next_vaddr (w_vmm w') = top + PAGE_SIZE ∧ mmio_next_vaddr (w_vmm w') = mmio_next_vaddr (w_vmm w) ∧
    (base.size (w_avail w) ≤ base.size (w_avail w') + 16)%nat.
Proof.
  intros stack top Henv Htop Htr Hen Harg Hff Hsz.
  pose proof (te_base _ _ _ _ _ _ _ _ Henv) as Hb. pose proof (te_aligned _ _ _ _ _ _ _ _ Henv) as Hal.
  pose proof (te_heap _ _ _ _ _ _ _ _ Henv) as Hheap. pose proof (te_vmm _ _ _ _ _ _ _ _ Henv) as Hvmm.
  assert (Hsf : set_rf (rg M) (rf (rg M)) = rg M) by (by destruct (rg M)).
  destruct (kmalloc_first_fit fl (mm M) lb sizeof_thread Hheap) as (t' & m & Hk & Hr); [unfold sizeof_thread; lia|].
  change (align_up sizeof_thread MIN_SPLIT_SIZE) with sizeof_thread in Hr. rewrite Hff in Hr. destruct Hr as (-> & Hrun & Hmod).
  destruct (first_fit_inv fl (mm M) m lb sizeof_thread t lb' Hheap) as (Hheap' & k1 & k2 & s & Hl & Hl' & Hs & _ & Ht1 & Ht2 & _);
    [unfold sizeof_thread; lia | done | done | done | done |].
  pose proof (kmalloc_frame fl (mm M) m lb sizeof_thread t Hheap ltac:(unfold sizeof_thread; lia) Hk) as Hmod2.
  destruct (guarded_ok w T THREAD_STACK_PAGES VMM_WRITABLE Hvmm Hb Hal) as (w' & T' & Hg & Hgr & Hhd & Hdyn & Hmm & Hs2);
    [unfold THREAD_STACK_PAGES; lia | unfold top, stack, THREAD_STACK_PAGES, PAGE_SIZE in *; lia | | unfold THREAD_STACK_PAGES; lia |].
  { intros k Hk'. apply (te_small _ _ _ _ _ _ _ _ Henv). unfold top, stack, THREAD_STACK_PAGES, PAGE_SIZE in *. lia. }
  assert (Hdyn' : dynamic_next_vaddr (w_vmm w') = top + PAGE_SIZE)
    by (rewrite Hdyn; unfold top, stack, THREAD_STACK_PAGES, PAGE_SIZE in *; lia).
  destruct (create_tail fl M w w' T T' lb lb' l C K m t s k1 k2 tr entry arg Henv Hheap')
    as (m' & th0 & s' & th & Hf & Hth0 & Hadd & Henv' & _ & _ & _ & _ & Hcs & Hns);
    [intros x; apply (modifies_lookup _ _ _ _ Hmod2) | exact Hl | exact Hl' | exact Hs
    | unfold sizeof_block_header in Ht1; lia | exact Ht2 | apply Hgr | exact Hdyn' | exact Htop | | exact Htr | exact Hen | exact Harg |].
  { intros v Hv. apply (gr_small _ _ _ _ _ _ Hgr), (te_small _ _ _ _ _ _ _ _ Henv).
    unfold top, stack, THREAD_STACK_PAGES, PAGE_SIZE in *. lia. }
  fold stack in Hf, Hadd, Henv'. fold top in Hf, Hadd, Henv'.
  unfold thread_create. rewrite Hk. cbn [mbind res_bind].
  rewrite (proj2 (Z.eqb_neq t 0)) by (unfold HEAP_VBASE, sizeof_block_header in Ht1; lia). rewrite Hg. cbn [mbind res_bind].
  fold stack. rewrite (proj2 (Z.eqb_neq stack 0)) by (unfold stack, VMM_DYNAMIC_VBASE, PAGE_SIZE in *; lia).
  rewrite u64_small by (unfold top, stack, VMM_DYNAMIC_VBASE, THREAD_STACK_PAGES, PAGE_SIZE in *; lia). fold top.
  rewrite Hf. cbn [mbind res_bind]. rewrite Hth0. cbn [mbind res_bind]. rewrite Hadd. cbn [mbind res_bind].
  eexists _, w', T'. split_and!; [reflexivity | exact Hsf | exact Hcs | exact Hns | | exact Hgr | exact Hhd | exact Hdyn' | exact Hmm
    | unfold THREAD_STACK_PAGES in Hs2; lia].
  rewrite Hsf. exact Henv'.
Qed.

(** C20: [thread_create] always returns. It gives [NULL] only when no free heap
    block can hold a [struct thread] or fewer than four frames per stack page
    are left, and then the heap holds the blocks it held, and the scheduler and
    every thread are as before. Otherwise the thread is a heap block of its own,
    right after the current one in the ring, with the next number; its stack is
    four pages, each mapped to a frame of its own between two guard pages that
    keep their translation; it is suspended in the context that enters the
    trampoline with [entry] in [r12] and [arg] in [r13]; and the heap, the
    address space and the scheduler satisfy their invariants again. *)
Theorem thread_create_correct fl M (w : world A) T lb l C K tr entry arg :
  let stack := dynamic_next_vaddr (w_vmm w) + PAGE_SIZE in
  let top := stack + THREAD_STACK_PAGES * PAGE_SIZE in
  thread_env fl M w T lb l C K → top + PAGE_SIZE < 2 ^ 64 →
  word64 tr → word64 entry → word64 arg →
  ∃ r M' w' T', thread_create fl M w tr entry arg = Ok (r, M', w') ∧ rg M' = rg M ∧
    (∀ x, ¬ in_range HEAP_VBASE HEAP_SIZE x → ¬ in_range stack (top - stack) x →
       mm M' !! x = mm M !! x) ∧
    ((r = 0 ∧ sc M' = sc M ∧ thread_env fl M' w' T' lb l C K ∧
        ((∀ s, (s, true) ∈ lb → s < sizeof_thread) ∨ Z.of_nat (base.size (w_avail w)) < 16)) ∨
     (∃ lb' k1 k2 s th, r ≠ 0 ∧
        thread_env fl M' w' T' lb' (current (sc M) :: r :: tail l)
          (<[r := new_context tr entry arg top]> C) (<[r := (stack, top)]> K) ∧
        live HEAP_VBASE lb = k1 ++ k2 ∧ live HEAP_VBASE lb' = k1 ++ (r, s) :: k2 ∧
        threads (sc M') !! r = Some th ∧ id th = next_thread_id (sc M) ∧ stack_base th = stack ∧
        (∀ k, 0 ≤ k < THREAD_STACK_PAGES →
           ∃ f, f ∈ w_avail w ∧ maps_to w T w' (stack + k * PAGE_SIZE) f VMM_WRITABLE) ∧
        wwalk w' (stack - PAGE_SIZE) = wwalk w (stack - PAGE_SIZE) ∧ wwalk w' top = wwalk w top)).
Proof. apply thread_create_spec. Qed.

(** A switch to a thread that has not run yet, and its trampoline. *)
Lemma first_run M l C K nxt lo tr entry arg top ra ra2 :
  sched_rep M l C K → head (rotate l) = Some nxt → nxt ≠ current (sc M) →
  C !! nxt = Some (new_context tr entry arg top) → K !! nxt = Some (lo, top) → lo + 8 ≤ top →
  word64 ra → word64 ra2 →
  ∃ M1 m2 r2, switch_to_next M ra = Ok M1 ∧ current (sc M1) = nxt ∧ rip (rg M1) = tr ∧
    thread_trampoline_code (mm M1) (rg M1) ra2 = Ok (m2, r2) ∧
    rip r2 = entry ∧ rdi r2 = arg ∧ interrupts_enabled (rf r2) = true ∧
    rsp r2 = top - 8 ∧ load64 m2 (rsp r2) = Ok ra2.
Proof.
  intros Hrep Hnxt Hne HC HK Hlo Hra Hra2.
  destruct (switch_to_next_spec M l C K ra Hrep Hra) as (M1 & Hsw & _ & Hrf & Hhead & _ & Hcase).
  assert (Hcur : current (sc M1) = nxt) by congruence.
  destruct Hcase as [(Hl & _)|(_ & (c & Hc & Hfr & Hrsp) & Hrep1)]; [rewrite Hl in Hnxt; simpl in Hnxt; congruence|].
  rewrite Hcur, HC in Hc. injection Hc as <-. unfold frame in Hfr. simpl in Hfr, Hrsp.
  injection Hfr as H15 H14 H13 H12 Hbx Hbp Hip.
  destruct (sr_stack _ _ _ _ Hrep1 nxt) as (lo1 & hi1 & HK1 & Hl0 & Hh0 & Hm).
  { destruct (sr_ring _ _ _ _ Hrep1) as [Hh _]. rewrite Hcur in Hh.
    destruct (rotate l) as [|b l']; [done|]. injection Hh as ->. left. }
  rewrite HK in HK1. injection HK1 as <- <-.
  destruct (push_spec (mm M1) top ra2 [] ltac:(lia)) as (m2 & Hp & Hs & _);
    [eapply mapped_sub; [exact Hm | lia | lia] | done | apply saved_nil |].
  exists M1, m2, (mk_regs (r15 (rg M1)) (r14 (rg M1)) (r13 (rg M1)) (r12 (rg M1)) (rbx (rg M1))
    (rbp (rg M1)) (r12 (rg M1)) (top - 8) (r13 (rg M1)) (Z.setbit (rf (rg M1)) IF_BIT)).
  split_and!; [done | done | done | | done | done | | done |].
  - unfold thread_trampoline_code. rewrite <-Hrsp, Hp. done.
  - unfold interrupts_enabled. simpl. by rewrite Z.setbit_eq.
  - simpl. specialize (Hs 0%nat ra2 eq_refl). by rewrite Z.mul_0_r, Z.add_0_r in Hs.
Qed.

(** C21: the next switch after a successful [thread_create] runs the new thread:
    the trampoline calls [entry] with [arg] as its argument, interrupts enabled
    whatever the flags of the thread that switched, on its own stack, aligned
    as the calling convention asks, with the return address on top. *)
Theorem thread_create_runs fl M (w : world A) T lb l C K tr entry arg r M' w' ra ra2 :
  thread_env fl M w T lb l C K → dynamic_next_vaddr (w_vmm w) + 6 * PAGE_SIZE < 2 ^ 64 →
  word64 tr → word64 entry → word64 arg → word64 ra → word64 ra2 →
  thread_create fl M w tr entry arg = Ok (r, M', w') → r ≠ 0 →
  ∃ M1 m2 r2, sched_yield M' ra = Ok M1 ∧ current (sc M1) = r ∧ rip (rg M1) = tr ∧
    thread_trampoline_code (mm M1) (rg M1) ra2 = Ok (m2, r2) ∧
    rip r2 = entry ∧ rdi r2 = arg ∧ interrupts_enabled (rf r2) = true ∧
    rsp r2 = dynamic_next_vaddr (w_vmm w) + 5 * PAGE_SIZE - 8 ∧ (rsp r2 + 8) mod 16 = 0 ∧
    load64 m2 (rsp r2) = Ok ra2.
Proof.
  intros Henv Hb Htr Hen Harg Hra Hra2 Hcr Hr0.
  pose proof (te_aligned _ _ _ _ _ _ _ _ Henv) as Hal.
  destruct (thread_create_spec fl M w T lb l C K tr entry arg Henv) as (r' & M2 & w2 & T' & Hcr' & _ & _ & Hcase);
    [unfold THREAD_STACK_PAGES, PAGE_SIZE in *; lia | done..|].
  rewrite Hcr in Hcr'. injection Hcr' as <- <- <-.
  destruct Hcase as [[? _]|(lb' & k1 & k2 & s & th & _ & Henv' & _)]; [done|].
  pose proof (te_sched _ _ _ _ _ _ _ _ Henv') as Hrep.
  destruct (sr_ring _ _ _ _ Hrep) as (Hh & Hnd & _). simpl in Hh. injection Hh as Hcur.
  set (stack := dynamic_next_vaddr (w_vmm w) + PAGE_SIZE) in *.
  set (top := stack + THREAD_STACK_PAGES * PAGE_SIZE) in *.
  destruct (first_run M' _ _ _ r stack tr entry arg top ra ra2 Hrep) as (M1 & m2 & r2 & Hsw & H1 & H2 & H3 & H4 & H5 & H6 & H7 & H8);
    [done | | apply lookup_insert_eq | apply lookup_insert_eq | unfold top, THREAD_STACK_PAGES, PAGE_SIZE; lia | done | done |].
  { rewrite <-Hcur. apply NoDup_cons in Hnd as [Hn _]. set_solver. }
  exists M1, m2, r2. split_and!; try done; rewrite H7; unfold top, stack, THREAD_STACK_PAGES, PAGE_SIZE in *; [lia | dlia].
Qed.

End thread_theorems.

(** ** Witness: the bootstrap thread creates a thread

    A heap [heap_init] left, forty frames, no page mapped, and one thread, with
    its stack at 0x1000. *)

Definition ex_regs (sp : Z) : regs := mk_regs 0 0 0 0 0 0 0 sp 0 0x202.
Definition ex_sched : sched := mk_sched SPINLOCK_INIT {[1 := mk_thread 0 0 0 1]} 1 1 0.
Definition ex_hhdm : Z := 0xffff800000000000.
Definition ex_vmm : vmm :=
  mk_vmm ex_hhdm VMM_DYNAMIC_VBASE VMM_MMIO_VBASE (replicate 8 (mk_lazy_region 0 0 0 false)).

Lemma ex_sched_rep m :
  mapped m 0x1000 0x100 →
  sched_rep (mk_machine m ex_sched (ex_regs 0x1100)) [1] ∅ {[1 := (0x1000, 0x1100)]}.
Proof.
  intros Hm. constructor; simpl.
  - split_and!; [done | apply NoDup_singleton | split; [|done]]. by eexists.
  - done.
  - unfold frame. simpl. repeat (apply Forall_cons; split; [unfold word64; lia|]). by apply Forall_nil.
  - intros t ->%list_elem_of_singleton. exists 0x1000, 0x1100. split_and!; [done | lia | lia | done].
  - intros t u lo hi lo' hi' Hne [<- _]%lookup_singleton_Some [<- _]%lookup_singleton_Some. done.
  - intros t th ->%list_elem_of_singleton. done.
  - exists 0x1000, 0x1100. split; [done | lia].
Qed.

Lemma ex_world :
  ∃ (w : world ref_alloc) T, vmm_inv w T ∧ w_vmm w = ex_vmm ∧
    base.size (w_avail w) = 39%nat ∧ (∀ v, wwalk w v = None) ∧ (∀ v, open_path w T v).
Proof.
  pose proof (ref_machine_inv ex_hhdm 40 ltac:(by vm_compute) ltac:(lia) ltac:(unfold ex_hhdm; lia)) as Hinv.
  set (a := mk_ref ex_hhdm (ref_frames 40) (ref_frames 40 ∖ {[4096]})).
  assert (Hin : 4096 ∈ ref_frames 40) by (apply ref_frames_elem; split; [done | lia]).
  remember (ref_machine ex_hhdm 40).2 as m eqn:Hm.
  assert (Ha : ref_inv a m).
  { destruct Hinv as [_ H0 Hf]. constructor; [|exact H0 | exact Hf]. apply subseteq_difference_l. reflexivity. }
  destruct (@empty_machine ref_alloc ref_frame_allocator a m ex_vmm 4096 Ha) as (T & HT & Hw & Ho).
  - reflexivity.
  - exact Hin.
  - change (4096 ∉ ref_frames 40 ∖ {[4096]}). apply not_elem_of_difference. right. by apply elem_of_singleton.
  - intros x Hx. rewrite Hm. simpl. unfold zeros. rewrite zeros_from_lookup, decide_True; [done|].
    unfold in_range, PAGE_SIZE in *. simpl in Hx. lia.
  - eexists _, T. split_and!; [exact HT | reflexivity | | exact Hw | exact Ho].
    change (base.size (ref_frames 40 ∖ {[4096]}) = 39%nat).
    rewrite size_difference by (apply singleton_subseteq_l; exact Hin).
    by rewrite ref_frames_size, size_singleton.
Qed.

Lemma ex_env :
  ∃ M (w : world ref_alloc) T,
    thread_env HEAP_VBASE M w T [(HEAP_SIZE - sizeof_block_header, true)] [1] ∅ {[1 := (0x1000, 0x1100)]} ∧
    w_vmm w = ex_vmm ∧ base.size (w_avail w) = 39%nat.
Proof.
  destruct ex_heap as [m Hm]. destruct ex_world as (w & T & HT & Hv & Hs & Hw & _).
  exists (mk_machine (with_pages m 0x1000 0x100) ex_sched (ex_regs 0x1100)), w, T.
  split_and!; [|exact Hv | exact Hs]. constructor.
  - eapply heap_inv_agree; [exact Hm|]. intros x Hx. apply with_pages_out.
    unfold in_range, HEAP_VBASE in *. lia.
  - exact HT.
  - apply ex_sched_rep. apply with_pages_mapped.
  - intros t ->%list_elem_of_singleton. right. unfold in_range, HEAP_VBASE. lia.
  - intros t lo hi [<- [= <- <-]]%lookup_singleton_Some. rewrite Hv. unfold HEAP_VBASE. simpl.
    unfold VMM_DYNAMIC_VBASE. lia.
  - rewrite Hv. simpl. lia.
  - rewrite Hv. reflexivity.
  - intros v _ es Hes. by rewrite Hw in Hes.
Qed.

Lemma ex_frees : ∀ s, (s, true) ∈ [(HEAP_SIZE - sizeof_block_header, true)] → ¬ s < sizeof_thread.
Proof.
  intros s Hs%list_elem_of_singleton. injection Hs as ->.
  unfold HEAP_SIZE, sizeof_block_header, sizeof_thread. lia.
Qed.

Lemma thread_create_correct_witness :
  ∃ M (w : world ref_alloc) r M' w', r ≠ 0 ∧
    thread_create HEAP_VBASE M w 0x400 0x500 7 = Ok (r, M', w').
Proof.
  destruct ex_env as (M & w & T & Henv & Hv & Hs).
  destruct (thread_create_correct HEAP_VBASE M w T _ _ _ _ 0x400 0x500 7 Henv)
    as (r & M' & w' & T' & Hc & _ & _ & Hcase).
  - rewrite Hv. reflexivity.
  - unfold word64. lia.
  - unfold word64. lia.
  - unfold word64. lia.
  - exists M, w, r, M', w'. split; [|exact Hc].
    destruct Hcase as [(_ & _ & _ & [Hno|Hno])|(_ & _ & _ & _ & _ & Hr & _)]; [| |exact Hr].
    + exfalso. apply (ex_frees (HEAP_SIZE - sizeof_block_header)); [left | apply Hno; left].
    + rewrite Hs in Hno. lia.
Defined.

Lemma thread_create_runs_witness :
  ∃ M (w : world ref_alloc) r M' w' M1 m2 r2,
    thread_create HEAP_VBASE M w 0x400 0x500 7 = Ok (r, M', w') ∧ sched_yield M' 0x600 = Ok M1 ∧
    thread_trampoline_code (mm M1) (rg M1) 0x410 = Ok (m2, r2) ∧ rip r2 = 0x500 ∧ rdi r2 = 7.
Proof.
  destruct ex_env as (M & w & T & Henv & Hv & Hs).
  assert (H64 : ∀ x, 0 ≤ x < 2 ^ 32 → word64 x) by (unfold word64; lia).
  destruct (thread_create_spec HEAP_VBASE M w T _ _ _ _ 0x400 0x500 7 Henv)
    as (r & M' & w' & T' & Hc & _ & _ & Hcase); [rewrite Hv; reflexivity | apply H64; lia.. |].
  assert (Hr : r ≠ 0).
  { destruct Hcase as [(_ & _ & _ & [Hno|Hno])|(_ & _ & _ & _ & _ & Hr & _)]; [| |exact Hr].
    - exfalso. apply (ex_frees (HEAP_SIZE - sizeof_block_header)); [left | apply Hno; left].
    - rewrite Hs in Hno. lia. }
  destruct (thread_create_runs HEAP_VBASE M w T _ _ _ _ 0x400 0x500 7 r M' w' 0x600 0x410 Henv)
    as (M1 & m2 & r2 & Hy & _ & _ & Htr & Hip & Hdi & _);
    [rewrite Hv; reflexivity | apply H64; lia | apply H64; lia | apply H64; lia | apply H64; lia
    | apply H64; lia | exact Hc | exact Hr |].
  exists M, w, r, M', w', M1, m2, r2.
  split; [exact Hc|]. split; [exact Hy|]. split; [exact Htr|]. split; [exact Hip | exact Hdi].
Defined.
