(* ===== verification/Printf.v ===== *)
(** * Formatted output (kernel/lib/printf.c)

    Every formatting entry point of the kernel funnels through [kvprintf]. A
    sink is the [kputc_fn] with its context: a function on a state, which gives
    access to the memory the format and its strings are read from. Characters
    are bytes; the variable arguments are the 64-bit slots they are passed in;
    an [int] that leaves its range is undefined behaviour. *)

From S2P Require Import Prelude Word Mem CString.
From Stdlib Require Import Ascii.

(** ** Characters and [int] arithmetic *)

Definition ch (a : ascii) : Z := Z.of_nat (nat_of_ascii a).

(** The bytes of a string literal, without its terminator. *)
Definition lit (s : string) : list Z := ch <$> String.list_ascii_of_string s.

Definition INT_MAX : Z := 2 ^ 31 - 1.

(** The result of signed arithmetic at type [int]. *)
Definition int_arith (x : Z) : res Z :=
  if (- 2 ^ 31 <=? x) && (x <=? INT_MAX) then Ok x else UB.

(** [value % base] and [value / base] digits. *)
Definition lower : list Z := lit "0123456789abcdef".
Definition upper_digits : list Z := lit "0123456789ABCDEF".

(** A character of a width. *)
Definition is_digit (c : Z) : bool := (ch "0" <=? c) && (c <=? ch "9").

(** [va_arg]: the next slot. *)
Definition va_arg (ap : list Z) : res (Z * list Z) :=
  match ap with a :: ap => Ok (a, ap) | [] => UB end.

(** The digits of [value], least significant first: [k] slots are left in the
    array. *)
Fixpoint digits_loop (k : nat) (table : list Z) (base value : Z) : res (list Z) :=
  match k with
  | O => Ok []
  | S k =>
      d ← deref (table !! Z.to_nat (value mod base));
      let value := value / base in
      if negb (value =? 0) then rest ← digits_loop k table base value; Ok (d :: rest)
      else Ok [d]
  end.

(** [reversed]. *)
Definition reverse_digits (digits : list Z) : res (list Z) :=
  for_range 0 (Z.of_nat (length digits)) (λ i reversed,
    d ← deref (digits !! Z.to_nat (Z.of_nat (length digits) - 1 - i));
    Ok (reversed ++ [d])) [].

(** The digits of a width, and the [l] modifiers: the value and the address
    after them. *)
Fixpoint width_loop (fuel : nat) (m : mem) (p width : Z) : res (Z * Z) :=
  match fuel with
  | O => Fuel
  | S fuel =>
      c ← load8 m p;
      if is_digit c then
        w10 ← int_arith (width * 10);
        w ← int_arith (w10 + (c - ch "0"));
        width_loop fuel m (p + 1) w
      else Ok (width, p)
  end.

Fixpoint length_loop (fuel : nat) (m : mem) (p length : Z) : res (Z * Z) :=
  match fuel with
  | O => Fuel
  | S fuel =>
      c ← load8 m p;
      if c =? ch "l" then l ← int_arith (length + 1); length_loop fuel m (p + 1) l
      else Ok (length, p)
  end.

Section printf.
Context {St : Type} (emit : St → Z → res St) (s_mem : St → mem).

(** [rd] reads [digits[i]]. *)
Definition emit_padded (st : St) (rd : St → Z → res Z) (len width : Z) (zero_pad : bool) : res St :=
  pad ← int_arith (width - i32 len);
  st ← for_range 0 pad (λ _ st, emit st (if zero_pad then ch "0" else ch " ")) st;
  for_range 0 len (λ i st, c ← rd st i; emit st c) st.

(** A local array, and a string in memory. *)
Definition rd_array (l : list Z) (_ : St) (i : Z) : res Z := deref (l !! Z.to_nat i).
Definition rd_mem (str : Z) (st : St) (i : Z) : res Z := load8 (s_mem st) (str + i).

Definition emit_unsigned (st : St) (value base : Z) (upper : bool) (width : Z) (zero_pad : bool) : res St :=
  let table := if upper then upper_digits else lower in
  digits ← digits_loop 32 table base value;
  reversed ← reverse_digits digits;
  emit_padded st (rd_array reversed) (Z.of_nat (length digits)) width zero_pad.

Definition emit_signed (st : St) (value width : Z) (zero_pad : bool) : res St :=
  if value <? 0 then
    st ← emit st (ch "-");
    let magnitude := u64 (u64 (- (value + 1)) + 1) in
    emit_unsigned st magnitude 10 false (if 0 <? width then width - 1 else 0) zero_pad
  else emit_unsigned st (u64 value) 10 false width zero_pad.

(** The [switch] on the conversion character [c]. *)
Definition convert (st : St) (ap : list Z) (c : Z) (zero_pad : bool) (width length : Z)
  : res (St * list Z) :=
  if (c =? ch "d") || (c =? ch "i") then
    '(a, ap) ← va_arg ap;
    let value := if 0 <? length then i64 a else i32 a in
    st ← emit_signed st value width zero_pad; Ok (st, ap)
  else if c =? ch "u" then
    '(a, ap) ← va_arg ap;
    let value := if 0 <? length then u64 a else u32 a in
    st ← emit_unsigned st value 10 false width zero_pad; Ok (st, ap)
  else if (c =? ch "x") || (c =? ch "X") then
    '(a, ap) ← va_arg ap;
    let value := if 0 <? length then u64 a else u32 a in
    st ← emit_unsigned st value 16 (c =? ch "X") width zero_pad; Ok (st, ap)
  else if c =? ch "p" then
    '(a, ap) ← va_arg ap;
    st ← emit st (ch "0");
    st ← emit st (ch "x");
    st ← emit_unsigned st (u64 a) 16 false 16 true; Ok (st, ap)
  else if c =? ch "s" then
    '(a, ap) ← va_arg ap;
    st ← (if u64 a =? 0 then emit_padded st (rd_array (lit "(null)")) 6 width false
          else
            len ← strlen (s_mem st) (u64 a);
            emit_padded st (rd_mem (u64 a)) len width false);
    Ok (st, ap)
  else if c =? ch "c" then
    '(a, ap) ← va_arg ap;
    st ← emit st (u8 a); Ok (st, ap)
  else if c =? ch "%" then
    st ← emit st (ch "%"); Ok (st, ap)
  else
    st ← emit st (ch "%");
    st ← emit st c; Ok (st, ap).

(** The loop over the format, [p] at the next character. *)
Fixpoint kvprintf_loop (fuel : nat) (st : St) (p : Z) (ap : list Z) : res St :=
  match fuel with
  | O => Fuel
  | S fuel =>
      c ← load8 (s_mem st) p;
      if c =? 0 then Ok st
      else if negb (c =? ch "%") then
        st ← emit st c; kvprintf_loop fuel st (p + 1) ap
      else
        let p := p + 1 in
        c ← load8 (s_mem st) p;
        if c =? 0 then Ok st
        else
          let '(zero_pad, p) := if c =? ch "0" then (true, p + 1) else (false, p) in
          '(width, p) ← width_loop (mem_fuel (s_mem st)) (s_mem st) p 0;
          '(length, p) ← length_loop (mem_fuel (s_mem st)) (s_mem st) p 0;
          c ← load8 (s_mem st) p;
          '(st, ap) ← convert st ap c zero_pad width length;
          kvprintf_loop fuel st (p + 1) ap
  end.

Definition kvprintf (st : St) (fmt : Z) (ap : list Z) : res St :=
  kvprintf_loop (mem_fuel (s_mem st)) st fmt ap.

End printf.

(** ** ksnprintf

    The context: the memory the buffer is in, its address and size, and the
    number of characters produced. *)
Record snprintf_ctx := mk_ctx {
  s_m : mem;
  buf : Z;
  s_size : Z;
  written : Z;
}.

Definition snprintf_emit (ctx : snprintf_ctx) (c : Z) : res snprintf_ctx :=
  m ← (if u64 (written ctx + 1) <? s_size ctx
       then store8 (s_m ctx) (buf ctx + written ctx) c else Ok (s_m ctx));
  Ok (mk_ctx m (buf ctx) (s_size ctx) (u64 (written ctx + 1))).

Definition ksnprintf (m : mem) (buf size fmt : Z) (args : list Z) : res (Z * mem) :=
  ctx ← kvprintf snprintf_emit s_m (mk_ctx m buf size 0) fmt args;
  m ← (if 0 <? size then
         let term := if written ctx <? size - 1 then written ctx else size - 1 in
         store8 (s_m ctx) (buf + term) 0
       else Ok (s_m ctx));
  Ok (i32 (written ctx), m).

(** ** Specification: what a format string means

    A format is parsed into directives, and a directive is rendered to text; no
    pointers, loops over memory or sinks. *)

Inductive directive : Set :=
  | Text (c : Z)
  | Spec (zero_pad : bool) (width : Z) (long : bool) (conv : Z).

Fixpoint span_digits (l : list Z) : list Z * list Z :=
  match l with
  | c :: l' => if is_digit c then let '(ds, r) := span_digits l' in (c :: ds, r) else ([], l)
  | [] => ([], [])
  end.

Fixpoint span_l (l : list Z) : nat * list Z :=
  match l with
  | c :: l' => if c =? ch "l" then let '(n, r) := span_l l' in (S n, r) else (O, l)
  | [] => (O, [])
  end.

Definition decimal (w : Z) (ds : list Z) : Z := foldl (λ w c, w * 10 + (c - ch "0")) w ds.

(** [None] for a format without a meaning: it ends between a [%] that has flags
    and the conversion, or a width does not fit an [int]. *)
Fixpoint parse (fuel : nat) (l : list Z) : option (list directive) :=
  match fuel, l with
  | O, _ => None
  | S _, [] => Some []
  | S fuel, c :: l =>
      if negb (c =? ch "%") then ds ← parse fuel l; Some (Text c :: ds)
      else match l with
        | [] => Some []
        | c :: l' =>
            let '(zero_pad, l) := if c =? ch "0" then (true, l') else (false, l) in
            let '(ds, l) := span_digits l in
            let '(n, l) := span_l l in
            if (INT_MAX <? decimal 0 ds) || (INT_MAX <? Z.of_nat n) then None
            else match l with
              | [] => None
              | conv :: l =>
                  rest ← parse fuel l;
                  Some (Spec zero_pad (decimal 0 ds) (0 <? Z.of_nat n) conv :: rest)
              end
        end
  end.

Definition parse_format (l : list Z) : option (list directive) := parse (S (length l)) l.

(** Padding on the left to [w] characters. *)
Definition pad_left (zero_pad : bool) (w : Z) (l : list Z) : list Z :=
  replicate (Z.to_nat (w - Z.of_nat (length l))) (if zero_pad then ch "0" else ch " ") ++ l.

(** The numeral of [v], most significant digit first. *)
Fixpoint numeral (k : nat) (base v : Z) : list Z :=
  match k with
  | O => []
  | S k => (if v <? base then [] else numeral k base (v / base)) ++ [v mod base]
  end.

Definition digit_char (upper : bool) (d : Z) : Z :=
  if d <? 10 then ch "0" + d else (if upper then ch "A" else ch "a") + (d - 10).

Definition number_text (upper : bool) (base v : Z) : list Z := digit_char upper <$> numeral 64 base v.

Definition render_signed (zero_pad : bool) (w v : Z) : list Z :=
  if v <? 0 then ch "-" :: pad_left zero_pad (Z.max 0 (w - 1)) (number_text false 10 (- v))
  else pad_left zero_pad w (number_text false 10 v).

Section render.
Context (str_at : Z → option (list Z)).

Definition render_conv (zero_pad : bool) (w : Z) (long : bool) (c a : Z) : option (list Z) :=
  if (c =? ch "d") || (c =? ch "i") then Some (render_signed zero_pad w (if long then i64 a else i32 a))
  else if c =? ch "u" then Some (pad_left zero_pad w (number_text false 10 (if long then u64 a else u32 a)))
  else if (c =? ch "x") || (c =? ch "X") then
    Some (pad_left zero_pad w (number_text (c =? ch "X") 16 (if long then u64 a else u32 a)))
  else if c =? ch "p" then Some (ch "0" :: ch "x" :: pad_left true 16 (number_text false 16 (u64 a)))
  else if c =? ch "s" then
    if u64 a =? 0 then Some (pad_left false w (lit "(null)")) else pad_left false w <$> str_at (u64 a)
  else Some [u8 a].

Definition takes_arg (c : Z) : bool :=
  existsb (Z.eqb c) (lit "diuxXpsc").

Fixpoint render (ds : list directive) (args : list Z) : option (list Z) :=
  match ds with
  | [] => Some []
  | Text c :: ds => o ← render ds args; Some (c :: o)
  | Spec zero_pad w long c :: ds =>
      if takes_arg c then
        match args with
        | [] => None
        | a :: args => o ← render_conv zero_pad w long c a; os ← render ds args; Some (o ++ os)
        end
      else os ← render ds args; Some ((if c =? ch "%" then [c] else [ch "%"; c]) ++ os)
  end.
End render.

(** ** Lemmas: numerals *)

Lemma table_lookup (up : bool) d :
  0 ≤ d < 16 → (if up then upper_digits else lower) !! Z.to_nat d = Some (digit_char up d).
Proof.
  intros Hd. assert (Hall : forallb (λ i, match (if up then upper_digits else lower) !! Z.to_nat i with
    Some c => c =? digit_char up i | None => false end) (seqZ 0 16) = true) by (by destruct up).
  rewrite forallb_forall in Hall. specialize (Hall d). rewrite <-list_elem_of_In, elem_of_seqZ in Hall.
  destruct ((if up then upper_digits else lower) !! Z.to_nat d) as [c|]; [|specialize (Hall ltac:(lia)); done].
  f_equal. apply Z.eqb_eq, Hall. lia.
Qed.

(** The array of digits, reversed, is the numeral. *)
Lemma digits_loop_spec k (up : bool) base v :
  1 < base ≤ 16 → 0 ≤ v < base ^ Z.of_nat k → (0 < k)%nat →
  ∃ ds, digits_loop k (if up then upper_digits else lower) base v = Ok ds ∧
    (∀ j, (k ≤ j)%nat → digit_char up <$> numeral j base v = rev ds).
Proof.
  intros Hb. revert v. induction k as [|k IH]; intros v Hv Hk; [lia|].
  pose proof (Z.mod_pos_bound v base ltac:(lia)) as Hm.
  cbn [digits_loop]. rewrite table_lookup by lia. simpl.
  assert (Hq : 0 ≤ v / base) by (apply Z.div_pos; lia).
  destruct (Z.eqb_spec (v / base) 0) as [H0|Hne]; simpl.
  - eexists. split; [done|]. intros [|j] Hj; [lia|]. simpl.
    destruct (Z.ltb_spec v base) as [Hlt|Hge]; [done|].
    assert (1 ≤ v / base) by (apply Z.div_le_lower_bound; lia). lia.
  - assert (Hlt : v / base < base ^ Z.of_nat k).
    { apply Z.div_lt_upper_bound; [lia|]. rewrite <-Z.pow_succ_r by lia.
      replace (Z.succ (Z.of_nat k)) with (Z.of_nat (S k)) by lia; apply Hv. }
    assert (Hk' : (0 < k)%nat) by (destruct k; [simpl in Hlt; lia | lia]).
    destruct (IH (v / base) ltac:(lia) Hk') as (ds & -> & Hds). simpl.
    eexists. split; [done|]. intros [|j] Hj; [lia|]. simpl.
    destruct (Z.ltb_spec v base) as [Hlt'|Hge]; [rewrite Z.div_small in Hne; lia|].
    rewrite fmap_app, Hds by lia. done.
Qed.

Lemma reverse_digits_spec l : reverse_digits l = Ok (rev l).
Proof.
  unfold reverse_digits.
  destruct (for_range_spec (λ i r, r = take (Z.to_nat i) (rev l)) 0 (Z.of_nat (length l))
    (λ i reversed, d ← deref (l !! Z.to_nat (Z.of_nat (length l) - 1 - i)); Ok (reversed ++ [d])) [])
    as (r & -> & ->); [lia | done | |].
  - intros i r Hi ->. destruct (lookup_lt_is_Some_2 l (Z.to_nat (Z.of_nat (length l) - 1 - i))) as [d Hd]; [lia|].
    rewrite Hd. simpl. eexists. split; [done|].
    replace (Z.to_nat (i + 1)) with (S (Z.to_nat i)) by lia. rewrite (take_S_r _ _ d); [done|].
    rewrite <-Hd. rewrite rev_alt. change (rev_append l []) with (reverse l). rewrite reverse_lookup by lia. f_equal. lia.
  - f_equal. apply take_ge. rewrite length_rev. lia.
Qed.

(** ** Lemmas: the loops over the format *)

Lemma digit_range c : is_digit c = true → 0 ≤ c - ch "0" ≤ 9.
Proof. unfold is_digit. rewrite andb_true_iff, !Z.leb_le. change (ch "0") with 48. change (ch "9") with 57. lia. Qed.

Lemma cstr_char m p l : cstr m p l → load8 m p = Ok (match l with [] => 0 | c :: _ => c end).
Proof.
  intros Hs. unfold load8. destruct l as [|c l].
  - apply cstr_nil in Hs. by rewrite Hs.
  - destruct (cstr_head _ _ _ _ Hs) as [-> _]. done.
Qed.

Lemma decimal_ge w l ds r :
  span_digits l = (ds, r) → 0 ≤ w → w ≤ decimal w ds.
Proof.
  revert w ds. induction l as [|c l IH]; intros w ds; simpl; [by intros [= <- _]|].
  destruct (is_digit c) eqn:Hc; [|intros [= <- _]; simpl; lia].
  destruct (span_digits l) as [ds' r'] eqn:Hs. intros [= <- <-] Hw. simpl.
  pose proof (digit_range c Hc). specialize (IH (w * 10 + (c - ch "0")) ds' eq_refl ltac:(lia)). lia.
Qed.

Lemma span_digits_app l ds r : span_digits l = (ds, r) → l = ds ++ r.
Proof.
  revert ds. induction l as [|c l IH]; intros ds; simpl; [by intros [= <- <-]|].
  destruct (is_digit c); [|by intros [= <- <-]]. destruct (span_digits l) as [ds' r'].
  intros [= <- <-]. by rewrite (IH ds').
Qed.

Lemma span_l_app l n r : span_l l = (n, r) → l = replicate n (ch "l") ++ r.
Proof.
  revert n. induction l as [|c l IH]; intros n; simpl; [by intros [= <- <-]|].
  destruct (Z.eqb_spec c (ch "l")) as [->|]; [|by intros [= <- <-]]. destruct (span_l l) as [n' r'].
  intros [= <- <-]. by rewrite (IH n').
Qed.

Lemma cstr_app m p l1 l2 : cstr m p (l1 ++ l2) → cstr m (p + Z.of_nat (length l1)) l2.
Proof.
  revert p. induction l1 as [|c l1 IH]; intros p Hs; simpl; [by rewrite Z.add_0_r|].
  replace (p + Z.of_nat (S (length l1))) with (p + 1 + Z.of_nat (length l1)) by lia.
  apply IH. by eapply cstr_tail.
Qed.

Lemma width_loop_spec fuel m p w l ds r :
  cstr m p l → span_digits l = (ds, r) → 0 ≤ w → decimal w ds ≤ INT_MAX → (length l < fuel)%nat →
  width_loop fuel m p w = Ok (decimal w ds, p + Z.of_nat (length ds)).
Proof.
  revert fuel p w ds. induction l as [|c l IH]; intros [|fuel] p w ds Hs Hsp Hw Hd Hf; simpl in *; try lia;
    rewrite (cstr_char _ _ _ Hs); simpl.
  - injection Hsp as <- <-. by rewrite Z.add_0_r.
  - destruct (is_digit c) eqn:Hc; [|injection Hsp as <- <-; by rewrite Z.add_0_r].
    destruct (span_digits l) as [ds' r'] eqn:Hsl. injection Hsp as <- <-. simpl in Hd.
    pose proof (digit_range c Hc). pose proof (decimal_ge (w * 10 + (c - ch "0")) _ _ _ Hsl ltac:(lia)).
    unfold int_arith. rewrite (proj2 (Z.leb_le _ (w * 10))), (proj2 (Z.leb_le (w * 10) _)) by lia. simpl.
    rewrite (proj2 (Z.leb_le _ (w * 10 + _))), (proj2 (Z.leb_le (w * 10 + _) _)) by lia. simpl.
    rewrite (IH fuel (p + 1) (w * 10 + (c - ch "0")) ds'); [| by eapply cstr_tail | done | lia | done | lia].
    do 2 f_equal. lia.
Qed.

Lemma length_loop_spec fuel m p k l n r :
  cstr m p l → span_l l = (n, r) → 0 ≤ k → k + Z.of_nat n ≤ INT_MAX → (length l < fuel)%nat →
  length_loop fuel m p k = Ok (k + Z.of_nat n, p + Z.of_nat n).
Proof.
  revert fuel p k n. induction l as [|c l IH]; intros [|fuel] p k n Hs Hsp Hk Hb Hf; simpl in *; try lia;
    rewrite (cstr_char _ _ _ Hs); simpl.
  - injection Hsp as <- <-. by rewrite !Z.add_0_r.
  - destruct (c =? ch "l"); [|injection Hsp as <- <-; by rewrite !Z.add_0_r].
    destruct (span_l l) as [n' r'] eqn:Hsl. injection Hsp as <- <-.
    unfold int_arith. rewrite (proj2 (Z.leb_le _ (k + 1))), (proj2 (Z.leb_le (k + 1) _)) by lia. simpl.
    rewrite (IH fuel (p + 1) (k + 1) n'); [| by eapply cstr_tail | done | lia | lia | lia].
    do 2 f_equal; lia.
Qed.

(** ** Lemmas: sinks

    [P] is an invariant of the sink's states under which the memory holds the
    format and its strings. *)

Section sink.
Context {St : Type} (emit : St → Z → res St) (s_mem : St → mem).

Fixpoint emit_all (st : St) (l : list Z) : res St :=
  match l with
  | [] => Ok st
  | c :: l => st ← emit st c; emit_all st l
  end.

Lemma emit_all_app st l1 l2 : emit_all st (l1 ++ l2) = (st ← emit_all st l1; emit_all st l2).
Proof.
  revert st. induction l1 as [|c l1 IH]; intros st; simpl; [done|].
  rewrite bind_assoc. destruct (emit st c); simpl; [apply IH | done..].
Qed.

Context (P : St → Prop).
Hypothesis P_emit : ∀ st c st', P st → emit st c = Ok st' → P st'.

Lemma P_emit_all st l st' : P st → emit_all st l = Ok st' → P st'.
Proof.
  revert st. induction l as [|c l IH]; intros st HP; simpl; [by intros [= <-]|].
  intros (st1 & He & Ha)%bind_Ok_inv. eauto.
Qed.

Lemma emit_repeat c k i st :
  for_loop k i (λ _ st, emit st c) st = emit_all st (replicate k c).
Proof.
  revert i st. induction k as [|k IH]; intros i st; simpl; [done|].
  destruct (emit st c); simpl; [apply IH | done..].
Qed.

Lemma emit_read (rd : St → Z → res Z) l i st :
  P st → 0 ≤ i → (∀ st, P st → ∀ j c, l !! j = Some c → rd st (i + Z.of_nat j) = Ok c) →
  for_loop (length l) i (λ i st, c ← rd st i; emit st c) st = emit_all st l.
Proof.
  revert i st. induction l as [|c l IH]; intros i st HP Hi Hrd; simpl; [done|].
  pose proof (Hrd st HP 0%nat c eq_refl) as H0. rewrite Z.add_0_r in H0. rewrite H0. simpl.
  destruct (emit st c) as [st1| | |] eqn:He; simpl; [|done..].
  apply IH; [by eapply P_emit | lia |]. intros st2 HP2 j d Hj. rewrite <-(Hrd st2 HP2 (S j) d Hj).
  f_equal. lia.
Qed.

Lemma emit_padded_spec (rd : St → Z → res Z) l w z st :
  P st → 0 ≤ w ≤ INT_MAX → Z.of_nat (length l) ≤ INT_MAX →
  (∀ st, P st → ∀ j c, l !! j = Some c → rd st (Z.of_nat j) = Ok c) →
  emit_padded emit st rd (Z.of_nat (length l)) w z = emit_all st (pad_left z w l).
Proof.
  intros HP Hw Hl Hrd. unfold emit_padded, pad_left.
  assert (Hi : i32 (Z.of_nat (length l)) = Z.of_nat (length l)).
  { unfold i32, INT_MAX in *. rewrite u32_small by lia. destruct (Z.ltb_spec (Z.of_nat (length l)) (2 ^ 31)); lia. }
  rewrite Hi. unfold int_arith. unfold INT_MAX in *.
  rewrite (proj2 (Z.leb_le _ (w - _))), (proj2 (Z.leb_le (w - _) _)) by lia. cbn [andb mbind res_bind].
  rewrite emit_all_app. unfold for_range. rewrite emit_repeat, !Z.sub_0_r, Nat2Z.id.
  destruct (emit_all st (replicate _ _)) as [st1| | |] eqn:He; cbn [mbind res_bind]; [|done..].
  apply emit_read; [by eapply P_emit_all | lia | exact Hrd].
Qed.

Lemma emit_unsigned_spec (up : bool) base v w z st :
  P st → base = 10 ∨ base = 16 → 0 ≤ v < 2 ^ 64 → 0 ≤ w ≤ INT_MAX →
  emit_unsigned emit st v base up w z = emit_all st (pad_left z w (number_text up base v)).
Proof.
  intros HP Hb Hv Hw. unfold emit_unsigned.
  assert (Hlt : 2 ^ 64 ≤ base ^ Z.of_nat 32) by (destruct Hb as [->| ->]; by vm_compute).
  destruct (digits_loop_spec 32 up base v ltac:(lia) ltac:(lia) ltac:(lia)) as (ds & -> & Hds).
  cbn [mbind res_bind]. rewrite reverse_digits_spec. cbn [mbind res_bind]. rewrite <-(length_rev ds).
  unfold number_text. rewrite Hds by lia. apply emit_padded_spec; [done | done | |].
  - rewrite <-(Hds 32%nat), length_fmap by lia.
    assert (Hlen : ∀ k v, (length (numeral k base v) ≤ k)%nat).
    { clear. induction k as [|k IH]; intros v; simpl; [done|]. rewrite length_app. simpl.
      destruct (v <? base); simpl; [lia|]. specialize (IH (v / base)). lia. }
    specialize (Hlen 32%nat v). unfold INT_MAX. lia.
  - intros st' _ j c Hj. unfold rd_array. rewrite Nat2Z.id, Hj. done.
Qed.

Lemma emit_signed_spec v w z st :
  P st → - 2 ^ 63 ≤ v < 2 ^ 63 → 0 ≤ w ≤ INT_MAX →
  emit_signed emit st v w z = emit_all st (render_signed z w v).
Proof.
  intros HP Hv Hw. unfold emit_signed, render_signed. destruct (Z.ltb_spec v 0) as [Hneg|Hpos].
  - cbn [emit_all]. destruct (emit st (ch "-")) as [st1| | |] eqn:He; cbn [mbind res_bind]; [|done..].
    rewrite (u64_small (- (v + 1))), u64_small by lia. replace (- (v + 1) + 1) with (- v) by lia.
    rewrite emit_unsigned_spec; [| by eapply P_emit | by left | lia | destruct (Z.ltb_spec 0 w); unfold INT_MAX in *; lia].
    do 3 f_equal. destruct (Z.ltb_spec 0 w); lia.
  - rewrite u64_small by lia. apply emit_unsigned_spec; [done | by left | lia | done].
Qed.

Context (str_at : Z → option (list Z)).
Hypothesis P_strings : ∀ st a s, P st → str_at a = Some s →
  cstr (s_mem st) a s ∧ Z.of_nat (length s) ≤ INT_MAX.

Lemma i64_range a : - 2 ^ 63 ≤ i64 a < 2 ^ 63.
Proof. unfold i64. pose proof (u64_range a). destruct (Z.ltb_spec (u64 a) (2 ^ 63)); lia. Qed.

Lemma i32_range a : - 2 ^ 31 ≤ i32 a < 2 ^ 31.
Proof. unfold i32. pose proof (u32_range a). destruct (Z.ltb_spec (u32 a) (2 ^ 31)); lia. Qed.

(** One conversion emits its rendering. *)
Lemma convert_spec st c z w n a ap o :
  P st → 0 ≤ w ≤ INT_MAX → takes_arg c = true → render_conv str_at z w (0 <? n) c a = Some o →
  convert emit s_mem st (a :: ap) c z w n = (st ← emit_all st o; Ok (st, ap)).
Proof.
  intros HP Hw Hc Ho. unfold convert, render_conv in *. cbn [va_arg mbind res_bind].
  assert (Hu : 0 ≤ (if 0 <? n then u64 a else u32 a) < 2 ^ 64).
  { pose proof (u64_range a). pose proof (u32_range a). destruct (0 <? n); lia. }
  destruct ((c =? ch "d") || (c =? ch "i")) eqn:Hd; [|destruct (c =? ch "u") eqn:Hu';
    [|destruct ((c =? ch "x") || (c =? ch "X")) eqn:Hxx; [|destruct (c =? ch "p") eqn:Hp';
    [|destruct (c =? ch "s") eqn:Hs'; [|destruct (c =? ch "c") eqn:Hcc]]]]].
  - injection Ho as <-. rewrite emit_signed_spec; [done | done | | done].
    pose proof (i64_range a). pose proof (i32_range a). destruct (0 <? n); lia.
  - injection Ho as <-. rewrite emit_unsigned_spec; auto.
  - injection Ho as <-. rewrite emit_unsigned_spec; auto.
  - injection Ho as <-. cbn [emit_all].
    destruct (emit st (ch "0")) as [st1| | |] eqn:E1; cbn [mbind res_bind]; [|done..].
    destruct (emit st1 (ch "x")) as [st2| | |] eqn:E2; cbn [mbind res_bind]; [|done..].
    rewrite emit_unsigned_spec; [done | by eauto | by right | apply u64_range | unfold INT_MAX; lia].
  - destruct (u64 a =? 0).
    + injection Ho as <-. change 6 with (Z.of_nat (length (lit "(null)"))).
      rewrite (emit_padded_spec _ (lit "(null)")); [done | done | done | by vm_compute |].
      intros st' _ j d Hj. unfold rd_array. by rewrite Nat2Z.id, Hj.
    + destruct (str_at (u64 a)) as [s|] eqn:Hs; [|done]. injection Ho as <-.
      destruct (P_strings st _ _ HP Hs) as [Hcs Hlen]. pose proof (cstr_size _ _ _ Hcs).
      unfold strlen. rewrite (strlen_loop_cstr _ s _ _ 0); unfold mem_fuel;
        [| by rewrite Z.add_0_r | lia | unfold INT_MAX in Hlen; lia | lia].
      cbn [mbind res_bind]. rewrite Z.add_0_l, emit_padded_spec with (l := s); [done | done | done | done |].
      intros st' HP' j d Hj. unfold rd_mem, load8. destruct (P_strings st' _ _ HP' Hs) as [Hcs' _].
      by destruct (cstr_lookup _ _ _ _ _ Hcs' Hj) as [-> _].
  - injection Ho as <-. cbn [emit_all]. by destruct (emit st (u8 a)).
  - exfalso. apply existsb_exists in Hc as (x & Hx%list_elem_of_In & ->%Z.eqb_eq).
    unfold lit in Hx. simpl in Hx. rewrite !elem_of_cons, elem_of_nil in Hx.
    revert Hd Hu' Hxx Hp' Hs' Hcc. clear - Hx. naive_solver.
Qed.

(** A conversion without an argument. *)
Lemma convert_plain st c z w n ap :
  takes_arg c = false →
  convert emit s_mem st ap c z w n =
    (st ← emit_all st (if c =? ch "%" then [c] else [ch "%"; c]); Ok (st, ap)).
Proof.
  intros Hc. unfold takes_arg in Hc.
  assert (Hno : ∀ x, x ∈ lit "diuxXpsc" → (c =? x) = false).
  { intros x Hx. destruct (c =? x) eqn:He; [|done].
    enough (existsb (Z.eqb c) (lit "diuxXpsc") = true) by congruence.
    apply existsb_exists. exists x. by rewrite <-list_elem_of_In. }
  unfold convert.
  rewrite !Hno by (unfold lit; simpl; repeat (left + right)). simpl.
  destruct (Z.eqb_spec c (ch "%")) as [->|]; cbn [emit_all mbind res_bind].
  - by destruct (emit st (ch "%")).
  - destruct (emit st (ch "%")) as [st1| | |]; simpl; [|done..]. by destruct (emit st1 c).
Qed.

(** The flag of a directive, when there is one. *)
Lemma flag_spec p c l :
  (∀ st, P st → cstr (s_mem st) p (c :: l)) →
  ∃ z p1 l1, (if c =? ch "0" then (true, p + 1) else (false, p)) = (z, p1) ∧
    (if c =? ch "0" then (true, l) else (false, c :: l)) = (z, l1) ∧
    (∀ st, P st → cstr (s_mem st) p1 l1) ∧ (length l1 ≤ S (length l))%nat.
Proof.
  intros Hs. destruct (c =? ch "0"); eexists _, _, _; (split_and!; [done | done | | simpl; lia]); [|done].
  intros st HP. by eapply cstr_tail, Hs.
Qed.

(** The width and the length modifiers of a directive. *)
Lemma width_length_spec p l wd l2 k l3 :
  (∀ st, P st → cstr (s_mem st) p l) → span_digits l = (wd, l2) → span_l l2 = (k, l3) →
  decimal 0 wd ≤ INT_MAX → Z.of_nat k ≤ INT_MAX →
  (∀ st, P st →
    width_loop (mem_fuel (s_mem st)) (s_mem st) p 0 = Ok (decimal 0 wd, p + Z.of_nat (length wd)) ∧
    length_loop (mem_fuel (s_mem st)) (s_mem st) (p + Z.of_nat (length wd)) 0 =
      Ok (Z.of_nat k, p + Z.of_nat (length wd) + Z.of_nat k) ∧
    cstr (s_mem st) (p + Z.of_nat (length wd) + Z.of_nat k) l3) ∧
  (length l3 ≤ length l)%nat.
Proof.
  intros Hs Hwd Hk Hwb Hkb. pose proof (span_digits_app _ _ _ Hwd) as E1. pose proof (span_l_app _ _ _ Hk) as E2. split.
  - intros st HP. pose proof (Hs st HP) as H1.
    assert (H2 : cstr (s_mem st) (p + Z.of_nat (length wd)) l2) by (apply cstr_app; by rewrite <-E1).
    pose proof (cstr_size _ _ _ H1). pose proof (cstr_size _ _ _ H2). split_and!.
    + eapply width_loop_spec; [exact H1 | exact Hwd | done | done | unfold mem_fuel; lia].
    + rewrite <-(Z.add_0_l (Z.of_nat k)) at 1. eapply length_loop_spec; [exact H2 | exact Hk | done | lia | unfold mem_fuel; lia].
    + rewrite <-(length_replicate k (ch "l")). apply cstr_app. by rewrite <-E2.
  - apply (f_equal length) in E1, E2. rewrite length_app in E1, E2. lia.
Qed.

Lemma kvprintf_loop_spec n fuel st p l ds args o :
  P st → (∀ st', P st' → cstr (s_mem st') p l) → parse n l = Some ds → render str_at ds args = Some o →
  (length l < fuel)%nat → kvprintf_loop emit s_mem fuel st p args = emit_all st o.
Proof.
  revert fuel st p l ds args o. induction n as [|n IH]; intros fuel st p l ds args o HP Hs Hparse Hr Hf; [done|].
  destruct fuel as [|fuel]; [lia|]. simpl in Hparse. cbn [kvprintf_loop].
  rewrite (cstr_char _ _ _ (Hs st HP)). cbn [mbind res_bind].
  destruct l as [|c l]; [injection Hparse as <-; simpl in Hr; by injection Hr as <-|].
  destruct (cstr_head _ _ _ _ (Hs st HP)) as [_ Hc0]. rewrite (proj2 (Z.eqb_neq c 0)) by lia. simpl in Hf.
  assert (Hs1 : ∀ st', P st' → cstr (s_mem st') (p + 1) l) by (intros st' HP'; by eapply cstr_tail, Hs).
  destruct (Z.eqb_spec c (ch "%")) as [->|Hne]; cbn [negb] in *.
  2: { destruct (parse n l) as [ds'|] eqn:Hp; [|done]. injection Hparse as <-. simpl in Hr.
       destruct (render str_at ds' args) as [o'|] eqn:Hr'; [|done]. injection Hr as <-. cbn [emit_all].
       destruct (emit st c) as [st1| | |] eqn:He; cbn [mbind res_bind]; [|done..].
       eapply (IH fuel st1 (p + 1) l); eauto; lia. }
  rewrite (cstr_char _ _ _ (Hs1 st HP)). cbn [mbind res_bind].
  destruct l as [|c l]; [injection Hparse as <-; simpl in Hr; by injection Hr as <-|].
  destruct (cstr_head _ _ _ _ (Hs1 st HP)) as [_ Hc1]. rewrite (proj2 (Z.eqb_neq c 0)) by lia. simpl in Hf.
  destruct (flag_spec (p + 1) c l Hs1) as (z & p1 & l1 & -> & Hl1 & Hs2 & Hlen1). rewrite Hl1 in Hparse.
  destruct (span_digits l1) as [wd l2] eqn:Hwd. destruct (span_l l2) as [k l3] eqn:Hk.
  destruct (Z.ltb_spec INT_MAX (decimal 0 wd)) as [|Hwb]; [done|].
  destruct (Z.ltb_spec INT_MAX (Z.of_nat k)) as [|Hkb]; [done|]. cbn [orb] in Hparse.
  pose proof (decimal_ge 0 _ _ _ Hwd ltac:(lia)) as Hw0.
  destruct (width_length_spec p1 l1 wd l2 k l3 Hs2 Hwd Hk Hwb Hkb) as [Hwl Hlen3].
  destruct (Hwl st HP) as (-> & Hw2 & Hs4). cbn [mbind res_bind]. rewrite Hw2. cbn [mbind res_bind].
  rewrite (cstr_char _ _ _ Hs4). cbn [mbind res_bind].
  destruct l3 as [|conv l3]; [done|]. destruct (parse n l3) as [ds'|] eqn:Hp; [|done].
  injection Hparse as <-. simpl in Hr.
  assert (Hf3 : (length l3 < fuel)%nat) by (simpl in Hlen3; lia).
  assert (Hs5 : ∀ st', P st' → cstr (s_mem st') (p1 + Z.of_nat (length wd) + Z.of_nat k + 1) l3)
    by (intros st' HP'; eapply cstr_tail, Hwl, HP').
  assert (Hgo : ∀ o1 o2 ap, render str_at ds' ap = Some o2 →
    (' (st, ap) ← (st ← emit_all st o1; Ok (st, ap));
       kvprintf_loop emit s_mem fuel st (p1 + Z.of_nat (length wd) + Z.of_nat k + 1) ap) = emit_all st (o1 ++ o2)).
  { intros o1 o2 ap Ho2. rewrite emit_all_app.
    destruct (emit_all st o1) as [st1| | |] eqn:He; cbn [mbind res_bind]; [|done..].
    eapply IH; eauto using P_emit_all. }
  destruct (takes_arg conv) eqn:Ht.
  - destruct args as [|a args]; [done|].
    destruct (render_conv str_at z (decimal 0 wd) (0 <? Z.of_nat k) conv a) as [o1|] eqn:Ho1; [|done].
    simpl in Hr. destruct (render str_at ds' args) as [o2|] eqn:Ho2; [|done]. injection Hr as <-.
    rewrite (convert_spec st conv z _ _ a args o1) by done. by apply Hgo.
  - destruct (render str_at ds' args) as [o2|] eqn:Ho2; [|done]. injection Hr as <-.
    rewrite convert_plain by done. by apply Hgo.
Qed.

Lemma kvprintf_spec st fmt l ds args o :
  P st → (∀ st', P st' → cstr (s_mem st') fmt l) → parse_format l = Some ds →
  render str_at ds args = Some o → kvprintf emit s_mem st fmt args = emit_all st o.
Proof.
  intros HP Hs Hp Hr. pose proof (cstr_size _ _ _ (Hs st HP)). unfold kvprintf.
  eapply kvprintf_loop_spec; eauto. unfold mem_fuel. lia.
Qed.
End sink.

(** ** Lemmas: reading numerals back *)

Definition char_digit (c : Z) : Z :=
  if c <=? ch "9" then c - ch "0" else if c <=? ch "F" then c - ch "A" + 10 else c - ch "a" + 10.

Definition number_value (base : Z) (l : list Z) : Z := foldl (λ n c, n * base + char_digit c) 0 l.

Definition signed_value (l : list Z) : Z :=
  match l with
  | c :: l' => if c =? ch "-" then - number_value 10 l' else number_value 10 l
  | [] => 0
  end.

Lemma char_digit_char (up : bool) d : 0 ≤ d < 16 → char_digit (digit_char up d) = d.
Proof.
  intros Hd. unfold char_digit, digit_char.
  change (ch "0") with 48. change (ch "9") with 57. change (ch "A") with 65. change (ch "F") with 70.
  change (ch "a") with 97. destruct (Z.ltb_spec d 10).
  - rewrite (proj2 (Z.leb_le _ _)) by lia. lia.
  - destruct up; [rewrite (proj2 (Z.leb_gt _ 57)), (proj2 (Z.leb_le _ 70)) by lia
      | rewrite (proj2 (Z.leb_gt _ 57)), (proj2 (Z.leb_gt _ 70)) by lia]; lia.
Qed.

Lemma numeral_ne k base v : numeral (S k) base v ≠ [].
Proof. simpl. by intros [_ ?]%app_eq_nil. Qed.

Lemma numeral_digits k base v d : 1 < base → 0 ≤ v → d ∈ numeral k base v → 0 ≤ d < base.
Proof.
  intros Hb. revert v. induction k as [|k IH]; intros v Hv; simpl; [by intros ?%elem_of_nil|].
  rewrite elem_of_app, list_elem_of_singleton. intros [Hd| ->]; [|apply Z.mod_pos_bound; lia].
  destruct (v <? base); [by apply elem_of_nil in Hd|]. apply (IH (v / base)); [apply Z.div_pos; lia | done].
Qed.

Lemma number_value_text (up : bool) k base v :
  1 < base ≤ 16 → 0 ≤ v < base ^ Z.of_nat k → number_value base (digit_char up <$> numeral k base v) = v.
Proof.
  intros Hb. unfold number_value. revert v. induction k as [|k IH]; intros v Hv; [simpl in *; lia|].
  cbn [numeral]. rewrite fmap_app, foldl_app. cbn [fmap list_fmap foldl].
  rewrite char_digit_char by (pose proof (Z.mod_pos_bound v base); lia).
  destruct (Z.ltb_spec v base) as [Hlt|Hge]; simpl; [rewrite Z.mod_small by lia; lia|].
  rewrite IH; [pose proof (Z.div_mod v base); lia|]. split; [apply Z.div_pos; lia|].
  apply Z.div_lt_upper_bound; [lia|]. rewrite <-Z.pow_succ_r by lia.
  replace (Z.succ (Z.of_nat k)) with (Z.of_nat (S k)) by lia. lia.
Qed.

Lemma number_value_zeros base n l :
  number_value base (replicate n (ch "0") ++ l) = number_value base l.
Proof. unfold number_value. rewrite foldl_app. f_equal. induction n as [|n IH]; simpl; done. Qed.

(** No leading zeros: the first digit of a positive number is not zero. *)
Lemma numeral_head k base v d :
  1 < base → 0 < v < base ^ Z.of_nat k → head (numeral k base v) = Some d → 0 < d.
Proof.
  intros Hb. revert v. induction k as [|k IH]; intros v Hv; simpl; [done|].
  destruct (Z.ltb_spec v base) as [Hlt|Hge]; simpl.
  - rewrite Z.mod_small by lia. intros [= <-]. lia.
  - assert (H1 : 0 < v / base < base ^ Z.of_nat k).
    { split; [apply Z.div_str_pos; lia|]. apply Z.div_lt_upper_bound; [lia|].
      rewrite <-Z.pow_succ_r by lia. replace (Z.succ (Z.of_nat k)) with (Z.of_nat (S k)) by lia. lia. }
    destruct (numeral k base (v / base)) as [|e l] eqn:He; simpl.
    + destruct k; [simpl in H1; lia|]. simpl in He. destruct (v / base <? base); simpl in He; [discriminate | by apply app_eq_nil in He as [_ ?]].
    + intros [= <-]. apply (IH (v / base)); [done | by rewrite He].
Qed.

(** ** The sink of [ksnprintf] *)

Section snprintf.
Context (m0 : mem) (bufp size : Z).

(** Only the buffer has changed. *)
Definition ctx_ok (ctx : snprintf_ctx) : Prop :=
  buf ctx = bufp ∧ s_size ctx = size ∧ 0 ≤ written ctx < 2 ^ 64 ∧
  modifies (in_range bufp size) m0 (s_m ctx).

Hypothesis size_range : 0 ≤ size < 2 ^ 64.
Hypothesis buf_pos : 0 < bufp.
Hypothesis m0_addr : ∀ x, is_Some (m0 !! x) → 0 ≤ x < 2 ^ 64.
Hypothesis buf_mapped : mapped m0 bufp size.

Lemma snprintf_emit_ok ctx c ctx' : ctx_ok ctx → snprintf_emit ctx c = Ok ctx' → ctx_ok ctx'.
Proof.
  intros (Hb & Hs & Hw & Hm). unfold snprintf_emit. rewrite Hb, Hs.
  assert (Hu := u64_range (written ctx + 1)).
  destruct (Z.ltb_spec (u64 (written ctx + 1)) size) as [Hlt|Hge].
  - unfold store8. destruct (s_m ctx !! (bufp + written ctx)) as [b|] eqn:Hx; [|done].
    intros [= <-]. split_and!; [done | done | simpl; lia | simpl; lia |]. simpl.
    etransitivity; [exact Hm|].
    assert (Hx' : is_Some (m0 !! (bufp + written ctx))) by (apply Hm; by eexists).
    specialize (m0_addr _ Hx'). rewrite u64_small in Hlt by lia.
    eapply modifies_mono, modifies_insert; [intros y ->; unfold in_range; lia | by eexists].
  - intros [= <-]. split_and!; [done | done | simpl; lia | simpl; lia | done].
Qed.

Lemma snprintf_emit_all ctx o :
  ctx_ok ctx → written ctx + Z.of_nat (length o) < 2 ^ 64 →
  ∃ ctx', emit_all snprintf_emit ctx o = Ok ctx' ∧ ctx_ok ctx' ∧
    written ctx' = written ctx + Z.of_nat (length o) ∧
    modifies (in_range (bufp + written ctx) (size - written ctx)) (s_m ctx) (s_m ctx') ∧
    (∀ i b, o !! i = Some b → written ctx + Z.of_nat i + 1 < size →
       s_m ctx' !! (bufp + written ctx + Z.of_nat i) = Some b).
Proof.
  revert ctx. induction o as [|c o IH]; intros ctx Hok Hlen; simpl in *.
  - exists ctx. split_and!; [done | done | lia | done | done].
  - assert (Hstep : ∃ ctx1, snprintf_emit ctx c = Ok ctx1 ∧ written ctx1 = written ctx + 1 ∧
      modifies (in_range (bufp + written ctx) (size - written ctx)) (s_m ctx) (s_m ctx1) ∧
      (written ctx + 1 < size → s_m ctx1 !! (bufp + written ctx) = Some c)).
    { destruct Hok as (Hb & Hs & Hw & Hm). unfold snprintf_emit. rewrite Hb, Hs, u64_small by lia.
      destruct (Z.ltb_spec (written ctx + 1) size) as [Hlt|Hge].
      - assert (Hx : is_Some (s_m ctx !! (bufp + written ctx)))
          by (apply Hm, buf_mapped; unfold in_range; lia).
        rewrite store8_mapped by done. eexists. split_and!; [done | done | | intros _; apply lookup_insert_eq].
        eapply modifies_mono, modifies_insert; [intros y ->; unfold in_range; lia | done].
      - eexists. split_and!; [done | done | done | simpl; lia]. }
    destruct Hstep as (ctx1 & He & Hw1 & Hm1 & Hv1). rewrite He. cbn [mbind res_bind].
    destruct (IH ctx1) as (ctx' & -> & Hok' & Hw' & Hm' & Hv'); [by eapply snprintf_emit_ok | lia |].
    exists ctx'. split_and!; [done | done | lia | |].
    + etransitivity; [exact Hm1|]. eapply modifies_mono; [|exact Hm']. unfold in_range. lia.
    + intros [|i] b Hi Hlt; simpl in Hi.
      * injection Hi as <-. rewrite Z.add_0_r, (modifies_lookup _ _ _ _ Hm'); [apply Hv1; lia|].
        unfold in_range. lia.
      * rewrite <-(Hv' i b Hi) by lia. f_equal. lia.
Qed.
End snprintf.

Lemma ksnprintf_spec m buf size fmt args l ds str_at o :
  0 ≤ size < 2 ^ 64 → 0 < buf → (∀ x, is_Some (m !! x) → 0 ≤ x < 2 ^ 64) → mapped m buf size →
  cstr m fmt l → (∀ x, in_range fmt (Z.of_nat (length l) + 1) x → ¬ in_range buf size x) →
  (∀ a s, str_at a = Some s → cstr m a s ∧ Z.of_nat (length s) ≤ INT_MAX ∧
     ∀ x, in_range a (Z.of_nat (length s) + 1) x → ¬ in_range buf size x) →
  parse_format l = Some ds → render str_at ds args = Some o → Z.of_nat (length o) < 2 ^ 64 →
  ∃ m', ksnprintf m buf size fmt args = Ok (i32 (Z.of_nat (length o)), m') ∧
    modifies (in_range buf size) m m' ∧
    (0 < size →
       (∀ i b, take (Z.to_nat (size - 1)) o !! i = Some b → m' !! (buf + Z.of_nat i) = Some b) ∧
       m' !! (buf + Z.min (Z.of_nat (length o)) (size - 1)) = Some 0).
Proof.
  intros Hsz Hb Haddr Hm Hs Hdis Hstr Hp Hr Ho. unfold ksnprintf.
  assert (Hkeep : ∀ a s ctx, cstr m a s → (∀ x, in_range a (Z.of_nat (length s) + 1) x → ¬ in_range buf size x) →
    ctx_ok m buf size ctx → cstr (s_m ctx) a s).
  { intros a s ctx [Hc Hn] Hd (_ & _ & _ & Hmod). split.
    - intros i b Hi. pose proof (lookup_lt_Some _ _ _ Hi).
      rewrite (modifies_lookup _ _ _ _ Hmod); [by apply Hc | apply Hd; unfold in_range; lia].
    - rewrite (modifies_lookup _ _ _ _ Hmod); [done | apply Hd; unfold in_range; lia]. }
  assert (Hok0 : ctx_ok m buf size (mk_ctx m buf size 0)) by (split_and!; simpl; done || lia).
  rewrite (kvprintf_spec snprintf_emit s_m (ctx_ok m buf size)
    (λ st c st', snprintf_emit_ok m buf size Hb Haddr st c st') str_at
    (λ st a s HP Ha, conj (Hkeep a s st (proj1 (Hstr a s Ha)) (proj2 (proj2 (Hstr a s Ha))) HP)
       (proj1 (proj2 (Hstr a s Ha)))) _ fmt l ds args o Hok0 (λ st, Hkeep fmt l st Hs Hdis) Hp Hr).
  destruct (snprintf_emit_all m buf size Hb Haddr Hm (mk_ctx m buf size 0) o Hok0)
    as (ctx & -> & (Hb' & Hs' & Hw & Hmod) & Hwr & Hmod2 & Hv); [simpl; lia|].
  cbn [mbind res_bind]. simpl in Hwr, Hmod2, Hv. rewrite Hwr, Z.add_0_l.
  destruct (Z.ltb_spec 0 size) as [Hpos|Hzero]; [|].
  - assert (Ht : (if Z.of_nat (length o) <? size - 1 then Z.of_nat (length o) else size - 1) =
      Z.min (Z.of_nat (length o)) (size - 1)) by (destruct (Z.ltb_spec (Z.of_nat (length o)) (size - 1)); lia).
    rewrite Ht. set (t := Z.min _ _) in *. assert (Htr : 0 ≤ t < size) by lia.
    assert (Hx : is_Some (s_m ctx !! (buf + t))) by (apply Hmod, Hm; unfold in_range; lia).
    rewrite store8_mapped by done. cbn [mbind res_bind]. eexists. split_and!; [done | |].
    + etransitivity; [exact Hmod|]. eapply modifies_mono, modifies_insert; [intros y ->; unfold in_range; lia | done].
    + intros _. split; [|apply lookup_insert_eq]. intros i b [Hi Hlt]%lookup_take_Some.
      pose proof (lookup_lt_Some _ _ _ Hi). rewrite lookup_insert_ne by lia.
      rewrite <-(Hv i b Hi) by lia. f_equal. lia.
  - eexists. split_and!; [done | done | lia].
Qed.

(** ** Lemmas: formats with numeric arguments *)

(** The text of a format, empty if it cannot be rendered; the strings of a
    format with numeric arguments. *)
Definition text (str_at : Z → option (list Z)) (fmt : list Z) (args : list Z) : list Z :=
  default [] (ds ← parse_format fmt; render str_at ds args).

Definition no_strings (_ : Z) : option (list Z) := None.

Definition numeric_spec (d : directive) : bool :=
  match d with Text _ => true | Spec _ _ _ c => negb (c =? ch "s") end.

Definition takes (d : directive) : bool :=
  match d with Text _ => false | Spec _ _ _ c => takes_arg c end.

(** Numeric conversions always have a text, which does not depend on memory. *)
Lemma render_conv_numeric str_at str_at' z w long c a :
  negb (c =? ch "s") = true →
  ∃ o, render_conv str_at z w long c a = Some o ∧ render_conv str_at' z w long c a = Some o.
Proof.
  intros Hc%negb_true_iff. unfold render_conv. rewrite Hc.
  destruct ((c =? ch "d") || (c =? ch "i")); [by eexists|]. destruct (c =? ch "u"); [by eexists|].
  destruct ((c =? ch "x") || (c =? ch "X")); [by eexists|]. destruct (c =? ch "p"); by eexists.
Qed.

Lemma render_numeric str_at str_at' ds args :
  forallb numeric_spec ds = true → (length (base.filter takes ds) ≤ length args)%nat →
  ∃ o, render str_at ds args = Some o ∧ render str_at' ds args = Some o.
Proof.
  revert args. induction ds as [|[c|z w long c] ds IH]; intros args Hn Hl; simpl in *.
  - by exists [].
  - destruct (IH args Hn) as (o & -> & ->); [done|]. by exists (c :: o).
  - apply andb_true_iff in Hn as [Hc Hn]. rewrite filter_cons in Hl. simpl in Hl. destruct (takes_arg c).
    + rewrite decide_True in Hl by done. destruct args as [|a args]; simpl in Hl; [lia|].
      destruct (render_conv_numeric str_at str_at' z w long c a Hc) as (o & -> & ->).
      destruct (IH args Hn) as (os & -> & ->); [lia|]. by eexists.
    + rewrite decide_False in Hl by auto. destruct (IH args Hn Hl) as (os & -> & ->). by eexists.
Qed.

Lemma render_texts str_at l ds args :
  render str_at ((Text <$> l) ++ ds) args = (λ o, l ++ o) <$> render str_at ds args.
Proof.
  induction l as [|c l IH]; [by cbn [fmap list_fmap app]; destruct (render str_at ds args)|].
  rewrite fmap_cons. cbn [app render]. rewrite IH. by destruct (render str_at ds args).
Qed.

(** Both hypotheses are evaluated for each literal. *)
Definition numeric_format (fmt : list Z) (n : nat) : bool :=
  match parse_format fmt with
  | Some ds => forallb numeric_spec ds && Nat.leb (length (base.filter takes ds)) n
  | None => false
  end.

Lemma numeric_format_text fmt args str_at :
  numeric_format fmt (length args) = true →
  ∃ ds, parse_format fmt = Some ds ∧ render str_at ds args = Some (text no_strings fmt args).
Proof.
  unfold numeric_format, text. destruct (parse_format fmt) as [ds|]; [|done].
  intros [Hn Hl%Nat.leb_le]%andb_true_iff. exists ds. split; [done|].
  destruct (render_numeric str_at no_strings ds args Hn Hl) as (o & -> & Ho). simpl. by rewrite Ho.
Qed.

(** ** Properties *)

(** C12: on every format that has a meaning (parsed directives, each with the
    argument it needs), [kvprintf] emits exactly the rendered text, character
    by character in order, for every sink that keeps the format and the
    strings readable; it never reads past the terminator, never needs more
    digits than its array has, and an [int] never overflows. *)
Theorem kvprintf_correct {St : Type} (emit : St → Z → res St) (s_mem : St → mem) (P : St → Prop)
    (str_at : Z → option (list Z)) st fmt l ds args o :
  (∀ st c st', P st → emit st c = Ok st' → P st') →
  (∀ st a s, P st → str_at a = Some s → cstr (s_mem st) a s ∧ Z.of_nat (length s) ≤ INT_MAX) →
  (∀ st, P st → cstr (s_mem st) fmt l) → P st →
  parse_format l = Some ds → render str_at ds args = Some o →
  kvprintf emit s_mem st fmt args = emit_all emit st o.
Proof. intros He Hs Hf HP Hp Hr. by eapply kvprintf_spec. Qed.

(** C35: [ksnprintf] returns the length of the whole text, as an [int]; into the
    buffer it puts the text cut to [size - 1] characters and a terminator, and
    it writes nothing outside the buffer, for every [size], 0 included. *)
Theorem ksnprintf_correct m buf size fmt args l ds str_at o :
  0 ≤ size < 2 ^ 64 → 0 < buf → (∀ x, is_Some (m !! x) → 0 ≤ x < 2 ^ 64) → mapped m buf size →
  cstr m fmt l → (∀ x, in_range fmt (Z.of_nat (length l) + 1) x → ¬ in_range buf size x) →
  (∀ a s, str_at a = Some s → cstr m a s ∧ Z.of_nat (length s) ≤ INT_MAX ∧
     ∀ x, in_range a (Z.of_nat (length s) + 1) x → ¬ in_range buf size x) →
  parse_format l = Some ds → render str_at ds args = Some o → Z.of_nat (length o) < 2 ^ 64 →
  ∃ m', ksnprintf m buf size fmt args = Ok (i32 (Z.of_nat (length o)), m') ∧
    modifies (in_range buf size) m m' ∧
    (0 < size →
       (∀ i b, take (Z.to_nat (size - 1)) o !! i = Some b → m' !! (buf + Z.of_nat i) = Some b) ∧
       m' !! (buf + Z.min (Z.of_nat (length o)) (size - 1)) = Some 0).
Proof. apply ksnprintf_spec. Qed.

(** The sink that collects the characters. *)
Definition collect (l : list Z) (c : Z) : res (list Z) := Ok (l ++ [c]).

Lemma collect_all l o : emit_all collect l o = Ok (l ++ o).
Proof.
  revert l. induction o as [|c o IH]; intros l; simpl; [by rewrite app_nil_r|].
  by rewrite IH, <-app_assoc.
Qed.

Lemma collect_unsigned base v (up : bool) w z :
  base = 10 ∨ base = 16 → 0 ≤ v < 2 ^ 64 → 0 ≤ w ≤ INT_MAX →
  emit_unsigned collect [] v base up w z = Ok (pad_left z w (number_text up base v)).
Proof.
  intros. rewrite (emit_unsigned_spec collect (λ _, True)) by done. by rewrite collect_all.
Qed.

Lemma pad_left_length z w l : w ≤ Z.of_nat (length (pad_left z w l)).
Proof. unfold pad_left. rewrite length_app, length_replicate. lia. Qed.

(** The text of a positive number starts with a digit other than 0. *)
Lemma number_text_head (up : bool) b v :
  1 < b ≤ 16 → 0 < v < b ^ Z.of_nat 64 → ∃ c t, number_text up b v = c :: t ∧ c ≠ ch "0".
Proof.
  intros Hb Hv. unfold number_text. destruct (numeral 64 b v) as [|d n] eqn:Hn; [by apply numeral_ne in Hn|].
  exists (digit_char up d), (digit_char up <$> n). split; [done|].
  pose proof (numeral_head 64 b v d ltac:(lia) Hv ltac:(by rewrite Hn)) as Hd0.
  pose proof (numeral_digits 64 b v d ltac:(lia) ltac:(lia) ltac:(rewrite Hn; left)) as Hd.
  unfold digit_char. change (ch "0") with 48. change (ch "A") with 65. change (ch "a") with 97.
  destruct (Z.ltb_spec d 10), up; lia.
Qed.

Lemma padded_value (up : bool) base w v :
  1 < base ≤ 16 → 0 ≤ v < base ^ Z.of_nat 64 → number_value base (pad_left true w (number_text up base v)) = v.
Proof. intros Hb Hv. unfold pad_left. rewrite number_value_zeros. by apply number_value_text. Qed.

(** A decimal text without a sign is read as what it is. *)
Lemma signed_value_padded w v :
  0 ≤ v < 10 ^ Z.of_nat 64 → signed_value (pad_left true w (number_text false 10 v)) = v.
Proof.
  intros Hv. transitivity (number_value 10 (pad_left true w (number_text false 10 v))); [|apply padded_value; lia].
  unfold pad_left. destruct (Z.to_nat _) as [|n]; simpl; [|done].
  destruct (decide (v = 0)) as [->|Hne]; [done|].
  destruct (number_text_head false 10 v ltac:(lia) ltac:(lia)) as (c & t & Ht & _).
  assert (Hc : c ≠ ch "-").
  { assert (Hin : c ∈ number_text false 10 v) by (rewrite Ht; left). unfold number_text in Hin.
    apply list_elem_of_fmap in Hin as (d & -> & Hd). apply numeral_digits in Hd; [|lia..]. unfold digit_char.
    change (ch "0") with 48. change (ch "-") with 45. change (ch "a") with 97. destruct (Z.ltb_spec d 10); lia. }
  rewrite Ht. unfold signed_value. by rewrite (proj2 (Z.eqb_neq _ _) Hc).
Qed.

(** The text of a number reads back as the number. Every 64-bit value, in
    decimal and in hexadecimal of either case, zero-padded to any width, and
    every signed value, [INT64_MIN] included; a positive number has no leading
    zero before padding, and the text is at least [width] characters. *)
Theorem printf_number_roundtrip base v (up : bool) w :
  base = 10 ∨ base = 16 → 0 ≤ w ≤ INT_MAX →
  (0 ≤ v < 2 ^ 64 → ∃ t, emit_unsigned collect [] v base up w true = Ok t ∧
     number_value base t = v ∧ w ≤ Z.of_nat (length t)) ∧
  (0 < v < 2 ^ 64 → ∃ c t, emit_unsigned collect [] v base up 0 false = Ok (c :: t) ∧
     number_value base (c :: t) = v ∧ c ≠ ch "0") ∧
  (- 2 ^ 63 ≤ v < 2 ^ 63 → ∃ t, emit_signed collect [] v w true = Ok t ∧ signed_value t = v ∧
     w ≤ Z.of_nat (length t)).
Proof.
  intros Hb Hw. assert (Hb' : 1 < base ≤ 16) by lia.
  assert (Hpow : 2 ^ 64 ≤ base ^ Z.of_nat 64) by (destruct Hb as [->| ->]; by vm_compute).
  assert (H10 : 2 ^ 64 ≤ 10 ^ Z.of_nat 64) by by vm_compute.
  split_and!.
  - intros Hv. eexists. split; [by apply collect_unsigned|]. split; [apply padded_value; lia | apply pad_left_length].
  - intros Hv. destruct (number_text_head up base v Hb' ltac:(lia)) as (c & t & Ht & Hc).
    assert (Hp : pad_left false 0 (number_text up base v) = c :: t).
    { unfold pad_left. rewrite Ht. replace (Z.to_nat _) with O by (simpl; lia). done. }
    exists c, t. split_and!; [| | done].
    + rewrite <-Hp. apply collect_unsigned; [done | lia | unfold INT_MAX; lia].
    + rewrite <-Ht. apply number_value_text; lia.
  - intros Hv. rewrite (emit_signed_spec collect (λ _, True)) by done. rewrite collect_all, app_nil_l.
    eexists. split; [done|]. unfold render_signed. destruct (Z.ltb_spec v 0) as [Hneg|Hpos]; split.
    + unfold signed_value. rewrite Z.eqb_refl, padded_value; lia.
    + cbn [length]. pose proof (pad_left_length true (Z.max 0 (w - 1)) (number_text false 10 (- v))). lia.
    + apply signed_value_padded. lia.
    + apply pad_left_length.
Qed.

(** A format that ends after the digits of a width is read past its end: the
    terminator is taken for the conversion character, and the scan goes on
    behind it. *)
Theorem kvprintf_overrun {St : Type} (emit : St → Z → res St) (s_mem : St → mem) m st fmt d ap :
  (∀ st c, s_mem st = m → ∃ st', emit st c = Ok st' ∧ s_mem st' = m) → s_mem st = m →
  is_digit d = true → cstr m fmt [ch "%"; d] → m !! (fmt + 3) = None →
  kvprintf emit s_mem st fmt ap = UB.
Proof.
  intros He Hm Hd Hs Hend. unfold kvprintf.
  pose proof (cstr_size _ _ _ Hs) as Hsz. simpl in Hsz.
  pose proof (cstr_tail _ _ _ _ Hs) as Hs1. pose proof (cstr_tail _ _ _ _ Hs1) as Hs2.
  destruct (cstr_head _ _ _ _ Hs1) as [_ Hd0]. pose proof (digit_range d Hd) as Hdr.
  change (ch "0") with 48 in Hdr.
  rewrite Hm. unfold mem_fuel at 1. destruct (size m) as [|[|f]] eqn:Hf; [lia..|].
  remember (S (S f)) as n1 eqn:Hn1. cbn [kvprintf_loop]. rewrite Hm, (cstr_char _ _ _ Hs). cbn [mbind res_bind]. change (ch "%" =? 0) with false.
  cbn [negb]. rewrite Z.eqb_refl. cbn [negb].
  rewrite (cstr_char _ _ _ Hs1). cbn [mbind res_bind].
  rewrite (proj2 (Z.eqb_neq d 0)) by lia.
  assert (Hgo : ∀ w z n p, p = fmt + 1 + 1 →
    (c ← load8 m p;
     '(st, ap) ← convert emit s_mem st ap c z w n;
     kvprintf_loop emit s_mem n1 st (p + 1) ap) = UB).
  { intros w z n p ->. rewrite (cstr_char _ _ _ Hs2). cbn [mbind res_bind]. unfold convert. simpl.
    destruct (He st (ch "%") Hm) as (st1 & -> & Hm1). cbn [mbind res_bind].
    destruct (He st1 0 Hm1) as (st2 & -> & Hm2). cbn [mbind res_bind].
    rewrite Hn1. cbn [kvprintf_loop]. unfold load8. rewrite Hm2.
    replace (fmt + 1 + 1 + 1) with (fmt + 3) by lia. by rewrite Hend. }
  destruct (Z.eqb_spec d (ch "0")) as [->|Hne].
  - rewrite (width_loop_spec _ _ _ _ [] [] []); [| done | done | lia | by vm_compute | simpl; unfold mem_fuel; lia].
    cbn [mbind res_bind]. rewrite (length_loop_spec _ _ _ _ [] 0 []);
      [| by rewrite Z.add_0_r | done | lia | by vm_compute | simpl; unfold mem_fuel; lia].
    cbn [mbind res_bind]. apply (Hgo _ _ (0 + Z.of_nat 0)). simpl. lia.
  - rewrite (width_loop_spec _ _ _ _ [d] [d] []);
      [| done | simpl; by rewrite Hd | lia | | simpl; unfold mem_fuel; lia].
    + cbn [mbind res_bind]. rewrite (length_loop_spec _ _ _ _ [] 0 []);
        [| simpl; exact Hs2 | done | lia | by vm_compute | simpl; unfold mem_fuel; lia].
      cbn [mbind res_bind]. apply (Hgo _ _ (0 + Z.of_nat 0)). simpl. lia.
    + simpl. change (ch "0") with 48. unfold INT_MAX. lia.
Qed.

(** ** Witnesses: a format, a string and a buffer in memory *)

Fixpoint put_str (m : mem) (a : Z) (l : list Z) : mem :=
  match l with [] => <[a := 0]> m | b :: l => <[a := b]> (put_str m (a + 1) l) end.

Fixpoint cstr_check (m : mem) (p : Z) (l : list Z) : bool :=
  match l with
  | [] => bool_decide (m !! p = Some 0)
  | b :: l => bool_decide (m !! p = Some b) && (0 <? b) && (b <? 256) && cstr_check m (p + 1) l
  end.

Lemma cstr_check_sound m p l : cstr_check m p l = true → cstr m p l.
Proof.
  revert p. induction l as [|b l IH]; intros p; simpl.
  - intros H%bool_decide_eq_true_1. by apply cstr_nil.
  - rewrite !andb_true_iff, !Z.ltb_lt, bool_decide_eq_true. intros [[[Hb H0] H1] Hl].
    destruct (IH _ Hl) as [Hc Hn]. split.
    + intros [|i] c Hi; simpl in Hi; [injection Hi as <-; by rewrite Z.add_0_r|].
      replace (p + Z.of_nat (S i)) with (p + 1 + Z.of_nat i) by lia. by apply Hc.
    + simpl. by replace (p + Z.of_nat (S (length l))) with (p + 1 + Z.of_nat (length l)) by lia.
Qed.

Definition ex_fmt : list Z := lit "%05d|%s|%x".
Definition ex_str (a : Z) : option (list Z) := if a =? 0x3000 then Some (lit "ok") else None.
Definition ex_fmt_mem : mem := put_str (put_str (zeros 0x1000 8) 0x2000 ex_fmt) 0x3000 (lit "ok").
Definition ex_args : list Z := [u64 (-42); 0x3000; 255].
Definition ex_out : list Z := lit "-0042|ok|ff".

Lemma ex_str_ok a s :
  ex_str a = Some s → cstr ex_fmt_mem a s ∧ Z.of_nat (length s) ≤ INT_MAX ∧
    ∀ x, in_range a (Z.of_nat (length s) + 1) x → ¬ in_range 0x1000 8 x.
Proof.
  unfold ex_str. destruct (Z.eqb_spec a 0x3000) as [->|]; [|done]. intros [= <-].
  split_and!; [apply cstr_check_sound; vm_compute; reflexivity | by vm_compute |].
  intros x Hx. change (Z.of_nat (length (lit "ok")) + 1) with 3 in Hx. unfold in_range in *. lia.
Qed.

Lemma kvprintf_correct_witness :
  kvprintf collect (λ _, ex_fmt_mem) [] 0x2000 ex_args = Ok ex_out.
Proof.
  destruct (parse_format ex_fmt) as [ds|] eqn:Hp; [|vm_compute in Hp; discriminate].
  rewrite (kvprintf_correct collect (λ _, ex_fmt_mem) (λ _, True) ex_str [] 0x2000 ex_fmt ds ex_args ex_out).
  - rewrite collect_all. reflexivity.
  - intros _ _ _ _ _. exact I.
  - intros _ a s _ Ha. destruct (ex_str_ok a s Ha) as (H1 & H2 & _). exact (conj H1 H2).
  - intros _ _. apply cstr_check_sound. vm_compute. reflexivity.
  - exact I.
  - exact Hp.
  - vm_compute in Hp. injection Hp as <-. vm_compute. reflexivity.
Defined.

Lemma put_str_addr (m : mem) a l :
  (∀ x, is_Some (m !! x) → 0 ≤ x < 2 ^ 64) → 0 ≤ a → a + Z.of_nat (length l) < 2 ^ 64 →
  ∀ x, is_Some (put_str m a l !! x) → 0 ≤ x < 2 ^ 64.
Proof.
  intros Hm. revert a. induction l as [|b l IH]; intros a Ha Hl x; simpl in *;
    rewrite lookup_insert_is_Some; intros [<-|[_ Hx]]; try lia; [by apply Hm|].
  apply (IH (a + 1)); [lia | lia | done].
Qed.

Lemma ksnprintf_correct_witness :
  ∃ m', ksnprintf ex_fmt_mem 0x1000 8 0x2000 ex_args = Ok (11, m') ∧ m' !! 0x1007 = Some 0.
Proof.
  destruct (parse_format ex_fmt) as [ds|] eqn:Hp; [|vm_compute in Hp; discriminate].
  destruct (ksnprintf_correct ex_fmt_mem 0x1000 8 0x2000 ex_args ex_fmt ds ex_str ex_out)
    as (m' & Hk & _ & Hbuf).
  - lia.
  - lia.
  - intros x Hx. apply (put_str_addr (put_str (zeros 0x1000 8) 0x2000 ex_fmt) 0x3000 (lit "ok"));
      [|lia | vm_compute; reflexivity | exact Hx].
    intros y Hy. apply (put_str_addr (zeros 0x1000 8) 0x2000 ex_fmt);
      [|lia | vm_compute; reflexivity | exact Hy].
    intros z [b Hz]. unfold zeros in Hz. rewrite zeros_from_lookup in Hz.
    destruct (decide _) as [Hr|]; [|discriminate Hz]. unfold in_range in Hr. lia.
  - intros x Hx. assert (Hc : (∀ i, (i < 8)%nat → is_Some (ex_fmt_mem !! (0x1000 + Z.of_nat i)))).
    { intros i Hi. do 8 (destruct i as [|i]; [vm_compute; eexists; reflexivity|]). lia. }
    replace x with (0x1000 + Z.of_nat (Z.to_nat (x - 0x1000))) by (unfold in_range in Hx; lia).
    apply Hc. unfold in_range in Hx. lia.
  - apply cstr_check_sound. vm_compute. reflexivity.
  - intros x Hx. change (Z.of_nat (length ex_fmt) + 1) with 11 in Hx. unfold in_range in *. lia.
  - exact ex_str_ok.
  - exact Hp.
  - vm_compute in Hp. injection Hp as <-. vm_compute. reflexivity.
  - vm_compute. reflexivity.
  - exists m'. split; [exact Hk|]. destruct (Hbuf ltac:(lia)) as [_ Hn]. exact Hn.
Defined.

Lemma printf_number_roundtrip_witness :
  ∃ t, emit_signed collect [] (- 2 ^ 63) 0 true = Ok t ∧ signed_value t = - 2 ^ 63.
Proof.
  destruct (printf_number_roundtrip 10 (- 2 ^ 63) false 0) as (_ & _ & Hs);
    [left; reflexivity | unfold INT_MAX; lia |].
  destruct (Hs ltac:(lia)) as (t & Ht & Hv & _). exists t. split; [exact Ht | exact Hv].
Defined.

Lemma kvprintf_overrun_witness :
  kvprintf collect (λ _, put_str ∅ 0x2000 (lit "%5")) [] 0x2000 [] = UB.
Proof.
  apply (kvprintf_overrun collect (λ _, put_str ∅ 0x2000 (lit "%5")) (put_str ∅ 0x2000 (lit "%5")) [] 0x2000 (ch "5") []).
  - intros st c _. exists (st ++ [c]). split; reflexivity.
  - reflexivity.
  - reflexivity.
  - apply cstr_check_sound. vm_compute. reflexivity.
  - vm_compute. reflexivity.
Defined.
