(* ===== verification/Acpi.v ===== *)
(** * ACPI tables (kernel/acpi/acpi.c)

    The RSDP, the root table and the tables it points to are bytes of memory,
    read through the direct map at the offsets the packed structures give them. *)

From S2P Require Import Prelude Word Mem CString BootInfo Printf.

(** ** Layout *)

(** [struct acpi_table_header] *)
Definition sizeof_table_header : Z := 36.
Definition hdr_length (m : mem) (t : Z) : res Z := load32 m (t + 4).

(** [struct acpi_rsdp] *)
Definition sizeof_rsdp : Z := 36.
Definition rsdp_revision (m : mem) (r : Z) : res Z := load8 m (r + 15).
Definition rsdp_rsdt_address (m : mem) (r : Z) : res Z := load32 m (r + 16).
Definition rsdp_xsdt_address (m : mem) (r : Z) : res Z := load64 m (r + 24).

(** The static variables. *)
Record acpi := mk_acpi {
  acpi_hhdm_offset : Z;
  root_table : Z;
  root_entry_count : Z;
  root_entries_are_64bit : bool;
}.

(** ** Operations *)

(** [memcmp(p, literal, n)] with a string literal, which is not in [m]. *)
Definition memcmp_lit (m : mem) (a : Z) (l : list Z) (n : Z) : res Z :=
  o ← for_break 0 n (λ i (_ : unit),
        x ← load8 m (a + i); y ← deref (l !! Z.to_nat i);
        if negb (x =? y) then Ok (inr (x - y)) else Ok (inl tt)) tt;
  match o with inr r => Ok r | inl _ => Ok 0 end.

Definition acpi_phys_to_virt (hhdm phys : Z) : Z := u64 (phys + hhdm).

Definition checksum_ok (m : mem) (data length : Z) : res bool :=
  sum ← for_range 0 length (λ i sum, b ← load8 m (data + i); Ok (u8 (sum + b))) 0;
  Ok (sum =? 0).

(** [a != 0 || !b], the second operand evaluated only when needed. *)
Definition bad_root (m : mem) (table : Z) (signature : list Z) : res bool :=
  c ← memcmp_lit m table signature 4;
  if negb (c =? 0) then Ok true
  else len ← hdr_length m table; ok ← checksum_ok m table len; Ok (negb ok).

Definition acpi_init (r : limine_responses) (m : mem) : res acpi :=
  hhdm ← boot_get_hhdm_offset r;
  match boot_get_rsdp r with
  | None => Panic "acpi: bootloader did not answer the RSDP request"
  | Some rsdp =>
      c ← memcmp_lit m rsdp (lit "RSD PTR ") 8;
      if negb (c =? 0) then Panic "acpi: RSDP signature mismatch"
      else
        ok ← checksum_ok m rsdp 20;
        if negb ok then Panic "acpi: RSDP (v1) checksum mismatch"
        else
          rev ← rsdp_revision m rsdp;
          v2 ← (if 2 <=? rev then checksum_ok m rsdp sizeof_rsdp else Ok false);
          if (v2 : bool) then
            addr ← rsdp_xsdt_address m rsdp;
            let xsdt := acpi_phys_to_virt hhdm addr in
            bad ← bad_root m xsdt (lit "XSDT");
            if (bad : bool) then Panic "acpi: XSDT signature or checksum mismatch"
            else
              len ← hdr_length m xsdt;
              Ok (mk_acpi hhdm xsdt (u32 (len - sizeof_table_header) / 8) true)
          else
            addr ← rsdp_rsdt_address m rsdp;
            let rsdt := acpi_phys_to_virt hhdm addr in
            bad ← bad_root m rsdt (lit "RSDT");
            if (bad : bool) then Panic "acpi: RSDT signature or checksum mismatch"
            else
              len ← hdr_length m rsdt;
              Ok (mk_acpi hhdm rsdt (u32 (len - sizeof_table_header) / 4) false)
  end.

(** The loop body: the entry read, the table it points to compared. [inr] is
    the [return]. *)
Definition find_step (s : acpi) (m : mem) (signature : list Z) (i : Z) (_ : unit) : res (unit + Z) :=
  let entries := root_table s + sizeof_table_header in
  table_phys ← (if root_entries_are_64bit s then load64 m (entries + u32 (i * 8))
                else load32 m (entries + u32 (i * 4)));
  let table := acpi_phys_to_virt (acpi_hhdm_offset s) table_phys in
  c ← memcmp_lit m table signature 4;
  if c =? 0 then
    len ← hdr_length m table;
    ok ← checksum_ok m table len;
    if negb ok then Panic (panicf "acpi: %s table checksum mismatch" [PStr signature]) else Ok (inr table)
  else Ok (inl tt).

Definition acpi_find_table (s : acpi) (m : mem) (signature : list Z) : res Z :=
  o ← for_break 0 (root_entry_count s) (find_step s m signature) tt;
  match o with inr table => Ok table | inl _ => Ok 0 end.

(** The search returns or panics, whatever the memory holds. *)
Lemma memcmp_lit_no_fuel m a l n : memcmp_lit m a l n ≠ Fuel.
Proof. unfold memcmp_lit, for_break. apply bind_no_fuel; [apply for_loop_break_no_fuel|]; no_fuel. Qed.

Lemma checksum_no_fuel m a n : checksum_ok m a n ≠ Fuel.
Proof. unfold checksum_ok, for_range. apply bind_no_fuel; [apply for_loop_no_fuel|]; no_fuel. Qed.

#[export] Hint Resolve memcmp_lit_no_fuel checksum_no_fuel : fuel.

Lemma acpi_find_table_no_fuel s m sig : acpi_find_table s m sig ≠ Fuel.
Proof.
  unfold acpi_find_table, for_break. apply bind_no_fuel; [apply for_loop_break_no_fuel|]; [|no_fuel].
  intros i u. unfold find_step, hdr_length, load64, load32. no_fuel.
Qed.

(** ** Specification: tables as byte strings *)

Definition bytes_at (m : mem) (a : Z) (l : list Z) : Prop :=
  ∀ i b, l !! i = Some b → m !! (a + Z.of_nat i) = Some b.

Definition le_value (l : list Z) : Z := foldr (λ b v, b + 256 * v) 0 l.

(** The [n]-byte field at offset [k]. *)
Definition field (n k : nat) (l : list Z) : Z := le_value (take n (drop k l)).

Definition byte_sum (l : list Z) : Z := foldl Z.add 0 l.

(** The bytes of a table as long as its length field says. *)
Definition table_at (m : mem) (a : Z) (t : list Z) : Prop :=
  bytes_at m a t ∧ (8 ≤ length t)%nat ∧ field 4 4 t = Z.of_nat (length t).

Definition table_valid (signature t : list Z) : bool :=
  bool_decide (take 4 t = signature) && (byte_sum t mod 256 =? 0).

(** The physical addresses in a root table with entries of [w] bytes. *)
Definition root_entries (w : nat) (t : list Z) : list Z :=
  (λ i, field w (36 + w * i) t) <$> seq 0 ((length t - 36) / w).

Definition rsdp_valid (r : list Z) : bool :=
  bool_decide (take 8 r = lit "RSD PTR ") && (byte_sum (take 20 r) mod 256 =? 0).

(** Whether the XSDT is used, its address or the RSDT's, and the entry width. *)
Definition rsdp_v2 (r : list Z) : bool :=
  (2 <=? field 1 15 r) && (byte_sum r mod 256 =? 0).
Definition rsdp_root (r : list Z) : Z * Z * list Z :=
  if rsdp_v2 r then (field 8 24 r, 8, lit "XSDT") else (field 4 16 r, 4, lit "RSDT").

(** The first check that the RSDP [r] or the root table [t] fails. *)
Definition acpi_error (r t : list Z) : option panic_call :=
  if negb (bool_decide (take 8 r = lit "RSD PTR ")) then Some (panic_text "acpi: RSDP signature mismatch")
  else if negb (byte_sum (take 20 r) mod 256 =? 0) then Some (panic_text "acpi: RSDP (v1) checksum mismatch")
  else if table_valid (rsdp_root r).2 t then None
  else Some (panic_text (if rsdp_v2 r then "acpi: XSDT signature or checksum mismatch"
                         else "acpi: RSDT signature or checksum mismatch")).

(** ** Lemmas: byte strings in memory *)

Lemma bytes_at_load m a l n k :
  bytes_at m a l → (k + n ≤ length l)%nat → load_le n m (a + Z.of_nat k) = Ok (field n k l).
Proof.
  intros Hb. revert k. induction n as [|n IH]; intros k Hk; simpl; [done|].
  destruct (lookup_lt_is_Some_2 l k) as [b Hl]; [lia|].
  unfold load8. rewrite (Hb k b Hl). simpl.
  replace (a + Z.of_nat k + 1) with (a + Z.of_nat (S k)) by lia. rewrite IH by lia. simpl.
  unfold field. rewrite (drop_S _ _ _ Hl). done.
Qed.

Lemma bytes_at_byte m a l k : bytes_at m a l → (k < length l)%nat → load8 m (a + Z.of_nat k) = Ok (field 1 k l).
Proof.
  intros Hb Hk. destruct (lookup_lt_is_Some_2 l k) as [b Hl]; [lia|].
  unfold load8, field. rewrite (Hb k b Hl), (drop_S _ _ _ Hl). simpl. f_equal. lia.
Qed.

Lemma bytes_at_drop m a l k : bytes_at m a l → bytes_at m (a + Z.of_nat k) (drop k l).
Proof. intros Hb i b Hi. rewrite lookup_drop in Hi. rewrite <-(Hb _ _ Hi). f_equal. lia. Qed.

Lemma byte_sum_snoc l b : byte_sum (l ++ [b]) = byte_sum l + b.
Proof. unfold byte_sum. by rewrite foldl_app. Qed.

Lemma checksum_spec m a l n :
  bytes_at m a l → n = Z.of_nat (length l) → checksum_ok m a n = Ok (byte_sum l mod 256 =? 0).
Proof.
  intros Hb ->. unfold checksum_ok.
  destruct (for_range_spec (λ i s, s = byte_sum (take (Z.to_nat i) l) mod 256) 0 (Z.of_nat (length l))
    (λ i sum, b ← load8 m (a + i); Ok (u8 (sum + b))) 0) as (s & -> & ->); [lia | done | |].
  - intros i s Hi ->. destruct (lookup_lt_is_Some_2 l (Z.to_nat i)) as [b Hl]; [lia|].
    pose proof (Hb _ _ Hl) as Hm. rewrite Z2Nat.id in Hm by lia. unfold load8. rewrite Hm. simpl.
    eexists. split; [done|]. replace (Z.to_nat (i + 1)) with (S (Z.to_nat i)) by lia.
    rewrite (take_S_r _ _ _ Hl), byte_sum_snoc. unfold u8. by rewrite Z.add_mod_idemp_l.
  - simpl. by rewrite Nat2Z.id, take_ge by lia.
Qed.

Lemma memcmp_lit_spec m a l s :
  bytes_at m a l → (length s ≤ length l)%nat →
  ∃ r, memcmp_lit m a s (Z.of_nat (length s)) = Ok r ∧ (r = 0 ↔ take (length s) l = s).
Proof.
  intros Hb Hlen. unfold memcmp_lit.
  destruct (for_break_spec (λ i (_ : unit), take (Z.to_nat i) l = take (Z.to_nat i) s)
    (λ r, r ≠ 0 ∧ take (length s) l ≠ s) 0 (Z.of_nat (length s)) (λ i (_ : unit),
        x ← load8 m (a + i); y ← deref (s !! Z.to_nat i);
        if negb (x =? y) then Ok (inr (x - y)) else Ok (inl tt)) tt) as (o & -> & HQ); [lia | done | |].
  - intros i [] Hi Heq. destruct (lookup_lt_is_Some_2 l (Z.to_nat i)) as [b Hl]; [lia|].
    destruct (lookup_lt_is_Some_2 s (Z.to_nat i)) as [c Hc]; [lia|].
    pose proof (Hb _ _ Hl) as Hm. rewrite Z2Nat.id in Hm by lia. unfold load8. rewrite Hm, Hc. simpl.
    destruct (Z.eqb_spec b c) as [->|Hne]; simpl; eexists; (split; [done|]); simpl.
    + replace (Z.to_nat (i + 1)) with (S (Z.to_nat i)) by lia.
      by rewrite (take_S_r _ _ _ Hl), (take_S_r _ _ _ Hc), Heq.
    + split; [lia|]. intros Ht. rewrite <-Ht, lookup_take_lt in Hc by lia. congruence.
  - destruct o as [u|r]; simpl.
    + exists 0. rewrite Nat2Z.id, (take_ge s) in HQ by lia. split; [done|]. done.
    + exists r. split; [done|]. tauto.
Qed.

Lemma hdr_length_spec m a t : table_at m a t → hdr_length m a = Ok (Z.of_nat (length t)).
Proof.
  intros (Hb & H8 & Hl). unfold hdr_length. change 4 with (Z.of_nat 4).
  rewrite <-Hl. by apply bytes_at_load.
Qed.

Lemma bad_root_spec m a t s :
  table_at m a t → length s = 4%nat → bad_root m a s = Ok (negb (table_valid s t)).
Proof.
  intros Ht Hs. unfold bad_root, table_valid.
  destruct (memcmp_lit_spec m a t s) as (r & Hr & Hiff); [apply Ht | destruct Ht as (_ & ? & _); lia|].
  rewrite Hs in Hr, Hiff. change (Z.of_nat 4) with 4 in Hr. rewrite Hr. cbn [mbind res_bind].
  destruct (Z.eqb_spec r 0) as [H0|Hne]; cbn [negb].
  - rewrite (hdr_length_spec m a t Ht). cbn [mbind res_bind].
    rewrite (checksum_spec m a t) by (try apply Ht; done). cbn [mbind res_bind].
    by rewrite bool_decide_true by tauto.
  - by rewrite bool_decide_false by tauto.
Qed.

(** ** Lemmas: the root *)

Lemma rsdp_fields m a r :
  bytes_at m a r → length r = 36%nat →
  rsdp_revision m a = Ok (field 1 15 r) ∧ rsdp_rsdt_address m a = Ok (field 4 16 r) ∧
  rsdp_xsdt_address m a = Ok (field 8 24 r) ∧
  checksum_ok m a 20 = Ok (byte_sum (take 20 r) mod 256 =? 0) ∧
  checksum_ok m a sizeof_rsdp = Ok (byte_sum r mod 256 =? 0).
Proof.
  intros Hb Hl. split_and!.
  - unfold rsdp_revision. change 15 with (Z.of_nat 15). apply bytes_at_byte; [done | lia].
  - unfold rsdp_rsdt_address. change 16 with (Z.of_nat 16). apply bytes_at_load; [done | lia].
  - unfold rsdp_xsdt_address. change 24 with (Z.of_nat 24). apply bytes_at_load; [done | lia].
  - apply checksum_spec; [|rewrite length_take; lia]. intros i b [Hi _]%lookup_take_Some. by apply Hb.
  - apply checksum_spec; [done | rewrite Hl; done].
Qed.

Lemma acpi_error_none r t : acpi_error r t = None ↔ rsdp_valid r && table_valid (rsdp_root r).2 t = true.
Proof.
  unfold acpi_error, rsdp_valid. destruct (bool_decide _), (byte_sum (take 20 r) mod 256 =? 0), (table_valid _ t); simpl; done.
Qed.

(** [acpi_init] for RSDP bytes [r] and root table bytes [t]; the root is only
    read when the RSDP is valid. *)
Lemma acpi_init_spec resp hhdm m a r t :
  hhdm_response resp = Some hhdm → rsdp_response resp = Some a →
  bytes_at m a r → length r = 36%nat →
  let '(phys, w, _) := rsdp_root r in
  (rsdp_valid r = true → table_at m (acpi_phys_to_virt hhdm phys) t) →
  acpi_init resp m =
    match acpi_error r t with
    | Some msg => Panic msg
    | None => Ok (mk_acpi hhdm (acpi_phys_to_virt hhdm phys) (u32 (Z.of_nat (length t) - 36) / w) (rsdp_v2 r))
    end.
Proof.
  intros Hh Hr Hb Hl. destruct (rsdp_fields m a r Hb Hl) as (Frev & Frsdt & Fxsdt & C1 & C2).
  destruct (memcmp_lit_spec m a r (lit "RSD PTR ") Hb) as (c & Hc & Hiff); [rewrite Hl; simpl; lia|].
  change (Z.of_nat (length (lit "RSD PTR "))) with 8 in Hc.
  change (length (lit "RSD PTR ")) with 8%nat in Hiff.
  assert (Hv2 : (if 2 <=? field 1 15 r then checksum_ok m a sizeof_rsdp else Ok false) = Ok (rsdp_v2 r)).
  { unfold rsdp_v2. destruct (2 <=? field 1 15 r); [exact C2 | done]. }
  unfold rsdp_valid, acpi_error, acpi_init, boot_get_hhdm_offset, boot_get_rsdp. rewrite Hh, Hr. cbn [deref mbind res_bind].
  rewrite Hc. cbn [mbind res_bind]. unfold rsdp_root. destruct (rsdp_v2 r) eqn:Hv; intros Ht;
    (destruct (Z.eqb_spec c 0) as [H0|Hne]; cbn [negb];
      [rewrite bool_decide_true in * by tauto | rewrite bool_decide_false by tauto; reflexivity]);
    rewrite C1; cbn [mbind res_bind];
    (destruct (byte_sum (take 20 r) mod 256 =? 0); cbn [negb andb] in *; [specialize (Ht eq_refl) | reflexivity]);
    rewrite Frev; cbn [mbind res_bind]; rewrite Hv2; cbn [mbind res_bind];
    rewrite ?Fxsdt, ?Frsdt; cbn [mbind res_bind];
    rewrite (bad_root_spec _ _ t) by done; cbn [mbind res_bind snd];
    (destruct (table_valid _ t); cbn [negb]; [|reflexivity]);
    by rewrite (hdr_length_spec _ _ t Ht).
Qed.

(** ** Lemmas: the search *)

(** The state is that of a root table with bytes [t] and entries of [w]
    bytes. *)
Definition acpi_rep (s : acpi) (m : mem) (w : nat) (t : list Z) : Prop :=
  w = (if root_entries_are_64bit s then 8 else 4)%nat ∧
  bytes_at m (root_table s) t ∧ (36 ≤ length t)%nat ∧ Z.of_nat (length t) < 2 ^ 32 ∧
  root_entry_count s = (Z.of_nat (length t) - 36) / Z.of_nat w.

Lemma find_step_spec s m w t sig tb i p :
  acpi_rep s m w t → length sig = 4%nat → 0 ≤ i < root_entry_count s →
  p = field w (36 + w * Z.to_nat i) t → table_at m (acpi_phys_to_virt (acpi_hhdm_offset s) p) tb →
  find_step s m sig i tt =
    if decide (take 4 tb = sig) then
      if byte_sum tb mod 256 =? 0 then Ok (inr (acpi_phys_to_virt (acpi_hhdm_offset s) p))
      else Panic (panicf "acpi: %s table checksum mismatch" [PStr sig])
    else Ok (inl tt).
Proof.
  intros (Hw & Hb & H36 & Hlt & Hcnt) Hs Hi Hp Ht. unfold find_step.
  assert (Hin : (36 + w * Z.to_nat i + w ≤ length t)%nat).
  { assert (Hw0 : 0 < Z.of_nat w) by (destruct (root_entries_are_64bit s); lia).
    pose proof (Z.div_mod (Z.of_nat (length t) - 36) (Z.of_nat w) ltac:(lia)) as Hdm.
    pose proof (Z.mod_pos_bound (Z.of_nat (length t) - 36) (Z.of_nat w) Hw0) as Hmb.
    rewrite Hcnt in Hi. assert ((i + 1) * Z.of_nat w ≤ Z.of_nat (length t) - 36) by nia. nia. }
  assert (Hentry : (if root_entries_are_64bit s then load64 m (root_table s + sizeof_table_header + u32 (i * 8))
    else load32 m (root_table s + sizeof_table_header + u32 (i * 4))) = Ok p).
  { rewrite Hp. rewrite <-(bytes_at_load _ _ _ w (36 + w * Z.to_nat i) Hb) by lia.
    unfold sizeof_table_header, load64, load32.
    destruct (root_entries_are_64bit s); subst w; rewrite u32_small by lia; f_equal; lia. }
  rewrite Hentry. cbn [mbind res_bind].
  destruct (memcmp_lit_spec m _ tb sig (proj1 Ht)) as (c & Hc & Hiff); [destruct Ht as (_ & ? & _); lia|].
  rewrite Hs in Hc, Hiff. change (Z.of_nat 4) with 4 in Hc. rewrite Hc. cbn [mbind res_bind].
  destruct (Z.eqb_spec c 0) as [H0|Hne]; [rewrite decide_True by tauto | rewrite decide_False by tauto; done].
  rewrite (hdr_length_spec m _ tb Ht). cbn [mbind res_bind].
  rewrite (checksum_spec m _ tb) by (try apply Ht; done). cbn [mbind res_bind].
  by destruct (byte_sum tb mod 256 =? 0).
Qed.

(** ** Properties *)

(** C36: [acpi_init] accepts exactly a valid RSDP (signature, checksum of the
    first 20 bytes) with a valid root table, the XSDT when the revision and the
    extended checksum allow it and the RSDT otherwise, and records its address
    and number of entries; every other case is a panic, with the message of the
    first check that fails: signature, checksum, root. *)
Theorem acpi_init_correct resp hhdm m a r t :
  hhdm_response resp = Some hhdm → rsdp_response resp = Some a →
  bytes_at m a r → length r = 36%nat →
  let '(phys, w, _) := rsdp_root r in
  (rsdp_valid r = true → table_at m (acpi_phys_to_virt hhdm phys) t) →
  acpi_init resp m =
    match acpi_error r t with
    | Some msg => Panic msg
    | None => Ok (mk_acpi hhdm (acpi_phys_to_virt hhdm phys) (u32 (Z.of_nat (length t) - 36) / w) (rsdp_v2 r))
    end.
Proof. apply acpi_init_spec. Qed.

(** The search, for its callers. *)
Lemma acpi_find_table_spec s m w t sig tb :
  acpi_rep s m w t → length sig = 4%nat →
  (∀ p, p ∈ root_entries w t → table_at m (acpi_phys_to_virt (acpi_hhdm_offset s) p) (tb p)) →
  acpi_find_table s m sig =
    match head (filter (λ p, take 4 (tb p) = sig) (root_entries w t)) with
    | Some p =>
        if byte_sum (tb p) mod 256 =? 0 then Ok (acpi_phys_to_virt (acpi_hhdm_offset s) p)
        else Panic (panicf "acpi: %s table checksum mismatch" [PStr sig])
    | None => Ok 0
    end.
Proof.
  intros Hrep Hs Htb. pose proof Hrep as (Hw & _ & H36 & Hlt & Hcnt). unfold acpi_find_table, for_break.
  assert (Hw0 : (0 < w)%nat) by (destruct (root_entries_are_64bit s); lia).
  assert (Hk : Z.to_nat (root_entry_count s - 0) = ((length t - 36) / w)%nat).
  { rewrite Hcnt, Z.sub_0_r. replace (Z.of_nat (length t) - 36) with (Z.of_nat (length t - 36)) by lia.
    rewrite <-Nat2Z.inj_div, Nat2Z.id. reflexivity. }
  rewrite Hk. unfold root_entries in *. set (n := ((length t - 36) / w)%nat) in *.
  assert (Hgen : ∀ k j, (j + k ≤ n)%nat →
    for_loop_break k (Z.of_nat j) (find_step s m sig) tt =
      match head (filter (λ p, take 4 (tb p) = sig) ((λ i, field w (36 + w * i) t) <$> seq j k)) with
      | Some p => if byte_sum (tb p) mod 256 =? 0 then Ok (inr (acpi_phys_to_virt (acpi_hhdm_offset s) p))
                  else Panic (panicf "acpi: %s table checksum mismatch" [PStr sig])
      | None => Ok (inl tt)
      end).
  { induction k as [|k IH]; intros j Hj; [done|]. cbn [for_loop_break seq fmap list_fmap].
    set (p := field w (36 + w * j) t).
    assert (Hp : p ∈ (λ i, field w (36 + w * i) t) <$> seq 0 n).
    { apply list_elem_of_fmap. exists j. split; [done|]. apply elem_of_seq. lia. }
    rewrite (find_step_spec s m w t sig (tb p) (Z.of_nat j) p); [| done | done | lia | by rewrite Nat2Z.id | by apply Htb].
    destruct (decide (take 4 (tb p) = sig)) as [He|Hne].
    - rewrite filter_cons_True by done. cbn [head]. by destruct (byte_sum (tb p) mod 256 =? 0).
    - rewrite filter_cons_False by done. cbn [mbind res_bind].
      replace (Z.of_nat j + 1) with (Z.of_nat (S j)) by lia. apply IH. lia. }
  pose proof (Hgen n 0%nat ltac:(lia)) as Hg. change (Z.of_nat 0) with 0 in Hg. rewrite Hg.
  destruct (head (filter _ _)) as [p|]; [|reflexivity]. by destruct (byte_sum (tb p) mod 256 =? 0).
Qed.

(** C37: [acpi_find_table] returns the first table of the root, in order, with
    the signature asked for, [NULL] when there is none, and panics when that
    table's checksum is wrong; it reads nothing but the root's entries and the
    tables they point to. *)
Theorem acpi_find_table_correct s m w t sig tb :
  acpi_rep s m w t → length sig = 4%nat →
  (∀ p, p ∈ root_entries w t → table_at m (acpi_phys_to_virt (acpi_hhdm_offset s) p) (tb p)) →
  acpi_find_table s m sig =
    match head (filter (λ p, take 4 (tb p) = sig) (root_entries w t)) with
    | Some p =>
        if byte_sum (tb p) mod 256 =? 0 then Ok (acpi_phys_to_virt (acpi_hhdm_offset s) p)
        else Panic (panicf "acpi: %s table checksum mismatch" [PStr sig])
    | None => Ok 0
    end.
Proof. apply acpi_find_table_spec. Qed.

(** A root table whose length field is less than its header makes the entry
    count wrap. *)
Theorem acpi_init_short_root resp hhdm m a r t :
  hhdm_response resp = Some hhdm → rsdp_response resp = Some a →
  bytes_at m a r → length r = 36%nat → rsdp_valid r = true →
  table_at m (acpi_phys_to_virt hhdm (rsdp_root r).1.1) t → table_valid (rsdp_root r).2 t = true →
  (length t < 36)%nat →
  ∃ s, acpi_init resp m = Ok s ∧ 2 ^ 28 ≤ root_entry_count s.
Proof.
  intros Hh Hr Hb Hl Hv Ht Htv Hshort. pose proof (acpi_init_spec resp hhdm m a r t Hh Hr Hb Hl) as Hs.
  assert (Hu : u32 (Z.of_nat (length t) - 36) = Z.of_nat (length t) - 36 + 2 ^ 32)
    by (symmetry; apply (Z.mod_unique _ _ (-1)); lia).
  assert (He : acpi_error r t = None) by (by rewrite acpi_error_none, Hv, Htv).
  rewrite He in Hs. unfold rsdp_root in *. destruct (rsdp_v2 r); cbn [fst snd] in *;
    eexists; (split; [exact (Hs (λ _, Ht))|]); simpl; rewrite Hu; dlia.
Qed.

(** ** Witnesses: an ACPI 2.0 machine with a MADT

    The RSDP at 0x100, an XSDT of one entry at 0x200, the MADT at 0x300 of the
    physical memory that the direct map shows at 0x10000: three processors, one
    of them disabled, an interrupt override and an I/O APIC. *)

Fixpoint le_bytes (n : nat) (v : Z) : list Z :=
  match n with O => [] | S n => v mod 256 :: le_bytes n (v / 256) end.

Definition header (sig : list Z) (len cs : Z) : list Z :=
  sig ++ le_bytes 4 len ++ [1; cs] ++ repeat 0 26.

(** The table with its checksum byte. *)
Definition make_table (sig body : list Z) : list Z :=
  let len := 36 + Z.of_nat (length body) in
  header sig len (- byte_sum (header sig len 0 ++ body) mod 256) ++ body.

Definition ex_madt : list Z :=
  make_table (lit "APIC")
    (le_bytes 4 0xfee00000 ++ le_bytes 4 1 ++
     [0; 8; 0; 0] ++ le_bytes 4 1 ++ [0; 8; 1; 1] ++ le_bytes 4 1 ++ [0; 8; 2; 2] ++ le_bytes 4 0 ++
     [2; 10; 0; 0; 2; 0; 0; 0; 0; 0] ++
     [1; 12; 0; 0] ++ le_bytes 4 0xfec00000 ++ le_bytes 4 0).

Definition ex_xsdt : list Z := make_table (lit "XSDT") (le_bytes 8 0x300).

Definition ex_rsdp : list Z :=
  let r cs cs2 := lit "RSD PTR " ++ [cs] ++ repeat 0 6 ++ [2] ++ le_bytes 4 0 ++ le_bytes 4 36 ++
                    le_bytes 8 0x200 ++ [cs2; 0; 0; 0] in
  let cs := - byte_sum (take 20 (r 0 0)) mod 256 in
  r cs (- byte_sum (r cs 0) mod 256).

Fixpoint put_bytes (m : mem) (a : Z) (l : list Z) : mem :=
  match l with [] => m | b :: l => <[a := b]> (put_bytes m (a + 1) l) end.

Definition ex_acpi_mem : mem :=
  put_bytes (put_bytes (put_bytes ∅ 0x10100 ex_rsdp) 0x10200 ex_xsdt) 0x10300 ex_madt.
Definition ex_acpi_boot : limine_responses := mk_responses true None (Some 0x10000) None None (Some 0x10100).
Definition ex_acpi : acpi := mk_acpi 0x10000 0x10200 1 true.

Fixpoint bytes_check (m : mem) (a : Z) (l : list Z) : bool :=
  match l with [] => true | b :: l => bool_decide (m !! a = Some b) && bytes_check m (a + 1) l end.

Lemma bytes_check_sound m a l : bytes_check m a l = true → bytes_at m a l.
Proof.
  revert a. induction l as [|b l IH]; intros a; simpl; [intros _ i c Hi; by rewrite lookup_nil in Hi|].
  rewrite andb_true_iff, bool_decide_eq_true. intros [Hb Hl] [|i] c Hi; simpl in Hi.
  - injection Hi as <-. by rewrite Z.add_0_r.
  - rewrite <-(IH _ Hl i c Hi). f_equal. lia.
Qed.

Lemma ex_xsdt_at : table_at ex_acpi_mem 0x10200 ex_xsdt.
Proof. split_and!; [apply bytes_check_sound | |]; vm_compute; [reflexivity | lia | reflexivity]. Qed.

Lemma ex_madt_at : table_at ex_acpi_mem 0x10300 ex_madt.
Proof. split_and!; [apply bytes_check_sound | |]; vm_compute; [reflexivity | lia | reflexivity]. Qed.

Lemma ex_acpi_rep : acpi_rep ex_acpi ex_acpi_mem 8 ex_xsdt.
Proof. split_and!; [done | apply ex_xsdt_at | | |]; vm_compute; [lia | done | done]. Qed.

Lemma acpi_init_correct_witness : acpi_init ex_acpi_boot ex_acpi_mem = Ok ex_acpi.
Proof.
  assert (Hr : bytes_at ex_acpi_mem 0x10100 ex_rsdp) by (apply bytes_check_sound; vm_compute; reflexivity).
  assert (Hlen : length ex_rsdp = 36%nat) by (vm_compute; reflexivity).
  pose proof (acpi_init_correct ex_acpi_boot 0x10000 ex_acpi_mem 0x10100 ex_rsdp ex_xsdt eq_refl eq_refl Hr Hlen) as H.
  assert (Hroot : rsdp_root ex_rsdp = (0x200, 8, lit "XSDT")) by (vm_compute; reflexivity).
  assert (Hv : acpi_error ex_rsdp ex_xsdt = None) by (vm_compute; reflexivity).
  assert (Ha : acpi_phys_to_virt 0x10000 0x200 = 0x10200) by (vm_compute; reflexivity).
  assert (Hc : u32 (Z.of_nat (length ex_xsdt) - 36) / 8 = 1) by (vm_compute; reflexivity).
  assert (H2 : rsdp_v2 ex_rsdp = true) by (vm_compute; reflexivity).
  rewrite Hroot, Ha, Hv, Hc, H2 in H. exact (H (λ _, ex_xsdt_at)).
Defined.

Lemma acpi_find_table_correct_witness : acpi_find_table ex_acpi ex_acpi_mem (lit "APIC") = Ok 0x10300.
Proof.
  rewrite (acpi_find_table_correct ex_acpi ex_acpi_mem 8 ex_xsdt (lit "APIC") (λ _, ex_madt) ex_acpi_rep eq_refl).
  - vm_compute. reflexivity.
  - intros p Hp. assert (Hps : root_entries 8 ex_xsdt = [0x300]) by (vm_compute; reflexivity).
    rewrite Hps in Hp. apply list_elem_of_singleton in Hp as ->. exact ex_madt_at.
Defined.
