(* ===== verification/Madt.v ===== *)
(** * The interrupt controllers' table (kernel/acpi/madt.c)

    The MADT is a header, two fixed fields and a stream of entries that give
    their own type and length; [madt_parse] walks it in memory. *)

From S2P Require Import Prelude Word Mem CString BootInfo Printf Acpi.

(** ** Data *)

Definition sizeof_madt : Z := 44.
Definition sizeof_entry_header : Z := 2.
Definition MADT_ENTRY_LOCAL_APIC : Z := 0.
Definition MADT_ENTRY_IOAPIC : Z := 1.
Definition LOCAL_APIC_FLAG_ENABLED : Z := 1.

Record madt_info := mk_madt {
  local_apic_address : Z;
  enabled_cpu_count : Z;
  have_ioapic : bool;
  ioapic_address : Z;
  ioapic_gsi_base : Z;
}.

(** ** Operations *)

(** The two [if]s on the entry's type, the entry at [cursor]. *)
Definition madt_entry (m : mem) (cursor type : Z) (out : madt_info) : res madt_info :=
  if type =? MADT_ENTRY_LOCAL_APIC then
    flags ← load32 m (cursor + 4);
    Ok (if negb (Z.land flags LOCAL_APIC_FLAG_ENABLED =? 0)
        then mk_madt (local_apic_address out) (u32 (enabled_cpu_count out + 1)) (have_ioapic out)
               (ioapic_address out) (ioapic_gsi_base out)
        else out)
  else if (type =? MADT_ENTRY_IOAPIC) && negb (have_ioapic out) then
    addr ← load32 m (cursor + 4);
    gsi ← load32 m (cursor + 8);
    Ok (mk_madt (local_apic_address out) (enabled_cpu_count out) true addr gsi)
  else Ok out.

(** One unit of fuel per entry. *)
Fixpoint madt_loop (fuel : nat) (m : mem) (cursor end_ : Z) (out : madt_info) : res madt_info :=
  match fuel with
  | O => Fuel
  | S fuel =>
      if cursor + sizeof_entry_header <=? end_ then
        len ← load8 m (cursor + 1);
        if (len =? 0) || (end_ <? cursor + len) then Ok out
        else
          type ← load8 m cursor;
          out ← madt_entry m cursor type out;
          madt_loop fuel m (cursor + len) end_ out
      else Ok out
  end.

Definition madt_parse (s : acpi) (m : mem) : res (bool * madt_info) :=
  let out := mk_madt 0 0 false 0 0 in
  madt ← acpi_find_table s m (lit "APIC");
  if madt =? 0 then Ok (false, out)
  else
    lapic ← load32 m (madt + 36);
    let out := mk_madt lapic (enabled_cpu_count out) (have_ioapic out) (ioapic_address out)
                 (ioapic_gsi_base out) in
    len ← hdr_length m madt;
    (* every entry is at least one byte long: one pass more than the bytes *)
    out ← madt_loop (S (Z.to_nat len)) m (madt + sizeof_madt) (madt + len) out;
    Ok (true, out).

(** ** Specification: the entries of the stream *)

Fixpoint split_entries (fuel : nat) (bs : list Z) : list (list Z) :=
  match fuel, bs with
  | S fuel, _ :: n :: _ =>
      if (n =? 0) || (Z.of_nat (length bs) <? n) then []
      else take (Z.to_nat n) bs :: split_entries fuel (drop (Z.to_nat n) bs)
  | _, _ => []
  end.

Definition madt_entries (t : list Z) : list (list Z) := split_entries (length t) (drop 44 t).

Definition is_entry (ty : Z) (e : list Z) : Prop := head e = Some ty.
#[global] Instance is_entry_dec ty e : Decision (is_entry ty e).
Proof. unfold is_entry. apply _. Defined.

Definition enabled_cpu (e : list Z) : Prop := is_entry 0 e ∧ Z.odd (field 4 4 e) = true.
#[global] Instance enabled_cpu_dec e : Decision (enabled_cpu e).
Proof. unfold enabled_cpu. apply _. Defined.

(** Long enough for the structure of its type. *)
Definition entry_ok (e : list Z) : Prop :=
  (is_entry 0 e → (8 ≤ length e)%nat) ∧ (is_entry 1 e → (12 ≤ length e)%nat).

Definition is_byte (b : Z) : Prop := 0 ≤ b < 256.

(** What the entries say: the processors counted, the first I/O APIC. *)
Definition madt_summary (lapic : Z) (es : list (list Z)) : madt_info :=
  let cpus := Z.of_nat (length (filter enabled_cpu es)) in
  match head (filter (is_entry 1) es) with
  | Some e => mk_madt lapic cpus true (field 4 4 e) (field 4 8 e)
  | None => mk_madt lapic cpus false 0 0
  end.

(** ** Lemmas *)

Lemma field_take n k j e : (k + n ≤ j)%nat → field n k (take j e) = field n k e.
Proof. intros H. unfold field. rewrite skipn_firstn_comm, take_take. f_equal. f_equal. lia. Qed.

Lemma land_1_odd x : negb (Z.land x LOCAL_APIC_FLAG_ENABLED =? 0) = Z.odd x.
Proof.
  unfold LOCAL_APIC_FLAG_ENABLED. change 1 with (Z.ones 1). rewrite Z.land_ones by lia.
  change (2 ^ 1) with 2. rewrite Zmod_odd. by destruct (Z.odd x).
Qed.

Definition add_entry (out : madt_info) (e : list Z) : madt_info :=
  if decide (enabled_cpu e) then
    mk_madt (local_apic_address out) (enabled_cpu_count out + 1) (have_ioapic out)
      (ioapic_address out) (ioapic_gsi_base out)
  else if decide (is_entry 1 e) then
    if have_ioapic out then out
    else mk_madt (local_apic_address out) (enabled_cpu_count out) true (field 4 4 e) (field 4 8 e)
  else out.

Lemma madt_entry_spec m cursor e out ty :
  bytes_at m cursor e → head e = Some ty → entry_ok e → 0 ≤ enabled_cpu_count out < 2 ^ 32 - 1 →
  madt_entry m cursor ty out = Ok (add_entry out e).
Proof.
  intros Hb Hty [H8 H12] Hcnt. unfold madt_entry, add_entry, MADT_ENTRY_LOCAL_APIC, MADT_ENTRY_IOAPIC.
  change (cursor + 4) with (cursor + Z.of_nat 4). change (cursor + 8) with (cursor + Z.of_nat 8).
  unfold load32. assert (Hno : ∀ k, ty ≠ k → ¬ is_entry k e) by (unfold is_entry; congruence).
  destruct (Z.eqb_spec ty 0) as [->|H0].
  - rewrite (bytes_at_load m cursor e 4 4 Hb) by (specialize (H8 Hty); lia). cbn [mbind res_bind].
    rewrite land_1_odd, u32_small by lia. f_equal. destruct (Z.odd (field 4 4 e)) eqn:Ho.
    + by rewrite decide_True by (split; done).
    + rewrite decide_False by (intros [_ ?]; congruence). by rewrite decide_False by (apply Hno; lia).
  - rewrite decide_False by (intros [? _]; by apply (Hno 0)). destruct (Z.eqb_spec ty 1) as [->|H1]; cbn [andb].
    + rewrite decide_True by done. destruct (have_ioapic out); cbn [negb]; [done|].
      rewrite !(bytes_at_load m cursor e) by (try done; specialize (H12 Hty); lia). done.
    + by rewrite decide_False by (apply Hno; lia).
Qed.

Lemma madt_loop_spec bs fuel sfuel m cursor out :
  bytes_at m cursor bs → Forall is_byte bs → Forall entry_ok (split_entries sfuel bs) →
  (length bs < fuel)%nat → (length bs ≤ sfuel)%nat →
  0 ≤ enabled_cpu_count out → enabled_cpu_count out + Z.of_nat (length bs) < 2 ^ 32 - 1 →
  madt_loop fuel m cursor (cursor + Z.of_nat (length bs)) out =
    Ok (foldl add_entry out (split_entries sfuel bs)).
Proof.
  revert bs sfuel cursor out. induction fuel as [|fuel IH]; intros bs sfuel cursor out Hb Hby Hok Hf Hsf H0 Hc; [lia|].
  cbn [madt_loop]. unfold sizeof_entry_header.
  destruct bs as [|ty [|n bs]].
  - rewrite (proj2 (Z.leb_gt _ _)) by (simpl; lia). by destruct sfuel.
  - rewrite (proj2 (Z.leb_gt _ _)) by (simpl; lia). by destruct sfuel.
  - destruct sfuel as [|sfuel]; [simpl in Hsf; lia|]. rewrite (proj2 (Z.leb_le _ _)) by (simpl; lia).
    remember (ty :: n :: bs) as l eqn:Hl.
    assert (Hn : m !! (cursor + 1) = Some n) by (apply (Hb 1%nat); by rewrite Hl).
    assert (Ht : m !! cursor = Some ty) by (rewrite <-(Z.add_0_r cursor); apply (Hb 0%nat); by rewrite Hl).
    assert (Hnb : is_byte n) by (rewrite Forall_forall in Hby; apply Hby; rewrite Hl; right; left).
    assert (Hsplit : split_entries (S sfuel) l = if (n =? 0) || (Z.of_nat (length l) <? n) then []
      else take (Z.to_nat n) l :: split_entries sfuel (drop (Z.to_nat n) l)) by by rewrite Hl.
    rewrite Hsplit in Hok |- *. unfold load8. rewrite Hn. cbn [deref mbind res_bind].
    assert (Hcond : (cursor + Z.of_nat (length l) <? cursor + n) = (Z.of_nat (length l) <? n))
      by (destruct (Z.ltb_spec (Z.of_nat (length l)) n), (Z.ltb_spec (cursor + Z.of_nat (length l)) (cursor + n)); lia || done).
    rewrite Hcond. destruct (Z.eqb_spec n 0) as [Hn0|Hn0]; [done|].
    destruct (Z.ltb_spec (Z.of_nat (length l)) n) as [Hlt|Hge]; [done|]. cbn [orb] in *.
    rewrite Ht. cbn [deref mbind res_bind]. apply Forall_cons in Hok as [He Hok]. unfold is_byte in Hnb.
    assert (Hlen : length l = S (S (length bs))) by by rewrite Hl.
    assert (Hhd : head (take (Z.to_nat n) l) = Some ty).
    { rewrite Hl. destruct (Z.to_nat n) eqn:Hz; [lia | done]. }
    rewrite (madt_entry_spec m cursor (take (Z.to_nat n) l)); [| | done | done | lia].
    + cbn [mbind res_bind foldl].
      set (out1 := add_entry out (take (Z.to_nat n) l)).
      assert (Hc1 : enabled_cpu_count out ≤ enabled_cpu_count out1 ≤ enabled_cpu_count out + 1).
      { unfold out1, add_entry. repeat case_decide; [simpl; lia | destruct (have_ioapic out); simpl; lia | lia]. }
      replace (cursor + Z.of_nat (length l)) with
        (cursor + n + Z.of_nat (length (drop (Z.to_nat n) l))) by (rewrite length_drop; lia).
      apply IH; rewrite ?length_drop; try lia; [| by apply Forall_drop | done].
      replace n with (Z.of_nat (Z.to_nat n)) at 1 by lia. by apply bytes_at_drop.
    + intros i b [Hi _]%lookup_take_Some. by apply Hb.
Qed.

Lemma fold_summary es out :
  foldl add_entry out es =
    let cpus := enabled_cpu_count out + Z.of_nat (length (filter enabled_cpu es)) in
    if have_ioapic out then
      mk_madt (local_apic_address out) cpus true (ioapic_address out) (ioapic_gsi_base out)
    else match head (filter (is_entry 1) es) with
      | Some e => mk_madt (local_apic_address out) cpus true (field 4 4 e) (field 4 8 e)
      | None => mk_madt (local_apic_address out) cpus false (ioapic_address out) (ioapic_gsi_base out)
      end.
Proof.
  revert out. induction es as [|e es IH]; intros out; cbn [foldl].
  - simpl. rewrite Z.add_0_r. destruct out as [? ? [] ? ?]; done.
  - rewrite IH. unfold add_entry. destruct (decide (enabled_cpu e)) as [He|He].
    + rewrite (filter_cons_True _ e) by done.
      rewrite (filter_cons_False (is_entry 1)) by (intros H1; destruct He as [He _]; unfold is_entry in *; congruence).
      cbn [enabled_cpu_count have_ioapic local_apic_address ioapic_address ioapic_gsi_base length].
      destruct (have_ioapic out); [f_equal; lia|]. destruct (head _); f_equal; lia.
    + rewrite (filter_cons_False enabled_cpu) by done. destruct (decide (is_entry 1 e)) as [H1|H1].
      * rewrite (filter_cons_True (is_entry 1)) by done. cbn [head]. by destruct (have_ioapic out) eqn:Hi; rewrite ?Hi.
      * by rewrite (filter_cons_False (is_entry 1)) by done.
Qed.

Lemma le_value_bound l : Forall is_byte l → 0 ≤ le_value l < 256 ^ Z.of_nat (length l).
Proof.
  induction 1 as [|b l Hb _ IH]; simpl; [lia|]. unfold is_byte in Hb.
  replace (Z.of_nat (S (length l))) with (Z.succ (Z.of_nat (length l))) by lia.
  rewrite Z.pow_succ_r by lia. lia.
Qed.

Lemma madt_loop_no_fuel m fuel cursor end_ out :
  (∀ x b, m !! x = Some b → is_byte b) → (0 < fuel)%nat → end_ - cursor < Z.of_nat fuel →
  madt_loop fuel m cursor end_ out ≠ Fuel.
Proof.
  intros Hby. revert cursor out. induction fuel as [|fuel IH]; intros cursor out H0 Hf; [lia|].
  cbn [madt_loop]. unfold sizeof_entry_header. destruct (Z.leb_spec (cursor + 2) end_) as [Hle|]; [|done].
  unfold load8, deref. destruct (m !! (cursor + 1)) as [len|] eqn:Hl; simpl; [|done].
  destruct (Z.eqb_spec len 0) as [|Hne]; simpl; [done|]. destruct (end_ <? cursor + len); [done|].
  pose proof (Hby _ _ Hl) as Hlen. unfold is_byte in Hlen.
  destruct (m !! cursor) as [ty|]; simpl; [|done].
  apply bind_no_fuel; [unfold madt_entry, load32; no_fuel|]. intros out'. apply IH; lia.
Qed.

(** ** Properties *)

(** The whole parse, for its callers. *)
Lemma madt_parse_spec s m a t :
  acpi_find_table s m (lit "APIC") = Ok a →
  (a = 0 → madt_parse s m = Ok (false, mk_madt 0 0 false 0 0)) ∧
  (a ≠ 0 → table_at m a t → (44 ≤ length t)%nat → Forall is_byte t →
   Z.of_nat (length t) < 2 ^ 32 - 1 → Forall entry_ok (madt_entries t) →
   madt_parse s m = Ok (true, madt_summary (field 4 36 t) (madt_entries t))).
Proof.
  intros Ha. unfold madt_parse. rewrite Ha. cbn [mbind res_bind]. split; [by intros ->|].
  intros Hne Ht H44 Hby Hlen Hok. rewrite (proj2 (Z.eqb_neq a 0)) by done.
  pose proof Ht as (Hb & _ & _). unfold load32. change (a + 36) with (a + Z.of_nat 36).
  rewrite (bytes_at_load m a t 4 36 Hb) by lia. cbn [mbind res_bind].
  rewrite (hdr_length_spec m a t Ht). cbn [mbind res_bind].
  cbn [enabled_cpu_count have_ioapic ioapic_address ioapic_gsi_base].
  unfold sizeof_madt. change (a + 44) with (a + Z.of_nat 44).
  replace (a + Z.of_nat (length t)) with (a + Z.of_nat 44 + Z.of_nat (length (drop 44 t)))
    by (rewrite length_drop; lia).
  rewrite (madt_loop_spec (drop 44 t) _ (length t)); rewrite ?length_drop, ?Nat2Z.id; try (simpl; lia).
  - cbn [mbind res_bind]. rewrite fold_summary. unfold madt_summary, madt_entries. cbn.
    destruct (head _); rewrite ?Z.add_0_l; done.
  - by apply bytes_at_drop.
  - by apply Forall_drop.
  - exact Hok.
Qed.

(** C38: for a table whose entries are as long as the structures of their types,
    [madt_parse] counts the enabled processors and reports the first I/O APIC
    and the local APIC address, skipping every other entry and stopping at the
    first malformed one; without a table it returns false. *)
Theorem madt_parse_correct s m a t :
  acpi_find_table s m (lit "APIC") = Ok a →
  (a = 0 → madt_parse s m = Ok (false, mk_madt 0 0 false 0 0)) ∧
  (a ≠ 0 → table_at m a t → (44 ≤ length t)%nat → Forall is_byte t →
   Z.of_nat (length t) < 2 ^ 32 - 1 → Forall entry_ok (madt_entries t) →
   madt_parse s m = Ok (true, madt_summary (field 4 36 t) (madt_entries t))).
Proof. apply madt_parse_spec. Qed.

(** C31: [madt_parse] always comes back, for any contents of memory, malformed
    tables included: every pass of its loop moves at least one byte ahead. *)
Theorem madt_parse_terminates s m :
  (∀ x b, m !! x = Some b → is_byte b) → madt_parse s m ≠ Fuel.
Proof.
  intros Hby. unfold madt_parse. apply bind_no_fuel; [apply acpi_find_table_no_fuel|]. intros a.
  destruct (a =? 0); [done|]. unfold hdr_length, load32.
  apply bind_no_fuel; [no_fuel|]. intros la. apply bind_no_fuel; [no_fuel|]. intros len.
  apply bind_no_fuel; [|no_fuel]. apply madt_loop_no_fuel; [done | lia | unfold sizeof_madt; lia].
Qed.

(** An entry shorter than the structure of its type is read past its end: here
    the last two bytes of the table say "local APIC, length 2", and its flags
    would lie behind the table. *)
Definition ex_short_madt : list Z := make_table (lit "APIC") (le_bytes 4 0xfee00000 ++ le_bytes 4 1 ++ [0; 2]).

Lemma madt_short_entry_overrun :
  table_valid (lit "APIC") ex_short_madt = true ∧
  madt_parse ex_acpi (put_bytes (put_bytes ∅ 0x10200 ex_xsdt) 0x10300 ex_short_madt) = UB.
Proof. split; vm_compute; reflexivity. Qed.

(** ** Witnesses *)

Lemma madt_parse_correct_witness :
  madt_parse ex_acpi ex_acpi_mem = Ok (true, mk_madt 0xfee00000 2 true 0xfec00000 0).
Proof.
  assert (Hf : acpi_find_table ex_acpi ex_acpi_mem (lit "APIC") = Ok 0x10300) by (vm_compute; reflexivity).
  destruct (madt_parse_correct ex_acpi ex_acpi_mem 0x10300 ex_madt Hf) as [_ Hok].
  rewrite (Hok ltac:(lia) ex_madt_at).
  - vm_compute. reflexivity.
  - vm_compute. lia.
  - apply Forall_forall. intros b Hb. assert (Hall : forallb (λ b, (0 <=? b) && (b <? 256)) ex_madt = true)
      by (vm_compute; reflexivity).
    rewrite forallb_forall in Hall. rewrite list_elem_of_In in Hb. specialize (Hall b Hb).
    apply andb_true_iff in Hall as [H1%Z.leb_le H2%Z.ltb_lt]. split; [exact H1 | exact H2].
  - vm_compute. reflexivity.
  - assert (He : madt_entries ex_madt = [[0; 8; 0; 0; 1; 0; 0; 0]; [0; 8; 1; 1; 1; 0; 0; 0]; [0; 8; 2; 2; 0; 0; 0; 0];
      [2; 10; 0; 0; 2; 0; 0; 0; 0; 0]; [1; 12; 0; 0; 0; 0; 192; 254; 0; 0; 0; 0]]) by (vm_compute; reflexivity).
    rewrite He. repeat constructor; simpl; intros; try lia; discriminate.
Defined.

Lemma madt_parse_terminates_witness : madt_parse ex_acpi (put_bytes ∅ 0x10200 ex_xsdt) ≠ Fuel.
Proof.
  apply madt_parse_terminates.
  assert (Hput : ∀ l a m, Forall is_byte l → (∀ x b, m !! x = Some b → is_byte b) →
    ∀ x b, put_bytes m a l !! x = Some b → is_byte b).
  { induction l as [|c l IH]; intros a m Hl Hm x b; simpl; [apply Hm|].
    apply Forall_cons in Hl as [Hc Hl]. rewrite lookup_insert_Some. intros [[_ <-]|[_ Hx]]; [exact Hc|].
    exact (IH (a + 1) m Hl Hm x b Hx). }
  apply Hput.
  - apply Forall_forall. intros b Hb. assert (Hall : forallb (λ b, (0 <=? b) && (b <? 256)) ex_xsdt = true)
      by (vm_compute; reflexivity).
    rewrite forallb_forall in Hall. rewrite list_elem_of_In in Hb. specialize (Hall b Hb).
    apply andb_true_iff in Hall as [H1%Z.leb_le H2%Z.ltb_lt]. split; [exact H1 | exact H2].
  - intros x b Hx. rewrite lookup_empty in Hx. discriminate Hx.
Defined.
