(* ===== verification/Io.v ===== *)
(** * Access to devices (kernel/arch/x86_64/cpu/io.h)

    The instructions that reach a device are the operations of an abstract
    machine [D]: port input and output, model-specific registers, and 32-bit
    accesses to memory-mapped registers through a [volatile] pointer. What a
    device does with them is stated by the classes of the drivers' files. *)

From S2P Require Import Prelude.

Class PortIO (D : Type) := {
  inb : D → Z → Z * D;
  outb : D → Z → Z → D;
}.

Class Msr (D : Type) := {
  rdmsr : D → Z → Z;
  wrmsr : D → Z → Z → D;
}.

Class Mmio (D : Type) := {
  read32 : D → Z → Z * D;
  write32 : D → Z → Z → D;
}.
