(* ===== verification/Keyboard.v ===== *)
(** * PS/2 keyboard (kernel/drivers/keyboard/keyboard.c)

    The interrupt handler decodes scancodes into a ring buffer that
    [keyboard_read_char] empties; the byte [inb] reads from the controller is
    an argument of the handler. Refined to a bounded first-in first-out
    queue. *)

From S2P Require Import Prelude Word Printf Io.
From Stdlib Require Import Ascii.

(** ** Tables and state *)

Definition SCANCODE_LEFT_SHIFT : Z := 0x2a.
Definition SCANCODE_RIGHT_SHIFT : Z := 0x36.
Definition SCANCODE_RELEASE_BIT : Z := 0x80.

(** From index 0x00 on, entries the initialiser does not name are 0. *)
Definition unshifted_table : list Z :=
  [0; 0] ++ lit "1234567890-=" ++ [8; 9] ++ lit "qwertyuiop[]" ++ [10; 0] ++
  lit "asdfghjkl;'`" ++ [0] ++ lit "\zxcvbnm,./" ++ [0; 0; 0] ++ lit " ".

(** 34 is the double quote. *)
Definition shifted_table : list Z :=
  [0; 0] ++ lit "!@#$%^&*()_+" ++ [8; 9] ++ lit "QWERTYUIOP{}" ++ [10; 0] ++
  lit "ASDFGHJKL:" ++ [34] ++ lit "~" ++ [0] ++ lit "|ZXCVBNM<>?" ++ [0; 0; 0] ++ lit " ".

Definition BUFFER_SIZE : Z := 256.

Record keyboard := mk_keyboard {
  buffer : list Z;
  buffer_head : Z;
  buffer_tail : Z;
  shift_held : bool;
}.

Definition keyboard_bss : keyboard := mk_keyboard (replicate 256 0) 0 0 false.

(** ** Operations *)

(** [buffer[i] = c] and [buffer[i]]. *)
Definition buffer_store (l : list Z) (i c : Z) : res (list Z) :=
  if (0 <=? i) && (i <? Z.of_nat (length l)) then Ok (<[Z.to_nat i := c]> l) else UB.
Definition buffer_load (l : list Z) (i : Z) : res Z :=
  if 0 <=? i then deref (l !! Z.to_nat i) else UB.

Definition buffer_push (k : keyboard) (c : Z) : res keyboard :=
  let next := u32 (buffer_head k + 1) mod BUFFER_SIZE in
  if next =? buffer_tail k then Ok k
  else
    b ← buffer_store (buffer k) (buffer_head k) c;
    Ok (mk_keyboard b next (buffer_tail k) (shift_held k)).

(** [keyboard_isr], the scancode being what [inb(PS2_DATA_PORT)] returned. *)
Definition keyboard_isr (k : keyboard) (scancode : Z) : res keyboard :=
  let released := negb (Z.land scancode SCANCODE_RELEASE_BIT =? 0) in
  let code := Z.land scancode (u8 (Z.lnot SCANCODE_RELEASE_BIT)) in
  if (code =? SCANCODE_LEFT_SHIFT) || (code =? SCANCODE_RIGHT_SHIFT) then
    Ok (mk_keyboard (buffer k) (buffer_head k) (buffer_tail k) (negb released))
  else if released || (Z.of_nat (length unshifted_table) <=? code) then Ok k
  else
    c ← (if shift_held k then deref (shifted_table !! Z.to_nat code)
         else deref (unshifted_table !! Z.to_nat code));
    if negb (c =? 0) then buffer_push k c else Ok k.

(** The handler as it is registered, with the byte from the controller. *)
Definition PS2_DATA_PORT : Z := 0x60.
Definition keyboard_irq {D} `{PortIO D} (d : D) (k : keyboard) : res (D * keyboard) :=
  let '(scancode, d) := inb d PS2_DATA_PORT in
  k ← keyboard_isr k scancode; Ok (d, k).

Definition keyboard_read_char (k : keyboard) : res (Z * keyboard) :=
  if buffer_tail k =? buffer_head k then Ok (0, k)
  else
    c ← buffer_load (buffer k) (buffer_tail k);
    Ok (c, mk_keyboard (buffer k) (buffer_head k) (u32 (buffer_tail k + 1) mod BUFFER_SIZE) (shift_held k)).

(** ** Specification: a bounded queue of characters *)

Inductive kb_event : Set :=
  | Scancode (b : Z)
  | Read.

Definition event_ok (e : kb_event) : Prop :=
  match e with Scancode b => 0 ≤ b < 256 | Read => True end.

(** The character of a key press. *)
Definition decode (shift : bool) (b : Z) : option Z :=
  if b <? 0x80 then
    c ← (if shift then shifted_table else unshifted_table) !! Z.to_nat b;
    if c =? 0 then None else Some c
  else None.

Definition is_shift (b : Z) : bool := (b mod 0x80 =? 0x2a) || (b mod 0x80 =? 0x36).

(** The queue keeps at most 255 characters: the newest ones are dropped. *)
Definition queue_step (s : list Z * bool) (e : kb_event) : list Z * (list Z * bool) :=
  let '(q, shift) := s in
  match e with
  | Scancode b =>
      if is_shift b then ([], (q, b <? 0x80))
      else match decode shift b with
        | Some c => ([], (if Nat.ltb (length q) 255 then q ++ [c] else q, shift))
        | None => ([], s)
        end
  | Read => match q with
      | [] => ([0], s)
      | c :: q => ([c], (q, shift))
      end
  end.

Fixpoint queue_run (s : list Z * bool) (es : list kb_event) : list Z :=
  match es with
  | [] => []
  | e :: es => let '(o, s) := queue_step s e in o ++ queue_run s es
  end.

(** The driver on the same events: the characters read, in order. *)
Fixpoint keyboard_run (k : keyboard) (es : list kb_event) : res (list Z) :=
  match es with
  | [] => Ok []
  | Scancode b :: es => k ← keyboard_isr k b; keyboard_run k es
  | Read :: es => '(c, k) ← keyboard_read_char k; o ← keyboard_run k es; Ok (c :: o)
  end.

(** ** The representation *)

(** [q] is what lies between tail and head, cyclically. *)
Record kb_rep (k : keyboard) (q : list Z) (shift : bool) : Prop := {
  kr_len : length (buffer k) = 256%nat;
  kr_head : 0 ≤ buffer_head k < 256;
  kr_tail : 0 ≤ buffer_tail k < 256;
  kr_size : buffer_head k = (buffer_tail k + Z.of_nat (length q)) mod 256 ∧ (length q ≤ 255)%nat;
  kr_elem i c : q !! i = Some c → buffer k !! Z.to_nat ((buffer_tail k + Z.of_nat i) mod 256) = Some c;
  kr_shift : shift_held k = shift;
}.

Lemma kb_rep_init : kb_rep keyboard_bss [] false.
Proof.
  constructor; simpl; [done | lia | lia | split; [done | lia] | | done].
  intros i c Hi. by rewrite lookup_nil in Hi.
Qed.

Lemma kb_full k q shift :
  kb_rep k q shift → u32 (buffer_head k + 1) mod BUFFER_SIZE = buffer_tail k ↔ length q = 255%nat.
Proof.
  intros [Hl Hh Ht [Hs H255] He Hsh]. unfold BUFFER_SIZE. rewrite u32_small by lia. rewrite Hs in *.
  split; intros H; dlia.
Qed.

Lemma buffer_push_spec k q shift c :
  kb_rep k q shift →
  ∃ k', buffer_push k c = Ok k' ∧ kb_rep k' (if Nat.ltb (length q) 255 then q ++ [c] else q) shift.
Proof.
  intros Hrep. pose proof (kb_full k q shift Hrep) as Hfull. pose proof Hrep as [Hl Hh Ht [Hs H255] He Hsh].
  unfold buffer_push. destruct (Nat.ltb_spec (length q) 255) as [Hlt|Hge].
  - rewrite (proj2 (Z.eqb_neq _ _)) by (intros ?%Hfull; lia). unfold buffer_store.
    rewrite (proj2 (Z.leb_le _ _)), (proj2 (Z.ltb_lt _ _)) by lia. cbn [andb mbind res_bind].
    eexists. split; [done|]. constructor; simpl.
    + by rewrite length_insert.
    + unfold BUFFER_SIZE. apply Z.mod_pos_bound. lia.
    + done.
    + rewrite length_app. simpl. split; [|lia]. unfold BUFFER_SIZE. rewrite u32_small, Hs by lia.
      rewrite Zplus_mod_idemp_l. f_equal. lia.
    + intros i d Hi. apply lookup_snoc_Some in Hi as [[Hi Hq]|[-> <-]].
      * rewrite list_lookup_insert_ne; [by apply He|]. rewrite Hs. intros Heq.
        apply (Z2Nat.inj _ _) in Heq; [|apply Z.mod_pos_bound; lia..].
        apply lookup_lt_Some in Hq. dlia.
      * rewrite <-Hs. apply list_lookup_insert_eq. lia.
    + done.
  - rewrite (proj2 (Z.eqb_eq _ _)) by (apply Hfull; lia). exists k. by split.
Qed.

Lemma scancode_bits b :
  0 ≤ b < 256 →
  Z.land b (u8 (Z.lnot SCANCODE_RELEASE_BIT)) = b mod 0x80 ∧
  negb (Z.land b SCANCODE_RELEASE_BIT =? 0) = negb (b <? 0x80).
Proof.
  intros Hb. assert (Hall : forallb (λ b, (Z.land b (u8 (Z.lnot SCANCODE_RELEASE_BIT)) =? b mod 0x80) &&
    Bool.eqb (negb (Z.land b SCANCODE_RELEASE_BIT =? 0)) (negb (b <? 0x80))) (seqZ 0 256) = true)
    by (vm_compute; reflexivity).
  rewrite forallb_forall in Hall. specialize (Hall b).
  rewrite <-list_elem_of_In, elem_of_seqZ in Hall. specialize (Hall ltac:(lia)).
  apply andb_true_iff in Hall as [H1%Z.eqb_eq H2%Bool.eqb_prop]. by split.
Qed.

Lemma keyboard_isr_spec k q shift b :
  kb_rep k q shift → 0 ≤ b < 256 →
  ∃ k', keyboard_isr k b = Ok k' ∧
    kb_rep k' (queue_step (q, shift) (Scancode b)).2.1 (queue_step (q, shift) (Scancode b)).2.2.
Proof.
  intros Hrep Hb. pose proof Hrep as [Hl Hh Ht Hs He Hsh]. destruct (scancode_bits b Hb) as [Hcode Hrel].
  unfold keyboard_isr, queue_step. rewrite Hcode, Hrel.
  change ((b mod 0x80 =? SCANCODE_LEFT_SHIFT) || (b mod 0x80 =? SCANCODE_RIGHT_SHIFT)) with (is_shift b).
  destruct (is_shift b).
  { eexists. split; [done|]. rewrite negb_involutive. by constructor. }
  unfold decode. destruct (Z.ltb_spec b 0x80) as [Hlt|Hge]; cbn [negb orb]; [|by exists k].
  rewrite Z.mod_small by lia.
  assert (Hlen : Z.of_nat (length unshifted_table) = 0x3a ∧ Z.of_nat (length shifted_table) = 0x3a) by done.
  destruct Hlen as [Hlu Hls]. rewrite Hlu. destruct (Z.leb_spec 0x3a b) as [Hb3|Hb3].
  - rewrite (lookup_ge_None_2 (if shift then shifted_table else unshifted_table)) by (destruct shift; lia).
    by exists k.
  - assert (Hc : ∃ c, (if shift then shifted_table else unshifted_table) !! Z.to_nat b = Some c)
      by (apply lookup_lt_is_Some_2; destruct shift; lia).
    destruct Hc as [c Hc]. rewrite Hc, Hsh. cbn [mbind option_bind].
    assert (Hrd : (if shift then deref (shifted_table !! Z.to_nat b) else deref (unshifted_table !! Z.to_nat b)) = Ok c)
      by (destruct shift; by rewrite Hc).
    rewrite Hrd. cbn [mbind res_bind]. destruct (c =? 0); cbn [negb]; [by exists k|].
    by apply buffer_push_spec.
Qed.

Lemma keyboard_read_spec k q shift :
  kb_rep k q shift →
  ∃ c k', keyboard_read_char k = Ok (c, k') ∧ queue_step (q, shift) Read = ([c], (tail q, shift)) ∧
    kb_rep k' (tail q) shift.
Proof.
  intros Hrep. pose proof Hrep as [Hl Hh Ht [Hs H255] He Hsh]. unfold keyboard_read_char.
  destruct q as [|c q]; simpl in *.
  - rewrite (proj2 (Z.eqb_eq _ _)) by dlia. by exists 0, k.
  - rewrite (proj2 (Z.eqb_neq _ _)) by dlia.
    pose proof (He 0%nat c eq_refl) as Hc. rewrite Z.add_0_r, Z.mod_small in Hc by lia.
    unfold buffer_load. rewrite (proj2 (Z.leb_le _ _)), Hc by lia. cbn [deref mbind res_bind].
    eexists c, _. split_and!; [done | done |]. unfold BUFFER_SIZE. rewrite u32_small by lia.
    constructor; simpl; try done.
    + apply Z.mod_pos_bound. lia.
    + rewrite Zplus_mod_idemp_l, Hs. split; [f_equal; lia | lia].
    + intros i d Hi. rewrite Zplus_mod_idemp_l, <-(He (S i) d Hi). do 3 f_equal. lia.
Qed.

Lemma keyboard_run_spec k q shift es :
  kb_rep k q shift → Forall event_ok es → keyboard_run k es = Ok (queue_run (q, shift) es).
Proof.
  intros Hrep Hok. revert k q shift Hrep. induction Hok as [|e es He Hok IH]; intros k q shift Hrep; [done|].
  destruct e as [b|]; cbn [keyboard_run queue_run].
  - destruct (keyboard_isr_spec k q shift b Hrep He) as (k' & -> & Hrep'). cbn [mbind res_bind].
    destruct (queue_step (q, shift) (Scancode b)) as [o [q' shift']] eqn:Hst.
    assert (Ho : o = []).
    { unfold queue_step in Hst. destruct (is_shift b); [congruence|]. by destruct (decode shift b); simplify_eq. }
    rewrite Ho. by apply IH.
  - destruct (keyboard_read_spec k q shift Hrep) as (c & k' & -> & -> & Hrep'). cbn [mbind res_bind].
    by rewrite (IH _ _ _ Hrep').
Qed.

(** ** The reader and the interrupt handler

    [keyboard_read_char] is not atomic: an interrupt may run the handler, as a
    whole, between any two of its accesses to the shared variables. *)

Inductive reader : Set :=
  | Outside
  | LoadedTail (tail : Z)
  | NotEmpty
  | LoadedChar (c : Z).

(** A step, with what it does to the queue and the character it returns. *)
Inductive kb_step : keyboard * reader → list kb_event * list Z → keyboard * reader → Prop :=
  | step_isr k rd b k' :
      0 ≤ b < 256 → keyboard_isr k b = Ok k' → kb_step (k, rd) ([Scancode b], []) (k', rd)
  | step_call k :
      kb_step (k, Outside) ([], []) (k, LoadedTail (buffer_tail k))
  | step_empty k t :
      t = buffer_head k → kb_step (k, LoadedTail t) ([Read], [0]) (k, Outside)
  | step_nonempty k t :
      t ≠ buffer_head k → kb_step (k, LoadedTail t) ([], []) (k, NotEmpty)
  | step_load k c :
      buffer_load (buffer k) (buffer_tail k) = Ok c → kb_step (k, NotEmpty) ([], []) (k, LoadedChar c)
  | step_store k c :
      kb_step (k, LoadedChar c) ([Read], [c])
        (mk_keyboard (buffer k) (buffer_head k) (u32 (buffer_tail k + 1) mod BUFFER_SIZE) (shift_held k), Outside).

Inductive kb_exec : keyboard * reader → list kb_event * list Z → keyboard * reader → Prop :=
  | exec_nil s : kb_exec s ([], []) s
  | exec_step s s' s'' es os es' os' :
      kb_step s (es, os) s' → kb_exec s' (es', os') s'' → kb_exec s (es ++ es', os ++ os') s''.

(** What the reader knows at each point: only it moves the tail, the handler only
    appends, and never to the slot the tail is at. *)
Definition reader_ok (k : keyboard) (q : list Z) (rd : reader) : Prop :=
  match rd with
  | Outside => True
  | LoadedTail t => t = buffer_tail k
  | NotEmpty => q ≠ []
  | LoadedChar c => head q = Some c
  end.

Lemma keyboard_isr_tail k b k' : keyboard_isr k b = Ok k' → buffer_tail k' = buffer_tail k.
Proof.
  assert (Hpush : ∀ c, buffer_push k c = Ok k' → buffer_tail k' = buffer_tail k).
  { intros c. unfold buffer_push. case_match; [by intros [= <-]|]. destruct (buffer_store _ _ _); by intros [= <-]. }
  unfold keyboard_isr. case_match; [by intros [= <-]|]. case_match; [by intros [= <-]|].
  destruct (if shift_held k then _ else _) as [c| | |]; cbn [mbind res_bind]; try done. case_match; [apply Hpush | by intros [= <-]].
Qed.

Lemma queue_scancode q shift b : ∃ l, (queue_step (q, shift) (Scancode b)).2.1 = q ++ l ∧ (queue_step (q, shift) (Scancode b)).1 = [].
Proof.
  unfold queue_step. destruct (is_shift b); [exists []; by rewrite app_nil_r|].
  destruct (decode shift b) as [c|]; [|exists []; by rewrite app_nil_r].
  cbn [fst snd]. destruct (length q <? 255)%nat; [by exists [c] | exists []; by rewrite app_nil_r].
Qed.

Lemma kb_step_refines k q shift rd es os k' rd' :
  kb_rep k q shift → reader_ok k q rd → kb_step (k, rd) (es, os) (k', rd') →
  ∃ q' shift', kb_rep k' q' shift' ∧ reader_ok k' q' rd' ∧
    ∀ es', queue_run (q, shift) (es ++ es') = os ++ queue_run (q', shift') es'.
Proof.
  intros Hrep Hrd Hst. pose proof Hrep as [_ Hh Ht [Hs H255] _ _].
  assert (Hempty : buffer_tail k = buffer_head k ↔ q = []).
  { rewrite Hs. destruct q as [|c q]; cbn [length] in *; split; intros Hq; try done; dlia. }
  inversion Hst; subst; clear Hst.
  - destruct (keyboard_isr_spec k q shift b Hrep) as (k1 & Hi & Hrep'); [done|]. assert (k1 = k') as -> by congruence.
    destruct (queue_scancode q shift b) as (l & Hl & Ho). eexists _, _. split; [exact Hrep'|]. split.
    + rewrite Hl. destruct rd' as [|t| |c]; cbn [reader_ok] in *; [done | | by destruct q | by destruct q].
      by rewrite (keyboard_isr_tail _ _ _ Hi).
    + intros es'. cbn [app queue_run]. destruct (queue_step (q, shift) (Scancode b)) as [o [q' shift']]. cbn [fst snd] in *. by subst o.
  - by exists q, shift.
  - cbn in Hrd. symmetry in Hrd; apply Hempty in Hrd as ->. by exists [], shift.
  - exists q, shift. split; [done|]. split; [|done]. cbn in *. intros Hq. by apply Hempty in Hq; subst.
  - exists q, shift. split; [done|]. split; [|done]. cbn in *. destruct q as [|c' q]; [done|].
    match goal with Hb : buffer_load _ _ = Ok _ |- _ => revert Hb end.
    pose proof (kr_elem _ _ _ Hrep 0%nat c' eq_refl) as Hc. rewrite Z.add_0_r, Z.mod_small in Hc by lia.
    unfold buffer_load. rewrite (proj2 (Z.leb_le _ _)), Hc by lia. by intros [= ->].
  - cbn in Hrd. destruct q as [|c' q]; [done|]. injection Hrd as ->.
    destruct (keyboard_read_spec k (c :: q) shift Hrep) as (c1 & k1 & Hr & _ & Hrep'). unfold keyboard_read_char in Hr.
    rewrite (proj2 (Z.eqb_neq _ _)) in Hr by (intros Hq; by apply Hempty in Hq).
    destruct (buffer_load _ _); cbn [mbind res_bind] in Hr; [|done..]. injection Hr as <- <-.
    exists q, shift. split; [exact Hrep' | by split].
Qed.

Lemma kb_exec_refines k q shift rd es os k' rd' :
  kb_rep k q shift → reader_ok k q rd → kb_exec (k, rd) (es, os) (k', rd') →
  ∃ q' shift', kb_rep k' q' shift' ∧ reader_ok k' q' rd' ∧ queue_run (q, shift) es = os.
Proof.
  intros Hrep Hrd Hex. remember (k, rd) as s eqn:Hs. remember (es, os) as lab eqn:Hl. remember (k', rd') as s' eqn:Hs'.
  revert k q shift rd es os Hs Hl Hrep Hrd. induction Hex as [s|s [k1 rd1] s' es1 os1 es2 os2 Hst Hex IH];
    intros k q shift rd es os -> [= <- <-] Hrep Hrd.
  - injection Hs' as -> ->. by exists q, shift.
  - destruct (kb_step_refines _ _ _ _ _ _ _ _ Hrep Hrd Hst) as (q1 & shift1 & Hrep1 & Hrd1 & Hrun).
    destruct (IH Hs' k1 q1 shift1 rd1 es2 os2 eq_refl eq_refl Hrep1 Hrd1) as (q2 & shift2 & Hrep2 & Hrd2 & Hrun2).
    exists q2, shift2. split; [done|]. split; [done|]. by rewrite Hrun, Hrun2.
Qed.

Lemma kb_progress k q shift rd :
  kb_rep k q shift → reader_ok k q rd → ∃ es os k' rd', kb_step (k, rd) (es, os) (k', rd') ∧ ∀ b, es ≠ [Scancode b].
Proof.
  intros Hrep Hrd. pose proof (kr_tail _ _ _ Hrep) as Ht. destruct rd as [|t| |c].
  - eexists [], [], _, _. split; [apply step_call | done].
  - destruct (Z.eq_dec t (buffer_head k)); [eexists [Read], _, _, _; split; [by apply step_empty | done]
      | eexists [], [], _, _; split; [by apply step_nonempty | done]].
  - destruct q as [|c q]; [done|]. pose proof (kr_elem _ _ _ Hrep 0%nat c eq_refl) as Hc.
    rewrite Z.add_0_r, Z.mod_small in Hc by lia.
    eexists [], [], _, _. split; [apply (step_load k c) | done]. unfold buffer_load. by rewrite (proj2 (Z.leb_le _ _)), Hc by lia.
  - eexists [Read], _, _, _. split; [apply step_store | done].
Qed.

(** Run without interruption, the steps of the reader are the function. *)
Lemma reader_alone k c k' :
  keyboard_read_char k = Ok (c, k') → kb_exec (k, Outside) ([Read], [c]) (k', Outside).
Proof.
  unfold keyboard_read_char. intros Hr. apply (exec_step _ _ _ [] [] [Read] [c] (step_call k)).
  destruct (Z.eqb_spec (buffer_tail k) (buffer_head k)) as [He|Hne].
  - injection Hr as <- <-. apply (exec_step _ _ _ [Read] [0] [] [] (step_empty k _ He)), exec_nil.
  - destruct (buffer_load _ _) as [c'| | |] eqn:Hl; cbn [mbind res_bind] in Hr; try done. injection Hr as <- <-.
    apply (exec_step _ _ _ [] [] [Read] [c'] (step_nonempty k _ Hne)).
    apply (exec_step _ _ _ [] [] [Read] [c'] (step_load k c' Hl)).
    apply (exec_step _ _ _ [Read] [c'] [] [] (step_store k c')), exec_nil.
Qed.

(** ** Properties *)

(** The driver is a bounded queue on whole reads and whole interrupts: the reads
    return the characters of the keys pressed, in order, with the shift state of
    the moment of the press; a read of an empty buffer returns 0, the newest
    characters are dropped once 255 are waiting, and no access is out of the
    buffer's range. *)
Theorem keyboard_refines_queue es :
  Forall event_ok es → keyboard_run keyboard_bss es = Ok (queue_run ([], false) es).
Proof. apply keyboard_run_spec, kb_rep_init. Qed.

(** C13: the driver is a bounded queue although no lock is taken: the handler may
    interrupt the reader between any two of its accesses to the shared
    variables, any number of times. In every such execution the characters read
    are those of the sequential queue on the same key events, a read taking
    effect at the load that finds the buffer empty or at the store of the new
    tail; the reader never gets stuck, which includes that it stays in the
    buffer's range, and the handler can always run. *)
Theorem keyboard_linearizable es os k rd :
  kb_exec (keyboard_bss, Outside) (es, os) (k, rd) →
  os = queue_run ([], false) es ∧
  (∃ es' os' k' rd', kb_step (k, rd) (es', os') (k', rd') ∧ ∀ b, es' ≠ [Scancode b]) ∧
  (∀ b, 0 ≤ b < 256 → ∃ k', keyboard_isr k b = Ok k').
Proof.
  intros Hex. destruct (kb_exec_refines keyboard_bss [] false Outside es os k rd kb_rep_init I Hex) as (q & shift & Hrep & Hrd & Hrun).
  split; [done|]. split; [by eapply kb_progress|]. intros b Hb.
  destruct (keyboard_isr_spec k q shift b Hrep Hb) as (k' & Hk & _). by exists k'.
Qed.

(** The two tables agree: a key has a character in both or in neither, a
    letter's shifted character is its capital, and no other key gives the same
    character twice in one table. *)
Theorem keyboard_tables_agree code u s :
  unshifted_table !! code = Some u → shifted_table !! code = Some s →
  (u = 0 ↔ s = 0) ∧ (97 ≤ u ≤ 122 ↔ 65 ≤ s ≤ 90) ∧ (97 ≤ u ≤ 122 → s = u - 32) ∧
  (∀ code', u ≠ 0 → unshifted_table !! code' = Some u → code' = code) ∧
  (∀ code', s ≠ 0 → shifted_table !! code' = Some s → code' = code).
Proof.
  intros Hu Hs.
  assert (Hinj : ∀ l : list Z, forallb (λ i, forallb (λ j,
      match l !! i, l !! j with Some a, Some b => (a =? 0) || negb (a =? b) || Nat.eqb i j | _, _ => true end)
      (seq 0 58)) (seq 0 58) = true → length l = 58%nat →
    ∀ i j a, a ≠ 0 → l !! i = Some a → l !! j = Some a → i = j).
  { intros l Hall Hl i j a Ha Hi Hj. rewrite forallb_forall in Hall.
    pose proof (lookup_lt_Some _ _ _ Hi). pose proof (lookup_lt_Some _ _ _ Hj).
    specialize (Hall i ltac:(apply in_seq; lia)). rewrite forallb_forall in Hall.
    specialize (Hall j ltac:(apply in_seq; lia)). rewrite Hi, Hj, Z.eqb_refl in Hall.
    rewrite (proj2 (Z.eqb_neq a 0)) in Hall by done. simpl in Hall. by apply Nat.eqb_eq. }
  assert (Hpair : forallb (λ i, match unshifted_table !! i, shifted_table !! i with
      | Some a, Some b => Bool.eqb (a =? 0) (b =? 0) && Bool.eqb ((97 <=? a) && (a <=? 122)) ((65 <=? b) && (b <=? 90)) &&
          (negb ((97 <=? a) && (a <=? 122)) || (b =? a - 32))
      | _, _ => true end) (seq 0 58) = true) by (vm_compute; reflexivity).
  rewrite forallb_forall in Hpair. pose proof (lookup_lt_Some _ _ _ Hu) as Hlt.
  change (length unshifted_table) with 58%nat in Hlt. specialize (Hpair code ltac:(apply in_seq; lia)).
  rewrite Hu, Hs in Hpair. apply andb_true_iff in Hpair as [[H1%Bool.eqb_prop H2%Bool.eqb_prop]%andb_true_iff H3].
  split_and!.
  - destruct (Z.eqb_spec u 0), (Z.eqb_spec s 0); try done.
  - split; intros Hr.
    + assert ((97 <=? u) && (u <=? 122) = true) as He by (apply andb_true_iff; rewrite !Z.leb_le; lia).
      rewrite He in H2. symmetry in H2. apply andb_true_iff in H2. rewrite !Z.leb_le in H2. lia.
    + assert ((65 <=? s) && (s <=? 90) = true) as He by (apply andb_true_iff; rewrite !Z.leb_le; lia).
      rewrite He in H2. apply andb_true_iff in H2. rewrite !Z.leb_le in H2. lia.
  - intros Hr. assert ((97 <=? u) && (u <=? 122) = true) as He by (apply andb_true_iff; rewrite !Z.leb_le; lia).
    rewrite He in H3. simpl in H3. by apply Z.eqb_eq.
  - intros j Hne Hj. by apply (Hinj unshifted_table ltac:(vm_compute; reflexivity) eq_refl j code u).
  - intros j Hne Hj. by apply (Hinj shifted_table ltac:(vm_compute; reflexivity) eq_refl j code s).
Qed.

(** Releasing one of two shift keys held ends the shift: pressing left and
    right shift, releasing the left one and pressing [a] gives a small letter. *)
Theorem keyboard_two_shifts :
  keyboard_run keyboard_bss [Scancode 0x2a; Scancode 0x36; Scancode 0xaa; Scancode 0x1e; Read] = Ok (lit "a").
Proof. vm_compute. reflexivity. Qed.

(** An extended key is decoded by its second byte: the keypad's Enter, 0xe0
    0x1c, gives a newline, and an extended arrow's fake shift changes the
    state. *)
Theorem keyboard_extended_decoded :
  keyboard_run keyboard_bss [Scancode 0xe0; Scancode 0x1c; Read] = Ok [10] ∧
  keyboard_run keyboard_bss [Scancode 0xe0; Scancode 0x2a; Scancode 0x1e; Read] = Ok (lit "A").
Proof. split; vm_compute; reflexivity. Qed.

(** ** Witnesses *)

Lemma keyboard_refines_queue_witness :
  keyboard_run keyboard_bss [Scancode 0x23; Scancode 0x17; Read; Read; Read] = Ok (lit "hi" ++ [0]).
Proof.
  rewrite (keyboard_refines_queue [Scancode 0x23; Scancode 0x17; Read; Read; Read]).
  - vm_compute. reflexivity.
  - repeat constructor; simpl; lia.
Defined.

Lemma keyboard_tables_agree_witness : ∃ s, shifted_table !! 16%nat = Some s ∧ s = ch "q" - 32.
Proof.
  exists (ch "Q"). split; [reflexivity|].
  destruct (keyboard_tables_agree 16 (ch "q") (ch "Q") eq_refl eq_refl) as (_ & _ & H & _).
  apply H. change (ch "q") with 113. lia.
Defined.

(** The handler runs between the reader's load of the tail and its test. *)
Lemma keyboard_linearizable_witness :
  ∃ k, kb_exec (keyboard_bss, Outside) ([Scancode 0x23; Read], [ch "h"]) (k, Outside) ∧
    [ch "h"] = queue_run ([], false) [Scancode 0x23; Read].
Proof.
  destruct (keyboard_isr keyboard_bss 0x23) as [k1| | |] eqn:H1; try (vm_compute in H1; discriminate H1).
  assert (Hex : kb_exec (keyboard_bss, Outside) ([Scancode 0x23; Read], [ch "h"])
      (mk_keyboard (buffer k1) (buffer_head k1) (u32 (buffer_tail k1 + 1) mod BUFFER_SIZE) (shift_held k1), Outside)).
  { apply (exec_step _ _ _ [] [] _ _ (step_call keyboard_bss)).
    apply (exec_step _ _ _ [Scancode 0x23] [] [Read] _ (step_isr keyboard_bss _ 0x23 k1 ltac:(lia) H1)).
    vm_compute in H1. injection H1 as <-.
    eapply (exec_step _ _ _ [] [] [Read] [ch "h"]); [apply step_nonempty; vm_compute; discriminate|].
    eapply (exec_step _ _ _ [] [] [Read] [ch "h"]); [apply (step_load _ (ch "h")); vm_compute; reflexivity|].
    apply (exec_step _ _ _ [Read] [ch "h"] [] [] (step_store _ (ch "h"))), exec_nil. }
  eexists. split; [exact Hex|]. exact (proj1 (keyboard_linearizable _ _ _ _ Hex)).
Defined.
