(* ===== verification/Font.v ===== *)
(** * The console font (kernel/drivers/framebuffer/font8x8_basic.c)

    One glyph of eight rows per ASCII code; bit 0 of a row is its leftmost
    pixel. *)

From S2P Require Import Prelude.

Definition font8x8_basic : list (list Z) := [
  [0x00; 0x00; 0x00; 0x00; 0x00; 0x00; 0x00; 0x00];
  [0x00; 0x00; 0x00; 0x00; 0x00; 0x00; 0x00; 0x00];
  [0x00; 0x00; 0x00; 0x00; 0x00; 0x00; 0x00; 0x00];
  [0x00; 0x00; 0x00; 0x00; 0x00; 0x00; 0x00; 0x00];
  [0x00; 0x00; 0x00; 0x00; 0x00; 0x00; 0x00; 0x00];
  [0x00; 0x00; 0x00; 0x00; 0x00; 0x00; 0x00; 0x00];
  [0x00; 0x00; 0x00; 0x00; 0x00; 0x00; 0x00; 0x00];
  [0x00; 0x00; 0x00; 0x00; 0x00; 0x00; 0x00; 0x00];
  [0x00; 0x00; 0x00; 0x00; 0x00; 0x00; 0x00; 0x00];
  [0x00; 0x00; 0x00; 0x00; 0x00; 0x00; 0x00; 0x00];
  [0x00; 0x00; 0x00; 0x00; 0x00; 0x00; 0x00; 0x00];
  [0x00; 0x00; 0x00; 0x00; 0x00; 0x00; 0x00; 0x00];
  [0x00; 0x00; 0x00; 0x00; 0x00; 0x00; 0x00; 0x00];
  [0x00; 0x00; 0x00; 0x00; 0x00; 0x00; 0x00; 0x00];
  [0x00; 0x00; 0x00; 0x00; 0x00; 0x00; 0x00; 0x00];
  [0x00; 0x00; 0x00; 0x00; 0x00; 0x00; 0x00; 0x00];
  [0x00; 0x00; 0x00; 0x00; 0x00; 0x00; 0x00; 0x00];
  [0x00; 0x00; 0x00; 0x00; 0x00; 0x00; 0x00; 0x00];
  [0x00; 0x00; 0x00; 0x00; 0x00; 0x00; 0x00; 0x00];
  [0x00; 0x00; 0x00; 0x00; 0x00; 0x00; 0x00; 0x00];
  [0x00; 0x00; 0x00; 0x00; 0x00; 0x00; 0x00; 0x00];
  [0x00; 0x00; 0x00; 0x00; 0x00; 0x00; 0x00; 0x00];
  [0x00; 0x00; 0x00; 0x00; 0x00; 0x00; 0x00; 0x00];
  [0x00; 0x00; 0x00; 0x00; 0x00; 0x00; 0x00; 0x00];
  [0x00; 0x00; 0x00; 0x00; 0x00; 0x00; 0x00; 0x00];
  [0x00; 0x00; 0x00; 0x00; 0x00; 0x00; 0x00; 0x00];
  [0x00; 0x00; 0x00; 0x00; 0x00; 0x00; 0x00; 0x00];
  [0x00; 0x00; 0x00; 0x00; 0x00; 0x00; 0x00; 0x00];
  [0x00; 0x00; 0x00; 0x00; 0x00; 0x00; 0x00; 0x00];
  [0x00; 0x00; 0x00; 0x00; 0x00; 0x00; 0x00; 0x00];
  [0x00; 0x00; 0x00; 0x00; 0x00; 0x00; 0x00; 0x00];
  [0x00; 0x00; 0x00; 0x00; 0x00; 0x00; 0x00; 0x00];
  [0x00; 0x00; 0x00; 0x00; 0x00; 0x00; 0x00; 0x00];
  [0x18; 0x3C; 0x3C; 0x18; 0x18; 0x00; 0x18; 0x00];
  [0x36; 0x36; 0x00; 0x00; 0x00; 0x00; 0x00; 0x00];
  [0x36; 0x36; 0x7F; 0x36; 0x7F; 0x36; 0x36; 0x00];
  [0x0C; 0x3E; 0x03; 0x1E; 0x30; 0x1F; 0x0C; 0x00];
  [0x00; 0x63; 0x33; 0x18; 0x0C; 0x66; 0x63; 0x00];
  [0x1C; 0x36; 0x1C; 0x6E; 0x3B; 0x33; 0x6E; 0x00];
  [0x06; 0x06; 0x03; 0x00; 0x00; 0x00; 0x00; 0x00];
  [0x18; 0x0C; 0x06; 0x06; 0x06; 0x0C; 0x18; 0x00];
  [0x06; 0x0C; 0x18; 0x18; 0x18; 0x0C; 0x06; 0x00];
  [0x00; 0x66; 0x3C; 0xFF; 0x3C; 0x66; 0x00; 0x00];
  [0x00; 0x0C; 0x0C; 0x3F; 0x0C; 0x0C; 0x00; 0x00];
  [0x00; 0x00; 0x00; 0x00; 0x00; 0x0C; 0x0C; 0x06];
  [0x00; 0x00; 0x00; 0x3F; 0x00; 0x00; 0x00; 0x00];
  [0x00; 0x00; 0x00; 0x00; 0x00; 0x0C; 0x0C; 0x00];
  [0x60; 0x30; 0x18; 0x0C; 0x06; 0x03; 0x01; 0x00];
  [0x3E; 0x63; 0x73; 0x7B; 0x6F; 0x67; 0x3E; 0x00];
  [0x0C; 0x0E; 0x0C; 0x0C; 0x0C; 0x0C; 0x3F; 0x00];
  [0x1E; 0x33; 0x30; 0x1C; 0x06; 0x33; 0x3F; 0x00];
  [0x1E; 0x33; 0x30; 0x1C; 0x30; 0x33; 0x1E; 0x00];
  [0x38; 0x3C; 0x36; 0x33; 0x7F; 0x30; 0x78; 0x00];
  [0x3F; 0x03; 0x1F; 0x30; 0x30; 0x33; 0x1E; 0x00];
  [0x1C; 0x06; 0x03; 0x1F; 0x33; 0x33; 0x1E; 0x00];
  [0x3F; 0x33; 0x30; 0x18; 0x0C; 0x0C; 0x0C; 0x00];
  [0x1E; 0x33; 0x33; 0x1E; 0x33; 0x33; 0x1E; 0x00];
  [0x1E; 0x33; 0x33; 0x3E; 0x30; 0x18; 0x0E; 0x00];
  [0x00; 0x0C; 0x0C; 0x00; 0x00; 0x0C; 0x0C; 0x00];
  [0x00; 0x0C; 0x0C; 0x00; 0x00; 0x0C; 0x0C; 0x06];
  [0x18; 0x0C; 0x06; 0x03; 0x06; 0x0C; 0x18; 0x00];
  [0x00; 0x00; 0x3F; 0x00; 0x00; 0x3F; 0x00; 0x00];
  [0x06; 0x0C; 0x18; 0x30; 0x18; 0x0C; 0x06; 0x00];
  [0x1E; 0x33; 0x30; 0x18; 0x0C; 0x00; 0x0C; 0x00];
  [0x3E; 0x63; 0x7B; 0x7B; 0x7B; 0x03; 0x1E; 0x00];
  [0x0C; 0x1E; 0x33; 0x33; 0x3F; 0x33; 0x33; 0x00];
  [0x3F; 0x66; 0x66; 0x3E; 0x66; 0x66; 0x3F; 0x00];
  [0x3C; 0x66; 0x03; 0x03; 0x03; 0x66; 0x3C; 0x00];
  [0x1F; 0x36; 0x66; 0x66; 0x66; 0x36; 0x1F; 0x00];
  [0x7F; 0x46; 0x16; 0x1E; 0x16; 0x46; 0x7F; 0x00];
  [0x7F; 0x46; 0x16; 0x1E; 0x16; 0x06; 0x0F; 0x00];
  [0x3C; 0x66; 0x03; 0x03; 0x73; 0x66; 0x7C; 0x00];
  [0x33; 0x33; 0x33; 0x3F; 0x33; 0x33; 0x33; 0x00];
  [0x1E; 0x0C; 0x0C; 0x0C; 0x0C; 0x0C; 0x1E; 0x00];
  [0x78; 0x30; 0x30; 0x30; 0x33; 0x33; 0x1E; 0x00];
  [0x67; 0x66; 0x36; 0x1E; 0x36; 0x66; 0x67; 0x00];
  [0x0F; 0x06; 0x06; 0x06; 0x46; 0x66; 0x7F; 0x00];
  [0x63; 0x77; 0x7F; 0x7F; 0x6B; 0x63; 0x63; 0x00];
  [0x63; 0x67; 0x6F; 0x7B; 0x73; 0x63; 0x63; 0x00];
  [0x1C; 0x36; 0x63; 0x63; 0x63; 0x36; 0x1C; 0x00];
  [0x3F; 0x66; 0x66; 0x3E; 0x06; 0x06; 0x0F; 0x00];
  [0x1E; 0x33; 0x33; 0x33; 0x3B; 0x1E; 0x38; 0x00];
  [0x3F; 0x66; 0x66; 0x3E; 0x36; 0x66; 0x67; 0x00];
  [0x1E; 0x33; 0x07; 0x0E; 0x38; 0x33; 0x1E; 0x00];
  [0x3F; 0x2D; 0x0C; 0x0C; 0x0C; 0x0C; 0x1E; 0x00];
  [0x33; 0x33; 0x33; 0x33; 0x33; 0x33; 0x3F; 0x00];
  [0x33; 0x33; 0x33; 0x33; 0x33; 0x1E; 0x0C; 0x00];
  [0x63; 0x63; 0x63; 0x6B; 0x7F; 0x77; 0x63; 0x00];
  [0x63; 0x63; 0x36; 0x1C; 0x1C; 0x36; 0x63; 0x00];
  [0x33; 0x33; 0x33; 0x1E; 0x0C; 0x0C; 0x1E; 0x00];
  [0x7F; 0x63; 0x31; 0x18; 0x4C; 0x66; 0x7F; 0x00];
  [0x1E; 0x06; 0x06; 0x06; 0x06; 0x06; 0x1E; 0x00];
  [0x03; 0x06; 0x0C; 0x18; 0x30; 0x60; 0x40; 0x00];
  [0x1E; 0x18; 0x18; 0x18; 0x18; 0x18; 0x1E; 0x00];
  [0x08; 0x1C; 0x36; 0x63; 0x00; 0x00; 0x00; 0x00];
  [0x00; 0x00; 0x00; 0x00; 0x00; 0x00; 0x00; 0xFF];
  [0x0C; 0x0C; 0x18; 0x00; 0x00; 0x00; 0x00; 0x00];
  [0x00; 0x00; 0x1E; 0x30; 0x3E; 0x33; 0x6E; 0x00];
  [0x07; 0x06; 0x06; 0x3E; 0x66; 0x66; 0x3B; 0x00];
  [0x00; 0x00; 0x1E; 0x33; 0x03; 0x33; 0x1E; 0x00];
  [0x38; 0x30; 0x30; 0x3e; 0x33; 0x33; 0x6E; 0x00];
  [0x00; 0x00; 0x1E; 0x33; 0x3f; 0x03; 0x1E; 0x00];
  [0x1C; 0x36; 0x06; 0x0f; 0x06; 0x06; 0x0F; 0x00];
  [0x00; 0x00; 0x6E; 0x33; 0x33; 0x3E; 0x30; 0x1F];
  [0x07; 0x06; 0x36; 0x6E; 0x66; 0x66; 0x67; 0x00];
  [0x0C; 0x00; 0x0E; 0x0C; 0x0C; 0x0C; 0x1E; 0x00];
  [0x30; 0x00; 0x30; 0x30; 0x30; 0x33; 0x33; 0x1E];
  [0x07; 0x06; 0x66; 0x36; 0x1E; 0x36; 0x67; 0x00];
  [0x0E; 0x0C; 0x0C; 0x0C; 0x0C; 0x0C; 0x1E; 0x00];
  [0x00; 0x00; 0x33; 0x7F; 0x7F; 0x6B; 0x63; 0x00];
  [0x00; 0x00; 0x1F; 0x33; 0x33; 0x33; 0x33; 0x00];
  [0x00; 0x00; 0x1E; 0x33; 0x33; 0x33; 0x1E; 0x00];
  [0x00; 0x00; 0x3B; 0x66; 0x66; 0x3E; 0x06; 0x0F];
  [0x00; 0x00; 0x6E; 0x33; 0x33; 0x3E; 0x30; 0x78];
  [0x00; 0x00; 0x3B; 0x6E; 0x66; 0x06; 0x0F; 0x00];
  [0x00; 0x00; 0x3E; 0x03; 0x1E; 0x30; 0x1F; 0x00];
  [0x08; 0x0C; 0x3E; 0x0C; 0x0C; 0x2C; 0x18; 0x00];
  [0x00; 0x00; 0x33; 0x33; 0x33; 0x33; 0x6E; 0x00];
  [0x00; 0x00; 0x33; 0x33; 0x33; 0x1E; 0x0C; 0x00];
  [0x00; 0x00; 0x63; 0x6B; 0x7F; 0x7F; 0x36; 0x00];
  [0x00; 0x00; 0x63; 0x36; 0x1C; 0x36; 0x63; 0x00];
  [0x00; 0x00; 0x33; 0x33; 0x33; 0x3E; 0x30; 0x1F];
  [0x00; 0x00; 0x3F; 0x19; 0x0C; 0x26; 0x3F; 0x00];
  [0x38; 0x0C; 0x0C; 0x07; 0x0C; 0x0C; 0x38; 0x00];
  [0x18; 0x18; 0x18; 0x00; 0x18; 0x18; 0x18; 0x00];
  [0x07; 0x0C; 0x0C; 0x38; 0x0C; 0x0C; 0x07; 0x00];
  [0x6E; 0x3B; 0x00; 0x00; 0x00; 0x00; 0x00; 0x00];
  [0x00; 0x00; 0x00; 0x00; 0x00; 0x00; 0x00; 0x00]
].

(** ** Shape *)

Lemma font8x8_length : length font8x8_basic = 128%nat.
Proof. reflexivity. Qed.

Lemma font8x8_glyph (code : nat) :
  (code < 128)%nat →
  ∃ glyph, font8x8_basic !! code = Some glyph ∧ length glyph = 8%nat ∧ Forall (λ b, 0 ≤ b < 256) glyph.
Proof.
  intros Hc. destruct (lookup_lt_is_Some_2 font8x8_basic code) as [g Hg]; [exact Hc|].
  exists g. split; [exact Hg|].
  assert (Hall : forallb (λ g, Nat.eqb (length g) 8 && forallb (λ b, (0 <=? b) && (b <? 256)) g) font8x8_basic = true)
    by (vm_compute; reflexivity).
  rewrite forallb_forall in Hall. specialize (Hall g (proj1 (list_elem_of_In _ _) (list_elem_of_lookup_2 _ _ _ Hg))).
  apply andb_true_iff in Hall as [Hl Hb]. split; [by apply Nat.eqb_eq|].
  apply Forall_forall. intros b Hin%list_elem_of_In. rewrite forallb_forall in Hb. specialize (Hb b Hin).
  zify_bools. lia.
Qed.
