(* ===== verification/Console.v ===== *)
(** * Framebuffer console (kernel/drivers/framebuffer/framebuffer.c)

    Pixels are bytes of the shared memory at the address the bootloader
    reports. The text console over them refines a grid of character cells with
    a cursor ([term]): what a cell shows is its glyph's eight by eight pixels
    in the framebuffer's own colour format. *)

From S2P Require Import Prelude Word Mem CString BootInfo Printf Font.

(** ** State *)

Definition CELL_W : Z := 8.
Definition CELL_H : Z := 8.

Record framebuffer := mk_fb {
  fb : boot_framebuffer;
  fb_ready : bool;
  bytes_per_pixel : Z;
  console_cols : Z;
  console_rows : Z;
  cursor_col : Z;
  cursor_row : Z;
}.

Definition fb_bss : framebuffer :=
  mk_fb (mk_boot_framebuffer 0 0 0 0 0 0 0 0 0 0 0) false 0 0 0 0 0.

Definition set_cursor (s : framebuffer) (col row : Z) : framebuffer :=
  mk_fb (fb s) (fb_ready s) (bytes_per_pixel s) (console_cols s) (console_rows s) col row.

(** ** Operations *)

(** [info] is [NULL] as [None]. *)
Definition fb_init (s : framebuffer) (info : option boot_framebuffer) : bool * framebuffer :=
  match info with
  | None => (false, s)
  | Some i =>
      if address i =? 0 then (false, s)
      else (true, mk_fb i true (u32 (bpp i / 8)) (u32 (width i / CELL_W)) (u32 (height i / CELL_H)) 0 0)
  end.

(** The colours of framebuffer.h. *)
Definition FB_COLOR (r g b : Z) : Z := Z.lor (Z.lor (Z.shiftl r 16) (Z.shiftl g 8)) b.
Definition FB_WHITE : Z := FB_COLOR 0xff 0xff 0xff.
Definition FB_BLACK : Z := FB_COLOR 0x00 0x00 0x00.
Definition FB_RED : Z := FB_COLOR 0xff 0x40 0x40.
Definition FB_YELLOW : Z := FB_COLOR 0xff 0xd0 0x40.
Definition FB_GREEN : Z := FB_COLOR 0x40 0xff 0x80.
Definition FB_GRAY : Z := FB_COLOR 0xa0 0xa0 0xa0.

Definition fb_is_available (s : framebuffer) : bool := fb_ready s.

(** Shifts of a [uint32_t]: by 32 or more they are undefined. *)
Definition shl32 (x n : Z) : res Z := if n <? 32 then Ok (u32 (Z.shiftl x n)) else UB.
Definition shr32 (x n : Z) : res Z := if n <? 32 then Ok (Z.shiftr x n) else UB.

(** One component at the width the mode has for it. *)
Definition scale (c mask_size : Z) : Z := if mask_size <? 8 then Z.shiftr c (8 - mask_size) else c.

Definition pack_color (s : framebuffer) (rgb : Z) : res Z :=
  let r := u8 (Z.shiftr rgb 16) in
  let g := u8 (Z.shiftr rgb 8) in
  let b := u8 rgb in
  rv ← shl32 (scale r (red_mask_size (fb s))) (red_mask_shift (fb s));
  gv ← shl32 (scale g (green_mask_size (fb s))) (green_mask_shift (fb s));
  bv ← shl32 (scale b (blue_mask_size (fb s))) (blue_mask_shift (fb s));
  Ok (Z.lor (Z.lor rv gv) bv).

Definition put_pixel_raw (s : framebuffer) (m : mem) (x y native_color : Z) : res mem :=
  let row := address (fb s) + u64 (y * pitch (fb s)) in
  let pixel := row + u64 (x * bytes_per_pixel s) in
  for_range 0 (bytes_per_pixel s) (λ i m,
    v ← shr32 native_color (u32 (8 * i)); store8 m (pixel + i) (u8 v)) m.

(** [for (uint32_t i = 0; i < bound; i++)] with a 64-bit [bound]: the counter
    wraps, so a bound of [2^32] or more is never reached. *)
Fixpoint for_u32 {S} (fuel : nat) (i bound : Z) (body : Z → S → res S) (s : S) : res S :=
  if i <? bound then
    match fuel with
    | O => Fuel
    | Datatypes.S fuel => s' ← body i s; for_u32 fuel (u32 (i + 1)) bound body s'
    end
  else Ok s.

Definition fb_clear (s : framebuffer) (m : mem) (color_rgb : Z) : res mem :=
  native ← pack_color s color_rgb;
  for_u32 (Z.to_nat (height (fb s))) 0 (height (fb s)) (λ y m,
    for_u32 (Z.to_nat (width (fb s))) 0 (width (fb s)) (λ x m,
      put_pixel_raw s m x y native) m) m.

Definition draw_glyph (s : framebuffer) (m : mem) (col row c fg_rgb bg_rgb : Z) : res mem :=
  fg ← pack_color s fg_rgb;
  bg ← pack_color s bg_rgb;
  glyph ← deref (font8x8_basic !! Z.to_nat (Z.land (u8 c) 0x7f));
  let origin_x := u32 (col * CELL_W) in
  let origin_y := u32 (row * CELL_H) in
  for_range 0 CELL_H (λ gy m,
    bits ← deref (glyph !! Z.to_nat gy);
    for_range 0 CELL_W (λ gx m,
      let set := negb (Z.land bits (Z.shiftl 1 gx) =? 0) in
      put_pixel_raw s m (u32 (origin_x + gx)) (u32 (origin_y + gy)) (if set then fg else bg)) m) m.

Definition scroll_one_row (s : framebuffer) (m : mem) : res mem :=
  let row_bytes := u64 (CELL_H * pitch (fb s)) in
  let base := address (fb s) in
  let remaining_bytes := u64 (u64 (height (fb s) - CELL_H) * pitch (fb s)) in
  '(_, m1) ← memmove m base (base + row_bytes) remaining_bytes;
  '(_, m2) ← memset m1 (base + remaining_bytes) 0 row_bytes;
  Ok m2.

Definition fb_console_putc (s : framebuffer) (m : mem) (c fg_rgb bg_rgb : Z) : res (framebuffer * mem) :=
  if address (fb s) =? 0 then Ok (s, m)
  else
    '(s1, m1) ←
      (if c =? 10 then Ok (set_cursor s 0 (u32 (cursor_row s + 1)), m)
       else
         m1 ← draw_glyph s m (cursor_col s) (cursor_row s) c fg_rgb bg_rgb;
         let col := u32 (cursor_col s + 1) in
         if console_cols s <=? col then Ok (set_cursor s 0 (u32 (cursor_row s + 1)), m1)
         else Ok (set_cursor s col (cursor_row s), m1));
    if console_rows s1 <=? cursor_row s1 then
      m2 ← scroll_one_row s1 m1;
      Ok (set_cursor s1 (cursor_col s1) (u32 (console_rows s1 - 1)), m2)
    else Ok (s1, m1).

(** [while] loop of the C code: one unit of fuel per character. *)
Fixpoint console_write_loop (fuel : nat) (s : framebuffer) (m : mem) (str fg_rgb bg_rgb : Z) : res (framebuffer * mem) :=
  match fuel with
  | O => Fuel
  | S fuel =>
      c ← load8 m str;
      if negb (c =? 0) then
        '(s', m') ← fb_console_putc s m c fg_rgb bg_rgb;
        console_write_loop fuel s' m' (str + 1) fg_rgb bg_rgb
      else Ok (s, m)
  end.

Definition fb_console_write (s : framebuffer) (m : mem) (str fg_rgb bg_rgb : Z) : res (framebuffer * mem) :=
  console_write_loop (mem_fuel m) s m str fg_rgb bg_rgb.

(** ** Abstract console

    A cell shows nothing drawn (all bytes zero) or a character in two colours;
    the grid is a list of rows. *)

Inductive cell : Type :=
  | Blank
  | Glyph (c fg bg : Z).

Record term := mk_term { grid : list (list cell); t_col : nat; t_row : nat }.

(** The cursor moves down; at the bottom the text moves up instead. *)
Definition term_down (cols rows : nat) (g : list (list cell)) (col row : nat) : term :=
  if decide (S row < rows)%nat then mk_term g col (S row)
  else mk_term (tail g ++ [replicate cols Blank]) col (rows - 1).

Definition term_set (g : list (list cell)) (col row : nat) (x : cell) : list (list cell) :=
  alter (λ r, <[col := x]> r) row g.

Definition term_putc (cols rows : nat) (t : term) (c fg bg : Z) : term :=
  if c =? 10 then term_down cols rows (grid t) 0 (t_row t)
  else
    let g := term_set (grid t) (t_col t) (t_row t) (Glyph c fg bg) in
    if decide (S (t_col t) < cols)%nat then mk_term g (S (t_col t)) (t_row t)
    else term_down cols rows g 0 (t_row t).

Definition term_write (cols rows : nat) (t : term) (l : list Z) (fg bg : Z) : term :=
  foldl (λ t c, term_putc cols rows t c fg bg) t l.

Definition term_blank (cols rows : nat) : term := mk_term (replicate rows (replicate cols Blank)) 0 0.

(** ** Geometry

    What the driver relies on of the mode the bootloader reports, and what
    [fb_init] computes from it. *)

Record mode_ok (i : boot_framebuffer) : Prop := {
  mode_addr : 0 < address i;
  mode_bpp : 1 ≤ bpp i / 8 ≤ 4;
  mode_width : 8 ≤ width i < 2 ^ 32;
  mode_height : 8 ≤ height i < 2 ^ 32;
  mode_pitch : width i * (bpp i / 8) ≤ pitch i;
  mode_end : address i + height i * pitch i < 2 ^ 64;
  mode_shifts : red_mask_shift i < 32 ∧ green_mask_shift i < 32 ∧ blue_mask_shift i < 32;
}.

Record fb_ok (s : framebuffer) : Prop := {
  ok_mode : mode_ok (fb s);
  ok_bytes : bytes_per_pixel s = bpp (fb s) / 8;
  ok_cols : console_cols s = width (fb s) / 8;
  ok_rows : console_rows s = height (fb s) / 8;
}.

(** The framebuffer's bytes, and the address and the value of a pixel. *)
Definition fb_bytes (s : framebuffer) : Z → Prop := in_range (address (fb s)) (height (fb s) * pitch (fb s)).

Definition fb_mapped (s : framebuffer) (m : mem) : Prop :=
  mapped m (address (fb s)) (height (fb s) * pitch (fb s)).

Definition pixel_addr (s : framebuffer) (x y : Z) : Z :=
  address (fb s) + y * pitch (fb s) + x * bytes_per_pixel s.

Definition on_screen (s : framebuffer) (x y : Z) : Prop := 0 ≤ x < width (fb s) ∧ 0 ≤ y < height (fb s).

Definition pixel (s : framebuffer) (m : mem) (x y : Z) : res Z :=
  load_le (Z.to_nat (bytes_per_pixel s)) m (pixel_addr s x y).

(** The bytes of a colour, as the pixel that stores it is read. *)
Definition pixel_value (s : framebuffer) (native : Z) : Z := native mod 256 ^ bytes_per_pixel s.

(** The bytes of the pixels that satisfy [A]. *)
Definition area (s : framebuffer) (A : Z → Z → Prop) (b : Z) : Prop :=
  ∃ x y, on_screen s x y ∧ A x y ∧ in_range (pixel_addr s x y) (bytes_per_pixel s) b.

(** ** Pixels *)

Section geometry.
Context (s : framebuffer) (Hok : fb_ok s).

Lemma bytes_range : 1 ≤ bytes_per_pixel s ≤ 4.
Proof using Hok. rewrite (ok_bytes s Hok). apply (ok_mode s Hok). Qed.

Lemma row_bytes : width (fb s) * bytes_per_pixel s ≤ pitch (fb s).
Proof using Hok. rewrite (ok_bytes s Hok). apply (ok_mode s Hok). Qed.

Lemma pitch_pos : 0 < pitch (fb s).
Proof using Hok. pose proof row_bytes. pose proof bytes_range. pose proof (mode_width _ (ok_mode s Hok)). nia. Qed.

(** A pixel lies inside its row, and its row inside the framebuffer. *)
Lemma pixel_in_row x : 0 ≤ x < width (fb s) → 0 ≤ x * bytes_per_pixel s ∧ x * bytes_per_pixel s + bytes_per_pixel s ≤ pitch (fb s).
Proof using Hok. intros Hx. pose proof row_bytes. pose proof bytes_range. nia. Qed.

Lemma pixel_in_fb x y b :
  on_screen s x y → in_range (pixel_addr s x y) (bytes_per_pixel s) b → fb_bytes s b.
Proof using Hok.
  intros [Hx Hy] Hb. pose proof (pixel_in_row x Hx) as [Hx0 Hx1]. pose proof pitch_pos.
  unfold fb_bytes, in_range, pixel_addr in *. nia.
Qed.

(** Distinct pixels do not share a byte. *)
Lemma pixel_disjoint x y x' y' b :
  on_screen s x y → on_screen s x' y' →
  in_range (pixel_addr s x y) (bytes_per_pixel s) b → in_range (pixel_addr s x' y') (bytes_per_pixel s) b →
  x = x' ∧ y = y'.
Proof using Hok.
  intros [Hx Hy] [Hx' Hy'] Hb Hb'. pose proof bytes_range.
  pose proof (pixel_in_row x Hx). pose proof (pixel_in_row x' Hx').
  unfold in_range, pixel_addr in *.
  assert (y = y') as -> by nia. split; [|done]. nia.
Qed.

Lemma area_in_fb A b : area s A b → fb_bytes s b.
Proof using Hok. intros (x & y & Hon & _ & Hb). by apply (pixel_in_fb x y). Qed.

Lemma pixel_modifies A m m' x y :
  modifies (area s A) m m' → on_screen s x y → ¬ A x y → pixel s m' x y = pixel s m x y.
Proof using Hok.
  intros Hmod Hon HA. pose proof bytes_range. apply (load_le_modifies _ _ _ _ _ Hmod).
  intros b Hb (x' & y' & Hon' & HA' & Hb').
  rewrite Z2Nat.id in Hb by lia. destruct (pixel_disjoint x y x' y' b) as [-> ->]; done.
Qed.

(** The byte loop of [put_pixel_raw] is a little-endian store. *)
Lemma put_bytes_loop k i m a v :
  0 ≤ i → i + Z.of_nat k ≤ 4 → 0 ≤ v →
  for_loop k i (λ i m, v ← shr32 v (u32 (8 * i)); store8 m (a + i) (u8 v)) m =
    store_le k m (a + i) (v / 256 ^ i).
Proof using.
  intros Hi Hk Hv. revert i m Hi Hk. induction k as [|k IH]; intros i m Hi Hk; simpl; [done|].
  rewrite u32_small by lia. unfold shr32. rewrite (proj2 (Z.ltb_lt _ _)) by lia. cbn [mbind res_bind].
  rewrite Z.shiftr_div_pow2 by lia. replace (2 ^ (8 * i)) with (256 ^ i) by (rewrite Z.pow_mul_r; [done|lia..]).
  destruct (store8 m (a + i) (u8 (v / 256 ^ i))) as [m'| | |]; [|done..].
  cbn [mbind res_bind]. rewrite IH by lia. replace (a + i + 1) with (a + (i + 1)) by lia. f_equal.
  rewrite Z.pow_add_r, Z.pow_1_r by lia. rewrite Z.div_div by (try apply Z.pow_nonzero; try apply Z.pow_pos_nonneg; lia).
  done.
Qed.

Lemma put_pixel_spec m x y v :
  on_screen s x y → fb_mapped s m → 0 ≤ v →
  ∃ m', put_pixel_raw s m x y v = Ok m' ∧
    modifies (area s (λ x' y', x' = x ∧ y' = y)) m m' ∧ pixel s m' x y = Ok (pixel_value s v).
Proof using Hok.
  intros Hon Hmap Hv. pose proof bytes_range as Hb. pose proof Hon as [Hx Hy].
  pose proof (pixel_in_row x Hx) as [Hx0 Hx1]. pose proof pitch_pos. pose proof (ok_mode s Hok) as Hm.
  pose proof (mode_end _ Hm). pose proof (mode_addr _ Hm). assert (0 ≤ y * pitch (fb s)) by nia.
  assert (y * pitch (fb s) + pitch (fb s) ≤ height (fb s) * pitch (fb s)) by nia.
  unfold put_pixel_raw, for_range. rewrite !u64_small by lia. rewrite put_bytes_loop by lia.
  change (address (fb s) + y * pitch (fb s) + x * bytes_per_pixel s) with (pixel_addr s x y).
  rewrite Z.sub_0_r, Z.add_0_r, Z.pow_0_r, Z.div_1_r.
  destruct (store_le_spec (Z.to_nat (bytes_per_pixel s)) m (pixel_addr s x y) v) as (m' & Hst & Hmod & Hld).
  { intros b Hb'. apply Hmap. rewrite Z2Nat.id in Hb' by lia. by apply (pixel_in_fb x y). }
  rewrite Z2Nat.id in Hmod, Hld by lia. exists m'. split_and!; [done| |done].
  eapply modifies_mono; [|exact Hmod]. intros b Hb'. by exists x, y.
Qed.
End geometry.

(** ** Colours and counted loops *)

(** The framebuffer's value of an RGB colour. *)
Definition native (s : framebuffer) (rgb : Z) : Z :=
  match pack_color s rgb with Ok v => v | _ => 0 end.

Lemma shl32_small x n : n < 32 → shl32 x n = Ok (u32 (Z.shiftl x n)).
Proof. intros Hn. unfold shl32. rewrite (proj2 (Z.ltb_lt _ _) Hn). reflexivity. Qed.

Lemma pack_color_value s rgb :
  mode_ok (fb s) →
  pack_color s rgb = Ok (Z.lor (Z.lor
    (u32 (Z.shiftl (scale (u8 (Z.shiftr rgb 16)) (red_mask_size (fb s))) (red_mask_shift (fb s))))
    (u32 (Z.shiftl (scale (u8 (Z.shiftr rgb 8)) (green_mask_size (fb s))) (green_mask_shift (fb s)))))
    (u32 (Z.shiftl (scale (u8 rgb) (blue_mask_size (fb s))) (blue_mask_shift (fb s))))).
Proof.
  intros Hm. destruct (mode_shifts _ Hm) as (Hr & Hg & Hb). unfold pack_color.
  rewrite (shl32_small _ _ Hr), (shl32_small _ _ Hg), (shl32_small _ _ Hb). reflexivity.
Qed.

Lemma pack_color_native s rgb : mode_ok (fb s) → pack_color s rgb = Ok (native s rgb).
Proof. intros Hm. unfold native. rewrite (pack_color_value s rgb Hm). reflexivity. Qed.

Lemma native_nonneg s rgb : mode_ok (fb s) → 0 ≤ native s rgb.
Proof.
  intros Hm. unfold native. rewrite (pack_color_value s rgb Hm). rewrite !Z.lor_nonneg.
  split_and!; apply u32_range.
Qed.

(** With a bound that the counter can reach the loop is a counted loop. *)
Lemma for_u32_spec {S} (P : Z → S → Prop) (bound : Z) (body : Z → S → res S) (s : S) :
  0 ≤ bound < 2 ^ 32 → P 0 s →
  (∀ i t, 0 ≤ i < bound → P i t → ∃ t', body i t = Ok t' ∧ P (i + 1) t') →
  ∃ s', for_u32 (Z.to_nat bound) 0 bound body s = Ok s' ∧ P bound s'.
Proof.
  intros Hb H0 Hstep.
  assert (Hgen : ∀ fuel i t, 0 ≤ i ≤ bound → bound - i = Z.of_nat fuel → P i t →
    ∃ s', for_u32 fuel i bound body t = Ok s' ∧ P bound s').
  { induction fuel as [|fuel IH]; intros i t Hi Hf Ht; cbn [for_u32].
    - rewrite (proj2 (Z.ltb_ge _ _)) by lia. replace bound with i by lia. by exists t.
    - rewrite (proj2 (Z.ltb_lt _ _)) by lia. destruct (Hstep i t) as (t' & -> & Ht'); [lia|done|].
      cbn [mbind res_bind]. rewrite u32_small by lia. apply IH; [lia..|done]. }
  apply Hgen; [lia..|done].
Qed.

(** ** Painting

    [painted s m0 m A f]: from [m0] to [m] exactly the pixels of [A] were
    written, with the colours [f]. *)

Definition painted (s : framebuffer) (m0 m : mem) (A : Z → Z → Prop) (f : Z → Z → Z) : Prop :=
  modifies (area s A) m0 m ∧
  ∀ x y, on_screen s x y → A x y → pixel s m x y = Ok (pixel_value s (f x y)).

Lemma painted_none s m f : painted s m m (λ _ _, False) f.
Proof. split; [done|]. by intros x y _ []. Qed.

Lemma painted_ext s m0 m (A B : Z → Z → Prop) f :
  (∀ x y, on_screen s x y → (A x y ↔ B x y)) → painted s m0 m A f → painted s m0 m B f.
Proof.
  intros HAB [Hmod Hp]. split.
  - eapply modifies_mono; [|exact Hmod]. intros b (x & y & Hon & HA & Hb). exists x, y. by rewrite <-HAB.
  - intros x y Hon HB. apply Hp; [done|]. by apply HAB.
Qed.

Lemma painted_mapped s m0 m A f : painted s m0 m A f → fb_mapped s m0 → fb_mapped s m.
Proof. intros [Hmod _]. by apply modifies_mapped with (1 := Hmod). Qed.

Lemma paint_pixel s m0 m A f x y :
  fb_ok s → painted s m0 m A f → fb_mapped s m0 → on_screen s x y → 0 ≤ f x y →
  ∃ m', put_pixel_raw s m x y (f x y) = Ok m' ∧ painted s m0 m' (λ x' y', A x' y' ∨ x' = x ∧ y' = y) f.
Proof.
  intros Hok Hp Hmap Hon Hf. pose proof (painted_mapped _ _ _ _ _ Hp Hmap) as Hmap'. destruct Hp as [Hmod Hp].
  destruct (put_pixel_spec s Hok m x y (f x y) Hon Hmap' Hf) as (m' & Hput & Hmod' & Hpix).
  exists m'. split; [exact Hput|]. split.
  - etransitivity; (eapply modifies_mono; [|eassumption]); intros b (x' & y' & Hon' & HA & Hb); exists x', y'; eauto.
  - intros x' y' Hon' HA. destruct (decide (x' = x ∧ y' = y)) as [[-> ->]|Hne]; [done|].
    rewrite (pixel_modifies s Hok _ _ _ x' y' Hmod') by done. apply Hp; [done|]. tauto.
Qed.

Lemma fb_clear_spec s m rgb :
  fb_ok s → fb_mapped s m →
  ∃ m', fb_clear s m rgb = Ok m' ∧ painted s m m' (λ _ _, True) (λ _ _, native s rgb).
Proof.
  intros Hok Hmap. pose proof (ok_mode s Hok) as Hm. pose proof (mode_width _ Hm). pose proof (mode_height _ Hm).
  pose proof (native_nonneg s rgb Hm) as Hn. unfold fb_clear. rewrite pack_color_native by done. cbn [mbind res_bind].
  destruct (for_u32_spec (λ y t, painted s m t (λ _ y', y' < y) (λ _ _, native s rgb)) (height (fb s))
    (λ y m, for_u32 (Z.to_nat (width (fb s))) 0 (width (fb s)) (λ x m, put_pixel_raw s m x y (native s rgb)) m) m)
    as (m' & Hl & Hp).
  - lia.
  - eapply painted_ext, painted_none. unfold on_screen. intros. lia.
  - intros y t Hy Hp.
    destruct (for_u32_spec (λ x t, painted s m t (λ x' y', y' < y ∨ y' = y ∧ x' < x) (λ _ _, native s rgb))
      (width (fb s)) (λ x m, put_pixel_raw s m x y (native s rgb)) t) as (t' & Hl & Hp').
    + lia.
    + eapply painted_ext, Hp. unfold on_screen. intros. lia.
    + intros x u Hx Hu. destruct (paint_pixel s m u _ _ x y Hok Hu Hmap) as (u' & Hput & Hp'); [by split | done|].
      exists u'. split; [exact Hput|]. eapply painted_ext, Hp'. intros. simpl. lia.
    + exists t'. split; [exact Hl|]. eapply painted_ext, Hp'. unfold on_screen. intros. lia.
  - exists m'. split; [exact Hl|]. eapply painted_ext, Hp. unfold on_screen. intros. split; [done | lia].
Qed.

(** ** Glyphs *)

Definition glyph_bit (c gx gy : Z) : bool :=
  match font8x8_basic !! Z.to_nat (Z.land (u8 c) 0x7f) ≫= (.!! Z.to_nat gy) with
  | Some bits => Z.testbit bits gx
  | None => false
  end.

Definition cell_color (s : framebuffer) (x : cell) (gx gy : Z) : Z :=
  match x with
  | Blank => 0
  | Glyph c fg bg => native s (if glyph_bit c gx gy then fg else bg)
  end.

Lemma bit_test b n : 0 ≤ n → negb (Z.land b (Z.shiftl 1 n) =? 0) = Z.testbit b n.
Proof.
  intros Hn. rewrite Z.shiftl_1_l. destruct (Z.testbit b n) eqn:Hb.
  - apply negb_true_iff, Z.eqb_neq. intros H0.
    assert (Z.testbit (Z.land b (2 ^ n)) n = true) as Ht by (rewrite Z.land_spec, Hb, Z.pow2_bits_true by done; done).
    rewrite H0, Z.bits_0 in Ht. discriminate.
  - apply negb_false_iff, Z.eqb_eq. apply Z.bits_inj'. intros i Hi. rewrite Z.land_spec, Z.bits_0.
    destruct (decide (i = n)) as [->|]; [by rewrite Hb|]. rewrite Z.pow2_bits_false by done. apply andb_false_r.
Qed.

Definition in_cell (col row x y : Z) : Prop := 8 * col ≤ x < 8 * col + 8 ∧ 8 * row ≤ y < 8 * row + 8.

Lemma draw_glyph_spec s m col row c fg bg :
  fb_ok s → fb_mapped s m → 0 ≤ col → 0 ≤ row → 8 * col + 8 ≤ width (fb s) → 8 * row + 8 ≤ height (fb s) →
  ∃ m', draw_glyph s m col row c fg bg = Ok m' ∧
    painted s m m' (in_cell col row) (λ x y, cell_color s (Glyph c fg bg) (x - 8 * col) (y - 8 * row)).
Proof.
  intros Hok Hmap Hc0 Hr0 Hc Hr. pose proof (ok_mode s Hok) as Hm.
  pose proof (mode_width _ Hm). pose proof (mode_height _ Hm).
  set (f := λ x y, cell_color s (Glyph c fg bg) (x - 8 * col) (y - 8 * row)).
  unfold draw_glyph. rewrite !pack_color_native by done. cbn [mbind res_bind].
  assert (Hcode : (Z.to_nat (Z.land (u8 c) 0x7f) < 128)%nat).
  { change 0x7f with (Z.ones 7). rewrite Z.land_ones by lia.
    pose proof (Z.mod_pos_bound (u8 c) (2 ^ 7) ltac:(lia)). lia. }
  destruct (font8x8_glyph _ Hcode) as (g & Hg & Hgl & _). rewrite Hg. cbn [deref mbind res_bind].
  unfold CELL_W, CELL_H. rewrite !u32_small by lia.
  destruct (for_range_spec (λ gy t, painted s m t (λ x y, in_cell col row x y ∧ y < 8 * row + gy) f) 0 8
    (λ gy m, bits ← deref (g !! Z.to_nat gy); for_range 0 8 (λ gx m,
      put_pixel_raw s m (u32 (col * 8 + gx)) (u32 (row * 8 + gy))
        (if negb (Z.land bits (Z.shiftl 1 gx) =? 0) then native s fg else native s bg)) m) m) as (m' & Hl & Hp).
  - lia.
  - eapply painted_ext, painted_none. unfold in_cell. intros. lia.
  - intros gy t Hgy Hp. destruct (lookup_lt_is_Some_2 g (Z.to_nat gy)) as [bits Hbits]; [lia|].
    rewrite Hbits. cbn [deref mbind res_bind].
    destruct (for_range_spec (λ gx t, painted s m t (λ x y, in_cell col row x y ∧
        (y < 8 * row + gy ∨ y = 8 * row + gy ∧ x < 8 * col + gx)) f) 0 8
      (λ gx m, put_pixel_raw s m (u32 (col * 8 + gx)) (u32 (row * 8 + gy))
        (if negb (Z.land bits (Z.shiftl 1 gx) =? 0) then native s fg else native s bg)) t) as (t' & Hl & Hp').
    + lia.
    + eapply painted_ext, Hp. unfold in_cell. intros. lia.
    + intros gx u Hgx Hu. rewrite !u32_small, bit_test by lia.
      assert (Hv : (if Z.testbit bits gx then native s fg else native s bg) = f (col * 8 + gx) (row * 8 + gy)).
      { unfold f, cell_color, glyph_bit. replace (row * 8 + gy - 8 * row) with gy by lia.
        replace (col * 8 + gx - 8 * col) with gx by lia. rewrite Hg. cbn [mbind option_bind]. rewrite Hbits.
        by destruct (Z.testbit bits gx). }
      rewrite Hv. destruct (paint_pixel s m u _ f (col * 8 + gx) (row * 8 + gy) Hok Hu Hmap) as (u' & Hput & Hp').
      * unfold on_screen. lia.
      * unfold f, cell_color. destruct (glyph_bit _ _ _); by apply native_nonneg.
      * exists u'. split; [exact Hput|]. eapply painted_ext, Hp'. unfold in_cell. intros. simpl. lia.
    + exists t'. split; [exact Hl|]. eapply painted_ext, Hp'. unfold in_cell. intros. lia.
  - exists m'. split; [exact Hl|]. eapply painted_ext, Hp. unfold in_cell. intros. lia.
Qed.

(** ** Scrolling *)

Lemma load_le_shift n m m' a b :
  (∀ i, 0 ≤ i < Z.of_nat n → m' !! (a + i) = m !! (b + i)) → load_le n m' a = load_le n m b.
Proof.
  revert a b. induction n as [|n IH]; intros a b H; [done|]. cbn [load_le]. unfold load8.
  pose proof (H 0 ltac:(lia)) as H0. rewrite !Z.add_0_r in H0. rewrite H0.
  rewrite (IH (a + 1) (b + 1)); [done|]. intros i Hi. rewrite <-!Z.add_assoc. apply H. lia.
Qed.

Lemma scroll_one_row_spec s m :
  fb_ok s → fb_mapped s m →
  ∃ m', scroll_one_row s m = Ok m' ∧ modifies (fb_bytes s) m m' ∧
    ∀ x y, on_screen s x y →
      pixel s m' x y = if y + 8 <? height (fb s) then pixel s m x (y + 8) else Ok 0.
Proof.
  intros Hok Hmap. pose proof (ok_mode s Hok) as Hm. pose proof (mode_height _ Hm). pose proof (mode_end _ Hm).
  pose proof (mode_addr _ Hm). pose proof (pitch_pos s Hok) as Hp. pose proof (bytes_range s Hok).
  set (h := height (fb s)) in *. set (p := pitch (fb s)) in *. set (base := address (fb s)) in *.
  assert (Hrem : 0 ≤ (h - 8) * p) by nia. assert (Htot : (h - 8) * p + 8 * p = h * p) by nia.
  unfold scroll_one_row, CELL_H. fold h p base. rewrite (u64_small (h - 8)), !u64_small by lia.
  destruct (memmove_spec m base (base + 8 * p) ((h - 8) * p)) as (m1 & -> & Hmod1 & Hc); [done| | |].
  { intros b Hb. apply Hmap. unfold in_range in *. fold h p base. lia. }
  { intros b Hb. apply Hmap. unfold in_range in *. fold h p base. lia. }
  cbn [mbind res_bind].
  destruct (memset_spec m1 (base + (h - 8) * p) 0 (8 * p)) as (m2 & -> & Hmod2 & Hf); [lia| |].
  { intros b Hb. apply Hmod1, Hmap. unfold in_range in *. fold h p base. lia. }
  cbn [mbind res_bind]. exists m2. split; [done|]. split.
  { etransitivity; (eapply modifies_mono; [|eassumption]); intros b; unfold fb_bytes, in_range; fold h p base; lia. }
  intros x y [Hx Hy]. pose proof (pixel_in_row s Hok x Hx) as [Hx0 Hx1]. fold h p base in Hy, Hx1. unfold pixel, pixel_addr. fold p base.
  destruct (Z.ltb_spec (y + 8) h).
  - assert ((y + 1) * p ≤ (h - 8) * p) by nia. assert (0 ≤ y * p) by nia.
    rewrite (load_le_modifies _ _ _ _ _ Hmod2) by (intros b; unfold in_range; lia).
    apply load_le_shift. intros i Hi. replace (base + y * p + x * bytes_per_pixel s + i)
      with (base + (y * p + x * bytes_per_pixel s + i)) by lia.
    rewrite Hc by lia. f_equal. lia.
  - assert ((h - 8) * p ≤ y * p) by nia. assert (y * p + p ≤ h * p) by nia.
    apply load_le_zero. intros b Hb. apply Hf. unfold in_range in *. lia.
Qed.

(** ** The screen shows a grid *)

Definition cell_shown (s : framebuffer) (m : mem) (c r : nat) (x : cell) : Prop :=
  ∀ gx gy, 0 ≤ gx < 8 → 0 ≤ gy < 8 →
    pixel s m (8 * Z.of_nat c + gx) (8 * Z.of_nat r + gy) = Ok (pixel_value s (cell_color s x gx gy)).

Definition cell_of (g : list (list cell)) (c r : nat) : option cell := g !! r ≫= (.!! c).

Record content (s : framebuffer) (m : mem) (g : list (list cell)) : Prop := {
  con_ok : fb_ok s;
  con_mapped : fb_mapped s m;
  con_rows : Z.of_nat (length g) = console_rows s;
  con_cols : ∀ r row, g !! r = Some row → Z.of_nat (length row) = console_cols s;
  con_cells : ∀ c r x, cell_of g c r = Some x → cell_shown s m c r x;
  con_margin : ∀ x y, on_screen s x y → x < 8 * console_cols s → 8 * console_rows s ≤ y → pixel s m x y = Ok 0;
}.

(** The relation of the refinement: the grid is on the screen, the cursor is
    the abstract one. *)
Record shows (s : framebuffer) (m : mem) (t : term) : Prop := {
  sh_content : content s m (grid t);
  sh_cursor : cursor_col s = Z.of_nat (t_col t) ∧ cursor_row s = Z.of_nat (t_row t);
  sh_bounds : cursor_col s < console_cols s ∧ cursor_row s < console_rows s;
}.

Section cells.
Context (s : framebuffer) (Hok : fb_ok s).

Lemma text_area :
  1 ≤ console_cols s < 2 ^ 29 ∧ 8 * console_cols s ≤ width (fb s) ∧
  1 ≤ console_rows s < 2 ^ 29 ∧ 8 * console_rows s ≤ height (fb s) < 8 * console_rows s + 8.
Proof using Hok.
  rewrite (ok_cols s Hok), (ok_rows s Hok). pose proof (mode_width _ (ok_mode s Hok)).
  pose proof (mode_height _ (ok_mode s Hok)). dlia.
Qed.

Lemma cell_of_bounds m g c r x :
  content s m g → cell_of g c r = Some x → Z.of_nat c < console_cols s ∧ Z.of_nat r < console_rows s.
Proof using.
  intros Hc H. unfold cell_of in H. destruct (g !! r) as [row|] eqn:Hr; [|done]. simpl in H.
  rewrite <-(con_rows _ _ _ Hc), <-(con_cols _ _ _ Hc r row Hr).
  apply lookup_lt_Some in H, Hr. lia.
Qed.

Lemma pixel_value_0 : pixel_value s 0 = 0.
Proof using Hok.
  unfold pixel_value. apply Z.mod_0_l. apply Z.pow_nonzero; [lia|]. pose proof (bytes_range s Hok). lia.
Qed.

Lemma blank_row_cell cols c x : replicate cols Blank !! c = Some x → x = Blank.
Proof using. by intros [-> _]%lookup_replicate. Qed.

Lemma content_scroll m g :
  content s m g →
  ∃ m', scroll_one_row s m = Ok m' ∧ modifies (fb_bytes s) m m' ∧
    content s m' (tail g ++ [replicate (Z.to_nat (console_cols s)) Blank]).
Proof using Hok.
  intros Hc. destruct text_area as (Hc1 & Hc2 & Hr1 & Hr2 & Hr3).
  destruct (scroll_one_row_spec s m Hok (con_mapped _ _ _ Hc)) as (m' & Hs & Hmod & Hpix).
  exists m'. split; [exact Hs|]. split; [exact Hmod|].
  pose proof (con_rows _ _ _ Hc) as Hlen. destruct g as [|row0 g]; [simpl in Hlen; lia|]. simpl tail. simpl in Hlen.
  assert (Hlook : ∀ r row, (g ++ [replicate (Z.to_nat (console_cols s)) Blank]) !! r = Some row →
    (row0 :: g) !! S r = Some row ∧ Z.of_nat r + 1 < console_rows s ∨
    Z.of_nat r + 1 = console_rows s ∧ row = replicate (Z.to_nat (console_cols s)) Blank).
  { intros r row Hl. apply lookup_app_Some in Hl as [Hl|[Hge Hl]].
    - left. split; [exact Hl|]. apply lookup_lt_Some in Hl. lia.
    - right. apply list_lookup_singleton_Some in Hl as [Hz <-]. split; [lia|done]. }
  split.
  - exact Hok.
  - by apply modifies_mapped with (1 := Hmod), Hc.
  - rewrite length_app. simpl. lia.
  - intros r row Hl. destruct (Hlook r row Hl) as [[Hl' _]|[_ ->]].
    + by apply (con_cols _ _ _ Hc (S r)).
    + rewrite length_replicate. lia.
  - intros c r x Hx gx gy Hgx Hgy. unfold cell_of in Hx.
    destruct ((g ++ [_]) !! r) as [row|] eqn:Hl; [|done]. simpl in Hx.
    destruct (Hlook r row Hl) as [[Hl' Hlt]|[Heq ->]].
    + assert (Hcell : cell_of (row0 :: g) c (S r) = Some x) by (unfold cell_of; rewrite Hl'; exact Hx).
      destruct (cell_of_bounds m (row0 :: g) c (S r) x Hc Hcell) as [Hcb Hrb].
      rewrite Hpix by (unfold on_screen; lia). rewrite (proj2 (Z.ltb_lt _ _)) by lia.
      replace (8 * Z.of_nat r + gy + 8) with (8 * Z.of_nat (S r) + gy) by lia.
      by apply (con_cells _ _ _ Hc c (S r) x).
    + apply lookup_replicate in Hx as [-> Hcb]. cbn [cell_color]. rewrite pixel_value_0.
      rewrite Hpix by (unfold on_screen; lia). destruct (Z.ltb_spec (8 * Z.of_nat r + gy + 8) (height (fb s))); [|done].
      apply (con_margin _ _ _ Hc); unfold on_screen; lia.
  - intros x y [Hx Hy] Hxc Hyr. rewrite Hpix by (split; lia). rewrite (proj2 (Z.ltb_ge _ _)) by lia. done.
Qed.

Lemma cell_of_set g col row x c r :
  cell_of (term_set g col row x) c r =
    if decide (r = row ∧ c = col) then const x <$> cell_of g c r else cell_of g c r.
Proof using.
  unfold cell_of, term_set. destruct (decide (r = row)) as [->|Hr].
  - rewrite list_lookup_alter_eq. destruct (g !! row) as [l|]; simpl; [|by case_decide].
    destruct (decide (c = col)) as [->|Hc].
    + rewrite decide_True by done. destruct (l !! col) as [y|] eqn:Hl; simpl.
      * rewrite list_lookup_insert_eq by (by eapply lookup_lt_Some). done.
      * apply lookup_ge_None in Hl. rewrite list_insert_ge by done. by apply lookup_ge_None.
    + rewrite decide_False by tauto. by rewrite list_lookup_insert_ne.
  - rewrite decide_False by tauto. by rewrite list_lookup_alter_ne.
Qed.

Lemma content_draw m g col row ch fg bg :
  content s m g → Z.of_nat col < console_cols s → Z.of_nat row < console_rows s →
  ∃ m', draw_glyph s m (Z.of_nat col) (Z.of_nat row) ch fg bg = Ok m' ∧ modifies (fb_bytes s) m m' ∧
    content s m' (term_set g col row (Glyph ch fg bg)).
Proof using Hok.
  intros Hc Hcol Hrow. destruct text_area as (Hc1 & Hc2 & Hr1 & Hr2 & Hr3).
  destruct (draw_glyph_spec s m (Z.of_nat col) (Z.of_nat row) ch fg bg Hok (con_mapped _ _ _ Hc))
    as (m' & Hd & Hmod & Hpix); [lia..|].
  exists m'. split; [exact Hd|].
  assert (Hmod' : modifies (fb_bytes s) m m') by (eapply modifies_mono; [apply (area_in_fb s Hok)|exact Hmod]).
  split; [exact Hmod'|]. split.
  - exact Hok.
  - by apply modifies_mapped with (1 := Hmod'), Hc.
  - unfold term_set. rewrite length_alter. apply Hc.
  - intros r l. unfold term_set. destruct (decide (r = row)) as [->|Hr].
    + rewrite list_lookup_alter_eq. intros (l0 & Hl0 & ->)%fmap_Some. rewrite length_insert. by apply (con_cols _ _ _ Hc row).
    + rewrite list_lookup_alter_ne by done. apply (con_cols _ _ _ Hc r).
  - intros c r x. rewrite cell_of_set. destruct (decide (r = row ∧ c = col)) as [[-> ->]|Hne].
    + intros (y & Hy & ->)%fmap_Some gx gy Hgx Hgy. rewrite Hpix by (unfold on_screen, in_cell; lia).
      do 3 f_equal; lia.
    + intros Hx gx gy Hgx Hgy. destruct (cell_of_bounds m g c r x Hc Hx).
      rewrite (pixel_modifies s Hok _ _ _ _ _ Hmod) by (unfold on_screen, in_cell; lia).
      by apply (con_cells _ _ _ Hc).
  - intros x y Hon Hx Hy. rewrite (pixel_modifies s Hok _ _ _ _ _ Hmod) by (done || unfold in_cell; lia).
    by apply (con_margin _ _ _ Hc).
Qed.
End cells.

(** ** The cursor *)

Lemma fb_ok_cursor s a b : fb_ok s → fb_ok (set_cursor s a b).
Proof. intros [Hm Hb Hc Hr]. by split. Qed.

Lemma content_cursor s m g a b : content s m g → content (set_cursor s a b) m g.
Proof. intros [Hok Hmap Hr Hc Hcell Hmar]. split; try done. by apply fb_ok_cursor. Qed.

Lemma shows_intro s m g a b :
  content s m g → Z.of_nat a < console_cols s → Z.of_nat b < console_rows s →
  shows (set_cursor s (Z.of_nat a) (Z.of_nat b)) m (mk_term g a b).
Proof. intros Hc Ha Hb. split; [by apply content_cursor | done | done]. Qed.

(** The end of [fb_console_putc]: the cursor was moved down. *)
Lemma console_down s m g row :
  content s m g → Z.of_nat row < console_rows s →
  ∃ a b m',
    (let s1 := set_cursor s 0 (u32 (Z.of_nat row + 1)) in
     if console_rows s1 <=? cursor_row s1 then
       m2 ← scroll_one_row s1 m;
       Ok (set_cursor s1 (cursor_col s1) (u32 (console_rows s1 - 1)), m2)
     else Ok (s1, m)) = Ok (set_cursor s a b, m') ∧
    modifies (fb_bytes s) m m' ∧
    shows (set_cursor s a b) m' (term_down (Z.to_nat (console_cols s)) (Z.to_nat (console_rows s)) g 0 row).
Proof.
  intros Hc Hrow. destruct (text_area s (con_ok _ _ _ Hc)) as (Hc1 & Hc2 & Hr1 & Hr2 & Hr3).
  cbn [set_cursor console_rows cursor_row cursor_col]. rewrite u32_small by lia. unfold term_down.
  destruct (Z.leb_spec (console_rows s) (Z.of_nat row + 1)).
  - rewrite decide_False by lia. destruct (content_scroll _ (fb_ok_cursor s 0 (Z.of_nat row + 1) (con_ok _ _ _ Hc)) m g)
      as (m' & Hs & Hmod & Hc'); [by apply content_cursor|].
    rewrite Hs. cbn [mbind res_bind]. rewrite u32_small by lia.
    exists 0, (console_rows s - 1), m'. split; [done|]. split; [exact Hmod|].
    replace (console_rows s - 1) with (Z.of_nat (Z.to_nat (console_rows s) - 1)) by lia.
    apply (shows_intro s m' _ 0); [|lia..].
    by apply (content_cursor _ _ _ (cursor_col s) (cursor_row s)) in Hc'; destruct s.
  - rewrite decide_True by lia. exists 0, (Z.of_nat row + 1), m. split; [done|]. split; [done|].
    replace (Z.of_nat row + 1) with (Z.of_nat (S row)) by lia. apply (shows_intro s m g 0); [done|lia..].
Qed.

Lemma fb_console_putc_spec s m t c fg bg :
  shows s m t →
  ∃ a b m', fb_console_putc s m c fg bg = Ok (set_cursor s a b, m') ∧ modifies (fb_bytes s) m m' ∧
    shows (set_cursor s a b) m' (term_putc (Z.to_nat (console_cols s)) (Z.to_nat (console_rows s)) t c fg bg).
Proof.
  intros [Hc [Hcol Hrow] [Hcb Hrb]]. pose proof (con_ok _ _ _ Hc) as Hok.
  destruct (text_area s Hok) as (Hc1 & Hc2 & Hr1 & Hr2 & Hr3).
  pose proof (mode_addr _ (ok_mode s Hok)). unfold fb_console_putc, term_putc.
  rewrite (proj2 (Z.eqb_neq _ 0)) by lia. destruct (Z.eqb_spec c 10) as [->|Hne].
  - cbn [mbind res_bind]. rewrite Hrow. apply (console_down s m (grid t) (t_row t) Hc). lia.
  - rewrite Hcol, Hrow. destruct (content_draw s Hok m (grid t) (t_col t) (t_row t) c fg bg Hc)
      as (m1 & Hd & Hmod & Hc'); [lia..|].
    rewrite Hd. cbn [mbind res_bind]. rewrite u32_small by lia.
    destruct (Z.leb_spec (console_cols s) (Z.of_nat (t_col t) + 1)); cbn [mbind res_bind].
    + rewrite decide_False by lia.
      destruct (console_down s m1 _ (t_row t) Hc' ltac:(lia)) as (a & b & m' & Hr & Hmod' & Hs).
      exists a, b, m'. split; [exact Hr|]. split; [by etransitivity | exact Hs].
    + rewrite decide_True by lia. cbn [set_cursor console_rows cursor_row cursor_col].
      rewrite (proj2 (Z.leb_gt _ _)) by lia. replace (Z.of_nat (t_col t) + 1) with (Z.of_nat (S (t_col t))) by lia.
      do 3 eexists. split; [done|]. split; [exact Hmod|]. apply shows_intro; [done|lia..].
Qed.

Lemma console_write_loop_spec l s m t str fg bg fuel :
  shows s m t → cstr m str l → (length l < fuel)%nat →
  (∀ x, in_range str (Z.of_nat (length l) + 1) x → ¬ fb_bytes s x) →
  ∃ a b m', console_write_loop fuel s m str fg bg = Ok (set_cursor s a b, m') ∧ modifies (fb_bytes s) m m' ∧
    shows (set_cursor s a b) m' (term_write (Z.to_nat (console_cols s)) (Z.to_nat (console_rows s)) t l fg bg).
Proof.
  revert s m t str fuel. induction l as [|c l IH]; intros s m t str [|fuel] Hs Hl Hf Hdis; simpl in Hf; try lia;
    cbn [console_write_loop].
  - apply cstr_nil in Hl. unfold load8. rewrite Hl. cbn [deref mbind res_bind]. change (negb (0 =? 0)) with false.
    cbn iota. exists (cursor_col s), (cursor_row s), m. destruct s. split; [done|]. split; [done|exact Hs].
  - pose proof (cstr_head _ _ _ _ Hl) as [Hh Hr]. unfold load8. rewrite Hh. cbn [deref mbind res_bind].
    rewrite (proj2 (Z.eqb_neq c 0)) by lia. cbn [negb].
    destruct (fb_console_putc_spec s m t c fg bg Hs) as (a & b & m1 & Hp & Hmod & Hs1). rewrite Hp.
    cbn [mbind res_bind].
    assert (Hl1 : cstr m1 (str + 1) l).
    { eapply cstr_modifies; [by eapply cstr_tail | exact Hmod |].
      intros x Hx. apply Hdis. simpl length. unfold in_range in *. lia. }
    destruct (IH (set_cursor s a b) m1 _ (str + 1) fuel Hs1 Hl1) as (a' & b' & m' & Hw & Hmod' & Hs'); [lia| |].
    + intros x Hx. apply (Hdis x). simpl length. unfold in_range in *. lia.
    + exists a', b', m'. split; [exact Hw|]. split; [by etransitivity | exact Hs'].
Qed.

(** A fresh console over a framebuffer cleared to black shows the blank grid. *)
Lemma native_black s : mode_ok (fb s) → native s 0 = 0.
Proof.
  intros Hm. unfold native. rewrite (pack_color_value s 0 Hm). change (u8 (Z.shiftr 0 16)) with 0.
  change (u8 (Z.shiftr 0 8)) with 0. change (u8 0) with 0. unfold scale. rewrite !Z.shiftr_0_l.
  destruct (_ <? 8), (_ <? 8), (_ <? 8); by rewrite !Z.shiftl_0_l.
Qed.

Definition init_state (i : boot_framebuffer) : framebuffer :=
  mk_fb i true (u32 (bpp i / 8)) (u32 (width i / CELL_W)) (u32 (height i / CELL_H)) 0 0.

Lemma init_state_ok i : mode_ok i → fb_ok (init_state i).
Proof.
  intros Hm. destruct Hm as [Ha Hb Hw Hh Hp He Hs]. split; [by split | | |]; cbn [init_state bytes_per_pixel console_cols console_rows fb];
    unfold CELL_W, CELL_H; rewrite u32_small; dlia.
Qed.

Lemma cleared_blank s m m' :
  fb_ok s → fb_mapped s m → cursor_col s = 0 → cursor_row s = 0 →
  painted s m m' (λ _ _, True) (λ _ _, native s 0) →
  shows s m' (term_blank (Z.to_nat (console_cols s)) (Z.to_nat (console_rows s))).
Proof.
  intros Hok Hmap H1 H2 Hp. destruct (text_area s Hok) as (Hc1 & Hc2 & Hr1 & Hr2 & Hr3).
  pose proof (painted_mapped _ _ _ _ _ Hp Hmap) as Hmap'. destruct Hp as [_ Hpix].
  assert (Hz : ∀ x y, on_screen s x y → pixel s m' x y = Ok 0).
  { intros x y Hon. rewrite Hpix by done. by rewrite native_black, pixel_value_0 by (done || apply Hok). }
  split; [|done|lia]. split; try done.
  - cbn [grid term_blank]. rewrite length_replicate. lia.
  - intros r row [-> _]%lookup_replicate. rewrite length_replicate. lia.
  - intros c r x Hx gx gy Hgx Hgy. unfold cell_of in Hx. cbn [grid term_blank] in Hx.
    destruct (replicate _ _ !! r) as [row|] eqn:Hrow; [|done]. simpl in Hx.
    apply lookup_replicate in Hrow as [-> Hr]. apply lookup_replicate in Hx as [-> Hx].
    cbn [cell_color]. rewrite pixel_value_0 by done. apply Hz. unfold on_screen. lia.
  - intros x y Hon _ _. by apply Hz.
Qed.

(** ** Properties *)

(** C27: on a framebuffer whose bytes are accessible, [fb_console_write] always
    returns and refines the text grid: if the screen shows a grid and a cursor,
    then after writing a NUL-terminated string that lies outside the
    framebuffer it shows, glyph by glyph and pixel by pixel, the grid after
    the same characters - wrapped at the right edge, scrolled at the bottom,
    newlines obeyed - with the cursor in bounds, and not a byte outside the
    framebuffer has changed. *)
Theorem console_write_refines s m t str l fg bg :
  shows s m t → cstr m str l →
  (∀ x, in_range str (Z.of_nat (length l) + 1) x → ¬ fb_bytes s x) →
  ∃ s' m', fb_console_write s m str fg bg = Ok (s', m') ∧ modifies (fb_bytes s) m m' ∧
    shows s' m' (term_write (Z.to_nat (console_cols s)) (Z.to_nat (console_rows s)) t l fg bg).
Proof.
  intros Hs Hl Hdis. pose proof (cstr_size _ _ _ Hl).
  destruct (console_write_loop_spec l s m t str fg bg (mem_fuel m) Hs Hl) as (a & b & m' & Hr & Hmod & Hs');
    [unfold mem_fuel; lia | done |]. by exists (set_cursor s a b), m'.
Qed.

(** [fb_init] fails exactly without a framebuffer; on a usable mode
    [fb_clear] then returns, gives every pixel of the screen the colour in the
    mode's own format and writes no byte that is not a pixel's, and after
    clearing to black the console shows the blank grid with the cursor in the
    corner. *)
Theorem fb_init_clear_correct s m info rgb :
  (fst (fb_init s info) = false ↔ info = None ∨ ∃ i, info = Some i ∧ address i = 0) ∧
  ∀ i, info = Some i → mode_ok i → mapped m (address i) (height i * pitch i) →
    let s' := snd (fb_init s info) in
    fb_is_available s' = true ∧
    ∃ m', fb_clear s' m rgb = Ok m' ∧ modifies (area s' (λ _ _, True)) m m' ∧
      (∀ x y, on_screen s' x y → pixel s' m' x y = Ok (pixel_value s' (native s' rgb))) ∧
      (rgb = 0 → shows s' m' (term_blank (Z.to_nat (width i / 8)) (Z.to_nat (height i / 8)))).
Proof.
  split.
  - destruct info as [i|]; cbn [fb_init]; [|by split; [left|]].
    destruct (Z.eqb_spec (address i) 0) as [H0|H0]; cbn [fst].
    + split; [|done]. intros _. right. by exists i.
    + split; [done|]. intros [|(i' & [= <-] & Ha)]; done.
  - intros i -> Hm Hmap. pose proof (mode_addr _ Hm). cbn [fb_init].
    rewrite (proj2 (Z.eqb_neq _ 0)) by lia. cbn [snd]. fold (init_state i). split; [done|].
    pose proof (init_state_ok i Hm) as Hok.
    destruct (fb_clear_spec (init_state i) m rgb Hok Hmap) as (m' & Hc & Hp).
    exists m'. split; [exact Hc|]. pose proof Hp as [Hmod Hpix]. split; [exact Hmod|]. split; [intros; by apply Hpix|].
    intros ->. pose proof (ok_cols _ Hok) as Hcols. pose proof (ok_rows _ Hok) as Hrows.
    cbn [init_state fb] in Hcols, Hrows. rewrite <-Hcols, <-Hrows. by apply (cleared_blank _ m).
Qed.

(** With eight bits for each component [pack_color] only moves them to the
    mode's positions, and with five, six and five it keeps the high bits of
    each: the usual 0xRRGGBB and RGB565 formats. *)
Theorem pack_color_formats s rgb :
  0 ≤ rgb < 2 ^ 24 →
  (red_mask_shift (fb s) = 16 ∧ green_mask_shift (fb s) = 8 ∧ blue_mask_shift (fb s) = 0 ∧
     red_mask_size (fb s) = 8 ∧ green_mask_size (fb s) = 8 ∧ blue_mask_size (fb s) = 8 → pack_color s rgb = Ok rgb) ∧
  (red_mask_shift (fb s) = 11 ∧ green_mask_shift (fb s) = 5 ∧ blue_mask_shift (fb s) = 0 ∧
     red_mask_size (fb s) = 5 ∧ green_mask_size (fb s) = 6 ∧ blue_mask_size (fb s) = 5 →
   pack_color s rgb = Ok (rgb / 2 ^ 19 * 2 ^ 11 + rgb / 2 ^ 10 mod 2 ^ 6 * 2 ^ 5 + rgb / 2 ^ 3 mod 2 ^ 5)).
Proof.
  intros Hrgb. unfold pack_color.
  assert (Hr : u8 (Z.shiftr rgb 16) = rgb / 2 ^ 16) by (rewrite Z.shiftr_div_pow2 by lia; apply u8_small; dlia).
  assert (Hg : u8 (Z.shiftr rgb 8) = rgb / 2 ^ 8 mod 2 ^ 8) by (rewrite Z.shiftr_div_pow2 by lia; done).
  assert (Hb : u8 rgb = rgb mod 2 ^ 8) by done.
  rewrite Hr, Hg, Hb. split; intros (-> & -> & -> & -> & -> & ->); unfold scale.
  - change (8 <? 8) with false. cbn iota. rewrite !shl32_small by lia. cbn [mbind res_bind]. f_equal.
    rewrite !Z.shiftl_mul_pow2, Z.mul_1_r by lia. rewrite !u32_small by dlia.
    rewrite <-!Z.shiftl_mul_pow2, <-Z.lor_assoc by lia. rewrite (lor_shift_add _ _ 8), (lor_shift_add _ _ 16) by dlia. dlia.
  - change (5 <? 8) with true. change (6 <? 8) with true. cbn iota. change (8 - 5) with 3. change (8 - 6) with 2. rewrite !shl32_small by lia. cbn [mbind res_bind]. f_equal.
    rewrite !Z.shiftr_div_pow2, !Z.shiftl_mul_pow2, Z.mul_1_r by lia. rewrite !u32_small by dlia.
    rewrite <-!Z.shiftl_mul_pow2, <-Z.lor_assoc by lia. rewrite (lor_shift_add _ _ 5), (lor_shift_add _ _ 11) by dlia.
    rewrite !Z.div_div by lia. change (2 ^ 16 * 2 ^ 3) with (2 ^ 19).
    replace (rgb / 2 ^ 8 mod 2 ^ 8 / 2 ^ 2) with (rgb / 2 ^ 10 mod 2 ^ 6) by dlia.
    replace (rgb mod 2 ^ 8 / 2 ^ 3) with (rgb / 2 ^ 3 mod 2 ^ 5) by dlia. rewrite !Z.shiftl_mul_pow2 by lia. lia.
Qed.

(** ** Witnesses: a screen of two by two cells, one byte for each pixel *)

Definition ex_mode : boot_framebuffer := mk_boot_framebuffer 0x1000 16 16 16 8 3 5 3 2 2 0.

Definition ex_screen : mem := put_str (zeros 0x1000 256) 0x2000 (lit "Hi").

Lemma ex_mode_ok : mode_ok ex_mode.
Proof. split; try split_and!; vm_compute; (reflexivity || discriminate || by split). Qed.

Lemma ex_screen_zero : filled ex_screen 0x1000 256 0.
Proof.
  intros x Hx. unfold in_range in Hx. unfold ex_screen.
  change (lit "Hi") with [72; 105]. cbn [put_str]. rewrite !lookup_insert_ne by lia.
  unfold zeros. rewrite zeros_from_lookup. rewrite decide_True; [done|]. unfold in_range. lia.
Qed.

Lemma ex_screen_mapped : mapped ex_screen 0x1000 256.
Proof. intros x Hx. rewrite (ex_screen_zero x Hx). by eexists. Qed.

Lemma ex_shows : shows (init_state ex_mode) ex_screen (term_blank 2 2).
Proof.
  pose proof (init_state_ok _ ex_mode_ok) as Hok.
  apply (cleared_blank (init_state ex_mode) ex_screen ex_screen Hok ex_screen_mapped eq_refl eq_refl).
  split; [done|]. intros x y Hon _. rewrite native_black by exact ex_mode_ok. rewrite pixel_value_0 by exact Hok.
  apply load_le_zero. intros b Hb. apply ex_screen_zero. apply (pixel_in_fb _ Hok x y b Hon Hb).
Qed.

Lemma console_write_refines_witness :
  ∃ s' m', fb_console_write (init_state ex_mode) ex_screen 0x2000 0xffffff 0 = Ok (s', m') ∧
    shows s' m' (mk_term [[Glyph 72 0xffffff 0; Glyph 105 0xffffff 0]; [Blank; Blank]] 0 1).
Proof.
  destruct (console_write_refines (init_state ex_mode) ex_screen (term_blank 2 2) 0x2000 (lit "Hi") 0xffffff 0)
    as (s' & m' & Hw & _ & Hs).
  - exact ex_shows.
  - apply cstr_check_sound. vm_compute. reflexivity.
  - intros x Hx. change (Z.of_nat (length (lit "Hi")) + 1) with 3 in Hx. unfold fb_bytes, in_range in *.
    change (address (fb (init_state ex_mode))) with 0x1000.
    change (height (fb (init_state ex_mode)) * pitch (fb (init_state ex_mode))) with 256. lia.
  - exists s', m'. split; [exact Hw | exact Hs].
Defined.

Lemma fb_init_clear_correct_witness :
  ∃ m', fb_clear (init_state ex_mode) ex_screen 0 = Ok m' ∧ shows (init_state ex_mode) m' (term_blank 2 2).
Proof.
  destruct (fb_init_clear_correct fb_bss ex_screen (Some ex_mode) 0) as [_ H].
  destruct (H ex_mode eq_refl ex_mode_ok ex_screen_mapped) as (_ & m' & Hc & _ & _ & Hs).
  exists m'. split; [exact Hc | exact (Hs eq_refl)].
Defined.

Lemma pack_color_formats_witness :
  pack_color (mk_fb (mk_boot_framebuffer 1 0 0 0 0 8 16 8 8 8 0) true 0 0 0 0 0) 0xff4080 = Ok 0xff4080.
Proof.
  destruct (pack_color_formats (mk_fb (mk_boot_framebuffer 1 0 0 0 0 8 16 8 8 8 0) true 0 0 0 0 0) 0xff4080) as [H _];
    [lia|]. apply H. split_and!; reflexivity.
Defined.
