(* ===== verification/Serial.v ===== *)
(** * Serial port (kernel/drivers/serial/serial.c)

    Port input and output are the operations of an abstract device ([PortIO] of Io.v).
    What the driver relies on of the 16550 behind COM1 is the class [Uart]: the
    documented effect of its registers on the line, the divisor latch, the
    loopback mode and the transmitter. *)

From S2P Require Import Prelude Word Mem CString Io.

(** ** Registers *)

Definition COM1 : Z := 0x3f8.
Definition REG_DATA : Z := 0.
Definition REG_INT_ENABLE : Z := 1.
Definition REG_FIFO_CTRL : Z := 2.
Definition REG_LINE_CTRL : Z := 3.
Definition REG_MODEM_CTRL : Z := 4.
Definition REG_LINE_STATUS : Z := 5.

(** ** Operations *)

Section serial.
Context {D : Type} `{PortIO D}.

(** The driver's flag, and the device. *)
Record serial := mk_serial { serial_present : bool; device : D }.

Definition serial_init (s : serial) : serial :=
  let d := device s in
  let d := outb d (COM1 + REG_INT_ENABLE) 0x00 in
  let d := outb d (COM1 + REG_LINE_CTRL) 0x80 in
  let d := outb d (COM1 + REG_DATA) 0x03 in
  let d := outb d (COM1 + REG_INT_ENABLE) 0x00 in
  let d := outb d (COM1 + REG_LINE_CTRL) 0x03 in
  let d := outb d (COM1 + REG_FIFO_CTRL) 0xc7 in
  let d := outb d (COM1 + REG_MODEM_CTRL) 0x0b in
  let d := outb d (COM1 + REG_MODEM_CTRL) 0x1e in
  let d := outb d (COM1 + REG_DATA) 0xae in
  let '(v, d) := inb d (COM1 + REG_DATA) in
  let present := v =? 0xae in
  let d := outb d (COM1 + REG_MODEM_CTRL) 0x0f in
  mk_serial present d.

Definition transmit_empty (d : D) : bool * D :=
  let '(v, d) := inb d (COM1 + REG_LINE_STATUS) in (negb (Z.land v 0x20 =? 0), d).

(** The wait for the transmitter: one unit of fuel per poll. *)
Fixpoint wait_empty (fuel : nat) (d : D) : res D :=
  match fuel with
  | O => Fuel
  | S fuel => let '(e, d) := transmit_empty d in if negb e then wait_empty fuel d else Ok d
  end.

(** Fuel for each wait. *)
Context (polls : nat).

(** The end of [serial_putc]. *)
Definition transmit (s : serial) (c : Z) : res serial :=
  d ← wait_empty polls (device s);
  Ok (mk_serial (serial_present s) (outb d (COM1 + REG_DATA) (u8 c))).

(** The recursive call is for a character that is no newline. *)
Definition serial_putc (s : serial) (c : Z) : res serial :=
  if negb (serial_present s) then Ok s
  else
    s ← (if c =? 10 then transmit s 13 else Ok s);
    transmit s c.

(** One unit of fuel per character. *)
Fixpoint serial_write_loop (fuel : nat) (s : serial) (m : mem) (str : Z) : res serial :=
  match fuel with
  | O => Fuel
  | S fuel =>
      c ← load8 m str;
      if negb (c =? 0) then s ← serial_putc s c; serial_write_loop fuel s m (str + 1) else Ok s
  end.

Definition serial_write (s : serial) (m : mem) (str : Z) : res serial := serial_write_loop (mem_fuel m) s m str.

Definition serial_write_n (s : serial) (m : mem) (str len : Z) : res serial :=
  for_range 0 len (λ i s, c ← load8 m (str + i); serial_putc s c) s.
End serial.

Arguments serial D : clear implicits.
Arguments mk_serial {D}.

(** ** The 16550

    What went out on the line, how many more polls the transmitter needs, and
    the two mode bits. [u_poll_bound] bounds the wait after any write. *)
Class Uart (D : Type) `{PortIO D} := {
  u_line : D → list Z;
  u_wait : D → nat;
  u_dlab : D → bool;
  u_loop : D → bool;
  u_poll_bound : nat;

  u_wait_bounded d : (u_wait d ≤ u_poll_bound)%nat;

  (** The transmitter-empty bit, and a poll brings it nearer. *)
  u_status d :
    let '(v, d') := inb d (COM1 + REG_LINE_STATUS) in
    (Z.land v 0x20 ≠ 0 ↔ u_wait d = O) ∧ u_wait d' = pred (u_wait d) ∧
    u_line d' = u_line d ∧ u_dlab d' = u_dlab d ∧ u_loop d' = u_loop d;

  (** A byte for the line, once the transmitter is empty. *)
  u_send d c :
    0 ≤ c < 256 → u_dlab d = false → u_loop d = false → u_wait d = O →
    let d' := outb d (COM1 + REG_DATA) c in
    u_line d' = u_line d ++ [c] ∧ u_dlab d' = false ∧ u_loop d' = false;

  (** A byte in loopback mode comes back and does not reach the line. *)
  u_loopback d c :
    0 ≤ c < 256 → u_dlab d = false → u_loop d = true →
    let '(v, d') := inb (outb d (COM1 + REG_DATA) c) (COM1 + REG_DATA) in
    v = c ∧ u_line d' = u_line d ∧ u_dlab d' = false ∧ u_loop d' = true;

  (** Configuration: line control has the divisor-latch bit, modem control the
      loopback bit; with the latch set the data port is the divisor's. *)
  u_setup d r v :
    (r ∈ [REG_INT_ENABLE; REG_FIFO_CTRL; REG_LINE_CTRL; REG_MODEM_CTRL] ∨ r = REG_DATA ∧ u_dlab d = true) →
    let d' := outb d (COM1 + r) v in
    u_line d' = u_line d ∧
    u_dlab d' = (if r =? REG_LINE_CTRL then Z.testbit v 7 else u_dlab d) ∧
    u_loop d' = (if r =? REG_MODEM_CTRL then Z.testbit v 4 else u_loop d);
}.

(** What a text looks like on the line. *)
Definition crlf (l : list Z) : list Z := l ≫= λ c, if c =? 10 then [13; 10] else [u8 c].

Lemma crlf_app l1 l2 : crlf (l1 ++ l2) = crlf l1 ++ crlf l2.
Proof. apply bind_app. Qed.

Section uart.
Context {D : Type} `{Uart D}.

(** The driver found the port and left it ready to send. *)
Record serial_ready (s : serial D) : Prop := {
  sr_present : serial_present s = true;
  sr_dlab : u_dlab (device s) = false;
  sr_loop : u_loop (device s) = false;
}.

Lemma wait_empty_spec fuel d :
  (u_wait d < fuel)%nat →
  ∃ d', wait_empty fuel d = Ok d' ∧ u_wait d' = O ∧ u_line d' = u_line d ∧ u_dlab d' = u_dlab d ∧ u_loop d' = u_loop d.
Proof.
  revert d. induction fuel as [|fuel IH]; intros d Hf; [lia|]. cbn [wait_empty]. unfold transmit_empty.
  pose proof (u_status d) as Hst. destruct (inb d _) as [v d1]. destruct Hst as (Hbit & Hw & Hl & Hd & Hlo).
  destruct (Z.eqb_spec (Z.land v 0x20) 0) as [Hz|Hz]; cbn [negb].
  - destruct (u_wait d) as [|n] eqn:Hn; [by destruct (proj2 Hbit eq_refl)|]. simpl in Hw.
    destruct (IH d1) as (d' & Hr & Hw' & Hl' & Hd' & Hlo'); [lia|].
    exists d'. split_and!; [done | done | congruence..].
  - apply Hbit in Hz. exists d1. rewrite Hz in Hw. by split_and!.
Qed.

Lemma serial_init_spec s :
  serial_ready (serial_init s) ∧ u_line (device (serial_init s)) = u_line (device s).
Proof using.
  unfold serial_init. set (d0 := device s).
  destruct (u_setup d0 REG_INT_ENABLE 0x00) as (L1 & A1 & B1); [left; set_solver|]. set (d1 := outb d0 _ _) in *.
  destruct (u_setup d1 REG_LINE_CTRL 0x80) as (L2 & A2 & B2); [left; set_solver|]. set (d2 := outb d1 _ _) in *.
  change (u_dlab d2 = true) in A2.
  destruct (u_setup d2 REG_DATA 0x03) as (L3 & A3 & B3); [by right|]. set (d3 := outb d2 _ _) in *.
  destruct (u_setup d3 REG_INT_ENABLE 0x00) as (L4 & A4 & B4); [left; set_solver|]. set (d4 := outb d3 _ _) in *.
  destruct (u_setup d4 REG_LINE_CTRL 0x03) as (L5 & A5 & B5); [left; set_solver|]. set (d5 := outb d4 _ _) in *.
  change (u_dlab d5 = false) in A5.
  destruct (u_setup d5 REG_FIFO_CTRL 0xc7) as (L6 & A6 & B6); [left; set_solver|]. set (d6 := outb d5 _ _) in *.
  change (u_dlab d6 = u_dlab d5) in A6.
  destruct (u_setup d6 REG_MODEM_CTRL 0x0b) as (L7 & A7 & B7); [left; set_solver|]. set (d7 := outb d6 _ _) in *.
  change (u_dlab d7 = u_dlab d6) in A7.
  destruct (u_setup d7 REG_MODEM_CTRL 0x1e) as (L8 & A8 & B8); [left; set_solver|]. set (d8 := outb d7 _ _) in *.
  change (u_dlab d8 = u_dlab d7) in A8. change (u_loop d8 = true) in B8.
  pose proof (u_loopback d8 0xae ltac:(lia) (eq_trans A8 (eq_trans A7 (eq_trans A6 A5))) B8) as Hlb. cbv zeta.
  destruct (inb (outb d8 _ _) _) as [v d9]. destruct Hlb as (-> & L9 & A9 & B9).
  destruct (u_setup d9 REG_MODEM_CTRL 0x0f) as (L10 & A10 & B10); [left; set_solver|]. set (d10 := outb d9 _ _) in *.
  change (u_dlab d10 = u_dlab d9) in A10. change (u_loop d10 = false) in B10.
  split; [split|]; cbn [serial_present device]; [reflexivity | by rewrite A10, A9 | done |].
  by rewrite L10, L9, L8, L7, L6, L5, L4, L3, L2, L1.
Qed.
Context (polls : nat) (Hpolls : (u_poll_bound < polls)%nat).

Lemma transmit_spec s c :
  serial_ready s →
  ∃ s', transmit polls s c = Ok s' ∧ serial_ready s' ∧ u_line (device s') = u_line (device s) ++ [u8 c].
Proof using Hpolls.
  intros [Hp Hd Hl]. unfold transmit.
  destruct (wait_empty_spec polls (device s)) as (d & -> & Hw & Hli & Hda & Hlo);
    [pose proof (u_wait_bounded (device s)); lia|]. cbn [mbind res_bind].
  destruct (u_send d (u8 c)) as (Hs & Hda' & Hlo'); [apply u8_range | congruence | congruence | done |].
  eexists. split; [done|]. split; [by split|]. cbn [device]. by rewrite Hs, Hli.
Qed.

Lemma serial_putc_spec s c :
  serial_ready s →
  ∃ s', serial_putc polls s c = Ok s' ∧ serial_ready s' ∧ u_line (device s') = u_line (device s) ++ crlf [c].
Proof using Hpolls.
  intros Hs. unfold serial_putc, crlf. rewrite (sr_present s Hs). cbn [negb mbind list_bind app].
  destruct (Z.eqb_spec c 10) as [->|Hne].
  - destruct (transmit_spec s 13 Hs) as (s1 & Ht1 & Hs1 & Hl1). destruct (transmit_spec s1 10 Hs1) as (s2 & Ht2 & Hs2 & Hl2).
    exists s2. rewrite Ht1. cbn [mbind res_bind]. rewrite Ht2. split; [done|]. split; [done|].
    rewrite Hl2, Hl1, <-app_assoc. reflexivity.
  - destruct (transmit_spec s c Hs) as (s1 & Ht1 & Hs1 & Hl1). exists s1. by split_and!.
Qed.

Lemma serial_write_loop_spec l s m str fuel :
  serial_ready s → cstr m str l → (length l < fuel)%nat →
  ∃ s', serial_write_loop polls fuel s m str = Ok s' ∧ serial_ready s' ∧ u_line (device s') = u_line (device s) ++ crlf l.
Proof using Hpolls.
  revert s str fuel. induction l as [|c l IH]; intros s str [|fuel] Hs Hl Hf; simpl in Hf; try lia; cbn [serial_write_loop].
  - apply cstr_nil in Hl. unfold load8. rewrite Hl. exists s. split; [done|]. split; [done|]. by rewrite app_nil_r.
  - pose proof (cstr_head _ _ _ _ Hl) as [Hh Hr]. unfold load8. rewrite Hh. cbn [deref mbind res_bind].
    rewrite (proj2 (Z.eqb_neq c 0)) by lia. cbn [negb].
    destruct (serial_putc_spec s c Hs) as (s1 & -> & Hs1 & Hl1). cbn [mbind res_bind].
    destruct (IH s1 (str + 1) fuel Hs1 (cstr_tail _ _ _ _ Hl) ltac:(lia)) as (s' & Hw & Hs' & Hl').
    exists s'. split; [done|]. split; [done|]. rewrite Hl', Hl1, <-app_assoc, <-crlf_app. done.
Qed.

End uart.

(** ** Properties *)

(** The self-test finds a working 16550 without sending a byte, and leaves
    it out of loopback mode with the divisor latch closed, whatever its state was. *)
Theorem serial_init_correct {D : Type} `{Uart D} (s : serial D) :
  serial_ready (serial_init s) ∧ u_line (device (serial_init s)) = u_line (device s).
Proof. apply serial_init_spec. Qed.

(** A port that always reads 0xff, as when nothing is there, is not trusted. *)
Lemma serial_init_absent {D : Type} `{PortIO D} (s : serial D) :
  (∀ d p, fst (inb d p) = 0xff) → serial_present (serial_init s) = false.
Proof.
  intros Hff. unfold serial_init. match goal with |- context [inb ?d ?p] => pose proof (Hff d p); destruct (inb d p) as [v d'] end.
  simpl in *. by subst v.
Qed.

(** On a port that failed the self-test nothing happens. *)
Lemma serial_write_absent {D : Type} `{PortIO D} (polls : nat) (s : serial D) m str l :
  cstr m str l → serial_present s = false → serial_write polls s m str = Ok s.
Proof.
  intros Hl Hs. pose proof (cstr_size _ _ _ Hl) as Hsz. unfold serial_write.
  remember (mem_fuel m) as fuel eqn:Hf. assert (Hlt : (length l < fuel)%nat) by (subst; unfold mem_fuel; lia).
  clear Hf Hsz. revert fuel str Hl Hlt. induction l as [|c l IH]; intros [|fuel] str Hl Hlt; simpl in Hlt; try lia; cbn [serial_write_loop].
  - apply cstr_nil in Hl. unfold load8. by rewrite Hl.
  - pose proof (cstr_head _ _ _ _ Hl) as [Hh Hr]. unfold load8. rewrite Hh. cbn [deref mbind res_bind].
    rewrite (proj2 (Z.eqb_neq c 0)) by lia. cbn [negb]. unfold serial_putc. rewrite Hs. cbn [negb mbind res_bind].
    apply IH; [by eapply cstr_tail | lia].
Qed.

(** On a port that is ready, [serial_write] comes back, and what it adds to
    the line is exactly the string with a carriage return before each newline;
    every wait for the transmitter ends. On a port that failed the self-test it
    does not touch the device. *)
Theorem serial_write_correct {D : Type} `{Uart D} (polls : nat) (s : serial D) m str l :
  (u_poll_bound < polls)%nat → cstr m str l →
  (serial_ready s → ∃ s', serial_write polls s m str = Ok s' ∧ serial_ready s' ∧
     u_line (device s') = u_line (device s) ++ crlf l) ∧
  (serial_present s = false → serial_write polls s m str = Ok s).
Proof.
  intros Hp Hl. pose proof (cstr_size _ _ _ Hl) as Hsz. split.
  - intros Hs. apply serial_write_loop_spec; [done..|]. unfold mem_fuel. lia.
  - by apply (serial_write_absent polls s m str l).
Qed.

(** ** Witnesses: a 16550 whose transmitter needs two polls for each byte *)

Record ref_uart := mk_ref_uart {
  ru_line : list Z; ru_wait : bool * bool; ru_dlab : bool; ru_loop : bool; ru_rx : Z;
}.

Definition ru_waits (w : bool * bool) : nat := (if fst w then 1 else 0) + (if snd w then 1 else 0).

#[export] Instance ref_ports : PortIO ref_uart := {|
  inb u p :=
    if p =? COM1 + REG_LINE_STATUS then
      match ru_wait u with
      | (true, b) => (0x00, mk_ref_uart (ru_line u) (false, b) (ru_dlab u) (ru_loop u) (ru_rx u))
      | (false, true) => (0x00, mk_ref_uart (ru_line u) (false, false) (ru_dlab u) (ru_loop u) (ru_rx u))
      | (false, false) => (0x60, u)
      end
    else if p =? COM1 + REG_DATA then (ru_rx u, u)
    else (0xff, u);
  outb u p v :=
    if p =? COM1 + REG_DATA then
      if ru_dlab u then u
      else if ru_loop u then mk_ref_uart (ru_line u) (ru_wait u) (ru_dlab u) (ru_loop u) v
      else mk_ref_uart (ru_line u ++ [v]) (true, true) (ru_dlab u) (ru_loop u) (ru_rx u)
    else if p =? COM1 + REG_LINE_CTRL then mk_ref_uart (ru_line u) (ru_wait u) (Z.testbit v 7) (ru_loop u) (ru_rx u)
    else if p =? COM1 + REG_MODEM_CTRL then mk_ref_uart (ru_line u) (ru_wait u) (ru_dlab u) (Z.testbit v 4) (ru_rx u)
    else u;
|}.

#[export, program] Instance ref_uart_ok : Uart ref_uart := {|
  u_line := ru_line;
  u_wait u := ru_waits (ru_wait u);
  u_dlab := ru_dlab;
  u_loop := ru_loop;
  u_poll_bound := 2;
|}.
Next Obligation. intros u. unfold ru_waits. destruct (ru_wait u) as [[] []]; simpl; lia. Qed.
Next Obligation.
  intros [l [[] []] dl lo rx]; cbn; (split; [split; intros Hz; (done || discriminate) |]); by split_and!.
Qed.
Next Obligation. intros u c Hc Hd Hl _. cbn. by rewrite Hd, Hl. Qed.
Next Obligation. intros u c Hc Hd Hl. cbn. rewrite Hd, Hl. cbn. by split_and!. Qed.
Next Obligation.
  intros u r v Hr. destruct Hr as [Hr|[-> Hd]].
  - rewrite !elem_of_cons, elem_of_nil in Hr. destruct Hr as [->|[->|[->|[->|[]]]]]; cbn; by split_and!.
  - cbn. rewrite Hd. by split_and!.
Qed.

Definition ex_serial : serial ref_uart := mk_serial false (mk_ref_uart [] (true, true) true true 0).
Definition ex_text_mem : mem := <[0x100 := 72]> (<[0x101 := 105]> (<[0x102 := 10]> (<[0x103 := 0]> ∅))).

Lemma serial_init_correct_witness : serial_ready (serial_init ex_serial).
Proof. exact (proj1 (serial_init_correct ex_serial)). Defined.

Lemma serial_write_correct_witness :
  ∃ s', serial_write 3 (serial_init ex_serial) ex_text_mem 0x100 = Ok s' ∧ u_line (device s') = [72; 105; 13; 10].
Proof.
  destruct (serial_write_correct 3 (serial_init ex_serial) ex_text_mem 0x100 [72; 105; 10]) as [Hw _].
  - simpl. lia.
  - split; [|reflexivity]. intros [|[|[|i]]] b Hi; simplify_eq/=; (split; [reflexivity|lia]).
  - destruct Hw as (s' & Hw & _ & Hl); [apply (serial_init_spec ex_serial)|]. exists s'. split; [exact Hw|exact Hl].
Defined.
