(* ===== verification/Log.v ===== *)
(** * Terminal output and the leveled log (kernel/lib/log.c, log.h)

    Every text of the kernel goes to the serial port and, once there is one, to
    the framebuffer console ([tty]). The log formats a line through
    [kvprintf] with that sink; the theorem composes the three components. *)

From S2P Require Import Prelude Word Mem CString BootInfo Printf Console Io Serial.
From Stdlib Require Import Ascii.

(** ** The two outputs *)

Section log.
Context {D : Type} `{PortIO D} (polls : nat).

Record tty := mk_tty { t_serial : serial D; t_fb : framebuffer; t_mem : mem }.

(** The body [log_emit] and [panic_emit] share, up to the colour. *)
Definition tty_emit (color : Z) (t : tty) (c : Z) : res tty :=
  s ← serial_putc polls (t_serial t) c;
  if fb_is_available (t_fb t) then
    '(f, m) ← fb_console_putc (t_fb t) (t_mem t) c color FB_BLACK;
    Ok (mk_tty s f m)
  else Ok (mk_tty s (t_fb t) (t_mem t)).

(** ** log.c *)

Inductive log_level : Set := LOG_LEVEL_DEBUG | LOG_LEVEL_INFO | LOG_LEVEL_WARN.

Definition level_number (l : log_level) : Z :=
  match l with LOG_LEVEL_DEBUG => 0 | LOG_LEVEL_INFO => 1 | LOG_LEVEL_WARN => 2 end.

Record level_style := mk_style { tag : list Z; fb_color : Z }.

Definition styles (l : log_level) : level_style :=
  match l with
  | LOG_LEVEL_DEBUG => mk_style (lit "DEBUG") FB_GRAY
  | LOG_LEVEL_INFO => mk_style (lit "INFO") FB_WHITE
  | LOG_LEVEL_WARN => mk_style (lit "WARN") FB_YELLOW
  end.

Record log := mk_log { min_level : log_level; current_fb_color : Z; l_tty : tty }.

Definition log_emit (st : log) (c : Z) : res log :=
  t ← tty_emit (current_fb_color st) (l_tty st) c;
  Ok (mk_log (min_level st) (current_fb_color st) t).

Definition log_set_min_level (st : log) (level : log_level) : log :=
  mk_log level (current_fb_color st) (l_tty st).

(** The loop over the tag, a string literal, is over its characters. *)
Definition log_write (st : log) (level : log_level) (fmt : Z) (args : list Z) : res log :=
  if level_number level <? level_number (min_level st) then Ok st
  else
    let style := styles level in
    let st := mk_log (min_level st) (fb_color style) (l_tty st) in
    st ← log_emit st (ch "[");
    st ← for_each (tag style) (λ p st, log_emit st p) st;
    st ← log_emit st (ch "]");
    st ← log_emit st (ch " ");
    st ← kvprintf log_emit (λ st, t_mem (l_tty st)) st fmt args;
    log_emit st 10.
End log.

Arguments tty D : clear implicits.
Arguments mk_tty {D}.
Arguments log D : clear implicits.
Arguments mk_log {D}.

(** ** The sink

    What has been written since [t0], when the screen showed [scr]: the line
    and the grid have grown by the same text. *)
Section sink.
Context {D : Type} `{Uart D} (polls : nat) (Hpolls : (u_poll_bound < polls)%nat).

(** The serial port works, or was found absent; the console works, or there is
    none yet. *)
Definition tty_ok (t : tty D) (scr : term) : Prop :=
  (serial_ready (t_serial t) ∨ serial_present (t_serial t) = false) ∧
  (fb_is_available (t_fb t) = true → shows (t_fb t) (t_mem t) scr).

(** The bytes the console may change. *)
Definition tty_bytes (t : tty D) (x : Z) : Prop := fb_is_available (t_fb t) = true ∧ fb_bytes (t_fb t) x.

Definition screen_after (t : tty D) (scr : term) (color : Z) (txt : list Z) : term :=
  term_write (Z.to_nat (console_cols (t_fb t))) (Z.to_nat (console_rows (t_fb t))) scr txt color FB_BLACK.

Record written (color : Z) (t0 : tty D) (scr : term) (txt : list Z) (t : tty D) : Prop := {
  wr_ok : tty_ok t (screen_after t0 scr color txt);
  wr_present : serial_present (t_serial t) = serial_present (t_serial t0);
  wr_line : u_line (device (t_serial t)) =
    u_line (device (t_serial t0)) ++ (if serial_present (t_serial t0) then crlf txt else []);
  wr_fb : ∃ a b, t_fb t = set_cursor (t_fb t0) a b;
  wr_mem : modifies (tty_bytes t0) (t_mem t0) (t_mem t);
}.

Lemma written_nil color t scr : tty_ok t scr → written color t scr [] t.
Proof.
  intros Ht. split; try done.
  - destruct (serial_present (t_serial t)); by rewrite app_nil_r.
  - exists (cursor_col (t_fb t)), (cursor_row (t_fb t)). by destruct (t_fb t).
Qed.

Lemma tty_emit_spec color t0 scr txt t c :
  written color t0 scr txt t →
  ∃ t', tty_emit polls color t c = Ok t' ∧ written color t0 scr (txt ++ [c]) t'.
Proof using Hpolls.
  intros [[Hs Hsh] Hp Hl (a & b & Hfb) Hmem]. unfold tty_emit.
  assert (Hser : ∃ s', serial_putc polls (t_serial t) c = Ok s' ∧ (serial_ready s' ∨ serial_present s' = false) ∧
    serial_present s' = serial_present (t_serial t0) ∧
    u_line (device s') = u_line (device (t_serial t0)) ++ (if serial_present (t_serial t0) then crlf (txt ++ [c]) else [])).
  { destruct Hs as [Hs|Hs].
    - destruct (serial_putc_spec polls Hpolls (t_serial t) c Hs) as (s' & Hr & Hs' & Hl'). exists s'.
      pose proof (sr_present _ Hs) as E1. pose proof (sr_present _ Hs') as E2. rewrite E1 in Hp. rewrite <-Hp in *.
      split_and!; [done | by left | congruence |]. rewrite Hl', Hl, crlf_app. by rewrite app_assoc.
    - exists (t_serial t). unfold serial_putc. rewrite Hs. rewrite Hs in Hp. rewrite <-Hp in Hl |- *.
      split_and!; [done | by right | done | exact Hl]. }
  destruct Hser as (s' & -> & Hok & Hp' & Hl'). cbn [mbind res_bind].
  assert (Hav : fb_is_available (t_fb t) = fb_is_available (t_fb t0)) by by rewrite Hfb.
  destruct (fb_is_available (t_fb t)) eqn:Hready.
  - destruct (fb_console_putc_spec (t_fb t) (t_mem t) _ c color FB_BLACK (Hsh eq_refl)) as (a' & b' & m' & -> & Hmod & Hsh').
    cbn [mbind res_bind]. eexists. split; [done|]. split; cbn [t_serial t_fb t_mem]; try done.
    + split; [done|]. intros _. unfold screen_after, term_write. rewrite foldl_app. cbn [foldl].
      rewrite Hfb in Hsh' at 2 3. exact Hsh'.
    + exists a', b'. by rewrite Hfb.
    + etransitivity; [exact Hmem|]. eapply modifies_mono; [|exact Hmod]. intros x Hx. split; [done|]. by rewrite Hfb in Hx.
  - eexists. split; [done|]. split; cbn [t_serial t_fb t_mem]; try done; [split; [done|]; intros Hc; cbn [t_fb] in Hc; rewrite Hready in Hc; discriminate | by exists a, b].
Qed.

(** Strings outside the screen stay readable. *)
Lemma written_cstr color t0 scr txt t p l :
  written color t0 scr txt t → cstr (t_mem t0) p l →
  (∀ x, in_range p (Z.of_nat (length l) + 1) x → ¬ tty_bytes t0 x) → cstr (t_mem t) p l.
Proof. intros Hw Hc Hdis. eapply cstr_modifies; [exact Hc | exact (wr_mem _ _ _ _ _ Hw) | exact Hdis]. Qed.

(** Sinks that are [tty_emit] on a part of a larger state. *)
Context {St : Type} (get : St → tty D) (put : St → tty D → St) (Q : St → Prop) (color : Z) (emit : St → Z → res St).
Context (Hemit : ∀ st c, Q st → emit st c = (t ← tty_emit polls color (get st) c; Ok (put st t))).
Context (HQ : ∀ st t, Q st → Q (put st t)) (Hgp : ∀ st t, get (put st t) = t).
Context (Hpp : ∀ st t t', put (put st t) t' = put st t') (Hpg : ∀ st, put st (get st) = st).

Lemma sink_emit_all t0 scr txt st l :
  Q st → written color t0 scr txt (get st) →
  ∃ t', emit_all emit st l = Ok (put st t') ∧ written color t0 scr (txt ++ l) t'.
Proof using Hpolls Hemit HQ Hgp Hpp Hpg.
  revert txt st. induction l as [|c l IH]; intros txt st HQst Hw; cbn [emit_all].
  - exists (get st). by rewrite Hpg, app_nil_r.
  - rewrite Hemit by done. destruct (tty_emit_spec color t0 scr txt (get st) c Hw) as (t1 & -> & Hw1). cbn [mbind res_bind].
    destruct (IH (txt ++ [c]) (put st t1)) as (t' & -> & Hw'); [by apply HQ | by rewrite Hgp|].
    exists t'. rewrite Hpp. by rewrite <-app_assoc in Hw'.
Qed.

(** A formatted text on the two outputs. *)
Lemma sink_kvprintf t0 scr txt st fmt l ds str_at args o :
  Q st → written color t0 scr txt (get st) →
  cstr (t_mem t0) fmt l → (∀ x, in_range fmt (Z.of_nat (length l) + 1) x → ¬ tty_bytes t0 x) →
  (∀ a s, str_at a = Some s → cstr (t_mem t0) a s ∧ Z.of_nat (length s) ≤ INT_MAX ∧
     ∀ x, in_range a (Z.of_nat (length s) + 1) x → ¬ tty_bytes t0 x) →
  parse_format l = Some ds → render str_at ds args = Some o →
  ∃ t', kvprintf emit (λ st, t_mem (get st)) st fmt args = Ok (put st t') ∧ written color t0 scr (txt ++ o) t'.
Proof using Hpolls Hemit HQ Hgp Hpp Hpg.
  intros HQst Hw Hf Hdis Hstr Hp Hr.
  set (P := λ st, Q st ∧ ∃ txt, written color t0 scr txt (get st)).
  rewrite (kvprintf_spec emit (λ st, t_mem (get st)) P) with (str_at := str_at) (l := l) (ds := ds) (o := o);
    [by apply sink_emit_all | .. | done | done].
  - intros st1 c st2 (HQ1 & txt1 & H1) He. rewrite Hemit in He by done.
    destruct (tty_emit_spec color t0 scr txt1 (get st1) c H1) as (t' & Ht & Hw').
    rewrite Ht in He. injection He as <-. split; [by apply HQ|]. rewrite Hgp. by exists (txt1 ++ [c]).
  - intros st1 a s (_ & txt1 & H1) Ha. destruct (Hstr a s Ha) as (E1 & E2 & E3). split; [|done]. by eapply written_cstr.
  - split; [done|]. by exists txt.
  - intros st1 (_ & txt1 & H1). by eapply written_cstr.
Qed.
End sink.

(** ** log.c *)

Section log_lemmas.
Context {D : Type} `{Uart D} (polls : nat) (Hpolls : (u_poll_bound < polls)%nat).

Definition put_tty (st : log D) (t : tty D) : log D := mk_log (min_level st) (current_fb_color st) t.

(** The whole line. *)
Definition log_line (level : log_level) (o : list Z) : list Z :=
  [ch "["] ++ tag (styles level) ++ [ch "]"; ch " "] ++ o ++ [10].

Lemma log_emit_step color t0 scr txt st c :
  current_fb_color st = color → written color t0 scr txt (l_tty st) →
  ∃ t', log_emit polls st c = Ok (put_tty st t') ∧ written color t0 scr (txt ++ [c]) t'.
Proof using Hpolls.
  intros <- Hw. unfold log_emit. destruct (tty_emit_spec polls Hpolls _ t0 scr txt (l_tty st) c Hw) as (t' & -> & Hw').
  by exists t'.
Qed.

Lemma for_each_emit {St : Type} (emit : St → Z → res St) l st : for_each l (λ c st, emit st c) st = emit_all emit st l.
Proof. revert st. induction l as [|c l IH]; intros st; simpl; [done|]. destruct (emit st c); simpl; [apply IH|done..]. Qed.

Lemma log_write_spec st scr level fmt l ds str_at args o :
  tty_ok (l_tty st) scr →
  cstr (t_mem (l_tty st)) fmt l → (∀ x, in_range fmt (Z.of_nat (length l) + 1) x → ¬ tty_bytes (l_tty st) x) →
  (∀ a s, str_at a = Some s → cstr (t_mem (l_tty st)) a s ∧ Z.of_nat (length s) ≤ INT_MAX ∧
     ∀ x, in_range a (Z.of_nat (length s) + 1) x → ¬ tty_bytes (l_tty st) x) →
  parse_format l = Some ds → render str_at ds args = Some o →
  if level_number level <? level_number (min_level st) then log_write polls st level fmt args = Ok st
  else ∃ t', log_write polls st level fmt args = Ok (mk_log (min_level st) (fb_color (styles level)) t') ∧
    written (fb_color (styles level)) (l_tty st) scr (log_line level o) t'.
Proof using Hpolls.
  intros Hok Hf Hdis Hstr Hp Hr. unfold log_write.
  destruct (level_number level <? level_number (min_level st)); [done|].
  set (color := fb_color (styles level)). set (st0 := mk_log (min_level st) color (l_tty st)).
  set (Q := λ st' : log D, current_fb_color st' = color).
  assert (Hemit : ∀ st' c, Q st' → log_emit polls st' c = (t ← tty_emit polls color (l_tty st') c; Ok (put_tty st' t)))
    by (unfold Q, log_emit, put_tty; by intros st' c ->).
  pose proof (written_nil color (l_tty st) scr Hok) as W0.
  destruct (log_emit_step color (l_tty st) scr [] st0 (ch "[") eq_refl W0) as (t1 & -> & W1). cbn [mbind res_bind].
  rewrite for_each_emit.
  destruct (sink_emit_all polls Hpolls l_tty put_tty Q color (log_emit polls) Hemit ltac:(done) ltac:(done) ltac:(done) ltac:(by intros [])
    (l_tty st) scr _ (put_tty st0 t1) (tag (styles level)) eq_refl W1) as (t2 & -> & W2). cbn [mbind res_bind].
  change (put_tty (put_tty st0 t1) t2) with (put_tty st0 t2).
  destruct (log_emit_step color (l_tty st) scr _ (put_tty st0 t2) (ch "]") eq_refl W2) as (t3 & -> & W3). cbn [mbind res_bind].
  change (put_tty (put_tty st0 t2) t3) with (put_tty st0 t3).
  destruct (log_emit_step color (l_tty st) scr _ (put_tty st0 t3) (ch " ") eq_refl W3) as (t4 & -> & W4). cbn [mbind res_bind].
  change (put_tty (put_tty st0 t3) t4) with (put_tty st0 t4).
  destruct (sink_kvprintf polls Hpolls l_tty put_tty Q color (log_emit polls) Hemit ltac:(done) ltac:(done) ltac:(done) ltac:(by intros [])
    (l_tty st) scr _ (put_tty st0 t4) fmt l ds str_at args o eq_refl W4 Hf Hdis Hstr Hp Hr) as (t5 & -> & W5). cbn [mbind res_bind].
  change (put_tty (put_tty st0 t4) t5) with (put_tty st0 t5).
  destruct (log_emit_step color (l_tty st) scr _ (put_tty st0 t5) 10 eq_refl W5) as (t6 & -> & W6).
  exists t6. split; [done|]. unfold log_line. rewrite <-!app_assoc in W6. exact W6.
Qed.

(** ** A run of output

    What has been printed since [t0], piece by piece: each piece in its own
    colour on the screen, all of them on the line. *)

Definition screen_all (t : tty D) (scr : term) (out : list (Z * list Z)) : term :=
  foldl (λ scr p, screen_after t scr p.1 p.2) scr out.

Record printed (t0 : tty D) (scr : term) (out : list (Z * list Z)) (t : tty D) : Prop := {
  pr_ok : tty_ok t (screen_all t0 scr out);
  pr_present : serial_present (t_serial t) = serial_present (t_serial t0);
  pr_line : u_line (device (t_serial t)) =
    u_line (device (t_serial t0)) ++ (if serial_present (t_serial t0) then crlf (concat out.*2) else []);
  pr_fb : ∃ a b, t_fb t = set_cursor (t_fb t0) a b;
  pr_mem : modifies (tty_bytes t0) (t_mem t0) (t_mem t);
}.

Lemma printed_nil t scr : tty_ok t scr → printed t scr [] t.
Proof.
  intros Ht. split; try done.
  - destruct (serial_present (t_serial t)); by rewrite app_nil_r.
  - exists (cursor_col (t_fb t)), (cursor_row (t_fb t)). by destruct (t_fb t).
Qed.

Lemma printed_written t0 scr out t color txt t' :
  printed t0 scr out t → written color t (screen_all t0 scr out) txt t' →
  printed t0 scr (out ++ [(color, txt)]) t'.
Proof.
  intros [Hok Hp Hl (a & b & Hfb) Hm] [Wok Wp Wl (a' & b' & Wfb) Wm].
  assert (Hb : ∀ x, tty_bytes t x → tty_bytes t0 x) by (intros x; unfold tty_bytes; by rewrite Hfb).
  split.
  - unfold screen_all. rewrite foldl_app. cbn [foldl fst snd]. fold (screen_all t0 scr out).
    replace (screen_after t0) with (screen_after t); [exact Wok|]. unfold screen_after. by rewrite Hfb.
  - congruence.
  - rewrite Wl, Hl, Hp, <-app_assoc. f_equal. rewrite fmap_app, concat_app, crlf_app. cbn [fmap list_fmap snd concat].
    by destruct (serial_present (t_serial t0)); rewrite ?app_nil_r.
  - exists a', b'. by rewrite Wfb, Hfb.
  - etransitivity; [exact Hm|]. by eapply modifies_mono.
Qed.

(** Literals: in memory, at addresses that are not [NULL], out of the bytes of
    [X]. *)
Definition literals (ls : list (list Z)) (rodata : list Z → Z) (m : mem) (X : Z → Prop) : Prop :=
  ∀ l, l ∈ ls → 0 < rodata l < 2 ^ 64 ∧ cstr m (rodata l) l ∧
    ∀ x, in_range (rodata l) (Z.of_nat (length l) + 1) x → ¬ X x.

(** The same for the log, which logs at every level the minimum admits. *)
Record logged (st0 : log D) (scr : term) (out : list (Z * list Z)) (st : log D) : Prop := {
  lg_level : min_level st = min_level st0;
  lg_printed : printed (l_tty st0) scr out (l_tty st);
}.

(** A line as it is printed. *)
Definition log_piece (level : log_level) (o : list Z) : Z * list Z := (fb_color (styles level), log_line level o).

Lemma log_logged_at rodata ls st0 scr out st level fmt args str_at ds o :
  logged st0 scr out st → literals ls rodata (t_mem (l_tty st0)) (tty_bytes (l_tty st0)) → fmt ∈ ls →
  (∀ a s, str_at a = Some s → a = rodata s ∧ s ∈ ls ∧ Z.of_nat (length s) ≤ INT_MAX) →
  parse_format fmt = Some ds → render str_at ds args = Some o →
  level_number level <? level_number (min_level st0) = false →
  ∃ st', log_write polls st level (rodata fmt) args = Ok st' ∧ logged st0 scr (out ++ [log_piece level o]) st'.
Proof using Hpolls.
  intros [Hlv Hpr] Hls Hin Hstr Hp Hr Hlev. pose proof Hpr as [Hok _ _ (a & b & Hfb) Hmem].
  assert (Hb : ∀ x, tty_bytes (l_tty st) x → tty_bytes (l_tty st0) x) by (intros x; unfold tty_bytes; by rewrite Hfb).
  assert (Hlit : ∀ l, l ∈ ls → cstr (t_mem (l_tty st)) (rodata l) l ∧
      ∀ x, in_range (rodata l) (Z.of_nat (length l) + 1) x → ¬ tty_bytes (l_tty st) x).
  { intros l Hl. destruct (Hls l Hl) as (_ & Hc & Hdis).
    split; [eapply cstr_modifies; [exact Hc | exact Hmem | exact Hdis] | intros x Hx Hx'; by apply (Hdis x Hx), Hb]. }
  destruct (Hlit fmt Hin) as [Hc Hd].
  pose proof (log_write_spec st _ level (rodata fmt) fmt ds str_at args o Hok Hc Hd) as Hw.
  rewrite Hlv, Hlev in Hw. destruct Hw as (t' & -> & W); [|done..|].
  - intros p s Hs. destruct (Hstr p s Hs) as (-> & Hsl & Hlen). destruct (Hlit s Hsl) as [H1 H2]. by split_and!.
  - eexists. split; [reflexivity|]. split; [done|]. by eapply printed_written.
Qed.

(** Without string arguments. *)
Lemma log_logged rodata ls st0 scr out st level fmt args :
  logged st0 scr out st → literals ls rodata (t_mem (l_tty st0)) (tty_bytes (l_tty st0)) → fmt ∈ ls →
  numeric_format fmt (length args) = true →
  level_number level <? level_number (min_level st0) = false →
  ∃ st', log_write polls st level (rodata fmt) args = Ok st' ∧
    logged st0 scr (out ++ [log_piece level (text no_strings fmt args)]) st'.
Proof using Hpolls.
  intros Hlg Hls Hin Hn Hlev. destruct (numeric_format_text fmt args no_strings Hn) as (ds & Hp & Hr).
  by apply (log_logged_at rodata ls st0 scr out st level fmt args no_strings ds).
Qed.
End log_lemmas.

(** ** Properties *)

(** C28: a line of the log. Below the minimum level nothing happens at all.
    Otherwise, when the serial port works or is absent and the console works or
    does not exist yet, [log_write] returns, and the bracketed level, the
    rendered format and a newline have been added, in this order and nothing
    else, to the serial line (newlines as CR LF) and in the level's colour to
    the text on the screen, with no byte of memory outside the framebuffer
    changed. *)
Theorem log_write_correct {D : Type} `{Uart D} polls (st : log D) scr level fmt l ds str_at args o :
  (u_poll_bound < polls)%nat → tty_ok (l_tty st) scr →
  cstr (t_mem (l_tty st)) fmt l → (∀ x, in_range fmt (Z.of_nat (length l) + 1) x → ¬ tty_bytes (l_tty st) x) →
  (∀ a s, str_at a = Some s → cstr (t_mem (l_tty st)) a s ∧ Z.of_nat (length s) ≤ INT_MAX ∧
     ∀ x, in_range a (Z.of_nat (length s) + 1) x → ¬ tty_bytes (l_tty st) x) →
  parse_format l = Some ds → render str_at ds args = Some o →
  let line := log_line level o in
  let t := l_tty st in
  if level_number level <? level_number (min_level st) then log_write polls st level fmt args = Ok st
  else ∃ st', log_write polls st level fmt args = Ok st' ∧
    let t' := l_tty st' in
    min_level st' = min_level st ∧
    tty_ok t' (screen_after t scr (fb_color (styles level)) line) ∧
    u_line (device (t_serial t')) =
      u_line (device (t_serial t)) ++ (if serial_present (t_serial t) then crlf line else []) ∧
    modifies (tty_bytes t) (t_mem t) (t_mem t').
Proof.
  intros Hpolls Hok Hf Hdis Hstr Hp Hr line t.
  pose proof (log_write_spec polls Hpolls st scr level fmt l ds str_at args o Hok Hf Hdis Hstr Hp Hr) as Hw.
  destruct (level_number level <? level_number (min_level st)); [exact Hw|].
  destruct Hw as (t' & Hw & W). eexists. split; [exact Hw|]. split; [done|].
  split; [exact (wr_ok _ _ _ _ _ W)|]. split; [exact (wr_line _ _ _ _ _ W) | exact (wr_mem _ _ _ _ _ W)].
Qed.

(** ** Witnesses: the two-by-two screen of Console.v and the 16550 of Serial.v *)

Definition ex_log : log ref_uart :=
  mk_log LOG_LEVEL_INFO 0 (mk_tty (serial_init ex_serial) (init_state ex_mode) ex_screen).

Lemma log_write_correct_witness :
  ∃ st', log_write 3 ex_log LOG_LEVEL_WARN 0x2000 [] = Ok st' ∧
    u_line (device (t_serial (l_tty st'))) = lit "[WARN] Hi" ++ [13; 10].
Proof.
  pose proof (log_write_correct 3 ex_log (term_blank 2 2) LOG_LEVEL_WARN 0x2000 (lit "Hi") [Text (ch "H"); Text (ch "i")] (λ _, None)
    [] (lit "Hi")) as Hw.
  destruct Hw as (st' & Hw & _ & _ & Hl & _).
  - simpl. lia.
  - split; [left; exact (proj1 (serial_init_spec ex_serial))|]. intros _. exact ex_shows.
  - apply cstr_check_sound. vm_compute. reflexivity.
  - intros x Hx [_ Hb]. change (Z.of_nat (length (lit "Hi")) + 1) with 3 in Hx. unfold fb_bytes, in_range in *.
    change (address (fb (t_fb (l_tty ex_log)))) with 0x1000 in Hb.
    change (height (fb (t_fb (l_tty ex_log))) * pitch (fb (t_fb (l_tty ex_log)))) with 256 in Hb. lia.
  - discriminate.
  - vm_compute. reflexivity.
  - vm_compute. reflexivity.
  - exists st'. split; [exact Hw | exact Hl].
Defined.
