(* ===== verification/Panic.v ===== *)
(** * Panics (kernel/arch/x86_64/cpu/panic.c)

    The report of a panic goes to the serial port and the screen through
    [kvprintf], like the log (Log.v), and ends with the return addresses of the
    chain of frame pointers. String literals are addressed by [rodata]; the
    result of [panic] and [panic_exception] is the state in which [panic_halt]
    stops the processor for good. *)

From S2P Require Import Prelude Word Mem CString BootInfo Isr Printf Console Serial Log.
From S2P Require Import Io.
From Stdlib Require Import Ascii.

(** ** The texts *)

Definition exception_names : list (list Z) := lit <$>
  ["#DE Divide Error"; "#DB Debug"; "NMI"; "#BP Breakpoint"; "#OF Overflow"; "#BR BOUND Range Exceeded";
   "#UD Invalid Opcode"; "#NM Device Not Available"; "#DF Double Fault"; "Reserved (Coprocessor Segment Overrun)";
   "#TS Invalid TSS"; "#NP Segment Not Present"; "#SS Stack-Segment Fault"; "#GP General Protection Fault";
   "#PF Page Fault"; "Reserved"; "#MF x87 FPU Floating-Point Error"; "#AC Alignment Check"; "#MC Machine Check";
   "#XM SIMD Floating-Point Exception"; "#VE Virtualization Exception"; "#CP Control Protection Exception";
   "Reserved"; "Reserved"; "Reserved"; "Reserved"; "Reserved"; "Reserved"; "#HV Hypervisor Injection Exception";
   "#VC VMM Communication Exception"; "#SX Security Exception"; "Reserved"]%string.

Definition line (s : string) : list Z := lit s ++ [10].

Definition fmt_trace : list Z := line "Stack trace:".
Definition fmt_frame : list Z := line "  #%d 0x%016lx".
Definition fmt_exception : list Z := line "[PANIC] %s (vector %lu, error 0x%lx)".
Definition fmt_cr2 : list Z := line "CR2=0x%016lx (faulting address)".
Definition fmt_rip : list Z := line "RIP=0x%016lx CS=0x%04lx RFLAGS=0x%016lx".
Definition fmt_rax : list Z := line "RAX=0x%016lx RBX=0x%016lx RCX=0x%016lx".
Definition fmt_rdx : list Z := line "RDX=0x%016lx RSI=0x%016lx RDI=0x%016lx".
Definition fmt_rbp : list Z := line "RBP=0x%016lx R8= 0x%016lx R9= 0x%016lx".
Definition fmt_r10 : list Z := line "R10=0x%016lx R11=0x%016lx R12=0x%016lx".
Definition fmt_r13 : list Z := line "R13=0x%016lx R14=0x%016lx R15=0x%016lx".
Definition fmt_panic : list Z := lit "[PANIC] ".
Definition fmt_newline : list Z := line "".

(** ** Operations *)

Section panic.
Context {D : Type} `{PortIO D} (polls : nat) (rodata : list Z → Z).

Definition panic_emit (t : tty D) (c : Z) : res (tty D) := tty_emit polls FB_RED t c.

Definition panic_printf (t : tty D) (fmt : list Z) (args : list Z) : res (tty D) :=
  kvprintf panic_emit t_mem t (rodata fmt) args.

Definition print_stack_trace (t : tty D) (rbp : Z) : res (tty D) :=
  t ← panic_printf t fmt_trace [];
  o ← for_break 0 16 (λ depth '(t, rbp),
    if rbp =? 0 then Ok (inr t)
    else
      saved_rbp ← load64 (t_mem t) rbp;
      return_addr ← load64 (t_mem t) (rbp + 8);
      if return_addr =? 0 then Ok (inr t)
      else
        t ← panic_printf t fmt_frame [depth; return_addr];
        if saved_rbp <=? rbp then Ok (inr t) else Ok (inl (t, saved_rbp))) (t, rbp);
  Ok (match o with inl (t, _) => t | inr t => t end).

(** [%cr2] is read for a page fault. *)
Definition panic_exception (cr2 : Z) (t : tty D) (frame : interrupt_frame) : res (tty D) :=
  name ← (if vector frame <? 32 then deref (exception_names !! Z.to_nat (vector frame))
          else Ok (lit "Unknown"));
  t ← panic_printf t fmt_exception [rodata name; vector frame; error_code frame];
  t ← (if vector frame =? 14 then panic_printf t fmt_cr2 [cr2] else Ok t);
  t ← panic_printf t fmt_rip [rip frame; cs frame; rflags frame];
  t ← panic_printf t fmt_rax [rax frame; rbx frame; rcx frame];
  t ← panic_printf t fmt_rdx [rdx frame; rsi frame; rdi frame];
  t ← panic_printf t fmt_rbp [rbp frame; r8 frame; r9 frame];
  t ← panic_printf t fmt_r10 [r10 frame; r11 frame; r12 frame];
  t ← panic_printf t fmt_r13 [r13 frame; r14 frame; r15 frame];
  print_stack_trace t (rbp frame).

(** [fmt] is the caller's format, [frame_address] the frame of [panic]
    itself. *)
Definition panic (frame_address : Z) (t : tty D) (fmt : Z) (args : list Z) : res (tty D) :=
  t ← panic_printf t fmt_panic [];
  t ← kvprintf panic_emit t_mem t fmt args;
  t ← panic_printf t fmt_newline [];
  print_stack_trace t frame_address.
End panic.

(** ** Specification *)

Definition panic_literals : list (list Z) :=
  [fmt_trace; fmt_frame; fmt_exception; fmt_cr2; fmt_rip; fmt_rax; fmt_rdx; fmt_rbp; fmt_r10; fmt_r13;
   fmt_panic; fmt_newline; lit "Unknown"] ++ exception_names.

(** The literals are in memory, at addresses that are not [NULL], out of the
    bytes of [X]. *)
Definition literals_at (rodata : list Z → Z) (m : mem) (X : Z → Prop) : Prop :=
  ∀ l, l ∈ panic_literals → 0 < rodata l < 2 ^ 64 ∧ cstr m (rodata l) l ∧
    ∀ x, in_range (rodata l) (Z.of_nat (length l) + 1) x → ¬ X x.

(** The string argument of a format. *)
Definition string_at (a : Z) (s : list Z) (x : Z) : option (list Z) := if x =? a then Some s else None.

(** The return addresses of the chain of frames from [rbp], at most [n] of
    them: a chain ends at a null frame pointer, at a null return address, or
    after a frame that does not lie below its caller's. *)
Inductive backtrace (m : mem) (X : Z → Prop) : nat → Z → list Z → Prop :=
  | bt_full rbp : backtrace m X 0 rbp []
  | bt_null n : backtrace m X n 0 []
  | bt_no_return n rbp saved :
      rbp ≠ 0 → load64 m rbp = Ok saved → load64 m (rbp + 8) = Ok 0 →
      (∀ x, in_range rbp 16 x → ¬ X x) → backtrace m X n rbp []
  | bt_last n rbp saved ra :
      rbp ≠ 0 → load64 m rbp = Ok saved → load64 m (rbp + 8) = Ok ra → ra ≠ 0 → saved ≤ rbp →
      (∀ x, in_range rbp 16 x → ¬ X x) → backtrace m X (S n) rbp [ra]
  | bt_frame n rbp saved ra l :
      rbp ≠ 0 → load64 m rbp = Ok saved → load64 m (rbp + 8) = Ok ra → ra ≠ 0 → rbp < saved →
      (∀ x, in_range rbp 16 x → ¬ X x) → backtrace m X n saved l → backtrace m X (S n) rbp (ra :: l).

Fixpoint trace_lines (depth : Z) (l : list Z) : list Z :=
  match l with
  | [] => []
  | ra :: l => text no_strings fmt_frame [depth; ra] ++ trace_lines (depth + 1) l
  end.

Definition trace_text (l : list Z) : list Z := fmt_trace ++ trace_lines 0 l.

Definition exception_name (v : Z) : list Z :=
  if v <? 32 then default [] (exception_names !! Z.to_nat v) else lit "Unknown".

(** The report before the trace. *)
Definition exception_text (cr2 : Z) (f : interrupt_frame) : list Z :=
  let num := text no_strings in
  text (string_at 1 (exception_name (vector f))) fmt_exception [1; vector f; error_code f] ++
  (if vector f =? 14 then num fmt_cr2 [cr2] else []) ++
  num fmt_rip [rip f; cs f; rflags f] ++
  num fmt_rax [rax f; rbx f; rcx f] ++ num fmt_rdx [rdx f; rsi f; rdi f] ++
  num fmt_rbp [rbp f; r8 f; r9 f] ++ num fmt_r10 [r10 f; r11 f; r12 f] ++
  num fmt_r13 [r13 f; r14 f; r15 f].

(** ** Lemmas: the report *)

(** The text of the first line does not depend on where the name is. *)
Lemma exception_line a name v e :
  0 < a < 2 ^ 64 →
  ∃ ds, parse_format fmt_exception = Some ds ∧
    render (string_at a name) ds [a; v; e] = Some (text (string_at 1 name) fmt_exception [1; v; e]).
Proof.
  intros Ha. unfold text.
  destruct (parse_format fmt_exception) as [ds|] eqn:Hp; [|vm_compute in Hp; discriminate].
  exists ds. split; [done|].
  assert (Hds : ∃ ds', ds = (Text <$> lit "[PANIC] ") ++ Spec false 0 false (ch "s") :: ds' ∧
    forallb numeric_spec ds' = true ∧ length (base.filter takes ds') = 2%nat).
  { vm_compute in Hp. injection Hp as <-. eexists. split; [reflexivity|]. split; vm_compute; reflexivity. }
  destruct Hds as (ds' & -> & Hn & Hl). cbn [mbind option_bind].
  destruct (render_numeric (string_at a name) (string_at 1 name) ds' [v; e] Hn) as (o & H1 & H2); [simpl; lia|].
  assert (Hs : ∀ b, 0 < b < 2 ^ 64 → render_conv (string_at b name) false 0 false (ch "s") b = Some name).
  { intros b Hb. unfold render_conv. rewrite u64_small by lia. cbn [orb]. change (ch "s" =? ch "s") with true.
    destruct (Z.eqb_spec b 0); [lia|]. unfold string_at. rewrite Z.eqb_refl. unfold pad_left. cbn [fmap option_fmap option_map].
    by replace (Z.to_nat (0 - Z.of_nat (length name))) with 0%nat by lia. }
  rewrite !render_texts. cbn [render]. change (takes_arg (ch "s")) with true. cbv iota.
  rewrite (Hs a Ha), (Hs 1) by lia. cbn [mbind option_bind]. rewrite H1, H2. done.
Qed.

Section report.
Context {D : Type} `{Uart D} (polls : nat) (Hpolls : (u_poll_bound < polls)%nat).
Context (rodata : list Z → Z) (t0 : tty D) (scr : term).
Context (Hlits : literals_at rodata (t_mem t0) (tty_bytes t0)).

Abbreviation shown := (written FB_RED t0 scr).

(** Any format of the caller's. *)
Lemma panic_kvprintf_spec txt t fmt l ds str_at args o :
  shown txt t → cstr (t_mem t0) fmt l → (∀ x, in_range fmt (Z.of_nat (length l) + 1) x → ¬ tty_bytes t0 x) →
  (∀ a s, str_at a = Some s → cstr (t_mem t0) a s ∧ Z.of_nat (length s) ≤ INT_MAX ∧
     ∀ x, in_range a (Z.of_nat (length s) + 1) x → ¬ tty_bytes t0 x) →
  parse_format l = Some ds → render str_at ds args = Some o →
  ∃ t', kvprintf (panic_emit polls) t_mem t fmt args = Ok t' ∧ shown (txt ++ o) t'.
Proof using Hpolls.
  intros Hw Hf Hdis Hstr Hp Hr.
  apply (sink_kvprintf polls Hpolls (λ t, t) (λ _ t, t) (λ _, True) FB_RED (panic_emit polls)) with (l := l) (ds := ds) (str_at := str_at); try done.
  intros st c _. unfold panic_emit. by destruct (tty_emit polls FB_RED st c).
Qed.

Lemma panic_printf_spec txt t fmt args ds str_at o :
  shown txt t → fmt ∈ panic_literals →
  (∀ a s, str_at a = Some s → s ∈ panic_literals ∧ a = rodata s ∧ Z.of_nat (length s) ≤ INT_MAX) →
  parse_format fmt = Some ds → render str_at ds args = Some o →
  ∃ t', panic_printf polls rodata t fmt args = Ok t' ∧ shown (txt ++ o) t'.
Proof using Hpolls Hlits.
  intros Hw Hin Hstr Hp Hr. destruct (Hlits fmt Hin) as (_ & Hc & Hdis).
  apply (panic_kvprintf_spec _ _ _ fmt ds str_at); try done.
  intros a s Ha. destruct (Hstr a s Ha) as (Hs & -> & Hlen). by destruct (Hlits s Hs) as (_ & ? & ?).
Qed.

(** Numeric arguments. *)
Lemma panic_printf_numeric txt t fmt args :
  shown txt t → fmt ∈ panic_literals → numeric_format fmt (length args) = true →
  ∃ t', panic_printf polls rodata t fmt args = Ok t' ∧ shown (txt ++ text no_strings fmt args) t'.
Proof using Hpolls Hlits.
  intros Hw Hin Hn. destruct (numeric_format_text fmt args no_strings Hn) as (ds & Hp & Hr).
  by apply (panic_printf_spec _ _ _ _ ds no_strings).
Qed.

(** The chain of frames as the screen is written to. *)
Lemma frame_load txt t rbp k v :
  shown txt t → (∀ x, in_range rbp 16 x → ¬ tty_bytes t0 x) → 0 ≤ k ≤ 8 →
  load64 (t_mem t0) (rbp + k) = Ok v → load64 (t_mem t) (rbp + k) = Ok v.
Proof using.
  clear Hpolls. intros Hw Hdis Hk <-. apply load_le_agree. intros x Hx.
  apply (wr_mem _ _ _ _ _ Hw). apply Hdis. unfold in_range in *. lia.
Qed.

Definition frame_step (depth : Z) : tty D * Z → res (tty D * Z + tty D) := λ '(t, rbp),
  if rbp =? 0 then Ok (inr t)
  else
    saved_rbp ← load64 (t_mem t) rbp;
    return_addr ← load64 (t_mem t) (rbp + 8);
    if return_addr =? 0 then Ok (inr t)
    else
      t ← panic_printf polls rodata t fmt_frame [depth; return_addr];
      if saved_rbp <=? rbp then Ok (inr t) else Ok (inl (t, saved_rbp)).

(** One frame: either the chain ends without a line, or its line is added. *)
Lemma frame_step_spec txt t depth rbp saved ra :
  shown txt t → rbp ≠ 0 → load64 (t_mem t0) rbp = Ok saved → load64 (t_mem t0) (rbp + 8) = Ok ra →
  (∀ x, in_range rbp 16 x → ¬ tty_bytes t0 x) →
  if ra =? 0 then frame_step depth (t, rbp) = Ok (inr t)
  else ∃ t', shown (txt ++ text no_strings fmt_frame [depth; ra]) t' ∧
    frame_step depth (t, rbp) = Ok (if saved <=? rbp then inr t' else inl (t', saved)).
Proof using Hpolls Hlits.
  intros Hw Hr H1 H2 Hd. unfold frame_step. rewrite (proj2 (Z.eqb_neq rbp 0)) by done.
  rewrite <-(Z.add_0_r rbp) in H1. apply (frame_load txt t rbp 0 _ Hw Hd ltac:(lia)) in H1. rewrite Z.add_0_r in H1.
  apply (frame_load txt t rbp 8 _ Hw Hd ltac:(lia)) in H2. rewrite H1, H2. cbn [mbind res_bind].
  destruct (ra =? 0); [done|].
  destruct (panic_printf_numeric txt t fmt_frame [depth; ra] Hw) as (t' & -> & Hw');
    [by apply (list_elem_of_lookup_2 _ 1) | by vm_compute |].
  exists t'. split; [exact Hw'|]. cbn [mbind res_bind]. by destruct (saved <=? rbp).
Qed.

Lemma frames_spec n depth rbp l txt t :
  shown txt t → backtrace (t_mem t0) (tty_bytes t0) n rbp l →
  ∃ o t', for_loop_break n depth frame_step (t, rbp) = Ok o ∧
    (o = inr t' ∨ ∃ r, o = inl (t', r)) ∧ shown (txt ++ trace_lines depth l) t'.
Proof using Hpolls Hlits.
  intros Hw Hbt. revert depth txt t Hw.
  induction Hbt as [rbp|n|n rbp saved Hr H1 H2 Hd|n rbp saved ra Hr H1 H2 Hra Hle Hd|n rbp saved ra l Hr H1 H2 Hra Hlt Hd Hbt IH];
    intros depth txt t Hw; cbn [trace_lines]; rewrite ?app_nil_r.
  - exists (inl (t, rbp)), t. split; [done|]. split; [right; by exists rbp | done].
  - destruct n as [|n]; cbn [for_loop_break].
    + exists (inl (t, 0)), t. split; [done|]. split; [right; by exists 0 | done].
    + exists (inr t), t. split; [done|]. by split; [left|].
  - destruct n as [|n]; cbn [for_loop_break].
    + exists (inl (t, rbp)), t. split; [done|]. split; [right; by exists rbp | done].
    + pose proof (frame_step_spec txt t depth rbp saved 0 Hw Hr H1 H2 Hd) as Hs. cbn [Z.eqb] in Hs. rewrite Hs.
      exists (inr t), t. split; [done|]. by split; [left|].
  - pose proof (frame_step_spec txt t depth rbp saved ra Hw Hr H1 H2 Hd) as Hs.
    rewrite (proj2 (Z.eqb_neq ra 0)) in Hs by done. destruct Hs as (t' & Hw' & Hs). cbn [for_loop_break]. rewrite Hs.
    rewrite (proj2 (Z.leb_le saved rbp)) by done.
    exists (inr t'), t'. split; [done|]. by split; [left|].
  - pose proof (frame_step_spec txt t depth rbp saved ra Hw Hr H1 H2 Hd) as Hs.
    rewrite (proj2 (Z.eqb_neq ra 0)) in Hs by done. destruct Hs as (t1 & Hw1 & Hs). cbn [for_loop_break]. rewrite Hs.
    rewrite (proj2 (Z.leb_gt saved rbp)) by done. cbn [mbind res_bind].
    destruct (IH (depth + 1) _ t1 Hw1) as (o & t' & Ho & Hot & Hw'). exists o, t'. by rewrite <-app_assoc in Hw'.
Qed.

Lemma print_stack_trace_spec rbp l txt t :
  shown txt t → backtrace (t_mem t0) (tty_bytes t0) 16 rbp l →
  ∃ t', print_stack_trace polls rodata t rbp = Ok t' ∧ shown (txt ++ trace_text l) t'.
Proof using Hpolls Hlits.
  intros Hw Hbt. unfold print_stack_trace, trace_text.
  destruct (panic_printf_numeric txt t fmt_trace [] Hw) as (t1 & -> & Hw1);
    [by apply (list_elem_of_lookup_2 _ 0) | by vm_compute |].
  cbn [mbind res_bind]. replace (text no_strings fmt_trace []) with fmt_trace in Hw1 by (vm_compute; reflexivity).
  destruct (frames_spec 16 0 rbp l _ t1 Hw1 Hbt) as (o & t' & Ho & Hot & Hw').
  unfold for_break. change (Z.to_nat (16 - 0)) with 16%nat.
  change (for_loop_break 16 0 _ (t1, rbp)) with (for_loop_break 16 0 frame_step (t1, rbp)). rewrite Ho.
  exists t'. rewrite <-app_assoc in Hw'. split; [|exact Hw']. by destruct Hot as [->|[r ->]].
Qed.

Lemma exception_name_literal v :
  0 ≤ v → exception_name v ∈ panic_literals ∧ Z.of_nat (length (exception_name v)) ≤ INT_MAX ∧
  (if v <? 32 then deref (exception_names !! Z.to_nat v) else Ok (lit "Unknown")) = Ok (exception_name v).
Proof using.
  clear Hlits Hpolls. intros Hv. unfold exception_name. destruct (Z.ltb_spec v 32) as [Hlt|_].
  - destruct (lookup_lt_is_Some_2 exception_names (Z.to_nat v)) as [s Hs]; [change (length exception_names) with 32%nat; lia|].
    rewrite Hs. cbn [default deref]. pose proof (list_elem_of_lookup_2 _ _ _ Hs) as Hin.
    split_and!; [apply elem_of_app; by right | | done].
    assert (Hall : Forall (λ s, Z.of_nat (length s) ≤ INT_MAX) exception_names) by (repeat constructor; vm_compute; discriminate).
    rewrite Forall_forall in Hall. by apply Hall.
  - split_and!; [by apply (list_elem_of_lookup_2 _ 12) | by vm_compute | done].
Qed.

(** One more line of numbers, [i] being its format's place in the list. *)
Ltac say i W := match goal with |- context [panic_printf polls rodata ?t ?fmt ?args] =>
  let t' := fresh "t" in let E := fresh "E" in let W' := fresh "W" in
  destruct (panic_printf_numeric _ t fmt args W) as (t' & E & W');
    [by apply (list_elem_of_lookup_2 _ i) | by vm_compute | rewrite E; cbn [mbind res_bind]; clear E W; rename W' into W] end.

(** Up to the trace. *)
Lemma panic_exception_registers cr2 frame :
  tty_ok t0 scr → 0 ≤ vector frame →
  ∃ t1, panic_exception polls rodata cr2 t0 frame = print_stack_trace polls rodata t1 (rbp frame) ∧
    shown (exception_text cr2 frame) t1.
Proof using Hpolls Hlits.
  intros Hok Hv. unfold panic_exception, exception_text.
  destruct (exception_name_literal (vector frame) Hv) as (Hin & Hlen & ->). cbn [mbind res_bind].
  set (name := exception_name (vector frame)) in *. destruct (Hlits name Hin) as (Ha & _ & _).
  destruct (exception_line (rodata name) name (vector frame) (error_code frame) Ha) as (ds & Hp & Hr).
  assert (Hstr : ∀ a s, string_at (rodata name) name a = Some s → s ∈ panic_literals ∧ a = rodata s ∧ Z.of_nat (length s) ≤ INT_MAX).
  { intros a s. unfold string_at. destruct (Z.eqb_spec a (rodata name)) as [->|]; [|done]. by intros [= <-]. }
  destruct (panic_printf_spec [] t0 fmt_exception _ ds _ _ (written_nil FB_RED t0 scr Hok)
    ltac:(by apply (list_elem_of_lookup_2 _ 2)) Hstr Hp Hr) as (t1 & -> & W).
  cbn [mbind res_bind app] in *.
  assert (W2 : ∃ t2, (if vector frame =? 14 then panic_printf polls rodata t1 fmt_cr2 [cr2] else Ok t1) = Ok t2 ∧
    shown (text (string_at 1 name) fmt_exception [1; vector frame; error_code frame] ++
      (if vector frame =? 14 then text no_strings fmt_cr2 [cr2] else [])) t2).
  { destruct (vector frame =? 14).
    - by destruct (panic_printf_numeric _ t1 fmt_cr2 [cr2] W) as (t2 & ? & ?);
        [by apply (list_elem_of_lookup_2 _ 3) | by vm_compute | exists t2].
    - exists t1. by rewrite app_nil_r. }
  clear W. destruct W2 as (t2 & -> & W). cbn [mbind res_bind].
  say 4%nat W. say 5%nat W. say 6%nat W. say 7%nat W. say 8%nat W. say 9%nat W.
  eexists. split; [reflexivity|]. rewrite <-!app_assoc in W. exact W.
Qed.

Lemma panic_exception_spec cr2 frame l :
  tty_ok t0 scr → 0 ≤ vector frame → backtrace (t_mem t0) (tty_bytes t0) 16 (rbp frame) l →
  ∃ t', panic_exception polls rodata cr2 t0 frame = Ok t' ∧ shown (exception_text cr2 frame ++ trace_text l) t'.
Proof using Hpolls Hlits.
  intros Hok Hv Hbt. destruct (panic_exception_registers cr2 frame Hok Hv) as (t1 & -> & W).
  by apply print_stack_trace_spec.
Qed.

(** A first frame that cannot be read. *)
Lemma print_stack_trace_fault rbp txt t :
  shown txt t → rbp ≠ 0 → ¬ mapped (t_mem t0) rbp 8 → print_stack_trace polls rodata t rbp = UB.
Proof using Hpolls Hlits.
  intros Hw Hne Hno. unfold print_stack_trace.
  destruct (panic_printf_numeric txt t fmt_trace [] Hw) as (t1 & -> & Hw1);
    [by apply (list_elem_of_lookup_2 _ 0) | by vm_compute |].
  cbn [mbind res_bind]. unfold for_break. change (Z.to_nat (16 - 0)) with 16%nat. cbn [for_loop_break].
  rewrite (proj2 (Z.eqb_neq rbp 0)) by done. rewrite (load64_unmapped (t_mem t1) rbp); [reflexivity|].
  intros Hm. apply Hno. intros x Hx. apply (proj1 (wr_mem _ _ _ _ _ Hw1)). by apply Hm.
Qed.

Lemma panic_spec frame_address fmt lf ds str_at args o l :
  tty_ok t0 scr → cstr (t_mem t0) fmt lf → (∀ x, in_range fmt (Z.of_nat (length lf) + 1) x → ¬ tty_bytes t0 x) →
  (∀ a s, str_at a = Some s → cstr (t_mem t0) a s ∧ Z.of_nat (length s) ≤ INT_MAX ∧
     ∀ x, in_range a (Z.of_nat (length s) + 1) x → ¬ tty_bytes t0 x) →
  parse_format lf = Some ds → render str_at ds args = Some o →
  backtrace (t_mem t0) (tty_bytes t0) 16 frame_address l →
  ∃ t', panic polls rodata frame_address t0 fmt args = Ok t' ∧
    shown (lit "[PANIC] " ++ o ++ [10] ++ trace_text l) t'.
Proof using Hpolls Hlits.
  intros Hok Hf Hdis Hstr Hp Hr Hbt. unfold panic. pose proof (written_nil FB_RED t0 scr Hok) as W. say 10%nat W.
  destruct (panic_kvprintf_spec _ _ fmt lf ds str_at args o W) as (t1 & -> & W1); [done..|]. cbn [mbind res_bind].
  say 11%nat W1.
  destruct (print_stack_trace_spec frame_address l _ _ W1 Hbt) as (t' & -> & W'). exists t'. split; [done|].
  rewrite <-!app_assoc in W'. exact W'.
Qed.
End report.

(** ** Properties *)

Section theorems.
Context {D : Type} `{Uart D} (polls : nat) (rodata : list Z → Z) (t : tty D) (scr : term).

(** C29: the report of an exception. When the serial port works or is absent,
    the console works or does not exist yet, and the literals are readable:
    whatever the registers, [panic_exception] first adds to the serial line and
    the screen (in red) exactly the name, vector and error code of the exception,
    the faulting address for a page fault and the 18 registers of the frame, and
    then goes on with the stack trace. If the chain of frames from [rbp] can be
    read and lies outside the framebuffer, it comes as far as [panic_halt], and
    the return addresses of the chain follow, at most 16 of them. If [rbp] is
    not 0 and points to memory that cannot be read, the trace itself faults. No
    byte outside the framebuffer changes. *)
Theorem panic_exception_correct cr2 frame :
  (u_poll_bound < polls)%nat → tty_ok t scr → literals_at rodata (t_mem t) (tty_bytes t) → 0 ≤ vector frame →
  let reported report t' :=
    tty_ok t' (screen_after t scr FB_RED report) ∧
    u_line (device (t_serial t')) =
      u_line (device (t_serial t)) ++ (if serial_present (t_serial t) then crlf report else []) ∧
    modifies (tty_bytes t) (t_mem t) (t_mem t') in
  (∃ t1, panic_exception polls rodata cr2 t frame = print_stack_trace polls rodata t1 (rbp frame) ∧
     reported (exception_text cr2 frame) t1) ∧
  (∀ l, backtrace (t_mem t) (tty_bytes t) 16 (rbp frame) l →
     ∃ t', panic_exception polls rodata cr2 t frame = Ok t' ∧ reported (exception_text cr2 frame ++ trace_text l) t') ∧
  (rbp frame ≠ 0 → ¬ mapped (t_mem t) (rbp frame) 8 → panic_exception polls rodata cr2 t frame = UB).
Proof.
  intros Hpolls Hok Hlits Hv reported.
  assert (Hshown : ∀ txt t', written FB_RED t scr txt t' → reported txt t')
    by (intros txt t' W; split; [exact (wr_ok _ _ _ _ _ W) | split; [exact (wr_line _ _ _ _ _ W) | exact (wr_mem _ _ _ _ _ W)]]).
  destruct (panic_exception_registers polls Hpolls rodata t scr Hlits cr2 frame Hok Hv) as (t1 & Hp & W1). split_and!.
  - exists t1. split; [exact Hp | by apply Hshown].
  - intros l Hbt. destruct (panic_exception_spec polls Hpolls rodata t scr Hlits cr2 frame l Hok Hv Hbt) as (t' & Hr & W).
    exists t'. split; [exact Hr | by apply Hshown].
  - intros Hne Hno. rewrite Hp. by apply (print_stack_trace_fault polls Hpolls rodata t scr Hlits _ _ _ W1).
Qed.

(** [panic] reports the caller's message, rendered, and the chain of frames
    from its own. *)
Theorem panic_correct frame_address fmt lf ds str_at args o l :
  (u_poll_bound < polls)%nat → tty_ok t scr → literals_at rodata (t_mem t) (tty_bytes t) →
  cstr (t_mem t) fmt lf → (∀ x, in_range fmt (Z.of_nat (length lf) + 1) x → ¬ tty_bytes t x) →
  (∀ a s, str_at a = Some s → cstr (t_mem t) a s ∧ Z.of_nat (length s) ≤ INT_MAX ∧
     ∀ x, in_range a (Z.of_nat (length s) + 1) x → ¬ tty_bytes t x) →
  parse_format lf = Some ds → render str_at ds args = Some o →
  backtrace (t_mem t) (tty_bytes t) 16 frame_address l →
  let report := lit "[PANIC] " ++ o ++ [10] ++ trace_text l in
  ∃ t', panic polls rodata frame_address t fmt args = Ok t' ∧
    tty_ok t' (screen_after t scr FB_RED report) ∧
    u_line (device (t_serial t')) =
      u_line (device (t_serial t)) ++ (if serial_present (t_serial t) then crlf report else []) ∧
    modifies (tty_bytes t) (t_mem t) (t_mem t').
Proof.
  intros Hpolls Hok Hlits Hf Hdis Hstr Hp Hr Hbt report.
  destruct (panic_spec polls Hpolls rodata t scr Hlits frame_address fmt lf ds str_at args o l) as (t' & Hpa & W); [done..|].
  exists t'. split; [exact Hpa|]. split; [exact (wr_ok _ _ _ _ _ W)|].
  split; [exact (wr_line _ _ _ _ _ W) | exact (wr_mem _ _ _ _ _ W)].
Qed.
End theorems.

(** ** Witness: a page fault two calls deep, on the 16550 of Serial.v *)

Fixpoint place (a : Z) (l : list Z) (m : mem) : mem :=
  match l with [] => m | b :: l => <[a := b]> (place (a + 1) l m) end.

Fixpoint index_of (l : list Z) (ls : list (list Z)) : Z :=
  match ls with [] => 0 | l' :: ls => if decide (l = l') then 0 else 1 + index_of l ls end.

Definition ex_rodata (l : list Z) : Z := 0x10000 + 64 * index_of l panic_literals.

Definition ex_words (l : list Z) : list Z := v ← l; (λ k, v / 256 ^ k mod 256) <$> seqZ 0 8.

Definition ex_image : mem :=
  foldr (λ l m, place (ex_rodata l) (l ++ [0]) m)
    (place 0x8000 (ex_words [0x8010; 0x1234; 0; 0x5678]) ∅) panic_literals.

Definition ex_tty : tty ref_uart := mk_tty (serial_init ex_serial) fb_bss ex_image.

Definition ex_frame : interrupt_frame :=
  mk_frame 15 14 13 12 11 10 9 8 0x8000 7 6 4 3 2 1 14 2 0xffffffff80001000 8 0x202.

Definition ex_report : list Z :=
  line "[PANIC] #PF Page Fault (vector 14, error 0x2)" ++
  line "CR2=0x0000000000dead00 (faulting address)" ++
  line "RIP=0xffffffff80001000 CS=0x0008 RFLAGS=0x0000000000000202" ++
  line "RAX=0x0000000000000001 RBX=0x0000000000000002 RCX=0x0000000000000003" ++
  line "RDX=0x0000000000000004 RSI=0x0000000000000006 RDI=0x0000000000000007" ++
  line "RBP=0x0000000000008000 R8= 0x0000000000000008 R9= 0x0000000000000009" ++
  line "R10=0x000000000000000a R11=0x000000000000000b R12=0x000000000000000c" ++
  line "R13=0x000000000000000d R14=0x000000000000000e R15=0x000000000000000f" ++
  line "Stack trace:" ++ line "  #0 0x0000000000001234" ++ line "  #1 0x0000000000005678".

Lemma ex_literals : literals_at ex_rodata ex_image (tty_bytes ex_tty).
Proof.
  assert (Hall : forallb (λ l, (0 <? ex_rodata l) && (ex_rodata l <? 2 ^ 64) && cstr_check ex_image (ex_rodata l) l)
    panic_literals = true) by (vm_compute; reflexivity).
  intros l Hl. rewrite forallb_forall in Hall. specialize (Hall l (proj1 (list_elem_of_In _ _) Hl)).
  apply andb_true_iff in Hall as [[H1%Z.ltb_lt H2%Z.ltb_lt]%andb_true_iff Hc].
  split; [lia|]. split; [by apply cstr_check_sound|]. intros x _ [Hb _]. discriminate Hb.
Qed.

Lemma panic_exception_correct_witness :
  ∃ t', panic_exception 3 ex_rodata 0xdead00 ex_tty ex_frame = Ok t' ∧ u_line (device (t_serial t')) = crlf ex_report.
Proof.
  destruct (panic_exception_correct 3 ex_rodata ex_tty (term_blank 2 2) 0xdead00 ex_frame)
    as (_ & Hok & _).
  - simpl. lia.
  - split; [left; exact (proj1 (serial_init_spec ex_serial)) | discriminate].
  - exact ex_literals.
  - discriminate.
  - destruct (Hok [0x1234; 0x5678]) as (t' & Hr & _ & Hl & _); [|exists t'; split; [exact Hr|]; rewrite Hl; vm_compute; reflexivity].
    assert (Hd : ∀ r x, in_range r 16 x → ¬ tty_bytes ex_tty x) by (intros r x _ [Hb _]; discriminate Hb).
    apply (bt_frame _ _ 15 _ 0x8010); [discriminate | vm_compute; reflexivity | vm_compute; reflexivity | discriminate | reflexivity | apply Hd |].
    apply (bt_last _ _ 14 _ 0); [discriminate | vm_compute; reflexivity | vm_compute; reflexivity | discriminate | discriminate | apply Hd].
Defined.
