(* ===== verification/Gdt.v ===== *)
(** * Segment descriptors (kernel/arch/x86_64/cpu/gdt.c, gdt.h, gdt_flush.S)

    The tables are bytes of memory at the addresses of the static objects
    [gdt] and [tss]; the segment registers are a record. The specification is
    the processor's reading of the descriptors (SDM Vol. 3A, 3.4.5 and 8.2.3). *)

From S2P Require Import Prelude Word Mem CString.

(** ** Data *)

Definition GDT_KERNEL_CODE : Z := 0x08.
Definition GDT_KERNEL_DATA : Z := 0x10.
Definition GDT_USER_DATA : Z := 0x18.
Definition GDT_USER_CODE : Z := 0x20.
Definition GDT_TSS : Z := 0x28.

(** [struct gdt_table]: five entries of eight bytes and the TSS descriptor. *)
Definition sizeof_gdt : Z := 56.
(** [struct tss], packed, and the offsets of the members used. *)
Definition sizeof_tss : Z := 104.
Definition tss_rsp0 : Z := 4.
Definition tss_iopb_offset : Z := 102.

(** The descriptor-table, segment and task registers. *)
Record seg_regs := mk_seg {
  gdtr_limit : Z; gdtr_base : Z;
  cs : Z; ds : Z; es : Z; fs : Z; gs : Z; ss : Z;
  tr : Z;
}.

(** ** Operations *)

Definition set_entry (m : mem) (entry access flags : Z) : res mem :=
  store_fields m entry
    [(0, 2%nat, 0xffff); (2, 2%nat, 0); (4, 1%nat, 0); (5, 1%nat, access);
     (6, 1%nat, u8 (Z.lor (Z.shiftl flags 4) 0x0f)); (7, 1%nat, 0)].

Definition set_tss_descriptor (m : mem) (desc base limit : Z) : res mem :=
  store_fields m desc
    [(0, 2%nat, u16 (Z.land limit 0xffff)); (2, 2%nat, u16 (Z.land base 0xffff));
     (4, 1%nat, u8 (Z.land (Z.shiftr base 16) 0xff)); (5, 1%nat, 0x89);
     (6, 1%nat, u8 (Z.land (Z.shiftr limit 16) 0x0f)); (7, 1%nat, u8 (Z.land (Z.shiftr base 24) 0xff));
     (8, 4%nat, u32 (Z.shiftr base 32)); (12, 4%nat, 0)].

(** gdt_flush.S: [lgdt], the data segment registers, and [%cs] by a far
    return. *)
Definition gdt_flush (c : seg_regs) (limit base code_selector data_selector : Z) : seg_regs :=
  mk_seg limit base code_selector data_selector data_selector data_selector data_selector data_selector (tr c).

(** The [ltr] instruction: the selector must name a present, available 64-bit
    TSS inside the table, which becomes busy; anything else is a fault. *)
Definition ltr (m : mem) (c : seg_regs) (selector : Z) : res (mem * seg_regs) :=
  if negb (selector + 15 <=? gdtr_limit c) then UB
  else
    access ← load_le 1 m (gdtr_base c + selector + 5);
    if negb (Z.land access 0x9f =? 0x89) then UB
    else
      m ← store_le 1 m (gdtr_base c + selector + 5) (Z.lor access 2);
      Ok (m, mk_seg (gdtr_limit c) (gdtr_base c) (cs c) (ds c) (es c) (fs c) (gs c) (ss c) selector).

Section gdt.
(** The addresses of the static objects. *)
Context (gdt tss : Z).

Definition gdt_init (m : mem) (c : seg_regs) : res (mem * seg_regs) :=
  '(_, m) ← memset m gdt 0 sizeof_gdt;
  '(_, m) ← memset m tss 0 sizeof_tss;
  m ← set_entry m (gdt + 8) 0x9a 0xa;
  m ← set_entry m (gdt + 16) 0x92 0xc;
  m ← set_entry m (gdt + 24) 0xf2 0xc;
  m ← set_entry m (gdt + 32) 0xfa 0xa;
  m ← store_le 2 m (tss + tss_iopb_offset) sizeof_tss;
  m ← set_tss_descriptor m (gdt + 40) tss (sizeof_tss - 1);
  let c := gdt_flush c (sizeof_gdt - 1) gdt GDT_KERNEL_CODE GDT_KERNEL_DATA in
  ltr m c GDT_TSS.

Definition gdt_set_kernel_stack (m : mem) (rsp0 : Z) : res mem := store64 m (tss + tss_rsp0) rsp0.
End gdt.

(** ** The processor's reading of a descriptor *)

Record descriptor := mk_desc {
  d_base : Z; d_limit : Z;
  d_type : Z; d_s : bool; d_dpl : Z; d_present : bool;
  d_long : bool; d_db : bool; d_gran : bool;
}.

Definition segment_descriptor (m : mem) (a : Z) : res descriptor :=
  limit ← load_le 2 m a;
  base ← load_le 2 m (a + 2);
  base_mid ← load_le 1 m (a + 4);
  access ← load_le 1 m (a + 5);
  gran ← load_le 1 m (a + 6);
  base_high ← load_le 1 m (a + 7);
  Ok (mk_desc (base + base_mid * 2 ^ 16 + base_high * 2 ^ 24) (limit + gran mod 16 * 2 ^ 16)
        (access mod 16) (Z.testbit access 4) (access / 32 mod 4) (Z.testbit access 7)
        (Z.testbit gran 5) (Z.testbit gran 6) (Z.testbit gran 7)).

(** A system descriptor has the upper half of its base in the next eight
    bytes. *)
Definition system_descriptor (m : mem) (a : Z) : res descriptor :=
  d ← segment_descriptor m a;
  upper ← load_le 4 m (a + 8);
  Ok (mk_desc (d_base d + upper * 2 ^ 32) (d_limit d) (d_type d) (d_s d) (d_dpl d) (d_present d)
        (d_long d) (d_db d) (d_gran d)).

(** A flat code or data segment of four gigabytes: execute/read code is type
    10, read/write data type 2. *)
Definition flat_code (dpl : Z) : descriptor := mk_desc 0 0xfffff 10 true dpl true true false true.
Definition flat_data (dpl : Z) : descriptor := mk_desc 0 0xfffff 2 true dpl true false true true.

(** ** Lemmas *)

Lemma segment_modifies X m m' a :
  modifies X m m' → (∀ x, in_range a 8 x → ¬ X x) → segment_descriptor m' a = segment_descriptor m a.
Proof.
  intros Hmod HX. unfold segment_descriptor.
  rewrite !(load_le_modifies _ X m m') by (done || (intros x Hx; apply HX; unfold in_range in *; lia)). done.
Qed.

Lemma system_modifies X m m' a :
  modifies X m m' → (∀ x, in_range a 16 x → ¬ X x) → system_descriptor m' a = system_descriptor m a.
Proof.
  intros Hmod HX. unfold system_descriptor. rewrite (segment_modifies X m m') by (done || (intros x Hx; apply HX; unfold in_range in *; lia)).
  rewrite (load_le_modifies _ X m m') by (done || (intros x Hx; apply HX; unfold in_range in *; lia)). done.
Qed.

Lemma set_entry_spec m a access flags :
  mapped m a 8 → 0 ≤ access < 256 → 0 ≤ flags < 16 →
  ∃ m', set_entry m a access flags = Ok m' ∧ modifies (in_range a 8) m m' ∧
    segment_descriptor m' a =
      Ok (mk_desc 0 0xfffff (access mod 16) (Z.testbit access 4) (access / 32 mod 4) (Z.testbit access 7)
            (Z.testbit flags 1) (Z.testbit flags 2) (Z.testbit flags 3)).
Proof.
  intros Hm Ha Hf. unfold set_entry. set (g := u8 (Z.lor (Z.shiftl flags 4) 0x0f)).
  assert (Hg : g = flags * 16 + 15).
  { unfold g. rewrite lor_shift_add by lia. apply u8_small. lia. }
  destruct (store_fields_spec m a 8 [(0, 2%nat, 0xffff); (2, 2%nat, 0); (4, 1%nat, 0); (5, 1%nat, access); (6, 1%nat, g); (7, 1%nat, 0)])
    as (m' & Hst & Hmod & _ & Hld); [reflexivity | done |].
  exists m'. split; [exact Hst|]. split; [exact Hmod|]. unfold segment_descriptor.
  pose proof (Hld 0 2%nat 0xffff ltac:(set_solver)) as H0. rewrite Z.add_0_r in H0. rewrite H0.
  rewrite (Hld 2 2%nat 0), (Hld 4 1%nat 0), (Hld 5 1%nat access), (Hld 6 1%nat g), (Hld 7 1%nat 0) by set_solver.
  cbn [mbind res_bind]. change (256 ^ Z.of_nat 1) with 256. change (256 ^ Z.of_nat 2) with 65536.
  rewrite !(Z.mod_small _ 256), !(Z.mod_small _ 65536) by lia. rewrite Hg.
  assert (Hbit : ∀ i, 0 ≤ i → Z.testbit (flags * 16 + 15) (i + 4) = Z.testbit flags i).
  { intros i Hi. rewrite <-Z.div_pow2_bits by lia. f_equal. dlia. }
  rewrite <-(Hbit 1), <-(Hbit 2), <-(Hbit 3) by lia. do 2 f_equal. dlia.
Qed.

Lemma set_tss_descriptor_spec m a base limit :
  mapped m a 16 → 0 ≤ base < 2 ^ 64 → 0 ≤ limit < 2 ^ 20 →
  ∃ m', set_tss_descriptor m a base limit = Ok m' ∧ modifies (in_range a 16) m m' ∧
    load_le 1 m' (a + 5) = Ok 0x89 ∧
    system_descriptor m' a = Ok (mk_desc base limit 9 false 0 true false false false).
Proof.
  intros Hm Hb Hl. unfold set_tss_descriptor.
  assert (Hmask : ∀ x k, 0 ≤ k → Z.land x (2 ^ k - 1) = x mod 2 ^ k).
  { intros x k Hk. rewrite <-Z.land_ones by done. by rewrite Z.ones_equiv. }
  change 0xffff with (2 ^ 16 - 1). change 0xff with (2 ^ 8 - 1). change 0x0f with (2 ^ 4 - 1).
  rewrite !Hmask, !Z.shiftr_div_pow2 by lia.
  destruct (store_fields_spec m a 16
    [(0, 2%nat, u16 (limit mod 2 ^ 16)); (2, 2%nat, u16 (base mod 2 ^ 16)); (4, 1%nat, u8 (base / 2 ^ 16 mod 2 ^ 8));
     (5, 1%nat, 0x89); (6, 1%nat, u8 (limit / 2 ^ 16 mod 2 ^ 4)); (7, 1%nat, u8 (base / 2 ^ 24 mod 2 ^ 8));
     (8, 4%nat, u32 (base / 2 ^ 32)); (12, 4%nat, 0)])
    as (m' & Hst & Hmod & _ & Hld); [reflexivity | done |].
  exists m'. split; [exact Hst|]. split; [exact Hmod|].
  pose proof (Hld 5 1%nat 0x89 ltac:(set_solver)) as H5. split; [exact H5|].
  unfold system_descriptor, segment_descriptor.
  pose proof (Hld 0 2%nat (u16 (limit mod 2 ^ 16)) ltac:(set_solver)) as H0. rewrite Z.add_0_r in H0. rewrite H0, H5.
  rewrite (Hld 2 2%nat (u16 (base mod 2 ^ 16))), (Hld 4 1%nat (u8 (base / 2 ^ 16 mod 2 ^ 8))),
    (Hld 6 1%nat (u8 (limit / 2 ^ 16 mod 2 ^ 4))), (Hld 7 1%nat (u8 (base / 2 ^ 24 mod 2 ^ 8))),
    (Hld 8 4%nat (u32 (base / 2 ^ 32))) by set_solver.
  cbn [mbind res_bind d_base d_limit d_type d_s d_dpl d_present d_long d_db d_gran].
  change (256 ^ Z.of_nat 1) with (2 ^ 8). change (256 ^ Z.of_nat 2) with (2 ^ 16). change (256 ^ Z.of_nat 4) with (2 ^ 32).
  unfold u8, u16, u32. rewrite !Z.mod_mod by lia.
  assert (Hg : limit / 2 ^ 16 mod 2 ^ 4 mod 2 ^ 8 = limit / 2 ^ 16) by dlia. rewrite Hg.
  assert (Hs : ∀ i, 4 ≤ i → Z.testbit (limit / 2 ^ 16) i = false) by (intros i Hi; apply (testbit_above _ 4); dlia).
  rewrite !Hs by lia. do 2 f_equal; dlia.
Qed.

(** What the processor finds after [gdt_init]. *)
Record gdt_loaded (gdt tss : Z) (m : mem) (c : seg_regs) : Prop := {
  gl_gdtr : gdtr_base c = gdt ∧ gdtr_limit c = sizeof_gdt - 1;
  gl_code : cs c = GDT_KERNEL_CODE;
  gl_data : ds c = GDT_KERNEL_DATA ∧ es c = GDT_KERNEL_DATA ∧ fs c = GDT_KERNEL_DATA ∧ gs c = GDT_KERNEL_DATA ∧
    ss c = GDT_KERNEL_DATA;
  gl_tr : tr c = GDT_TSS;
  gl_kernel_code : segment_descriptor m (gdt + GDT_KERNEL_CODE) = Ok (flat_code 0);
  gl_kernel_data : segment_descriptor m (gdt + GDT_KERNEL_DATA) = Ok (flat_data 0);
  gl_user_data : segment_descriptor m (gdt + GDT_USER_DATA) = Ok (flat_data 3);
  gl_user_code : segment_descriptor m (gdt + GDT_USER_CODE) = Ok (flat_code 3);
  gl_tss : system_descriptor m (gdt + GDT_TSS) = Ok (mk_desc tss (sizeof_tss - 1) 11 false 0 true false false false);
  gl_null : filled m gdt 8 0;
  gl_iopb : load_le 2 m (tss + tss_iopb_offset) = Ok sizeof_tss;
  gl_stacks : filled m tss tss_iopb_offset 0;
}.

(** [ltr] on an available TSS. *)
Lemma ltr_spec m c base limit :
  GDT_TSS + 15 ≤ gdtr_limit c → mapped m (gdtr_base c + GDT_TSS) 16 →
  load_le 1 m (gdtr_base c + GDT_TSS + 5) = Ok 0x89 →
  system_descriptor m (gdtr_base c + GDT_TSS) = Ok (mk_desc base limit 9 false 0 true false false false) →
  ∃ m', ltr m c GDT_TSS = Ok (m', mk_seg (gdtr_limit c) (gdtr_base c) (cs c) (ds c) (es c) (fs c) (gs c) (ss c) GDT_TSS) ∧
    modifies (in_range (gdtr_base c + GDT_TSS) 16) m m' ∧
    system_descriptor m' (gdtr_base c + GDT_TSS) = Ok (mk_desc base limit 11 false 0 true false false false).
Proof.
  intros Hlim Hm Hacc Hsys. unfold ltr. rewrite (proj2 (Z.leb_le _ _)) by done. cbn [negb].
  rewrite Hacc. cbn [mbind res_bind]. change (negb (Z.land 0x89 0x9f =? 0x89)) with false. cbn iota.
  set (a := gdtr_base c + GDT_TSS) in *. change (Z.lor 0x89 2) with 0x8b.
  destruct (store_le_spec 1 m (a + 5) 0x8b) as (m' & -> & Hmod & Hld); [eapply mapped_sub; [exact Hm|lia..]|].
  change (Z.of_nat 1) with 1 in Hmod. cbn [mbind res_bind]. exists m'. split; [done|]. split.
  { eapply modifies_mono; [|exact Hmod]. unfold in_range. lia. }
  revert Hsys. unfold system_descriptor, segment_descriptor. rewrite Hacc, Hld.
  rewrite !(load_le_modifies _ _ m m' _ Hmod) by (unfold in_range; lia).
  change (0x8b mod 256 ^ 1) with 0x8b.
  destruct (load_le 2 m a) as [l| | |]; [|done..]. cbn [mbind res_bind].
  destruct (load_le 2 m (a + 2)) as [b| | |]; [|done..]. cbn [mbind res_bind].
  destruct (load_le 1 m (a + 4)) as [bm| | |]; [|done..]. cbn [mbind res_bind].
  destruct (load_le 1 m (a + 6)) as [g| | |]; [|done..]. cbn [mbind res_bind].
  destruct (load_le 1 m (a + 7)) as [bh| | |]; [|done..]. cbn [mbind res_bind].
  destruct (load_le 4 m (a + 8)) as [u| | |]; [|done..]. cbn [mbind res_bind].
  cbn [d_base d_limit d_type d_s d_dpl d_present d_long d_db d_gran].
  intros Heq. injection Heq as H1 H2 H3 H4 H5. rewrite H1, H2, H3, H4, H5. reflexivity.
Qed.

(** The four entries, in any continuation. *)
Lemma entries_spec m g :
  mapped m (g + 8) 32 →
  ∃ m', (∀ A (k : mem → res A),
      (m ← set_entry m (g + 8) 0x9a 0xa; m ← set_entry m (g + 16) 0x92 0xc;
       m ← set_entry m (g + 24) 0xf2 0xc; m ← set_entry m (g + 32) 0xfa 0xa; k m) = k m') ∧
    modifies (in_range (g + 8) 32) m m' ∧
    segment_descriptor m' (g + 8) = Ok (flat_code 0) ∧ segment_descriptor m' (g + 16) = Ok (flat_data 0) ∧
    segment_descriptor m' (g + 24) = Ok (flat_data 3) ∧ segment_descriptor m' (g + 32) = Ok (flat_code 3).
Proof.
  intros Hm.
  assert (Hent : ∀ m0 off access flags, mapped m0 (g + 8) 32 → 8 ≤ off ≤ 32 → 0 ≤ access < 256 → 0 ≤ flags < 16 →
    ∃ m1, set_entry m0 (g + off) access flags = Ok m1 ∧ modifies (in_range (g + off) 8) m0 m1 ∧ mapped m1 (g + 8) 32 ∧
      modifies (in_range (g + 8) 32) m0 m1 ∧ segment_descriptor m1 (g + off) =
      Ok (mk_desc 0 0xfffff (access mod 16) (Z.testbit access 4) (access / 32 mod 4) (Z.testbit access 7)
            (Z.testbit flags 1) (Z.testbit flags 2) (Z.testbit flags 3))).
  { intros m0 off access flags Hm0 Hoff Ha Hf. destruct (set_entry_spec m0 (g + off) access flags) as (m1 & He & D & S);
      [eapply mapped_sub; [exact Hm0|lia|lia]|done|done|]. exists m1. split_and!; eauto with mem.
    eapply modifies_mono; [|exact D]. unfold in_range. lia. }
  destruct (Hent m 8 0x9a 0xa Hm) as (m1 & E1 & D1 & M1 & T1 & S1); [lia..|].
  destruct (Hent m1 16 0x92 0xc M1) as (m2 & E2 & D2 & M2 & T2 & S2); [lia..|].
  destruct (Hent m2 24 0xf2 0xc M2) as (m3 & E3 & D3 & M3 & T3 & S3); [lia..|].
  destruct (Hent m3 32 0xfa 0xa M3) as (m4 & E4 & D4 & M4 & T4 & S4); [lia..|].
  exists m4. split; [intros A k; rewrite E1; cbn [mbind res_bind]; rewrite E2; cbn [mbind res_bind];
    rewrite E3; cbn [mbind res_bind]; rewrite E4; reflexivity|].
  split; [etransitivity; [exact T1|]; etransitivity; [exact T2|]; etransitivity; [exact T3 | exact T4]|].
  rewrite !(segment_modifies _ m3 m4 _ D4), !(segment_modifies _ m2 m3 _ D3), (segment_modifies _ m1 m2 _ D2)
    by (unfold in_range; lia).
  split_and!; [exact S1 | exact S2 | exact S3 | exact S4].
Qed.

(** The whole of [gdt_init]. *)
Lemma gdt_init_spec gdt tss m c :
  0 ≤ gdt → 0 ≤ tss < 2 ^ 64 → mapped m gdt sizeof_gdt → mapped m tss sizeof_tss →
  gdt + sizeof_gdt ≤ tss ∨ tss + sizeof_tss ≤ gdt →
  ∃ m' c', gdt_init gdt tss m c = Ok (m', c') ∧ gdt_loaded gdt tss m' c' ∧
    modifies (λ x, in_range gdt sizeof_gdt x ∨ in_range tss sizeof_tss x) m m'.
Proof.
  intros Hg Ht Hmg Hmt Hdis. unfold gdt_init, sizeof_gdt, sizeof_tss, tss_iopb_offset in *.
  destruct (memset_spec m gdt 0 56) as (m1 & -> & D1 & F1); [lia|done|]. cbn [mbind res_bind].
  destruct (memset_spec m1 tss 0 104) as (m2 & -> & D2 & F2); [lia| by eapply modifies_mapped|]. cbn [mbind res_bind].
  set (X := λ x, in_range gdt 56 x ∨ in_range tss 104 x).
  assert (E2 : modifies X m m2).
  { etransitivity; (eapply modifies_mono; [|eassumption]); unfold X; auto. }
  assert (Hsub : ∀ mi off n, mapped mi gdt 56 → 0 ≤ off → off + n ≤ 56 → mapped mi (gdt + off) n)
    by (intros mi off n Hi H0 Hn; eapply mapped_sub; [exact Hi|lia|lia]).
  destruct (entries_spec m2 gdt) as (m6 & He & D6 & S3 & S4 & S5 & S6); [apply Hsub; eauto with mem; lia|].
  rewrite He. clear He.
  destruct (store_le_spec 2 m6 (tss + 102) 104) as (m7 & -> & D7 & S7); change (Z.of_nat 2) with 2 in *;
    [eapply mapped_sub; [exact (modifies_mapped _ _ _ _ _ D6 (modifies_mapped _ _ _ _ _ E2 Hmt))|lia|lia]|]. cbn [mbind res_bind].
  assert (E7 : modifies X m m7).
  { etransitivity; [exact E2|]. etransitivity; (eapply modifies_mono; [|eassumption]); unfold X, in_range; lia. }
  destruct (set_tss_descriptor_spec m7 (gdt + 40) tss (104 - 1)) as (m8 & -> & D8 & A8 & S8);
    [apply Hsub; eauto with mem; lia|lia..|]. cbn [mbind res_bind].
  destruct (ltr_spec m8 (gdt_flush c (56 - 1) gdt GDT_KERNEL_CODE GDT_KERNEL_DATA) tss (104 - 1)) as (m9 & Hl & D9 & S9);
    cbn [gdt_flush gdtr_base gdtr_limit]; unfold GDT_TSS; [lia | apply Hsub; eauto with mem; lia | done | done |].
  unfold GDT_TSS in Hl, D9, S9. cbn [gdt_flush gdtr_base gdtr_limit cs ds es fs gs ss tr] in Hl, D9, S9.
  assert (D89 : modifies (in_range (gdt + 40) 16) m7 m9) by (etransitivity; [exact D8 | exact D9]).
  assert (Hzero : ∀ x, (in_range gdt 8 x ∨ in_range tss 102 x) → m9 !! x = Some 0).
  { intros x Hx. unfold in_range in Hx.
    rewrite (modifies_lookup _ _ _ x D89), (modifies_lookup _ _ _ x D7), (modifies_lookup _ _ _ x D6) by (unfold in_range; lia).
    destruct (decide (in_range tss 104 x)) as [Hin|Hout]; [by apply F2|].
    rewrite (modifies_lookup _ _ _ x D2) by done. apply F1. unfold in_range in *. lia. }
  assert (Hseg : ∀ off, 8 ≤ off ≤ 32 → segment_descriptor m9 (gdt + off) = segment_descriptor m6 (gdt + off)).
  { intros off Hoff. rewrite (segment_modifies _ m7 m9 _ D89), (segment_modifies _ m6 m7 _ D7) by (unfold in_range; lia). done. }
  eexists m9, _. split; [exact Hl|]. split.
  - split; cbn [gdtr_base gdtr_limit cs ds es fs gs ss tr]; unfold GDT_KERNEL_CODE, GDT_KERNEL_DATA, GDT_USER_CODE, GDT_USER_DATA, GDT_TSS,
      sizeof_tss, sizeof_gdt, tss_iopb_offset; rewrite ?Hseg by lia; try done.
    + intros x Hx. apply Hzero. by left.
    + rewrite (load_le_modifies _ _ m7 m9 _ D89) by (unfold in_range; lia). exact S7.
    + intros x Hx. apply Hzero. by right.
  - etransitivity; [exact E7|]. eapply modifies_mono; [|exact D89]. unfold X, in_range. lia.
Qed.

(** ** Properties *)

(** On accessible, disjoint table objects [gdt_init] returns without a
    fault, writes nothing but the two tables, and leaves the processor with
    exactly the flat ring-0 and ring-3 segments of the selectors of gdt.h, the
    kernel's in the segment registers, a null descriptor first, and in the
    task register a busy TSS whose descriptor has the address and the size of
    the object [tss], all of whose stacks are null and which has no I/O
    bitmap. *)
Theorem gdt_init_correct gdt tss m c :
  0 ≤ gdt → 0 ≤ tss < 2 ^ 64 → mapped m gdt sizeof_gdt → mapped m tss sizeof_tss →
  gdt + sizeof_gdt ≤ tss ∨ tss + sizeof_tss ≤ gdt →
  ∃ m' c', gdt_init gdt tss m c = Ok (m', c') ∧ gdt_loaded gdt tss m' c' ∧
    modifies (λ x, in_range gdt sizeof_gdt x ∨ in_range tss sizeof_tss x) m m'.
Proof. apply gdt_init_spec. Qed.

(** [gdt_set_kernel_stack] writes the stack the processor loads on entry
    from ring 3, and nothing else: the segments and the task register's
    descriptor stay as [gdt_init] left them. *)
Theorem gdt_set_kernel_stack_correct gdt tss m c rsp0 :
  gdt_loaded gdt tss m c → mapped m tss sizeof_tss → 0 ≤ rsp0 < 2 ^ 64 →
  gdt + sizeof_gdt ≤ tss ∨ tss + sizeof_tss ≤ gdt →
  ∃ m', gdt_set_kernel_stack tss m rsp0 = Ok m' ∧ load64 m' (tss + tss_rsp0) = Ok rsp0 ∧
    modifies (in_range (tss + tss_rsp0) 8) m m' ∧
    ∀ sel, sel ∈ [GDT_KERNEL_CODE; GDT_KERNEL_DATA; GDT_USER_DATA; GDT_USER_CODE] →
      segment_descriptor m' (gdt + sel) = segment_descriptor m (gdt + sel) ∧
      system_descriptor m' (gdt + GDT_TSS) = system_descriptor m (gdt + GDT_TSS).
Proof.
  intros Hl Hm Hr Hdis. unfold gdt_set_kernel_stack, sizeof_gdt, sizeof_tss, tss_rsp0 in *.
  destruct (store64_spec m (tss + 4) rsp0) as (m' & Hst & D & Hld); [eapply mapped_sub; [exact Hm|lia|lia]|done|].
  exists m'. split_and!; [done..|]. intros sel Hsel.
  assert (8 ≤ sel ≤ 32) by (unfold GDT_KERNEL_CODE, GDT_KERNEL_DATA, GDT_USER_DATA, GDT_USER_CODE in Hsel; set_solver by lia).
  rewrite (segment_modifies _ m m' _ D), (system_modifies _ m m' _ D) by (unfold GDT_TSS, in_range; lia). done.
Qed.

(** ** Witnesses *)

Definition ex_gdt_mem : mem := zeros 0x1000 256.
Definition ex_seg : seg_regs := mk_seg 0 0 0 0 0 0 0 0 0.

Lemma ex_gdt_mapped a n : 0x1000 ≤ a → a + n ≤ 0x1100 → mapped ex_gdt_mem a n.
Proof. intros H1 H2. eapply mapped_sub; [apply (zeros_mapped 0x1000 256)|lia|lia]. Qed.

Lemma gdt_init_correct_witness :
  ∃ m' c', gdt_init 0x1000 0x1040 ex_gdt_mem ex_seg = Ok (m', c') ∧
    system_descriptor m' 0x1028 = Ok (mk_desc 0x1040 103 11 false 0 true false false false).
Proof.
  destruct (gdt_init_correct 0x1000 0x1040 ex_gdt_mem ex_seg) as (m' & c' & Hi & Hl & _);
    [lia | lia | apply ex_gdt_mapped; unfold sizeof_gdt; lia | apply ex_gdt_mapped; unfold sizeof_tss; lia
    | unfold sizeof_gdt; lia |].
  exists m', c'. split; [exact Hi | exact (gl_tss _ _ _ _ Hl)].
Defined.

Lemma gdt_set_kernel_stack_correct_witness :
  ∃ m1 c1 m2, gdt_init 0x1000 0x1040 ex_gdt_mem ex_seg = Ok (m1, c1) ∧
    gdt_set_kernel_stack 0x1040 m1 0x9000 = Ok m2 ∧ load64 m2 0x1044 = Ok 0x9000.
Proof.
  destruct (gdt_init_spec 0x1000 0x1040 ex_gdt_mem ex_seg) as (m1 & c1 & Hi & Hl & Hmod);
    [lia | lia | apply ex_gdt_mapped; unfold sizeof_gdt; lia | apply ex_gdt_mapped; unfold sizeof_tss; lia
    | unfold sizeof_gdt; lia |].
  destruct (gdt_set_kernel_stack_correct 0x1000 0x1040 m1 c1 0x9000 Hl) as (m2 & Hs & Hld & _ & _).
  - eapply modifies_mapped; [exact Hmod|]. apply ex_gdt_mapped; unfold sizeof_tss; lia.
  - lia.
  - left. unfold sizeof_gdt. lia.
  - exists m1, c1, m2. split; [exact Hi|]. split; [exact Hs | exact Hld].
Defined.
