(* ===== verification/Idt.v ===== *)
(** * Interrupt descriptor table (kernel/arch/x86_64/cpu/idt.c)

    The table is 4096 bytes of memory at the address of the static object
    [idt]; the entry points of isr_stubs.S are addresses. The specification is
    the processor's reading of a gate (SDM Vol. 3A, 6.14.1). *)

From S2P Require Import Prelude Word Mem CString Gdt.

(** ** Operations *)

Definition sizeof_idt_entry : Z := 16.
Definition sizeof_idt : Z := 4096.

Section idt.
(** The table's address and the stubs' addresses. *)
Context (idt : Z) (isr_stub irq_stub : Z → Z) (isr_stub_spurious : Z).

Definition isr_stubs : list Z := isr_stub <$> seqZ 0 32.
Definition irq_stubs : list Z := irq_stub <$> seqZ 0 16.

Definition set_gate (m : mem) (vector handler : Z) : res mem :=
  let addr := handler in
  store_fields m (idt + sizeof_idt_entry * vector)
    [(0, 2%nat, u16 (Z.land addr 0xffff)); (2, 2%nat, GDT_KERNEL_CODE); (4, 1%nat, 0); (5, 1%nat, 0x8e);
     (6, 2%nat, u16 (Z.land (Z.shiftr addr 16) 0xffff)); (8, 4%nat, u32 (Z.shiftr addr 32)); (12, 4%nat, 0)].

(** The result is the memory and the operand of [lidt]: limit and base. *)
Definition idt_init (m : mem) : res (mem * (Z * Z)) :=
  '(_, m) ← memset m idt 0 sizeof_idt;
  m ← for_range 0 (Z.of_nat (length isr_stubs)) (λ i m,
        h ← deref (isr_stubs !! Z.to_nat i); set_gate m (u8 i) h) m;
  m ← for_range 0 (Z.of_nat (length irq_stubs)) (λ i m,
        h ← deref (irq_stubs !! Z.to_nat i); set_gate m (u8 (32 + i)) h) m;
  m ← set_gate m 0xff isr_stub_spurious;
  Ok (m, (sizeof_idt - 1, idt)).
End idt.

(** ** The processor's reading of a gate *)

Record gate := mk_gate {
  g_offset : Z; g_selector : Z; g_ist : Z; g_type : Z; g_dpl : Z; g_present : bool;
}.

Definition gate_descriptor (m : mem) (a : Z) : res gate :=
  low ← load_le 2 m a;
  selector ← load_le 2 m (a + 2);
  ist ← load_le 1 m (a + 4);
  attr ← load_le 1 m (a + 5);
  mid ← load_le 2 m (a + 6);
  high ← load_le 4 m (a + 8);
  Ok (mk_gate (low + mid * 2 ^ 16 + high * 2 ^ 32) selector (ist mod 8) (attr mod 16) (attr / 32 mod 4)
        (Z.testbit attr 7)).

(** A present 64-bit interrupt gate for ring 0, and an entry of zeros. *)
Definition interrupt_gate (h : Z) : gate := mk_gate h GDT_KERNEL_CODE 0 14 0 true.
Definition no_gate : gate := mk_gate 0 0 0 0 0 false.

(** ** Lemmas *)

Lemma gate_modifies X m m' a :
  modifies X m m' → (∀ x, in_range a 16 x → ¬ X x) → gate_descriptor m' a = gate_descriptor m a.
Proof.
  intros Hmod HX. unfold gate_descriptor.
  rewrite !(load_le_modifies _ X m m') by (done || (intros x Hx; apply HX; unfold in_range in *; lia)). done.
Qed.

Lemma gate_zero m a : filled m a 16 0 → gate_descriptor m a = Ok no_gate.
Proof.
  intros Hf. unfold gate_descriptor.
  rewrite !load_le_zero by (intros x Hx; apply Hf; unfold in_range in *; lia). reflexivity.
Qed.

Lemma set_gate_spec idt m v h :
  mapped m (idt + 16 * v) 16 → 0 ≤ h < 2 ^ 64 →
  ∃ m', set_gate idt m v h = Ok m' ∧ modifies (in_range (idt + 16 * v) 16) m m' ∧
    gate_descriptor m' (idt + 16 * v) = Ok (interrupt_gate h).
Proof.
  intros Hm Hh. unfold set_gate, sizeof_idt_entry.
  change 0xffff with (Z.ones 16). rewrite !Z.land_ones, !Z.shiftr_div_pow2 by lia.
  destruct (store_fields_spec m (idt + 16 * v) 16
    [(0, 2%nat, u16 (h mod 2 ^ 16)); (2, 2%nat, GDT_KERNEL_CODE); (4, 1%nat, 0); (5, 1%nat, 0x8e);
     (6, 2%nat, u16 (h / 2 ^ 16 mod 2 ^ 16)); (8, 4%nat, u32 (h / 2 ^ 32)); (12, 4%nat, 0)])
    as (m' & Hst & Hmod & _ & Hld); [reflexivity | done |].
  exists m'. split; [exact Hst|]. split; [exact Hmod|]. unfold gate_descriptor.
  pose proof (Hld 0 2%nat (u16 (h mod 2 ^ 16)) ltac:(set_solver)) as H0. rewrite Z.add_0_r in H0. rewrite H0.
  rewrite (Hld 2 2%nat GDT_KERNEL_CODE), (Hld 4 1%nat 0), (Hld 5 1%nat 0x8e),
    (Hld 6 2%nat (u16 (h / 2 ^ 16 mod 2 ^ 16))), (Hld 8 4%nat (u32 (h / 2 ^ 32))) by set_solver.
  cbn [mbind res_bind]. unfold interrupt_gate.
  change (256 ^ Z.of_nat 2) with (2 ^ 16). change (256 ^ Z.of_nat 4) with (2 ^ 32). unfold u16, u32.
  rewrite !Z.mod_mod by lia. do 2 f_equal; dlia.
Qed.

Section init.
Context (idt : Z) (isr_stub irq_stub : Z → Z) (isr_stub_spurious : Z).

(** The entry point of each vector. *)
Definition vector_stub (v : Z) : option Z :=
  if v <? 32 then Some (isr_stub v)
  else if v <? 48 then Some (irq_stub (v - 32))
  else if v =? 255 then Some isr_stub_spurious
  else None.

Definition expected_gate (v : Z) : gate :=
  match vector_stub v with Some h => interrupt_gate h | None => no_gate end.

Context (Hstub : ∀ v h, 0 ≤ v < 256 → vector_stub v = Some h → 0 ≤ h < 2 ^ 64).

(** The gates of the set [A] of vectors are set, the others are empty. *)
Definition gates_set (m0 m : mem) (A : Z → bool) : Prop :=
  modifies (in_range idt 4096) m0 m ∧
  ∀ v, 0 ≤ v < 256 → gate_descriptor m (idt + 16 * v) = Ok (if A v then expected_gate v else no_gate).

Lemma gates_set_step m0 m A v h :
  mapped m0 idt 4096 → gates_set m0 m A → 0 ≤ v < 256 → vector_stub v = Some h →
  ∃ m', set_gate idt m v h = Ok m' ∧ gates_set m0 m' (λ w, A w || (w =? v)).
Proof using Hstub.
  intros Hm [Hmod Hg] Hv Hh.
  destruct (set_gate_spec idt m v h) as (m' & Hs & Hmod' & Hgate);
    [eapply mapped_sub; [by eapply modifies_mapped|lia|lia] | by apply (Hstub v) |].
  exists m'. split; [exact Hs|]. split.
  - etransitivity; [exact Hmod|]. eapply modifies_mono; [|exact Hmod']. unfold in_range. lia.
  - intros w Hw. destruct (Z.eqb_spec w v) as [->|Hne].
    + rewrite orb_true_r, Hgate. unfold expected_gate. by rewrite Hh.
    + rewrite orb_false_r, (gate_modifies _ m m' _ Hmod') by (unfold in_range; lia). by apply Hg.
Qed.

Lemma gates_set_ext m0 m A B :
  (∀ v, 0 ≤ v < 256 → A v = B v) → gates_set m0 m A → gates_set m0 m B.
Proof using. intros HAB [Hmod Hg]. split; [done|]. intros v Hv. rewrite <-HAB by done. by apply Hg. Qed.

(** The loop over a table of [n] stubs for the vectors from [base] on. *)
Lemma gates_loop m0 m base n (stub : Z → Z) :
  mapped m0 idt 4096 → 0 ≤ base → 0 ≤ n → base + n ≤ 256 →
  (∀ i, 0 ≤ i < n → vector_stub (base + i) = Some (stub i)) →
  gates_set m0 m (λ v, v <? base) →
  ∃ m', for_range 0 n (λ i m, h ← deref ((stub <$> seqZ 0 n) !! Z.to_nat i); set_gate idt m (u8 (base + i)) h) m = Ok m' ∧
    gates_set m0 m' (λ v, v <? base + n).
Proof using Hstub.
  intros Hm Hb Hn Hbn Hst G.
  apply (for_range_spec (λ i t, gates_set m0 t (λ v, v <? base + i))); [lia | by rewrite Z.add_0_r |].
  intros i t Hi Ht. rewrite list_lookup_fmap, lookup_seqZ_lt by lia. cbn [deref fmap option_fmap option_map mbind res_bind].
  rewrite u8_small by lia. replace (0 + Z.of_nat (Z.to_nat i)) with i by lia.
  destruct (gates_set_step m0 t _ (base + i) (stub i) Hm Ht) as (t' & Hs & Ht'); [lia| by apply Hst|].
  exists t'. split; [exact Hs|]. eapply gates_set_ext, Ht'. intros v Hv. simpl.
  destruct (Z.ltb_spec v (base + i)), (Z.eqb_spec v (base + i)), (Z.ltb_spec v (base + (i + 1))); done || lia.
Qed.

Lemma idt_init_spec m :
  mapped m idt sizeof_idt →
  ∃ m', idt_init idt isr_stub irq_stub isr_stub_spurious m = Ok (m', (4095, idt)) ∧
    modifies (in_range idt sizeof_idt) m m' ∧
    ∀ v, 0 ≤ v < 256 → gate_descriptor m' (idt + 16 * v) = Ok (expected_gate v).
Proof using Hstub.
  intros Hm. unfold idt_init, sizeof_idt in *.
  destruct (memset_spec m idt 0 4096) as (m1 & -> & D1 & F1); [lia|done|]. cbn [mbind res_bind].
  assert (G1 : gates_set m m1 (λ v, v <? 0)).
  { split; [exact D1|]. intros v Hv. rewrite (proj2 (Z.ltb_ge v 0)) by lia. apply gate_zero.
    intros x Hx. apply F1. unfold in_range in *. lia. }
  destruct (gates_loop m m1 0 32 isr_stub Hm) as (m2 & H2 & G2); [lia..| |exact G1|].
  { intros i Hi. unfold vector_stub. by rewrite (proj2 (Z.ltb_lt (0 + i) 32)) by lia. }
  destruct (gates_loop m m2 32 16 irq_stub Hm) as (m3 & H3 & G3); [lia..| |exact G2|].
  { intros i Hi. unfold vector_stub. rewrite (proj2 (Z.ltb_ge _ 32)), (proj2 (Z.ltb_lt _ 48)) by lia. do 2 f_equal. lia. }
  change (Z.of_nat (length (isr_stubs isr_stub))) with 32. change (Z.of_nat (length (irq_stubs irq_stub))) with 16.
  unfold isr_stubs, irq_stubs. match type of H2 with ?l = _ => match goal with |- context [for_range 0 32 ?b m1] => change (for_range 0 32 b m1) with l end end. rewrite H2. cbn [mbind res_bind]. rewrite H3. cbn [mbind res_bind].
  destruct (gates_set_step m m3 _ 0xff isr_stub_spurious Hm G3) as (m4 & -> & [D4 G4]); [lia|done|].
  cbn [mbind res_bind]. exists m4. split; [done|]. split; [exact D4|]. intros v Hv. rewrite G4 by done.
  f_equal. unfold expected_gate, vector_stub.
  destruct (Z.ltb_spec v (32 + 16)), (Z.eqb_spec v 255), (Z.ltb_spec v 32), (Z.ltb_spec v 48); done || lia.
Qed.
End init.

(** ** Properties *)

(** [idt_init] fills the table, and nothing else, so that the processor
    finds at each exception vector, at each of the sixteen interrupt lines
    from vector 32 on, and at the spurious vector 255 a present ring-0
    interrupt gate without a stack switch to that vector's own stub in the
    kernel's code segment, and no gate at any other vector. *)
Theorem idt_init_correct idt isr_stub irq_stub isr_stub_spurious m :
  (∀ v h, 0 ≤ v < 256 → vector_stub isr_stub irq_stub isr_stub_spurious v = Some h → 0 ≤ h < 2 ^ 64) →
  mapped m idt sizeof_idt →
  ∃ m', idt_init idt isr_stub irq_stub isr_stub_spurious m = Ok (m', (sizeof_idt - 1, idt)) ∧
    modifies (in_range idt sizeof_idt) m m' ∧
    (∀ v, 0 ≤ v < 32 → gate_descriptor m' (idt + 16 * v) = Ok (interrupt_gate (isr_stub v))) ∧
    (∀ i, 0 ≤ i < 16 → gate_descriptor m' (idt + 16 * (32 + i)) = Ok (interrupt_gate (irq_stub i))) ∧
    gate_descriptor m' (idt + 16 * 255) = Ok (interrupt_gate isr_stub_spurious) ∧
    (∀ v, 48 ≤ v < 255 → gate_descriptor m' (idt + 16 * v) = Ok no_gate).
Proof.
  intros Hs Hm. destruct (idt_init_spec idt isr_stub irq_stub isr_stub_spurious Hs m Hm) as (m' & Hi & Hmod & Hg).
  exists m'. split; [exact Hi|]. split; [exact Hmod|].
  split_and!; intros; rewrite Hg by lia; f_equal; unfold expected_gate, vector_stub.
  - by rewrite (proj2 (Z.ltb_lt _ 32)) by lia.
  - rewrite (proj2 (Z.ltb_ge _ 32)), (proj2 (Z.ltb_lt _ 48)) by lia. do 2 f_equal. lia.
  - rewrite (proj2 (Z.ltb_ge _ 32)), (proj2 (Z.ltb_ge _ 48)), (proj2 (Z.eqb_neq _ 255)) by lia. done.
Qed.

(** ** Witnesses *)

Lemma idt_init_correct_witness :
  ∃ m', idt_init 0x10000 (λ v, 0x2000 + 16 * v) (λ i, 0x3000 + 16 * i) 0x4000 (zeros 0x10000 4096) =
      Ok (m', (4095, 0x10000)) ∧
    gate_descriptor m' (0x10000 + 16 * 14) = Ok (interrupt_gate 0x20e0) ∧
    gate_descriptor m' (0x10000 + 16 * 33) = Ok (interrupt_gate 0x3010).
Proof.
  destruct (idt_init_correct 0x10000 (λ v, 0x2000 + 16 * v) (λ i, 0x3000 + 16 * i) 0x4000 (zeros 0x10000 4096))
    as (m' & Hi & _ & He & Hq & _ & _).
  - unfold vector_stub. intros v h Hv. destruct (Z.ltb_spec v 32), (Z.ltb_spec v 48), (Z.eqb_spec v 255); intros [= <-]; lia.
  - exact (zeros_mapped 0x10000 4096).
  - exists m'. split; [exact Hi|]. split; [exact (He 14 ltac:(lia)) | exact (Hq 1 ltac:(lia))].
Defined.
