(* ===== verification/IsrStubs.v ===== *)
(** * Interrupt entry and exit (kernel/arch/x86_64/cpu/isr_stubs.S, isr.h)

    The stubs run instruction by instruction on the interrupted registers and
    the stack memory; the processor's own part of an interrupt and [iretq] are
    those of 64-bit mode (SDM Vol. 3A, 6.14). The C handler is an argument. *)

From S2P Require Import Prelude Word Mem Stack Isr.

(** ** Registers *)

Record gprs := mk_gprs {
  g_rax : Z; g_rbx : Z; g_rcx : Z; g_rdx : Z; g_rsi : Z; g_rdi : Z; g_rbp : Z;
  g_r8 : Z; g_r9 : Z; g_r10 : Z; g_r11 : Z; g_r12 : Z; g_r13 : Z; g_r14 : Z; g_r15 : Z;
}.

Record cpu := mk_cpu {
  gp : gprs;
  c_rip : Z; c_cs : Z; c_rflags : Z; c_rsp : Z; c_ss : Z;
}.

(** ** The processor *)

(** Delivery of an interrupt: the stack is the kernel's for an interrupt from
    ring 3 and is aligned to 16 bytes; the stack segment, the stack pointer,
    the flags, the code segment, the instruction pointer and, for some
    exceptions, an error code are pushed. The result is the stack pointer. *)
Definition deliver (m : mem) (c : cpu) (rsp0 : Z) (err : option Z) : res (mem * Z) :=
  let sp := (if Z.land (c_cs c) 3 =? 3 then rsp0 else c_rsp c) / 16 * 16 in
  push_all m sp ([c_ss c; c_rsp c; c_rflags c; c_cs c; c_rip c] ++ option_list err).

Definition iretq (m : mem) (sp : Z) (g : gprs) : res cpu :=
  '(l, _) ← pop_all 5 m sp;
  match l with
  | [rip; cs; rflags; rsp; ss] => Ok (mk_cpu g rip cs rflags rsp ss)
  | _ => UB
  end.

(** The exceptions that push an error code. *)
Definition pushes_error_code (v : Z) : bool :=
  bool_decide (v ∈ [8; 10; 11; 12; 13; 14; 17; 21; 29; 30]).

(** ** The stubs *)

(** The three macros, and the stub of each line of the file. *)
Inductive stub : Set :=
  | isr_no_err (vec : Z)
  | isr_err (vec : Z)
  | irq (vec : Z).

Definition stubs : list stub :=
  [isr_no_err 0; isr_no_err 1; isr_no_err 2; isr_no_err 3; isr_no_err 4; isr_no_err 5; isr_no_err 6; isr_no_err 7;
   isr_err 8; isr_no_err 9; isr_err 10; isr_err 11; isr_err 12; isr_err 13; isr_err 14; isr_no_err 15;
   isr_no_err 16; isr_err 17; isr_no_err 18; isr_no_err 19; isr_no_err 20; isr_err 21; isr_no_err 22; isr_no_err 23;
   isr_no_err 24; isr_no_err 25; isr_no_err 26; isr_no_err 27; isr_no_err 28; isr_err 29; isr_err 30; isr_no_err 31;
   irq 0; irq 1; irq 2; irq 3; irq 4; irq 5; irq 6; irq 7; irq 8; irq 9; irq 10; irq 11; irq 12; irq 13; irq 14; irq 15].

Definition run_stub (m : mem) (sp : Z) (s : stub) : res (mem * Z) :=
  match s with
  | isr_no_err vec => push_all m sp [0; vec]
  | isr_err vec => push_all m sp [vec]
  | irq vec => push_all m sp [0; 32 + vec]
  end.

(** The registers in the order the common stub pushes them, and popped. *)
Definition pushed (g : gprs) : list Z :=
  [g_rax g; g_rbx g; g_rcx g; g_rdx g; g_rsi g; g_rdi g; g_rbp g; g_r8 g; g_r9 g; g_r10 g; g_r11 g; g_r12 g;
   g_r13 g; g_r14 g; g_r15 g].

Definition popped (l : list Z) : option gprs :=
  match l with
  | [r15; r14; r13; r12; r11; r10; r9; r8; rbp; rdi; rsi; rdx; rcx; rbx; rax] =>
      Some (mk_gprs rax rbx rcx rdx rsi rdi rbp r8 r9 r10 r11 r12 r13 r14 r15)
  | _ => None
  end.

Section stub.
(** [isr_dispatch], called with the address of the frame; [ra] is the address
    after the call. Like every C function it returns with the stack pointer
    it was entered with and may leave any values in the registers that are
    not the caller's: the stub does not look at any of them. *)
Context (dispatch : mem → Z → res mem) (ra : Z).

Definition isr_common_stub (m : mem) (sp : Z) (g : gprs) : res (mem * cpu) :=
  '(m, sp) ← push_all m sp (pushed g);
  let frame := sp in
  '(m, sp) ← push m sp ra;
  m ← dispatch m frame;
  let sp := u64 (sp + 8) in
  '(l, sp) ← pop_all 15 m sp;
  g ← deref (popped l);
  c ← iretq m (u64 (sp + 16)) g;
  Ok (m, c).

(** An interrupt from start to end. *)
Definition interrupt (m : mem) (c : cpu) (rsp0 : Z) (err : option Z) (s : stub) : res (mem * cpu) :=
  '(m, sp) ← deliver m c rsp0 err;
  '(m, sp) ← run_stub m sp s;
  isr_common_stub m sp (gp c).
End stub.

(** The C view of the frame: the members of [struct interrupt_frame] in order. *)
Definition read_frame (m : mem) (p : Z) : res interrupt_frame :=
  r15 ← load64 m p; r14 ← load64 m (p + 8); r13 ← load64 m (p + 16); r12 ← load64 m (p + 24);
  r11 ← load64 m (p + 32); r10 ← load64 m (p + 40); r9 ← load64 m (p + 48); r8 ← load64 m (p + 56);
  rbp ← load64 m (p + 64); rdi ← load64 m (p + 72); rsi ← load64 m (p + 80); rdx ← load64 m (p + 88);
  rcx ← load64 m (p + 96); rbx ← load64 m (p + 104); rax ← load64 m (p + 112);
  vector ← load64 m (p + 120); error_code ← load64 m (p + 128);
  rip ← load64 m (p + 136); cs ← load64 m (p + 144); rflags ← load64 m (p + 152);
  Ok (mk_frame r15 r14 r13 r12 r11 r10 r9 r8 rbp rdi rsi rdx rcx rbx rax vector error_code rip cs rflags).

(** ** Lemmas *)

(** What the stub of vector [v] pushes below the processor's part. *)
Definition stub_for (v : Z) : option stub := stubs !! Z.to_nat v.

(** The frame of an interrupt, from its lowest word. *)
Definition frame_words (c : cpu) (v e : Z) : list Z :=
  rev (pushed (gp c)) ++ [v; e; c_rip c; c_cs c; c_rflags c; c_rsp c; c_ss c].

Lemma stub_for_kind v :
  0 ≤ v < 48 →
  stub_for v = Some (if v <? 32 then if pushes_error_code v then isr_err v else isr_no_err v else irq (v - 32)).
Proof.
  intros Hv. assert (Hin : v ∈ seqZ 0 48) by (apply elem_of_seqZ; lia). revert v Hv Hin.
  assert (Hall : Forall (λ v, stub_for v = Some (if v <? 32 then if pushes_error_code v then isr_err v
    else isr_no_err v else irq (v - 32))) (seqZ 0 48)) by (vm_compute; repeat constructor).
  intros v _ Hin. rewrite Forall_forall in Hall. by apply Hall.
Qed.

(** The stack an interrupt is taken on. *)
Definition entry_stack (c : cpu) (rsp0 : Z) : Z :=
  (if Z.land (c_cs c) 3 =? 3 then rsp0 else c_rsp c) / 16 * 16.

(** The processor and the stub together always push seven words. *)
Lemma entry_spec m c rsp0 v err s sp :
  0 ≤ v < 48 → stub_for v = Some s → (is_Some err ↔ v < 32 ∧ pushes_error_code v = true) →
  sp = entry_stack c rsp0 → 56 ≤ sp < 2 ^ 64 → mapped m (sp - 56) 56 →
  Forall word64 [v; default 0 err; c_rip c; c_cs c; c_rflags c; c_rsp c; c_ss c] →
  ∃ m1, (∀ A (k : mem * Z → res A), (p ← deliver m c rsp0 err; let '(m, sp) := p in q ← run_stub m sp s; k q) = k (m1, sp - 56)) ∧
    modifies (in_range (sp - 56) 56) m m1 ∧
    saved_at m1 (sp - 56) [v; default 0 err; c_rip c; c_cs c; c_rflags c; c_rsp c; c_ss c].
Proof.
  intros Hv Hs Herr Hsp Hr Hm Hw. unfold deliver. fold (entry_stack c rsp0). rewrite <-Hsp.
  set (hw := [c_ss c; c_rsp c; c_rflags c; c_cs c; c_rip c]).
  assert (Hsplit : ∃ l1 l2, hw ++ option_list err = l1 ∧ (∀ m sp, run_stub m sp s = push_all m sp l2) ∧
    l1 ++ l2 = hw ++ [default 0 err; v]).
  { rewrite stub_for_kind in Hs by done. destruct (Z.ltb_spec v 32) as [Hlt|Hge].
    - destruct (pushes_error_code v) eqn:Hp; injection Hs as <-.
      + destruct err as [e|]; [|destruct Herr as [_ Herr]; destruct (Herr (conj Hlt eq_refl)); discriminate].
        exists (hw ++ [e]), [v]. by rewrite <-app_assoc.
      + destruct err as [e|]; [destruct Herr as [Herr _]; destruct (Herr ltac:(by eexists)); discriminate|].
        exists hw, [0; v]. simpl option_list. by rewrite app_nil_r.
    - injection Hs as <-. destruct err as [e|]; [destruct Herr as [Herr _]; destruct (Herr ltac:(by eexists)); lia|].
      exists hw, [0; v]. simpl option_list. rewrite app_nil_r.
      split_and!; [done | | done]. intros. cbn [run_stub]. by replace (32 + (v - 32)) with v by lia. }
  destruct Hsplit as (l1 & l2 & -> & Hrun & Happ).
  assert (Hlen : (length l1 + length l2 = 7)%nat) by (rewrite <-length_app, Happ; done).
  rewrite !Forall_cons in Hw. destruct Hw as (W1 & W2 & W3 & W4 & W5 & W6 & W7 & _).
  assert (Hw : Forall word64 (l1 ++ l2)) by (rewrite Happ; unfold hw; simpl; rewrite !Forall_cons; done).
  apply Forall_app in Hw as [Hw1 Hw2].
  destruct (push_all_spec l1 m sp []) as (m0 & P1 & S1 & D1); [lia | eapply mapped_sub; [exact Hm|lia|lia] | done | apply saved_nil|].
  set (sp1 := sp - 8 * Z.of_nat (length l1)) in *.
  destruct (push_all_spec l2 m0 sp1 (rev l1 ++ [])) as (m1 & P2 & S2 & D2);
    [lia | eapply mapped_sub; [eapply modifies_mapped; [exact D1|exact Hm]|lia|lia] | done | done |].
  replace (sp1 - 8 * Z.of_nat (length l2)) with (sp - 56) in * by lia.
  exists m1. split; [|split].
  - intros A k. rewrite P1. cbn [mbind res_bind]. rewrite Hrun, P2. done.
  - etransitivity; (eapply modifies_mono; [|eassumption]); unfold in_range; lia.
  - rewrite app_nil_r, <-rev_app_distr, Happ in S2. exact S2.
Qed.

Lemma read_frame_spec m p l vec e rip cs rf vs :
  length l = 15%nat → saved_at m p (l ++ [vec; e; rip; cs; rf] ++ vs) →
  ∃ g, popped l = Some g ∧
    read_frame m p = Ok (mk_frame (g_r15 g) (g_r14 g) (g_r13 g) (g_r12 g) (g_r11 g) (g_r10 g) (g_r9 g) (g_r8 g)
      (g_rbp g) (g_rdi g) (g_rsi g) (g_rdx g) (g_rcx g) (g_rbx g) (g_rax g) vec e rip cs rf).
Proof.
  intros Hl Hs. do 15 (destruct l as [|? l]; [discriminate Hl|]). destruct l; [|discriminate Hl].
  eexists. split; [reflexivity|]. cbn [g_r15 g_r14 g_r13 g_r12 g_r11 g_r10 g_r9 g_r8 g_rbp g_rdi g_rsi g_rdx g_rcx g_rbx g_rax].
  unfold read_frame. pose proof (Hs 0%nat _ eq_refl) as H0. rewrite Z.mul_0_r, Z.add_0_r in H0. rewrite H0.
  rewrite (Hs 1%nat _ eq_refl : load64 m (p + 8) = _). rewrite (Hs 2%nat _ eq_refl : load64 m (p + 16) = _).
  rewrite (Hs 3%nat _ eq_refl : load64 m (p + 24) = _). rewrite (Hs 4%nat _ eq_refl : load64 m (p + 32) = _).
  rewrite (Hs 5%nat _ eq_refl : load64 m (p + 40) = _). rewrite (Hs 6%nat _ eq_refl : load64 m (p + 48) = _).
  rewrite (Hs 7%nat _ eq_refl : load64 m (p + 56) = _). rewrite (Hs 8%nat _ eq_refl : load64 m (p + 64) = _).
  rewrite (Hs 9%nat _ eq_refl : load64 m (p + 72) = _). rewrite (Hs 10%nat _ eq_refl : load64 m (p + 80) = _).
  rewrite (Hs 11%nat _ eq_refl : load64 m (p + 88) = _). rewrite (Hs 12%nat _ eq_refl : load64 m (p + 96) = _).
  rewrite (Hs 13%nat _ eq_refl : load64 m (p + 104) = _). rewrite (Hs 14%nat _ eq_refl : load64 m (p + 112) = _).
  rewrite (Hs 15%nat _ eq_refl : load64 m (p + 120) = _). rewrite (Hs 16%nat _ eq_refl : load64 m (p + 128) = _).
  rewrite (Hs 17%nat _ eq_refl : load64 m (p + 136) = _). rewrite (Hs 18%nat _ eq_refl : load64 m (p + 144) = _).
  rewrite (Hs 19%nat _ eq_refl : load64 m (p + 152) = _). reflexivity.
Qed.

Lemma popped_pushed g : popped (rev (pushed g)) = Some g.
Proof. by destruct g. Qed.

Lemma word_list_in l x : Forall word64 l → x ∈ l → word64 x.
Proof. rewrite Forall_forall. auto. Qed.

(** The common stub: what the C function sees, and the way back. *)
Lemma isr_common_spec ra m sp g vec e rip cs rf rsp0 ss :
  128 ≤ sp → sp + 56 < 2 ^ 64 → mapped m (sp - 128) 128 → Forall word64 (pushed g) → word64 ra →
  saved_at m sp [vec; e; rip; cs; rf; rsp0; ss] →
  ∃ m1, modifies (in_range (sp - 128) 128) m m1 ∧
    saved_at m1 (sp - 120) (rev (pushed g) ++ [vec; e; rip; cs; rf; rsp0; ss]) ∧
    ∀ dispatch m2, dispatch m1 (sp - 120) = Ok m2 → (∀ x, in_range (sp - 120) 176 x → m2 !! x = m1 !! x) →
      isr_common_stub dispatch ra m sp g = Ok (m2, mk_cpu g rip cs rf rsp0 ss).
Proof.
  intros Hsp Hlt Hm Hw Hra Hs.
  destruct (push_all_spec (pushed g) m sp [vec; e; rip; cs; rf; rsp0; ss]) as (m0 & P0 & S0 & D0);
    change (8 * Z.of_nat (length (pushed g))) with 120 in *; [lia | eapply mapped_sub; [exact Hm|lia|lia] | done | done |].
  destruct (push_spec m0 (sp - 120) ra (rev (pushed g) ++ [vec; e; rip; cs; rf; rsp0; ss])) as (m1 & P1 & S1 & D1);
    [lia | eapply mapped_sub; [eapply modifies_mapped; [exact D0|exact Hm]|lia|lia] | done | done |].
  assert (D : modifies (in_range (sp - 128) 128) m m1)
    by (etransitivity; (eapply modifies_mono; [|eassumption]); unfold in_range; lia).
  assert (S1' : saved_at m1 (sp - 120) (rev (pushed g) ++ [vec; e; rip; cs; rf; rsp0; ss])).
  { intros i w Hi. rewrite <-(S1 (S i) w Hi). f_equal. lia. }
  exists m1. split; [exact D|]. split; [exact S1'|]. intros dispatch m2 Hd Hag.
  assert (S2 : saved_at m2 (sp - 120) (rev (pushed g) ++ [vec; e; rip; cs; rf; rsp0; ss])).
  { intros i w Hi. rewrite <-(S1' i w Hi). apply lookup_lt_Some in Hi.
    change (length (rev (pushed g) ++ [vec; e; rip; cs; rf; rsp0; ss])) with 22%nat in Hi.
    apply load_le_agree. intros x Hx. apply Hag. unfold in_range in *. lia. }
  unfold isr_common_stub. rewrite P0. cbn [mbind res_bind]. rewrite P1. cbn [mbind res_bind]. rewrite Hd. cbn [mbind res_bind].
  replace (sp - 120 - 8 + 8) with (sp - 120) by lia. rewrite u64_small by lia.
  destruct (pop_all_spec (rev (pushed g)) m2 (sp - 120) [vec; e; rip; cs; rf; rsp0; ss]) as [P2 S3];
    change (length (rev (pushed g))) with 15%nat in *; [lia|lia|done|].
  rewrite P2. cbn [mbind res_bind]. rewrite popped_pushed. cbn [deref mbind res_bind]. unfold iretq.
  rewrite u64_small by lia.
  destruct (pop_all_spec [rip; cs; rf; rsp0; ss] m2 (sp - 120 + 8 * Z.of_nat 15 + 16) []) as [P4 _];
    change (length [rip; cs; rf; rsp0; ss]) with 5%nat in *; [lia|lia| |].
  { intros i w Hi. rewrite <-(S3 (S (S i)) w); [f_equal; lia | exact Hi]. }
  rewrite P4. reflexivity.
Qed.

(** ** Properties *)

(** C14: an interrupt is transparent. For each of the 48 vectors with a stub,
    taken on a stack with room for the frame - the interrupted one, or the
    kernel's when it comes from ring 3 - the C handler is called with a frame
    that holds the interrupted registers, the vector and the error code, or 0
    where the processor pushes none, followed by the interrupted stack pointer
    and segment; and if the handler leaves the frame alone, every register,
    the flags and the stack of the interrupted code are restored. *)
Theorem interrupt_transparent dispatch ra m c rsp0 v err s sp :
  0 ≤ v < 48 → stub_for v = Some s → (is_Some err ↔ v < 32 ∧ pushes_error_code v = true) →
  sp = entry_stack c rsp0 → 184 ≤ sp < 2 ^ 64 → mapped m (sp - 184) 184 →
  Forall word64 (ra :: pushed (gp c) ++ [v; default 0 err; c_rip c; c_cs c; c_rflags c; c_rsp c; c_ss c]) →
  let g := gp c in
  ∃ m1, modifies (in_range (sp - 184) 184) m m1 ∧
    read_frame m1 (sp - 176) =
      Ok (mk_frame (g_r15 g) (g_r14 g) (g_r13 g) (g_r12 g) (g_r11 g) (g_r10 g) (g_r9 g) (g_r8 g)
            (g_rbp g) (g_rdi g) (g_rsi g) (g_rdx g) (g_rcx g) (g_rbx g) (g_rax g)
            v (default 0 err) (c_rip c) (c_cs c) (c_rflags c)) ∧
    load64 m1 (sp - 176 + 160) = Ok (c_rsp c) ∧ load64 m1 (sp - 176 + 168) = Ok (c_ss c) ∧
    ∀ m2, dispatch m1 (sp - 176) = Ok m2 → (∀ x, in_range (sp - 176) 176 x → m2 !! x = m1 !! x) →
      interrupt dispatch ra m c rsp0 err s = Ok (m2, c).
Proof.
  intros Hv Hs Herr Hsp Hr Hm Hw g. apply Forall_cons in Hw as [Hra Hw]. apply Forall_app in Hw as [Hw1 Hw2].
  destruct (entry_spec m c rsp0 v err s sp) as (m0 & He & D0 & S0); [done.. | lia | eapply mapped_sub; [exact Hm|lia|lia] | done |].
  destruct (isr_common_spec ra m0 (sp - 56) g v (default 0 err) (c_rip c) (c_cs c) (c_rflags c) (c_rsp c) (c_ss c))
    as (m1 & D1 & S1 & Hback); [lia|lia| eapply mapped_sub; [eapply modifies_mapped; [exact D0|exact Hm]|lia|lia] | done..|].
  replace (sp - 56 - 120) with (sp - 176) in * by lia.
  exists m1. split; [etransitivity; (eapply modifies_mono; [|eassumption]); unfold in_range; lia|].
  destruct (read_frame_spec m1 (sp - 176) (rev (pushed g)) v (default 0 err) (c_rip c) (c_cs c) (c_rflags c) [c_rsp c; c_ss c])
    as (g' & Hg & Hf); [done..|].
  rewrite popped_pushed in Hg. injection Hg as <-. split; [exact Hf|].
  split; [exact (S1 20%nat _ eq_refl)|]. split; [exact (S1 21%nat _ eq_refl)|].
  intros m2 Hd Hag. unfold interrupt.
  etransitivity; [apply (He _ (λ q, let '(m, sp) := q in isr_common_stub dispatch ra m sp (gp c)))|].
  fold g. cbn beta iota. rewrite (Hback dispatch m2 Hd Hag). unfold g. by destruct c.
Qed.

(** The stubs agree with the processor: the stub of a vector pushes a dummy
    error code exactly when the processor pushes none, and every stub reports
    its own vector, so the frame has one layout. *)
Theorem stubs_match_processor v s m sp :
  0 ≤ v < 48 → stub_for v = Some s →
  run_stub m sp s = push_all m sp (if (v <? 32) && pushes_error_code v then [v] else [0; v]).
Proof.
  intros Hv Hs. rewrite stub_for_kind in Hs by done. injection Hs as <-.
  destruct (Z.ltb_spec v 32); cbn [andb]; [by destruct (pushes_error_code v)|].
  cbn [run_stub]. by replace (32 + (v - 32)) with v by lia.
Qed.

(** ** Witnesses: a page fault in ring 3 *)

Definition ex_gprs : gprs := mk_gprs 1 2 3 4 5 6 7 8 9 10 11 12 13 14 15.
Definition ex_cpu : cpu := mk_cpu ex_gprs 0x400000 0x23 0x202 0x500ff8 0x1b.

Lemma interrupt_transparent_witness :
  ∃ m1 f, read_frame m1 (0x2000 - 176) = Ok f ∧ vector f = 14 ∧ error_code f = 4 ∧
    interrupt (λ m _, Ok m) 0x8000 (zeros 0x1f00 256) ex_cpu 0x2008 (Some 4) (isr_err 14) = Ok (m1, ex_cpu).
Proof.
  destruct (interrupt_transparent (λ m _, Ok m) 0x8000 (zeros 0x1f00 256) ex_cpu 0x2008 14 (Some 4) (isr_err 14) 0x2000)
    as (m1 & _ & Hf & _ & _ & Hi).
  - lia.
  - reflexivity.
  - split; [intros _; split; [lia|reflexivity] | by eexists].
  - reflexivity.
  - lia.
  - eapply mapped_sub; [exact (zeros_mapped 0x1f00 256)|lia|lia].
  - repeat constructor; cbn; unfold word64; lia.
  - eexists m1, _. split; [exact Hf|]. split; [reflexivity|]. split; [reflexivity|]. exact (Hi m1 eq_refl (λ x _, eq_refl)).
Defined.

Lemma stubs_match_processor_witness : run_stub (zeros 0x1f00 256) 0x2000 (isr_no_err 3) = push_all (zeros 0x1f00 256) 0x2000 [0; 3].
Proof. exact (stubs_match_processor 3 (isr_no_err 3) (zeros 0x1f00 256) 0x2000 ltac:(lia) eq_refl). Defined.
