(* ===== verification/Ioapic.v ===== *)
(** * I/O APIC (kernel/arch/x86_64/cpu/ioapic.c)

    The driver reaches the redirection table through a select and a window
    register. [IoApicDev] states what it relies on of the chip at the address
    the page was mapped to; the specification is the table itself. *)

From S2P Require Import Prelude Word Mem FrameAlloc RefAlloc Vmm Io.

(** ** Operations *)

Definition IOAPIC_REG_SELECT : Z := 0x00.
Definition IOAPIC_REG_WINDOW : Z := 0x10.
Definition IOAPIC_REG_VERSION : Z := 0x01.
Definition IOAPIC_REG_REDIRECTION (irq : Z) : Z := 0x10 + 2 * irq.
Definition IOAPIC_REDIR_MASKED : Z := Z.shiftl 1 16.

Section ioapic.
Context {D : Type} `{Mmio D} (ioapic_base : Z).

Definition ioapic_read (d : D) (reg : Z) : Z * D :=
  let d := write32 d (ioapic_base + IOAPIC_REG_SELECT) reg in
  read32 d (ioapic_base + IOAPIC_REG_WINDOW).

Definition ioapic_write (d : D) (reg value : Z) : D :=
  let d := write32 d (ioapic_base + IOAPIC_REG_SELECT) reg in
  write32 d (ioapic_base + IOAPIC_REG_WINDOW) value.

Definition mask_entry (irq : Z) (d : D) : res D :=
  let d := ioapic_write d (IOAPIC_REG_REDIRECTION irq) IOAPIC_REDIR_MASKED in
  Ok (ioapic_write d (IOAPIC_REG_REDIRECTION irq + 1) 0).

Definition mask_all (d : D) : res D :=
  let '(version, d) := ioapic_read d IOAPIC_REG_VERSION in
  let max_entry := Z.land (Z.shiftr version 16) 0xff in
  for_range 0 (max_entry + 1) mask_entry d.

Definition ioapic_set_irq (d : D) (irq vector dest_apic_id : Z) (masked : bool) : D :=
  let low := if masked then Z.lor vector IOAPIC_REDIR_MASKED else vector in
  let high := u32 (Z.shiftl dest_apic_id 24) in
  let d := ioapic_write d (IOAPIC_REG_REDIRECTION irq + 1) high in
  ioapic_write d (IOAPIC_REG_REDIRECTION irq) low.
End ioapic.

(** The page of the chip is mapped first; the new [ioapic_base] is returned. *)
Definition ioapic_init {A D : Type} `{FrameAllocator A} `{Mmio D} (w : world A) (d : D) (phys_base : Z)
  : res (Z * world A * D) :=
  '(base, w) ← vmm_map_mmio w phys_base;
  d ← mask_all base d;
  Ok (base, w, d).

(** ** The chip (82093AA, 3.0)

    [io_reg] is the table by register index; the delivery-status and
    remote-IRR bits of an entry are the chip's own, so the law of a write is
    for values without them. *)
Class IoApicDev (D : Type) `{Mmio D} (base : Z) := {
  io_select : D → Z;
  io_reg : D → Z → Z;
  io_max : D → Z;

  io_max_range d : 0 ≤ io_max d ≤ 119;
  io_select_law d v :
    0 ≤ v < 256 →
    let d' := write32 d (base + IOAPIC_REG_SELECT) v in
    io_select d' = v ∧ (∀ r, io_reg d' r = io_reg d r) ∧ io_max d' = io_max d;
  io_version_law d :
    io_select d = IOAPIC_REG_VERSION →
    let '(v, d') := read32 d (base + IOAPIC_REG_WINDOW) in
    Z.land (Z.shiftr v 16) 0xff = io_max d ∧ (∀ r, io_reg d' r = io_reg d r) ∧ io_max d' = io_max d;
  io_window_law d v :
    0x10 ≤ io_select d < 0x10 + 2 * (io_max d + 1) → 0 ≤ v < 2 ^ 32 → Z.land v 0x5000 = 0 →
    let d' := write32 d (base + IOAPIC_REG_WINDOW) v in
    (∀ r, io_reg d' r = if r =? io_select d then v else io_reg d r) ∧ io_max d' = io_max d;
}.

(** A redirection entry, as the chip reads its two halves. *)
Record route := mk_route {
  rt_vector : Z; rt_delivery : Z; rt_active_low : bool; rt_level : bool; rt_masked : bool; rt_dest : Z;
}.

Section spec.
Context {D : Type} `{Mmio D} (base : Z) {Hdev : IoApicDev D base}.

Definition entry_low (d : D) (irq : Z) : Z := io_reg d (0x10 + 2 * irq).
Definition entry_high (d : D) (irq : Z) : Z := io_reg d (0x10 + 2 * irq + 1).

Definition route_of (d : D) (irq : Z) : route :=
  let low := entry_low d irq in
  mk_route (low mod 256) (low / 256 mod 8) (Z.testbit low 13) (Z.testbit low 15) (Z.testbit low 16)
    (entry_high d irq / 2 ^ 24).

Lemma ioapic_write_spec d r v :
  0x10 ≤ r < 0x10 + 2 * (io_max d + 1) → 0 ≤ v < 2 ^ 32 → Z.land v 0x5000 = 0 →
  let d' := ioapic_write base d r v in
  (∀ x, io_reg d' x = if x =? r then v else io_reg d x) ∧ io_max d' = io_max d.
Proof.
  intros Hr Hv H5. pose proof (io_max_range (base := base) d). unfold ioapic_write.
  destruct (io_select_law (base := base) d r ltac:(lia)) as (Hs & Hreg & Hmax). set (d1 := write32 d _ r) in *.
  destruct (io_window_law (base := base) d1 v) as (Hw & Hm); [rewrite Hs, Hmax; lia|done|done|].
  cbv zeta. split; [|congruence]. intros x. rewrite Hw, Hs, Hreg. done.
Qed.
(** The two bits of an entry that belong to the chip. *)
Lemma land_status v : Z.testbit v 12 = false → Z.testbit v 14 = false → Z.land v 0x5000 = 0.
Proof.
  intros H12 H14. apply Z.bits_inj'. intros i Hi. rewrite Z.land_spec, Z.bits_0.
  destruct (decide (i = 12)) as [->|N12]; [by rewrite H12|]. destruct (decide (i = 14)) as [->|N14]; [by rewrite H14|].
  replace (Z.testbit 0x5000 i) with false; [apply andb_false_r|]. change 0x5000 with (2 ^ 12 + 2 ^ 14).
  rewrite Z.add_nocarry_lxor by reflexivity. rewrite Z.lxor_spec, !Z.pow2_bits_eqb by lia.
  by rewrite !(proj2 (Z.eqb_neq _ _)) by done.
Qed.

(** The low half the driver writes. *)
Lemma low_bits vector (masked : bool) :
  0 ≤ vector < 256 →
  let low := if masked then Z.lor vector IOAPIC_REDIR_MASKED else vector in
  0 ≤ low < 2 ^ 32 ∧ Z.land low 0x5000 = 0 ∧ low mod 256 = vector ∧ low / 256 mod 8 = 0 ∧
  Z.testbit low 13 = false ∧ Z.testbit low 15 = false ∧ Z.testbit low 16 = masked.
Proof.
  intros Hv low.
  assert (Hlow : low = (if masked then 1 else 0) * 2 ^ 16 + vector).
  { unfold low, IOAPIC_REDIR_MASKED. destruct masked; [|lia]. rewrite Z.lor_comm. apply lor_shift_add; lia. }
  assert (Hbit : ∀ i, 8 ≤ i < 16 → Z.testbit low i = false).
  { intros i Hi. rewrite <-(Z.mod_pow2_bits_low low 16 i) by lia. apply (testbit_above _ 8); [|lia].
    rewrite Hlow. destruct masked; dlia. }
  assert (H16 : Z.testbit low 16 = masked).
  { transitivity (Z.testbit (low / 2 ^ 16) 0); [by rewrite Z.div_pow2_bits by lia|]. rewrite Hlow. destruct masked; [replace ((1 * 2 ^ 16 + vector) / 2 ^ 16) with 1 by dlia
      | replace ((0 * 2 ^ 16 + vector) / 2 ^ 16) with 0 by dlia]; done. }
  split; [destruct masked; lia|]. split; [apply land_status; apply Hbit; lia|].
  split_and!; [rewrite Hlow; destruct masked; dlia | rewrite Hlow; destruct masked; dlia | apply Hbit; lia | apply Hbit; lia | done].
Qed.

Lemma high_bits dest :
  0 ≤ dest < 256 →
  let high := u32 (Z.shiftl dest 24) in
  0 ≤ high < 2 ^ 32 ∧ Z.land high 0x5000 = 0 ∧ high / 2 ^ 24 = dest.
Proof.
  intros Hd high. assert (Hh : high = dest * 2 ^ 24) by (unfold high; rewrite Z.shiftl_mul_pow2 by lia; apply u32_small; lia).
  rewrite Hh. split; [lia|]. split; [apply land_status; rewrite Z.mul_pow2_bits_low by lia; done|]. apply Z.div_mul. lia.
Qed.

Lemma ioapic_write_entry_spec d irq low high :
  0 ≤ irq ≤ io_max d → 0 ≤ low < 2 ^ 32 → Z.land low 0x5000 = 0 → 0 ≤ high < 2 ^ 32 → Z.land high 0x5000 = 0 →
  let d1 := ioapic_write base d (IOAPIC_REG_REDIRECTION irq + 1) high in
  let d2 := ioapic_write base d1 (IOAPIC_REG_REDIRECTION irq) low in
  (∀ i, 0 ≤ i → entry_low d1 i = entry_low d i) ∧ io_max d2 = io_max d ∧
  (∀ i, 0 ≤ i → entry_low d2 i = if i =? irq then low else entry_low d i) ∧
  (∀ i, 0 ≤ i → entry_high d2 i = if i =? irq then high else entry_high d i).
Proof.
  intros Hi Hl Hl5 Hh Hh5 d1 d2. unfold IOAPIC_REG_REDIRECTION in *.
  destruct (ioapic_write_spec d (0x10 + 2 * irq + 1) high) as [W1 M1]; [lia|done|done|]. fold d1 in W1, M1.
  destruct (ioapic_write_spec d1 (0x10 + 2 * irq) low) as [W2 M2]; [lia|done|done|]. fold d2 in W2, M2.
  unfold entry_low, entry_high. split_and!.
  - intros i H0. rewrite W1. by rewrite (proj2 (Z.eqb_neq _ _)) by lia.
  - congruence.
  - intros i H0. rewrite W2, W1. rewrite (proj2 (Z.eqb_neq (0x10 + 2 * i) (0x10 + 2 * irq + 1))) by lia.
    destruct (Z.eqb_spec i irq) as [->|Hne]; [by rewrite Z.eqb_refl|]. by rewrite (proj2 (Z.eqb_neq _ _)) by lia.
  - intros i H0. rewrite W2, W1. rewrite (proj2 (Z.eqb_neq (0x10 + 2 * i + 1) (0x10 + 2 * irq))) by lia.
    destruct (Z.eqb_spec i irq) as [->|Hne]; [by rewrite Z.eqb_refl|]. by rewrite (proj2 (Z.eqb_neq _ _)) by lia.
Qed.

(** One line programmed: its entry, and no other. *)
Lemma set_irq_spec d irq vector dest (masked : bool) :
  0 ≤ irq ≤ io_max d → 0 ≤ vector < 256 → 0 ≤ dest < 256 →
  let d1 := ioapic_write base d (IOAPIC_REG_REDIRECTION irq + 1) (u32 (Z.shiftl dest 24)) in
  let d' := ioapic_set_irq base d irq vector dest masked in
  (∀ i, 0 ≤ i → entry_low d1 i = entry_low d i) ∧ io_max d' = io_max d ∧
  route_of d' irq = mk_route vector 0 false false masked dest ∧
  ∀ i, 0 ≤ i → i ≠ irq → route_of d' i = route_of d i.
Proof.
  intros Hi Hv Hd d1 d'. destruct (low_bits vector masked Hv) as (L1 & L2 & L3 & L4 & L5 & L6 & L7).
  destruct (high_bits dest Hd) as (H1 & H2 & H3).
  destruct (ioapic_write_entry_spec d irq _ _ Hi L1 L2 H1 H2) as (E1 & Em & E2 & E3).
  fold d1 in E1, Em, E2, E3. change (ioapic_write base d1 _ _) with d' in Em, E2, E3.
  split; [exact E1|]. split; [exact Em|]. split.
  - unfold route_of. rewrite E2, E3, Z.eqb_refl by lia. by rewrite L3, L4, L5, L6, L7, H3.
  - intros i H0 Hne. unfold route_of. by rewrite E2, E3, (proj2 (Z.eqb_neq i irq) Hne) by lia.
Qed.

Lemma mask_all_spec d :
  ∃ d', mask_all base d = Ok d' ∧ io_max d' = io_max d ∧
    ∀ i, 0 ≤ i ≤ io_max d → route_of d' i = mk_route 0 0 false false true 0.
Proof.
  unfold mask_all, ioapic_read.
  destruct (io_select_law (base := base) d IOAPIC_REG_VERSION) as (Hs & _ & Hm0); [unfold IOAPIC_REG_VERSION; lia|].
  set (d0 := write32 d _ _) in *. pose proof (io_version_law (base := base) d0 Hs) as Hver.
  destruct (read32 d0 _) as [v d1]. destruct Hver as (-> & _ & Hm1). rewrite Hm0 in *.
  pose proof (io_max_range (base := base) d) as Hmax.
  destruct (for_range_spec (λ i t, io_max t = io_max d ∧
      ∀ j, 0 ≤ j < i → entry_low t j = IOAPIC_REDIR_MASKED ∧ entry_high t j = 0) 0 (io_max d + 1) (mask_entry base) d1)
    as (d' & Hl & Hmd & He); [lia | split; [congruence|lia] | |].
  - intros i t Hi [Ht He]. unfold mask_entry. eexists. split; [done|]. unfold IOAPIC_REG_REDIRECTION.
    destruct (ioapic_write_spec t (0x10 + 2 * i) IOAPIC_REDIR_MASKED) as [W1 M1]; [lia| |reflexivity|];
      [unfold IOAPIC_REDIR_MASKED; rewrite Z.shiftl_1_l; lia|].
    set (t1 := ioapic_write base t _ _) in *.
    destruct (ioapic_write_spec t1 (0x10 + 2 * i + 1) 0) as [W2 M2]; [lia|lia|reflexivity|].
    split; [congruence|]. intros j Hj. unfold entry_low, entry_high in *. rewrite !W2, !W1.
    rewrite (proj2 (Z.eqb_neq (0x10 + 2 * j) (0x10 + 2 * i + 1))), (proj2 (Z.eqb_neq (0x10 + 2 * j + 1) (0x10 + 2 * i))) by lia.
    destruct (Z.eq_dec j i) as [->|Hne]; [by rewrite !Z.eqb_refl|]. rewrite !(proj2 (Z.eqb_neq _ _)) by lia. apply He. lia.
  - exists d'. split; [exact Hl|]. split; [exact Hmd|]. intros i Hi. destruct (He i ltac:(lia)) as [E1 E2].
    unfold route_of. rewrite E1, E2. reflexivity.
Qed.
End spec.

(** ** Properties *)

(** C39: [ioapic_set_irq] programs exactly one line: afterwards the chip's entry
    for [irq] is a fixed, edge-triggered, active-high delivery of [vector] to
    the given CPU, masked or not as asked, and no other entry has changed. The
    destination is written while the entry's old vector and mask bit are still
    in force, so a line that was masked is never delivered to a wrong CPU.
    [ioapic_init] leaves every line of the chip masked. *)
Theorem ioapic_routes {D : Type} `{Mmio D} (base : Z) `{!IoApicDev D base} (d : D) irq vector dest masked :
  0 ≤ irq ≤ io_max d → 0 ≤ vector < 256 → 0 ≤ dest < 256 →
  let d1 := ioapic_write base d (IOAPIC_REG_REDIRECTION irq + 1) (u32 (Z.shiftl dest 24)) in
  let d' := ioapic_set_irq base d irq vector dest masked in
  (∀ i, 0 ≤ i → entry_low base d1 i = entry_low base d i) ∧
  d' = ioapic_write base d1 (IOAPIC_REG_REDIRECTION irq) (if masked then Z.lor vector IOAPIC_REDIR_MASKED else vector) ∧
  route_of base d' irq = mk_route vector 0 false false masked dest ∧
  (∀ i, 0 ≤ i → i ≠ irq → route_of base d' i = route_of base d i) ∧
  ∃ d0, mask_all base d = Ok d0 ∧ ∀ i, 0 ≤ i ≤ io_max d → rt_masked (route_of base d0 i) = true.
Proof.
  intros Hi Hv Hd d1 d'. destruct (set_irq_spec base d irq vector dest masked Hi Hv Hd) as (E1 & _ & E2 & E3).
  split; [exact E1|]. split; [done|]. split; [exact E2|]. split; [exact E3|].
  destruct (mask_all_spec base d) as (d0 & Hm & _ & He). exists d0. split; [exact Hm|].
  intros j Hj. by rewrite He.
Qed.

(** ** Witnesses: a chip with 24 lines *)

Record ref_ioapic (base : Z) := mk_ref_ioapic { ri_select : Z; ri_regs : gmap Z Z }.
Arguments mk_ref_ioapic {base}.
Arguments ri_select {base}.
Arguments ri_regs {base}.

#[export] Instance ref_ioapic_mmio base : Mmio (ref_ioapic base) := {|
  read32 d a := (if ri_select d =? IOAPIC_REG_VERSION then Z.shiftl 23 16 else default 0 (ri_regs d !! ri_select d), d);
  write32 d a v :=
    if a =? base then mk_ref_ioapic v (ri_regs d)
    else mk_ref_ioapic (ri_select d) (<[ri_select d := v]> (ri_regs d));
|}.

#[export, program] Instance ref_ioapic_ok base : IoApicDev (ref_ioapic base) base := {|
  io_select := ri_select;
  io_reg d r := default 0 (ri_regs d !! r);
  io_max _ := 23;
|}.
Next Obligation. lia. Qed.
Next Obligation.
  intros base d v Hv. cbn [write32 ref_ioapic_mmio]. unfold IOAPIC_REG_SELECT. by rewrite Z.add_0_r, Z.eqb_refl.
Qed.
Next Obligation. intros base d Hs. cbn. by rewrite Hs. Qed.
Next Obligation.
  intros base d v Hs Hv Hl. cbn [write32 ref_ioapic_mmio]. rewrite (proj2 (Z.eqb_neq _ base)) by (unfold IOAPIC_REG_WINDOW; lia).
  cbn [ri_select ri_regs]. split; [|done]. intros r. destruct (Z.eqb_spec r (ri_select d)) as [->|Hne].
  - by rewrite lookup_insert_eq.
  - by rewrite lookup_insert_ne.
Qed.

Definition ex_ioapic : ref_ioapic 0xfec00000 := mk_ref_ioapic 0 ∅.

Lemma ioapic_routes_witness :
  route_of 0xfec00000 (ioapic_set_irq 0xfec00000 ex_ioapic 1 33 2 false) 1 = mk_route 33 0 false false false 2.
Proof.
  destruct (ioapic_routes 0xfec00000 ex_ioapic 1 33 2 false) as (_ & _ & Hr & _); [cbn; lia|lia|lia|]. exact Hr.
Defined.
