(* ===== verification/Lapic.v ===== *)
(** * Local APIC and its timer (kernel/arch/x86_64/cpu/lapic.c, lapic_timer.c)

    The registers are memory-mapped; [LocalApic] states what the driver relies
    on of the device at the address its page was mapped to, and [Pit] of the
    timer chip the calibration polls (SDM Vol. 3A, 11; 8254). *)

From S2P Require Import Prelude Word Mem FrameAlloc Vmm Io.

(** ** lapic.c *)

Definition IA32_APIC_BASE_MSR : Z := 0x1b.
Definition APIC_BASE_ENABLE : Z := Z.shiftl 1 11.
Definition APIC_BASE_ADDR_MASK : Z := 0xfffff000.

Definition LAPIC_REG_ID : Z := 0x20.
Definition LAPIC_REG_EOI : Z := 0xb0.
Definition LAPIC_REG_SVR : Z := 0xf0.
Definition LAPIC_REG_LVT_TIMER : Z := 0x320.
Definition LAPIC_REG_LVT_LINT0 : Z := 0x350.
Definition LAPIC_REG_LVT_LINT1 : Z := 0x360.
Definition LAPIC_REG_LVT_ERROR : Z := 0x370.
Definition LAPIC_REG_INITIAL_COUNT : Z := 0x380.
Definition LAPIC_REG_CURRENT_COUNT : Z := 0x390.
Definition LAPIC_REG_DIVIDE_CONFIG : Z := 0x3e0.

Definition LAPIC_TIMER_PERIODIC : Z := Z.shiftl 1 17.
Definition LAPIC_TIMER_DIVIDE_16 : Z := 0x3.
Definition LAPIC_SVR_SOFTWARE_ENABLE : Z := Z.shiftl 1 8.
Definition LAPIC_SPURIOUS_VECTOR : Z := 0xff.
Definition LAPIC_LVT_MASKED : Z := Z.shiftl 1 16.

Section lapic.
Context {D : Type} `{Mmio D} (lapic_base : Z).

(** The index [reg / 4] of a [uint32_t] array. *)
Definition lapic_read (d : D) (reg : Z) : Z * D := read32 d (lapic_base + reg / 4 * 4).
Definition lapic_write (d : D) (reg value : Z) : D := write32 d (lapic_base + reg / 4 * 4) value.

Definition lapic_send_eoi (d : D) : D := lapic_write d LAPIC_REG_EOI 0.

Definition lapic_get_id (d : D) : Z * D :=
  let '(v, d) := lapic_read d LAPIC_REG_ID in (Z.shiftr v 24, d).

Definition lapic_timer_set_lvt (d : D) (vector : Z) (periodic masked : bool) : D :=
  let value := vector in
  let value := if periodic then Z.lor value LAPIC_TIMER_PERIODIC else value in
  let value := if masked then Z.lor value LAPIC_LVT_MASKED else value in
  lapic_write d LAPIC_REG_LVT_TIMER value.

Definition lapic_timer_set_divide_16 (d : D) : D := lapic_write d LAPIC_REG_DIVIDE_CONFIG LAPIC_TIMER_DIVIDE_16.

Definition lapic_timer_set_initial_count (d : D) (count : Z) : D := lapic_write d LAPIC_REG_INITIAL_COUNT count.

Definition lapic_timer_get_current_count (d : D) : Z * D := lapic_read d LAPIC_REG_CURRENT_COUNT.

(** The end of [lapic_init]. *)
Definition lapic_setup (d : D) : D :=
  let d := lapic_write d LAPIC_REG_LVT_TIMER LAPIC_LVT_MASKED in
  let d := lapic_write d LAPIC_REG_LVT_LINT0 LAPIC_LVT_MASKED in
  let d := lapic_write d LAPIC_REG_LVT_LINT1 LAPIC_LVT_MASKED in
  let d := lapic_write d LAPIC_REG_LVT_ERROR LAPIC_LVT_MASKED in
  lapic_write d LAPIC_REG_SVR (Z.lor LAPIC_SVR_SOFTWARE_ENABLE LAPIC_SPURIOUS_VECTOR).
End lapic.

(** [lapic_base] is the first component of the result. *)
Definition lapic_init {A D : Type} `{FrameAllocator A} `{Mmio D} `{Msr D} (w : world A) (d : D) : res (Z * world A * D) :=
  let apic_base_msr := rdmsr d IA32_APIC_BASE_MSR in
  let phys_base := Z.land apic_base_msr APIC_BASE_ADDR_MASK in
  let d := wrmsr d IA32_APIC_BASE_MSR (Z.lor apic_base_msr APIC_BASE_ENABLE) in
  '(base, w) ← vmm_map_mmio w phys_base;
  Ok (base, w, lapic_setup base d).

(** ** lapic_timer.c *)

Definition PIT_FREQUENCY_HZ : Z := 1193182.
Definition PIT_CHANNEL2_PORT : Z := 0x42.
Definition PIT_COMMAND_PORT : Z := 0x43.
Definition PIT_GATE_SPEAKER_PORT : Z := 0x61.
Definition CALIBRATION_MS : Z := 10.

Section timer.
Context {D : Type} `{Mmio D} `{PortIO D} (lapic_base : Z).

(** The polling loop: one unit of fuel per read of the port. *)
Fixpoint wait_out2 (fuel : nat) (d : D) : res D :=
  match fuel with
  | O => Fuel
  | S fuel =>
      let '(v, d) := inb d PIT_GATE_SPEAKER_PORT in
      if Z.land v 0x20 =? 0 then wait_out2 fuel d else Ok d
  end.

Definition lapic_timer_calibrate_and_start (fuel : nat) (d : D) (vector frequency_hz : Z) : res (Z * D) :=
  let d := lapic_timer_set_divide_16 lapic_base d in
  let d := lapic_timer_set_lvt lapic_base d vector true true in
  let pit_count := u16 (PIT_FREQUENCY_HZ / 1000 * CALIBRATION_MS) in
  let '(v, d) := inb d PIT_GATE_SPEAKER_PORT in
  let d := outb d PIT_GATE_SPEAKER_PORT (u8 (Z.lor (Z.land v 0xfc) 0x01)) in
  let d := outb d PIT_COMMAND_PORT 0xb0 in
  let d := outb d PIT_CHANNEL2_PORT (u8 (Z.land pit_count 0xff)) in
  let d := outb d PIT_CHANNEL2_PORT (u8 (Z.shiftr pit_count 8)) in
  let d := lapic_timer_set_initial_count lapic_base d 0xffffffff in
  d ← wait_out2 fuel d;
  let '(current, d) := lapic_timer_get_current_count lapic_base d in
  let elapsed_ticks := u32 (0xffffffff - current) in
  let lapic_frequency_hz := u32 (elapsed_ticks * (1000 / CALIBRATION_MS)) in
  if frequency_hz =? 0 then UB
  else
    let periodic_count := lapic_frequency_hz / frequency_hz in
    let d := lapic_timer_set_initial_count lapic_base d periodic_count in
    let d := lapic_timer_set_lvt lapic_base d vector true false in
    Ok (lapic_frequency_hz, d).
End timer.

(** ** The devices *)

(** The registers the driver only writes, by offset. *)
Definition lapic_plain : list Z :=
  [LAPIC_REG_SVR; LAPIC_REG_LVT_TIMER; LAPIC_REG_LVT_LINT0; LAPIC_REG_LVT_LINT1; LAPIC_REG_LVT_ERROR;
   LAPIC_REG_INITIAL_COUNT; LAPIC_REG_DIVIDE_CONFIG].

Class LocalApic (D : Type) `{Mmio D} (base : Z) := {
  la_reg : D → Z → Z;
  la_in_service : D → list Z;
  la_id : Z;
  (** The ticks the timer has counted since its initial count was written. *)
  la_elapsed : D → Z;

  la_write_law d r v :
    r ∈ lapic_plain → 0 ≤ v < 2 ^ 32 →
    let d' := write32 d (base + r) v in
    (∀ x, la_reg d' x = if x =? r then v else la_reg d x) ∧ la_in_service d' = la_in_service d;
  (** An end of interrupt retires the interrupt of highest priority. *)
  la_eoi_law d :
    let d' := write32 d (base + LAPIC_REG_EOI) 0 in
    la_in_service d' = tail (la_in_service d) ∧ ∀ x, la_reg d' x = la_reg d x;
  la_id_law d : let '(v, d') := read32 d (base + LAPIC_REG_ID) in v / 2 ^ 24 = la_id ∧ ∀ x, la_reg d' x = la_reg d x;
  (** Writing the initial count starts the countdown; the current count is what
      is left of it, as long as it has not run out. *)
  la_initial_law d v : 0 ≤ v < 2 ^ 32 → la_elapsed (write32 d (base + LAPIC_REG_INITIAL_COUNT) v) = 0;
  la_elapsed_nonneg d : 0 ≤ la_elapsed d;
  la_count_law d :
    let '(v, d') := read32 d (base + LAPIC_REG_CURRENT_COUNT) in
    0 ≤ v < 2 ^ 32 ∧
    (la_elapsed d ≤ la_reg d LAPIC_REG_INITIAL_COUNT → v = la_reg d LAPIC_REG_INITIAL_COUNT - la_elapsed d) ∧
    ∀ x, la_reg d' x = la_reg d x;
}.

(** The timer chip's channel 2: the bytes of its count since the last command,
    and how many polls its output is still low. The two devices are apart. *)
Class Pit (D : Type) (base : Z) `{LocalApic D base} `{PortIO D} := {
  pit_bytes : D → list Z;
  pit_left : D → nat;
  pit_bound : nat;

  pit_left_bound d : (pit_left d ≤ pit_bound)%nat;
  pit_poll d :
    let '(v, d') := inb d PIT_GATE_SPEAKER_PORT in
    (Z.land v 0x20 ≠ 0 ↔ pit_left d = O) ∧ pit_left d' = pred (pit_left d) ∧ pit_bytes d' = pit_bytes d ∧
    ∀ x, la_reg d' x = la_reg d x;
  pit_gate d v :
    let d' := outb d PIT_GATE_SPEAKER_PORT v in pit_bytes d' = pit_bytes d ∧ ∀ x, la_reg d' x = la_reg d x;
  pit_command d :
    let d' := outb d PIT_COMMAND_PORT 0xb0 in pit_bytes d' = [] ∧ ∀ x, la_reg d' x = la_reg d x;
  pit_data d v :
    let d' := outb d PIT_CHANNEL2_PORT v in pit_bytes d' = pit_bytes d ++ [v] ∧ ∀ x, la_reg d' x = la_reg d x;
  pit_mmio_write d a v : pit_bytes (write32 d a v) = pit_bytes d;
  pit_mmio_read d a : pit_bytes (snd (read32 d a)) = pit_bytes d;
}.

(** ** Lemmas *)

Section spec.
Context {D : Type} `{Mmio D} (base : Z) `{!LocalApic D base}.

Lemma plain_offset r : r ∈ lapic_plain → r / 4 * 4 = r.
Proof.
  intros Hr. assert (Hall : Forall (λ r, r / 4 * 4 = r) lapic_plain) by (repeat constructor).
  rewrite Forall_forall in Hall. by apply Hall.
Qed.

Lemma lapic_write_spec d r v :
  r ∈ lapic_plain → 0 ≤ v < 2 ^ 32 →
  let d' := lapic_write base d r v in
  (∀ x, la_reg d' x = if x =? r then v else la_reg d x) ∧ la_in_service d' = la_in_service d.
Proof. intros Hr Hv. unfold lapic_write. rewrite plain_offset by done. by apply la_write_law. Qed.

(** The value of a timer entry. *)
Definition lvt_value (vector : Z) (periodic masked : bool) : Z :=
  let value := if periodic then Z.lor vector LAPIC_TIMER_PERIODIC else vector in
  if masked then Z.lor value LAPIC_LVT_MASKED else value.

Lemma lvt_range vector periodic masked : 0 ≤ vector < 256 → 0 ≤ lvt_value vector periodic masked < 2 ^ 32.
Proof.
  intros Hv. unfold lvt_value, LAPIC_TIMER_PERIODIC, LAPIC_LVT_MASKED. rewrite !Z.shiftl_1_l.
  destruct periodic, masked; (split; [rewrite ?Z.lor_nonneg; lia|]); try lia;
    repeat (apply lor_below; [lia|..]); rewrite ?Z.lor_nonneg; try lia.
  split; [lia|]. apply lor_below; lia.
Qed.

Lemma lvt_running vector : 0 ≤ vector < 256 → lvt_value vector true false = vector + 2 ^ 17.
Proof.
  intros Hv. unfold lvt_value, LAPIC_TIMER_PERIODIC. rewrite Z.lor_comm, lor_shift_add by lia. lia.
Qed.

(** [lapic_setup] masks every local source and enables the APIC with the
    spurious vector. *)
Lemma lapic_setup_spec d :
  let d' := lapic_setup base d in
  la_reg d' LAPIC_REG_LVT_TIMER = 2 ^ 16 ∧ la_reg d' LAPIC_REG_LVT_LINT0 = 2 ^ 16 ∧
  la_reg d' LAPIC_REG_LVT_LINT1 = 2 ^ 16 ∧ la_reg d' LAPIC_REG_LVT_ERROR = 2 ^ 16 ∧
  la_reg d' LAPIC_REG_SVR = 0x1ff ∧ la_in_service d' = la_in_service d.
Proof.
  unfold lapic_setup. cbv zeta.
  destruct (lapic_write_spec d LAPIC_REG_LVT_TIMER LAPIC_LVT_MASKED) as [W1 I1]; [set_solver|by vm_compute|].
  set (d1 := lapic_write base d _ _) in *.
  destruct (lapic_write_spec d1 LAPIC_REG_LVT_LINT0 LAPIC_LVT_MASKED) as [W2 I2]; [set_solver|by vm_compute|].
  set (d2 := lapic_write base d1 _ _) in *.
  destruct (lapic_write_spec d2 LAPIC_REG_LVT_LINT1 LAPIC_LVT_MASKED) as [W3 I3]; [set_solver|by vm_compute|].
  set (d3 := lapic_write base d2 _ _) in *.
  destruct (lapic_write_spec d3 LAPIC_REG_LVT_ERROR LAPIC_LVT_MASKED) as [W4 I4]; [set_solver|by vm_compute|].
  set (d4 := lapic_write base d3 _ _) in *.
  destruct (lapic_write_spec d4 LAPIC_REG_SVR (Z.lor LAPIC_SVR_SOFTWARE_ENABLE LAPIC_SPURIOUS_VECTOR)) as [W5 I5]; [set_solver|by vm_compute|].
  split_and!; try (rewrite W5; cbn; rewrite ?W4; cbn; rewrite ?W3; cbn; rewrite ?W2; cbn; rewrite ?W1; reflexivity).
  by rewrite I5, I4, I3, I2, I1.
Qed.

(** An end of interrupt retires exactly one interrupt. *)
Lemma lapic_send_eoi_spec d :
  la_in_service (lapic_send_eoi base d) = tail (la_in_service d) ∧ ∀ x, la_reg (lapic_send_eoi base d) x = la_reg d x.
Proof. apply la_eoi_law. Qed.
End spec.

Section calibration.
Context {D : Type} `{Mmio D} (base : Z) `{!LocalApic D base} `{!PortIO D} `{!Pit D base}.

(** The wait for the interval's end: the gate port is read as long as the
    output of channel 2 is low, [d'] is the devices after the first read that
    finds it high. *)
Inductive pit_wait : D → D → Prop :=
  | wait_high d v d' : inb d PIT_GATE_SPEAKER_PORT = (v, d') → Z.testbit v 5 = true → pit_wait d d'
  | wait_low d v d1 d' :
      inb d PIT_GATE_SPEAKER_PORT = (v, d1) → Z.testbit v 5 = false → pit_wait d1 d' → pit_wait d d'.

(** [f] is the frequency a calibration measures: the divisor is 16 and the
    count starts from its maximum at the moment [d] the PIT has been given the
    11930 ticks of its 1.193182 MHz clock that make 10 ms, and [f] is a hundred
    times the ticks the timer has counted at the moment [d'] the PIT's output
    is seen high. *)
Definition measured (f : Z) : Prop :=
  ∃ d d', la_reg d LAPIC_REG_INITIAL_COUNT = 0xffffffff ∧ la_elapsed d = 0 ∧
    la_reg d LAPIC_REG_DIVIDE_CONFIG = LAPIC_TIMER_DIVIDE_16 ∧ pit_bytes d = [11930 mod 256; 11930 / 256] ∧
    pit_wait d d' ∧ 0 ≤ f < 2 ^ 32 ∧ (la_elapsed d' < 2 ^ 32 → f = la_elapsed d' * 100 mod 2 ^ 32).

Lemma land_bit5 v : (Z.land v 0x20 =? 0) = negb (Z.testbit v 5).
Proof.
  change 0x20 with (2 ^ 5). destruct (Z.testbit v 5) eqn:Hv; cbn [negb].
  - apply Z.eqb_neq. intros Hz. apply (f_equal (λ z, Z.testbit z 5)) in Hz. by rewrite Z.land_spec, Z.pow2_bits_true, Hv in Hz.
  - apply Z.eqb_eq. apply Z.bits_inj'. intros n Hn. rewrite Z.land_spec, Z.bits_0.
    destruct (decide (n = 5)) as [->|Hne]; [by rewrite Hv|]. rewrite Z.pow2_bits_false by lia. by rewrite andb_false_r.
Qed.

Lemma wait_out2_spec fuel d :
  (pit_left d < fuel)%nat →
  ∃ d', wait_out2 fuel d = Ok d' ∧ pit_wait d d' ∧ pit_bytes d' = pit_bytes d ∧ ∀ x, la_reg d' x = la_reg d x.
Proof.
  revert d. induction fuel as [|fuel IH]; intros d Hf; [lia|]. cbn [wait_out2].
  pose proof (pit_poll d) as Hp. destruct (inb d _) as [v d1] eqn:Hin. destruct Hp as (Hbit & Hl & Hb & Hr).
  pose proof (land_bit5 v) as H5. destruct (Z.eqb_spec (Z.land v 0x20) 0) as [Hz|Hz].
  - destruct (pit_left d) as [|n] eqn:Hn; [by destruct (proj2 Hbit eq_refl)|]. simpl in Hl.
    destruct (IH d1) as (d' & Hw & Hp & Hb' & Hr'); [lia|]. exists d'. split; [done|].
    split; [apply (wait_low d v d1 d' Hin); [by destruct (Z.testbit v 5)|done]|]. split; [congruence|].
    intros x. by rewrite Hr'.
  - exists d1. split; [done|]. split; [|done]. apply (wait_high d v d1 Hin). by destruct (Z.testbit v 5).
Qed.

(** The calibration's set-up, up to the polling loop. *)
Lemma program_pit d :
  let '(v, d1) := inb d PIT_GATE_SPEAKER_PORT in
  let d2 := outb d1 PIT_GATE_SPEAKER_PORT (u8 (Z.lor (Z.land v 0xfc) 0x01)) in
  let d3 := outb d2 PIT_COMMAND_PORT 0xb0 in
  let d4 := outb d3 PIT_CHANNEL2_PORT 0x9a in
  let d5 := outb d4 PIT_CHANNEL2_PORT 0x2e in
  pit_bytes d5 = [0x9a; 0x2e] ∧ ∀ x, la_reg d5 x = la_reg d x.
Proof.
  pose proof (pit_poll d) as Hp. destruct (inb d _) as [v d1]. destruct Hp as (_ & _ & _ & R1).
  destruct (pit_gate d1 (u8 (Z.lor (Z.land v 0xfc) 0x01))) as [_ R2].
  destruct (pit_command (outb d1 PIT_GATE_SPEAKER_PORT (u8 (Z.lor (Z.land v 0xfc) 0x01)))) as [B3 R3].
  cbv zeta. set (d3 := outb (outb d1 _ _) PIT_COMMAND_PORT 0xb0) in *.
  destruct (pit_data d3 0x9a) as [B4 R4]. destruct (pit_data (outb d3 PIT_CHANNEL2_PORT 0x9a) 0x2e) as [B5 R5].
  split; [by rewrite B5, B4, B3|]. intros x. by rewrite R5, R4, R3, R2, R1.
Qed.

Lemma calibrate_spec fuel d vector hz :
  (pit_bound < fuel)%nat → 0 ≤ vector < 256 → 0 ≤ hz < 2 ^ 32 →
  ∃ d' f, measured f ∧
    lapic_timer_calibrate_and_start base fuel d vector hz = (if hz =? 0 then UB else Ok (f, d')) ∧
    (hz ≠ 0 → la_reg d' LAPIC_REG_INITIAL_COUNT = f / hz ∧ la_reg d' LAPIC_REG_LVT_TIMER = vector + 2 ^ 17 ∧
       la_reg d' LAPIC_REG_DIVIDE_CONFIG = LAPIC_TIMER_DIVIDE_16 ∧ pit_bytes d' = [0x9a; 0x2e] ∧
       ∀ x, x ∉ [LAPIC_REG_INITIAL_COUNT; LAPIC_REG_LVT_TIMER; LAPIC_REG_DIVIDE_CONFIG] → la_reg d' x = la_reg d x).
Proof.
  intros Hf Hv Hhz. unfold lapic_timer_calibrate_and_start.
  change (u8 (Z.land (u16 (PIT_FREQUENCY_HZ / 1000 * CALIBRATION_MS)) 0xff)) with 0x9a.
  change (u8 (Z.shiftr (u16 (PIT_FREQUENCY_HZ / 1000 * CALIBRATION_MS)) 8)) with 0x2e.
  change (1000 / CALIBRATION_MS) with 100.
  destruct (lapic_write_spec base d LAPIC_REG_DIVIDE_CONFIG LAPIC_TIMER_DIVIDE_16) as [W1 _]; [set_solver|by vm_compute|].
  change (lapic_write base d LAPIC_REG_DIVIDE_CONFIG LAPIC_TIMER_DIVIDE_16) with (lapic_timer_set_divide_16 base d) in W1.
  set (d1 := lapic_timer_set_divide_16 base d) in *.
  destruct (lapic_write_spec base d1 LAPIC_REG_LVT_TIMER (lvt_value vector true true)) as [W2 _]; [set_solver|by apply lvt_range|].
  change (lapic_write base d1 LAPIC_REG_LVT_TIMER _) with (lapic_timer_set_lvt base d1 vector true true) in W2.
  set (d2 := lapic_timer_set_lvt base d1 vector true true) in *.
  pose proof (program_pit d2) as Hpit. destruct (inb d2 PIT_GATE_SPEAKER_PORT) as [v d3]. cbv zeta in Hpit |- *.
  destruct Hpit as [B7 R7]. set (d7 := outb _ PIT_CHANNEL2_PORT 0x2e) in *.
  destruct (wait_out2_spec fuel (lapic_timer_set_initial_count base d7 0xffffffff)) as (d9 & -> & P9 & B9 & R9);
    [pose proof (pit_left_bound (lapic_timer_set_initial_count base d7 0xffffffff)); lia|].
  destruct (lapic_write_spec base d7 LAPIC_REG_INITIAL_COUNT 0xffffffff) as [W8 _]; [set_solver|by vm_compute|].
  change (lapic_write base d7 LAPIC_REG_INITIAL_COUNT 0xffffffff) with (lapic_timer_set_initial_count base d7 0xffffffff) in W8.
  set (d8 := lapic_timer_set_initial_count base d7 0xffffffff) in *. cbn [mbind res_bind].
  assert (B8 : pit_bytes d8 = pit_bytes d7) by apply pit_mmio_write.
  unfold lapic_timer_get_current_count, lapic_read. change (LAPIC_REG_CURRENT_COUNT / 4 * 4) with LAPIC_REG_CURRENT_COUNT.
  pose proof (la_count_law (base := base) d9) as Hc. pose proof (pit_mmio_read d9 (base + LAPIC_REG_CURRENT_COUNT)) as B10.
  destruct (read32 d9 _) as [current d10]. destruct Hc as (Hcur & Hcnt & R10). simpl in B10.
  set (f := u32 (u32 (0xffffffff - current) * 100)).
  assert (Hm : measured f).
  { exists d8, d9. split_and!; [rewrite W8; reflexivity | by apply la_initial_law | | by rewrite B8 | exact P9 | apply u32_range | apply u32_range |].
    - rewrite W8, R7, W2, W1. reflexivity.
    - intros He. assert (Hi9 : la_reg d9 LAPIC_REG_INITIAL_COUNT = 0xffffffff) by (rewrite R9, W8; reflexivity).
      rewrite Hi9 in Hcnt. pose proof (la_elapsed_nonneg (base := base) d9). unfold f. rewrite Hcnt by lia.
      replace (0xffffffff - (0xffffffff - la_elapsed d9)) with (la_elapsed d9) by lia. rewrite (u32_small (la_elapsed d9)) by lia.
      reflexivity. }
  destruct (Z.eqb_spec hz 0) as [->|Hne]; [by exists d10, f|].
  assert (Hfr : 0 ≤ f / hz < 2 ^ 32).
  { pose proof (u32_range (u32 (0xffffffff - current) * 100)) as Hr. fold f in Hr. split; [apply Z.div_pos; lia|].
    apply Z.div_lt_upper_bound; nia. }
  destruct (lapic_write_spec base d10 LAPIC_REG_INITIAL_COUNT (f / hz)) as [W11 _]; [set_solver|done|].
  change (lapic_write base d10 LAPIC_REG_INITIAL_COUNT (f / hz)) with (lapic_timer_set_initial_count base d10 (f / hz)) in W11.
  set (d11 := lapic_timer_set_initial_count base d10 (f / hz)) in *.
  destruct (lapic_write_spec base d11 LAPIC_REG_LVT_TIMER (lvt_value vector true false)) as [W12 _]; [set_solver|by apply lvt_range|].
  change (lapic_write base d11 LAPIC_REG_LVT_TIMER _) with (lapic_timer_set_lvt base d11 vector true false) in W12.
  set (d12 := lapic_timer_set_lvt base d11 vector true false) in *.
  exists d12, f. split; [exact Hm|]. split; [done|]. intros _. split_and!.
  - rewrite W12, W11. reflexivity.
  - rewrite W12, <-lvt_running by done. reflexivity.
  - rewrite W12, W11, R10, R9, W8, R7, W2, W1. reflexivity.
  - unfold d12, lapic_timer_set_lvt, d11, lapic_timer_set_initial_count, lapic_write. rewrite !pit_mmio_write. congruence.
  - intros x Hx. rewrite !elem_of_cons, elem_of_nil in Hx. rewrite W12, W11, R10, R9, W8, R7, W2, W1.
    by rewrite !(proj2 (Z.eqb_neq x _)) by tauto.
Qed.
End calibration.

(** ** Properties *)

(** C40: the calibration always ends and programs the timer from what it
    measured: with the divisor 16 the count is started from 0xffffffff right
    after the PIT has been given 11930 ticks of its 1.193182 MHz clock (10 ms),
    the PIT's output is polled until it is high, and the frequency reported is a
    hundred times the ticks the APIC has counted by then ([la_elapsed] of the
    devices at that moment), modulo 2^32: exact below 2^32 / 100 ticks in the
    interval, wrapping from there on. The timer is left running, periodic and
    unmasked on [vector] with the divisor 16 and the largest count that is not
    slower than [frequency_hz] asks for; a [frequency_hz] of 0 divides by
    zero. *)
Theorem lapic_timer_correct {D : Type} `{Mmio D} (base : Z) `{!LocalApic D base} `{!PortIO D} `{!Pit D base}
    fuel (d : D) vector hz :
  (pit_bound < fuel)%nat → 0 ≤ vector < 256 → 0 ≤ hz < 2 ^ 32 →
  (hz = 0 → lapic_timer_calibrate_and_start base fuel d vector hz = UB) ∧
  (hz ≠ 0 → ∃ d' f d0 d1,
     lapic_timer_calibrate_and_start base fuel d vector hz = Ok (f, d') ∧
     la_reg d0 LAPIC_REG_INITIAL_COUNT = 0xffffffff ∧ la_elapsed d0 = 0 ∧
     la_reg d0 LAPIC_REG_DIVIDE_CONFIG = LAPIC_TIMER_DIVIDE_16 ∧ pit_bytes d0 = [11930 mod 256; 11930 / 256] ∧
     pit_wait d0 d1 ∧
     (la_elapsed d1 < 2 ^ 32 → f = la_elapsed d1 * 100 mod 2 ^ 32) ∧
     (la_elapsed d1 < 42949673 → f = la_elapsed d1 * 100) ∧
     la_reg d' LAPIC_REG_INITIAL_COUNT * hz ≤ f < (la_reg d' LAPIC_REG_INITIAL_COUNT + 1) * hz ∧
     la_reg d' LAPIC_REG_LVT_TIMER = vector + 2 ^ 17 ∧
     la_reg d' LAPIC_REG_DIVIDE_CONFIG = LAPIC_TIMER_DIVIDE_16).
Proof.
  intros Hf Hv Hhz. destruct (calibrate_spec base fuel d vector hz Hf Hv Hhz) as (d' & f & Hm & Hcal & Hregs).
  split; [intros ->; exact Hcal|]. intros Hne. rewrite (proj2 (Z.eqb_neq hz 0) Hne) in Hcal.
  destruct (Hregs Hne) as (Hi & Hl & Hd & _ & _). destruct Hm as (d0 & d1 & Hi0 & He0 & Hd0 & Hp0 & Hw & Hfr & Hfe).
  pose proof (Z.mul_div_le f hz ltac:(lia)). pose proof (Z.mul_succ_div_gt f hz ltac:(lia)).
  pose proof (la_elapsed_nonneg (base := base) d1).
  exists d', f, d0, d1. split_and!; try done; [|rewrite Hi; nia..].
  intros Hs. rewrite Hfe by lia. apply Z.mod_small. lia.
Qed.

(** ** Witnesses: a device pair with a million ticks in the interval *)

Record ref_apic (base : Z) :=
  mk_ref_apic { ra_regs : gmap Z Z; ra_service : list Z; ra_pit : list Z; ra_left : bool; ra_elapsed : N }.
Arguments mk_ref_apic {base}.
Arguments ra_regs {base}.
Arguments ra_service {base}.
Arguments ra_pit {base}.
Arguments ra_left {base}.
Arguments ra_elapsed {base}.

#[export] Instance ref_apic_mmio base : Mmio (ref_apic base) := {|
  read32 d a :=
    if a =? base + LAPIC_REG_CURRENT_COUNT
    then (u32 (u32 (default 0 (ra_regs d !! LAPIC_REG_INITIAL_COUNT)) - Z.of_N (ra_elapsed d)), d)
    else (0x1000000, d);
  write32 d a v :=
    if a =? base + LAPIC_REG_EOI
    then mk_ref_apic (ra_regs d) (tail (ra_service d)) (ra_pit d) (ra_left d) (ra_elapsed d)
    else mk_ref_apic (<[a - base := v]> (ra_regs d)) (ra_service d) (ra_pit d) (ra_left d)
           (if a =? base + LAPIC_REG_INITIAL_COUNT then 0%N else ra_elapsed d);
|}.

#[export] Instance ref_apic_ports base : PortIO (ref_apic base) := {|
  inb d p :=
    if ra_left d then (0x00, mk_ref_apic (ra_regs d) (ra_service d) (ra_pit d) false (ra_elapsed d + 1000000)%N)
    else (0x20, d);
  outb d p v :=
    if p =? PIT_COMMAND_PORT then mk_ref_apic (ra_regs d) (ra_service d) [] true (ra_elapsed d)
    else if p =? PIT_CHANNEL2_PORT then mk_ref_apic (ra_regs d) (ra_service d) (ra_pit d ++ [v]) true (ra_elapsed d)
    else d;
|}.

#[export, program] Instance ref_apic_ok base : LocalApic (ref_apic base) base := {|
  la_reg d r := u32 (default 0 (ra_regs d !! r));
  la_in_service := ra_service;
  la_id := 1;
  la_elapsed d := Z.of_N (ra_elapsed d);
|}.
Next Obligation.
  intros base d r v Hr Hv. cbn [write32 ref_apic_mmio].
  assert (Hne : (base + r =? base + LAPIC_REG_EOI) = false).
  { apply Z.eqb_neq. intros Heq. assert (r = LAPIC_REG_EOI) as -> by lia. revert Hr. apply (bool_decide_unpack _). vm_compute. exact I. }
  rewrite Hne. replace (base + r - base) with r by lia. cbn [ra_regs ra_service]. split; [|done].
  intros x. destruct (Z.eqb_spec x r) as [->|Hx]; [|by rewrite lookup_insert_ne].
  rewrite lookup_insert_eq. by apply u32_small.
Qed.
Next Obligation. intros base d. cbn [write32 ref_apic_mmio]. by rewrite Z.eqb_refl. Qed.
Next Obligation.
  intros base d. cbn [read32 ref_apic_mmio].
  rewrite (proj2 (Z.eqb_neq (base + LAPIC_REG_ID) (base + LAPIC_REG_CURRENT_COUNT)))
    by (unfold LAPIC_REG_ID, LAPIC_REG_CURRENT_COUNT; lia). done.
Qed.
Next Obligation.
  intros base d v _. cbn [write32 ref_apic_mmio].
  rewrite (proj2 (Z.eqb_neq (base + LAPIC_REG_INITIAL_COUNT) (base + LAPIC_REG_EOI)))
    by (unfold LAPIC_REG_INITIAL_COUNT, LAPIC_REG_EOI; lia). by rewrite Z.eqb_refl.
Qed.
Next Obligation. intros base d. cbn beta. lia. Qed.
Next Obligation.
  intros base d. cbn [read32 ref_apic_mmio]. rewrite Z.eqb_refl. split; [apply u32_range|]. split; [|done].
  intros He. pose proof (u32_range (default 0 (ra_regs d !! LAPIC_REG_INITIAL_COUNT))). apply u32_small. lia.
Qed.

#[export, program] Instance ref_pit_ok base : Pit (ref_apic base) base := {|
  pit_bytes := ra_pit;
  pit_left d := if ra_left d then 1%nat else O;
  pit_bound := 1;
|}.
Next Obligation. intros base d. cbn beta. destruct (ra_left d); lia. Qed.
Next Obligation. intros base [r s p [] n]; cbn; (split; [split; intros Hz; (done || discriminate)|]); by split_and!. Qed.
Next Obligation. done. Qed.
Next Obligation. done. Qed.
Next Obligation. done. Qed.
Next Obligation. intros base d a v. cbn [write32 ref_apic_mmio]. by destruct (a =? _). Qed.
Next Obligation. intros base d a. cbn [read32 ref_apic_mmio]. by destruct (a =? _). Qed.

Definition ex_apic : ref_apic 0x1000 := mk_ref_apic ∅ [] [] false 0.

Lemma lapic_timer_correct_witness :
  ∃ d', lapic_timer_calibrate_and_start 0x1000 2 ex_apic 32 1000 = Ok (100000000, d') ∧
    la_reg d' LAPIC_REG_LVT_TIMER = 32 + 2 ^ 17.
Proof.
  destruct (lapic_timer_correct 0x1000 2 ex_apic 32 1000) as [_ Hok]; [cbn; lia | lia | lia |].
  destruct Hok as (d' & f & d0 & d1 & Hc & _ & _ & _ & _ & _ & _ & _ & _ & Hl & _); [lia|]. exists d'. split; [|exact Hl].
  assert (Hf : f = 100000000) by (vm_compute in Hc; injection Hc as Hf _; symmetry; exact Hf). rewrite <-Hf. exact Hc.
Defined.
