(* ===== verification/Timer.v ===== *)
(** * The system timer (kernel/drivers/timer/timer.c)

    [timer_init] composes the interrupt table, the calibration of the local
    APIC and the log; the tick handler is in Sched.v. *)

From S2P Require Import Prelude Word Mem CString BootInfo Isr Io Printf Console Serial Log Stack Sched Lapic.
From Stdlib Require Import Ascii.

Definition TIMER_VECTOR : Z := 32.
Definition TIMER_FREQUENCY_HZ : Z := 1000.

(** The format of the closing line. *)
Definition fmt_timer : list Z := lit "timer: lapic calibrated at %u Hz, ticking at %u Hz".

(** [fmt] is the address of the format; the devices of the log and of the
    calibration are apart. *)
Definition timer_init {D E : Type} `{PortIO D} `{Mmio E} `{PortIO E} (polls fuel : nat) (base fmt : Z)
    (handlers : handler_table) (e : E) (st : log D) : res (handler_table * E * log D) :=
  let handlers := interrupt_register_handler handlers TIMER_VECTOR h_timer_tick_handler in
  '(measured_hz, e) ← lapic_timer_calibrate_and_start base fuel e TIMER_VECTOR TIMER_FREQUENCY_HZ;
  st ← log_write polls st LOG_LEVEL_INFO fmt [measured_hz; TIMER_FREQUENCY_HZ];
  Ok (handlers, e, st).

(** The dispatcher's [run] for the timer: the state is the local APIC, the tick
    count and the scheduler's machine; [ra] is the return address of the call
    chain that [context_switch] leaves on the stack. *)
Definition run_timer {E : Type} (ra : Z) (h : handler) (frame : interrupt_frame) (s : E * Z * machine)
  : res (E * Z * machine) :=
  let '(e, ticks, M) := s in
  match h with
  | h_timer_tick_handler => '(ticks, M) ← timer_tick_handler ticks M ra; Ok (e, ticks, M)
  | _ => UB
  end.

Definition eoi_timer {E : Type} `{Mmio E} (base : Z) (s : E * Z * machine) : res (E * Z * machine) :=
  let '(e, ticks, M) := s in Ok (lapic_send_eoi base e, ticks, M).

(** ** Properties *)

Lemma timer_line (f : Z) :
  0 ≤ f < 2 ^ 32 →
  ∃ ds, parse_format fmt_timer = Some ds ∧
    render (λ _, None) ds [f; TIMER_FREQUENCY_HZ] =
      Some (lit "timer: lapic calibrated at " ++ number_text false 10 f ++ lit " Hz, ticking at 1000 Hz").
Proof.
  intros Hf. destruct (parse_format fmt_timer) as [ds|] eqn:Hp; [|vm_compute in Hp; discriminate].
  exists ds. split; [done|].
  assert (Hds : ds = (Text <$> lit "timer: lapic calibrated at ") ++ Spec false 0 false (ch "u") ::
    (Text <$> lit " Hz, ticking at ") ++ Spec false 0 false (ch "u") :: (Text <$> lit " Hz"))
    by (vm_compute in Hp; injection Hp as <-; reflexivity).
  rewrite Hds, render_texts. cbn [render]. change (takes_arg (ch "u")) with true. cbv iota.
  assert (Hc : ∀ a, 0 ≤ a < 2 ^ 32 → render_conv (λ _, None) false 0 false (ch "u") a = Some (number_text false 10 a)).
  { intros a Ha. unfold render_conv. change ((ch "u" =? ch "d") || (ch "u" =? ch "i")) with false. change (ch "u" =? ch "u") with true.
    cbv iota. rewrite u32_small by lia. unfold pad_left. by replace (Z.to_nat (0 - Z.of_nat (length (number_text false 10 a)))) with 0%nat by lia. }
  rewrite (Hc f Hf). cbn [mbind option_bind]. rewrite render_texts. cbn [render]. change (takes_arg (ch "u")) with true. cbv iota.
  rewrite (Hc TIMER_FREQUENCY_HZ) by (unfold TIMER_FREQUENCY_HZ; lia). cbn [mbind option_bind].
  rewrite <-(app_nil_r (Text <$> lit " Hz")), render_texts. done.
Qed.

(** [timer_init] in a run of output. *)
Lemma timer_init_spec {D E : Type} `{Uart D} `{Mmio E} (base : Z) `{!LocalApic E base} `{!PortIO E} `{!Pit E base}
    polls fuel rodata ls handlers (e : E) (st0 st : log D) scr out :
  (u_poll_bound < polls)%nat → (pit_bound < fuel)%nat → logged st0 scr out st →
  literals ls rodata (t_mem (l_tty st0)) (tty_bytes (l_tty st0)) → fmt_timer ∈ ls →
  level_number LOG_LEVEL_INFO <? level_number (min_level st0) = false →
  ∃ e' st' f, timer_init polls fuel base (rodata fmt_timer) handlers e st =
      Ok (<[TIMER_VECTOR := h_timer_tick_handler]> handlers, e', st') ∧
    measured (D := E) base f ∧ la_reg e' LAPIC_REG_LVT_TIMER = TIMER_VECTOR + 2 ^ 17 ∧
    la_reg e' LAPIC_REG_INITIAL_COUNT = f / TIMER_FREQUENCY_HZ ∧
    (∀ x, x ∉ [LAPIC_REG_INITIAL_COUNT; LAPIC_REG_LVT_TIMER; LAPIC_REG_DIVIDE_CONFIG] → la_reg e' x = la_reg e x) ∧
    logged st0 scr (out ++ [log_piece LOG_LEVEL_INFO (text no_strings fmt_timer [f; TIMER_FREQUENCY_HZ])]) st'.
Proof.
  intros Hpolls Hfuel Hlg Hls Hin Hlev.
  destruct (calibrate_spec base fuel e TIMER_VECTOR TIMER_FREQUENCY_HZ Hfuel) as (e' & f & Hm & Hcal & Hregs);
    [unfold TIMER_VECTOR; lia | unfold TIMER_FREQUENCY_HZ; lia |].
  change (TIMER_FREQUENCY_HZ =? 0) with false in Hcal. cbv iota in Hcal.
  destruct (Hregs ltac:(done)) as (Hi & Hl & _ & _ & Hr).
  destruct (log_logged polls Hpolls rodata ls st0 scr out st LOG_LEVEL_INFO fmt_timer [f; TIMER_FREQUENCY_HZ] Hlg Hls Hin)
    as (st' & Hw & Hlg'); [by vm_compute | exact Hlev |].
  exists e', st', f. unfold timer_init. rewrite Hcal. cbn [mbind res_bind]. rewrite Hw. cbn [mbind res_bind].
  split_and!; [done | exact Hm | exact Hl | exact Hi | exact Hr | exact Hlg'].
Qed.

(** [timer_init] starts the timer and says so: the tick handler is in the table
    under vector 32, the local APIC's timer runs periodically on that vector
    with the largest count not slower than 1000 Hz, and the line reports the
    frequency the count was computed from. *)
Theorem timer_init_correct {D E : Type} `{Uart D} `{Mmio E} (base : Z) `{!LocalApic E base} `{!PortIO E} `{!Pit E base}
    polls fuel fmt handlers (e : E) (st : log D) scr :
  (u_poll_bound < polls)%nat → (pit_bound < fuel)%nat → tty_ok (l_tty st) scr →
  level_number LOG_LEVEL_INFO <? level_number (min_level st) = false →
  cstr (t_mem (l_tty st)) fmt fmt_timer →
  (∀ x, in_range fmt (Z.of_nat (length fmt_timer) + 1) x → ¬ tty_bytes (l_tty st) x) →
  ∃ e' st' f, timer_init polls fuel base fmt handlers e st = Ok (<[TIMER_VECTOR := h_timer_tick_handler]> handlers, e', st') ∧
    measured (D := E) base f ∧
    la_reg e' LAPIC_REG_LVT_TIMER = TIMER_VECTOR + 2 ^ 17 ∧
    la_reg e' LAPIC_REG_INITIAL_COUNT * 1000 ≤ f < (la_reg e' LAPIC_REG_INITIAL_COUNT + 1) * 1000 ∧
    let line := log_line LOG_LEVEL_INFO
      (lit "timer: lapic calibrated at " ++ number_text false 10 f ++ lit " Hz, ticking at 1000 Hz") in
    u_line (device (t_serial (l_tty st'))) = u_line (device (t_serial (l_tty st))) ++
      (if serial_present (t_serial (l_tty st)) then crlf line else []).
Proof.
  intros Hpolls Hfuel Hok Hlev Hfmt Hdis.
  destruct (calibrate_spec base fuel e TIMER_VECTOR TIMER_FREQUENCY_HZ Hfuel) as (e' & f & Hm & Hcal & Hregs);
    [unfold TIMER_VECTOR; lia | unfold TIMER_FREQUENCY_HZ; lia |].
  change (TIMER_FREQUENCY_HZ =? 0) with false in Hcal. cbv iota in Hcal.
  destruct (Hregs ltac:(done)) as (Hi & Hl & _).
  assert (Hf : 0 ≤ f < 2 ^ 32) by by destruct Hm as (? & ? & _ & _ & _ & _ & _ & Hf & _).
  destruct (timer_line f Hf) as (ds & Hp & Hr).
  pose proof (log_write_spec polls Hpolls st scr LOG_LEVEL_INFO fmt fmt_timer ds (λ _, None) [f; TIMER_FREQUENCY_HZ] _ Hok Hfmt Hdis
    ltac:(discriminate) Hp Hr) as Hw.
  rewrite Hlev in Hw. destruct Hw as (t' & Hw & W). unfold timer_init. rewrite Hcal. cbn [mbind res_bind]. rewrite Hw.
  cbn [mbind res_bind]. eexists e', _, f. split; [reflexivity|]. split; [exact Hm|]. split; [exact Hl|]. split.
  - rewrite Hi. unfold TIMER_FREQUENCY_HZ. pose proof (Z.mul_div_le f 1000 ltac:(lia)).
    pose proof (Z.mul_succ_div_gt f 1000 ltac:(lia)). lia.
  - exact (wr_line _ _ _ _ _ W).
Qed.

(** A timer interrupt after [timer_init]: the end of interrupt is signalled
    first, so that a thread the handler switches to can be interrupted again;
    then the tick is counted and the scheduler told. *)
Theorem timer_interrupt {E : Type} `{Mmio E} (base : Z) `{!LocalApic E base} (handlers : handler_table) frame (e : E) ticks M ra :
  Frame.vector frame = TIMER_VECTOR →
  let h := interrupt_register_handler handlers TIMER_VECTOR h_timer_tick_handler in
  isr_dispatch (run_timer ra) (eoi_timer base) h frame (e, ticks, M) =
    (M ← sched_tick M ra; Ok (lapic_send_eoi base e, u64 (ticks + 1), M)) ∧
  la_in_service (lapic_send_eoi base e) = tail (la_in_service e).
Proof.
  intros Hv h. split; [|by apply lapic_send_eoi_spec]. unfold isr_dispatch. rewrite Hv.
  change (negb (TIMER_VECTOR <? 256)) with false. change (TIMER_VECTOR <? 32) with false. cbv iota.
  unfold h, interrupt_register_handler. change (u8 TIMER_VECTOR) with TIMER_VECTOR. rewrite lookup_insert_eq.
  cbn [eoi_timer mbind res_bind run_timer]. unfold timer_tick_handler. by destruct (sched_tick M ra).
Qed.
