(* ===== verification/Preempt.v ===== *)
(** * Preemption (isr_stubs.S, isr.c, timer.c, sched.c, context_switch.S together)

    A timer interrupt runs through all of the files at once: the processor and
    the stub save the interrupted thread on its kernel stack, [isr_dispatch]
    acknowledges the interrupt and calls the tick handler, the scheduler may
    switch to another thread in the middle of that call, and much later another
    switch comes back to it. Here the definitions of IsrStubs.v, Isr.v, Timer.v
    and Sched.v are composed in that order, with everything the other threads
    may do in between as a relation. *)

From S2P Require Import Prelude Word Mem Isr Io Stack Spinlock Sched Thread IsrStubs Lapic Timer.

(** ** The rest of the machine *)

(** The registers of a running thread [u]: on its stack, with the room a
    switch needs. *)
Definition runs_on (K : gmap Z (Z * Z)) (u : Z) (r : regs) : Prop :=
  Forall word64 (frame r) ∧ ∃ lo hi, K !! u = Some (lo, hi) ∧ lo + 56 ≤ rsp r ≤ hi.

(** What can happen while [t] is not running: the running thread computes, a
    timer tick is taken, a thread yields, a thread is created on a stack of its
    own. [K] is the stack each thread owns. *)
Inductive away (t : Z) (K : gmap Z (Z * Z)) (M : machine) : gmap Z (Z * Z) → machine → Prop :=
  | away_start : away t K M K M
  | away_run K1 M1 m r :
      away t K M K1 M1 → current (sc M1) ≠ t →
      modifies (not_others K1 (current (sc M1))) (mm M1) m → runs_on K1 (current (sc M1)) r →
      away t K M K1 (mk_machine m (sc M1) r)
  | away_tick K1 M1 ra M2 :
      away t K M K1 M1 → current (sc M1) ≠ t → word64 ra → sched_tick M1 ra = Ok M2 →
      away t K M K1 M2
  | away_yield K1 M1 ra M2 :
      away t K M K1 M1 → current (sc M1) ≠ t → word64 ra → sched_yield M1 ra = Ok M2 →
      away t K M K1 M2
  | away_create K1 M1 u th lo top c m s :
      away t K M K1 M1 → current (sc M1) ≠ t → threads (sc M1) !! u = None →
      (∀ v lo' hi', K1 !! v = Some (lo', hi') → hi' ≤ lo ∨ top ≤ lo') →
      (∀ v x, in_stack K1 v x → m !! x = mm M1 !! x) →
      0 ≤ lo → lo + 56 ≤ top → top < 2 ^ 64 → mapped m lo (top - lo) →
      suspended m (top - 56) c → Forall word64 (frame c) → stack_pointer th = top - 56 →
      sched_add_thread (put_thread (sc M1) u th) (rf (rg M1)) u = Ok (s, rf (rg M1)) →
      away t K M (<[u := (lo, top)]> K1) (mk_machine m s (rg M1)).

(** ** What the rest of the machine keeps of a thread *)

(** [t] owns [[lo, hi)], whose bytes are those of [m0], and will resume, or
    runs, with the context [c]. *)
Record held (t lo hi : Z) (m0 : mem) (c : regs) (K : gmap Z (Z * Z)) (M : machine)
    (l : list Z) (C : gmap Z regs) : Prop := {
  hd_rep : sched_rep M l C K;
  hd_in : t ∈ l;
  hd_stack : K !! t = Some (lo, hi);
  hd_bytes x : lo ≤ x < hi → mm M !! x = m0 !! x;
  hd_running : current (sc M) = t → same_context c (rg M);
  hd_waiting : current (sc M) ≠ t → C !! t = Some c;
}.

Lemma rotate_elem (l : list Z) t : t ∈ rotate l ↔ t ∈ l.
Proof. destruct l as [|a l]; simpl; [done|]. rewrite elem_of_app, elem_of_cons. set_solver. Qed.

Lemma held_switch t lo hi m0 c K M l C ra M2 :
  held t lo hi m0 c K M l C → current (sc M) ≠ t → word64 ra → switch_to_next M ra = Ok M2 →
  ∃ l' C', held t lo hi m0 c K M2 l' C'.
Proof.
  intros [Hrep Hin HK Hb _ Hw] Hcur Hra Hs.
  destruct (switch_to_next_spec M l C K ra Hrep Hra) as (M2' & Hs' & _ & _ & _ & Hmod & Hcase).
  rewrite Hs in Hs'. injection Hs' as <-.
  destruct Hcase as [(-> & _)|(Hne & (c' & Hc' & Hsame) & Hrep')]; [set_solver|].
  exists (rotate l), (<[current (sc M) := set_rip (rg M) ra]> C). constructor; [done | by apply rotate_elem | done | | |].
  - intros x Hx. rewrite <-(Hb x Hx). apply (modifies_lookup _ _ _ _ Hmod).
    intros [(lo2 & hi2 & HK2 & Hx2) _].
    destruct (sr_disjoint _ _ _ _ Hrep _ _ _ _ _ _ Hcur HK2 HK); lia.
  - intros Heq. rewrite Heq, (Hw Hcur) in Hc'. by injection Hc' as ->.
  - intros _. rewrite lookup_insert_ne by done. auto.
Qed.

Lemma held_ticks t lo hi m0 c K M l C k : held t lo hi m0 c K M l C → held t lo hi m0 c K (with_ticks M k) l C.
Proof. intros []. by constructor; [apply with_ticks_rep|..]. Qed.

(** A tick is counted, or it is a switch. *)
Lemma sched_tick_cases M ra :
  ∃ k, sched_tick M ra = Ok (with_ticks M k) ∨ sched_tick M ra = switch_to_next (with_ticks M k) ra.
Proof.
  exists (u64 (ticks_since_switch (sc M) + 1)). unfold sched_tick. fold (with_ticks M (u64 (ticks_since_switch (sc M) + 1))).
  destruct (_ <=? _); auto.
Qed.

Lemma held_away t lo hi m0 c K M l C K' M' :
  held t lo hi m0 c K M l C → away t K M K' M' → ∃ l' C', held t lo hi m0 c K' M' l' C'.
Proof.
  intros H0 Ha. induction Ha as [|K1 M1 m r _ (l1 & C1 & H1) Hne Hmod [Hw Hsp]|K1 M1 ra M2 _ (l1 & C1 & H1) Hne Hra Ht
    |K1 M1 ra M2 _ (l1 & C1 & H1) Hne Hra Ht|K1 M1 u th lo1 top1 c1 m s _ (l1 & C1 & H1) Hne Hu Hfar Hkeep L1 L2 L3 Hm Hsus Hw Hsp Hadd].
  - by exists l, C.
  - exists l1, C1. destruct H1 as [Hrep Hin HK Hb Hr Hwt]. constructor; [by apply run_rep | done..| | done | done].
    intros x Hx. rewrite <-(Hb x Hx). apply (modifies_lookup _ _ _ _ Hmod). intros Hno.
    apply (Hno t); [congruence|]. by exists lo, hi.
  - destruct (sched_tick_cases M1 ra) as (k & [Hk|Hk]); rewrite Hk in Ht.
    + injection Ht as <-. exists l1, C1. by apply held_ticks.
    + eapply held_switch; [apply (held_ticks _ _ _ _ _ _ _ _ _ k H1) | done | done | exact Ht].
  - by eapply held_switch.
  - destruct H1 as [Hrep Hin HK Hb Hr Hwt].
    assert (Hul : u ∉ l1) by (intros Hul; destruct (ring_thread _ _ _ _ (sr_ring _ _ _ _ Hrep) Hul); congruence).
    destruct (thread_added M1 l1 C1 K1 m u th lo1 top1 c1 Hrep Hul) as (s' & th' & Hadd' & Hrep' & _);
      [intros; eapply Hkeep; by eexists _, _ | done..|].
    rewrite Hadd in Hadd'. injection Hadd' as <-.
    assert (Hut : u ≠ t) by congruence.
    destruct (ring_cons _ _ _ (sr_ring _ _ _ _ Hrep)) as [l' Hl']. destruct (ring_cons _ _ _ (sr_ring _ _ _ _ Hrep')) as [l2 Hl2].
    assert (Hc : current s = current (sc M1)) by (simpl in Hl2; by injection Hl2).
    eexists _, _. constructor; [exact Hrep' | rewrite Hl' in *; set_solver | by rewrite lookup_insert_ne | | by simpl; rewrite Hc
      | simpl; rewrite lookup_insert_ne by done; auto].
    intros x Hx. rewrite <-(Hb x Hx). apply (Hkeep t). by exists lo, hi.
Qed.

(** ** Lemmas: the tick *)

(** What a tick leaves of the thread [t] it interrupts, in the middle of its
    handler with the registers [r]. *)
Lemma tick_held M l C K t lo hi r0 m rt :
  sched_rep M l C K → current (sc M) = t → K !! t = Some (lo, hi) → runs_on K t r0 →
  modifies (not_others K t) (mm M) m → word64 rt →
  ∃ M2 c l' C', sched_tick (mk_machine m (sc M) r0) rt = Ok M2 ∧
    held t lo hi (mm M2) c K M2 l' C' ∧ same_context (set_rip r0 (rip c)) c ∧
    ∀ x, lo ≤ x < hi → rsp r0 ≤ x → mm M2 !! x = m !! x.
Proof.
  intros Hrep <- HK [Hw Hsp] Hmod Hrt. set (M1 := mk_machine m (sc M) r0).
  assert (Hrep1 : sched_rep M1 l C K) by (by apply run_rep).
  assert (Hin : current (sc M) ∈ l) by (destruct (ring_cons _ _ _ (sr_ring _ _ _ _ Hrep)) as [l' ->]; left).
  destruct (sched_tick_cases M1 rt) as (k & [Hk|Hk]).
  - exists (with_ticks M1 k), r0, l, C. split_and!; [exact Hk | | by destruct r0 | done].
    constructor; [by apply with_ticks_rep | done..].
  - destruct (switch_to_next_spec (with_ticks M1 k) l C K rt (with_ticks_rep _ _ _ _ _ Hrep1) Hrt)
      as (M2 & Hs & _ & _ & _ & Hm2 & Hcase).
    assert (Hkept : ∀ x, lo ≤ x < hi → rsp r0 ≤ x → mm M2 !! x = m !! x).
    { intros x Hx Hr. rewrite (modifies_lookup _ _ _ _ Hm2); [done|]. intros [_ Hlt]. simpl in Hlt. lia. }
    destruct Hcase as [(Hl & Hmm & Hrg & Hrep2)|(Hne & _ & Hrep2)].
    + assert (Hcur : current (sc M2) = current (sc M)).
      { destruct (ring_cons _ _ _ (sr_ring _ _ _ _ Hrep2)) as [l' Hl']. rewrite Hl in Hl'. simpl in Hl'. by injection Hl'. }
      exists M2, r0, l, C. split_and!; [congruence | | by destruct r0 | done].
      constructor; [done | done | done | done | by rewrite Hrg | by rewrite Hcur].
    + eexists M2, (set_rip r0 rt), (rotate l), _. split_and!; [congruence | | by destruct r0 | done].
      constructor; [exact Hrep2 | by apply rotate_elem | done | done | by intros ?%Hne |].
      intros _. simpl. by rewrite lookup_insert_eq.
Qed.

(** ** Properties *)

(** C8: preemption is transparent. A thread [t], interrupted by the timer in
    ring 0 on its own stack or in ring 3 with that stack in the TSS, reaches
    the tick handler, which never faults: the interrupt is acknowledged and the
    tick counted. Whatever then happens while [t] is not running - other
    threads computing on all memory but the stacks of the others, yielding,
    being preempted and being created - once [t] is current again the C code
    goes on from where the handler left off, with its stack pointer and its
    callee-saved registers, and when it returns the thread resumes with every
    register, its flags and its stack as they were, and the scheduler is in
    order. The C code of the call writes its own part of the stack only, below
    the stub's frame. *)
Theorem preemption_transparent {E : Type} `{Mmio E} (base : Z) `{!LocalApic E base} (e : E) ticks handlers
    M l C K t lo hi c rsp0 sp ra :
  sched_rep M l C K → current (sc M) = t → K !! t = Some (lo, hi) →
  handlers !! TIMER_VECTOR = Some h_timer_tick_handler →
  sp = entry_stack c rsp0 → lo + 240 ≤ sp ≤ hi →
  Forall word64 (ra :: pushed (gp c) ++ [c_rip c; c_cs c; c_rflags c; c_rsp c; c_ss c]) →
  ∃ m1 f, modifies (in_range (sp - 184) 184) (mm M) m1 ∧ read_frame m1 (sp - 176) = Ok f ∧
    ∀ m2 r rt, modifies (in_range lo (sp - 184 - lo)) m1 m2 → Forall word64 (frame r) →
      lo + 56 ≤ rsp r ≤ sp - 184 → word64 rt →
      ∃ M2, isr_dispatch (run_timer rt) (eoi_timer base) handlers f (e, ticks, mk_machine m2 (sc M) r) =
          Ok (lapic_send_eoi base e, u64 (ticks + 1), M2) ∧
        sched_tick (mk_machine m2 (sc M) r) rt = Ok M2 ∧
        ∀ K' M3, away t K M2 K' M3 → current (sc M3) = t →
          same_context (set_rip r (rip (rg M3))) (rg M3) ∧
          ∀ m4 dispatch, modifies (in_range lo (sp - 184 - lo)) (mm M3) m4 → dispatch m1 (sp - 176) = Ok m4 →
            interrupt dispatch ra (mm M) c rsp0 None (irq 0) = Ok (m4, c) ∧
            ∃ l' C', ∀ r', runs_on K' t r' → sched_rep (mk_machine m4 (sc M3) r') l' C' K'.
Proof.
  intros Hrep Hcur HK Hh Hsp Hr Hw. apply Forall_cons in Hw as [Hra Hw]. apply Forall_app in Hw as [Hw1 Hw2].
  assert (Hin : t ∈ l) by (destruct (ring_cons _ _ _ (sr_ring _ _ _ _ Hrep)) as [l' ->]; rewrite Hcur; left).
  destruct (sr_stack _ _ _ _ Hrep t Hin) as (lo' & hi' & HK' & Hlo & Hhi & Hmap). rewrite HK in HK'. injection HK' as <- <-.
  assert (Hown : ∀ x, lo ≤ x < hi → not_others K t x).
  { intros x Hx u Hu (lo2 & hi2 & HK2 & Hx2). destruct (sr_disjoint _ _ _ _ Hrep _ _ _ _ _ _ Hu HK2 HK); lia. }
  destruct (entry_spec (mm M) c rsp0 TIMER_VECTOR None (irq 0) sp) as (m0 & He & D0 & S0);
    [unfold TIMER_VECTOR; lia | done | split; [intros []; done | intros [? ?]; unfold TIMER_VECTOR in *; lia] | done | lia
    | eapply mapped_sub; [exact Hmap|lia|lia] | constructor; [unfold word64, TIMER_VECTOR; lia|];
      constructor; [unfold word64; simpl; lia | done] |].
  destruct (isr_common_spec ra m0 (sp - 56) (gp c) TIMER_VECTOR 0 (c_rip c) (c_cs c) (c_rflags c) (c_rsp c) (c_ss c))
    as (m1 & D1 & S1 & Hback); [lia|lia| eapply mapped_sub; [eapply modifies_mapped; [exact D0|exact Hmap]|lia|lia] | done..|].
  replace (sp - 56 - 120) with (sp - 176) in * by lia.
  destruct (read_frame_spec m1 (sp - 176) (rev (pushed (gp c))) TIMER_VECTOR 0 (c_rip c) (c_cs c) (c_rflags c) [c_rsp c; c_ss c])
    as (g' & _ & Hf); [done..|].
  assert (D01 : modifies (in_range (sp - 184) 184) (mm M) m1)
    by (etransitivity; (eapply modifies_mono; [|eassumption]); unfold in_range; lia).
  eexists m1, _. split; [exact D01|]. split; [exact Hf|]. intros m2 r rt D2 Hwr Hrsp Hrt.
  destruct (tick_held M l C K t lo hi r m2 rt) as (M2 & c2 & l2 & C2 & Ht & Hheld & Hsame & Hkept); try done.
  { split; [done|]. exists lo, hi. split; [done|lia]. }
  { etransitivity; (eapply modifies_mono; [|eassumption]); unfold in_range; intros x Hx; apply Hown; lia. }
  exists M2. split.
  { unfold isr_dispatch. cbn [Frame.vector]. change (negb (TIMER_VECTOR <? 256)) with false. change (TIMER_VECTOR <? 32) with false.
    cbv iota. rewrite Hh. cbn [eoi_timer mbind res_bind run_timer]. unfold timer_tick_handler. by rewrite Ht. }
  split; [exact Ht|]. intros K' M3 Haway Hcur3. destruct (held_away _ _ _ _ _ _ _ _ _ _ _ Hheld Haway) as (l3 & C3 & [Hrep3 Hin3 HK3 Hb3 Hr3 _]).
  pose proof (Hr3 Hcur3) as Hs3.
  assert (Hs : same_context (set_rip r (rip (rg M3))) (rg M3)).
  { destruct Hs3 as [Hf3 Hp3], Hsame as [Hf2 Hp2]. unfold same_context, frame, set_rip in *. simpl in *.
    injection Hf2 as -> -> -> -> -> ->. injection Hf3 as -> -> -> -> -> -> _. by rewrite Hp2, Hp3. }
  split; [exact Hs|]. intros m4 dispatch D4 Hd. split.
  - unfold interrupt. etransitivity; [apply (He _ (λ q, let '(m, sp) := q in isr_common_stub dispatch ra m sp (gp c)))|].
    cbn beta iota. rewrite (Hback dispatch m4 Hd); [by destruct c|]. intros x Hx. unfold in_range in Hx.
    rewrite (modifies_lookup _ _ _ _ D4) by (unfold in_range; lia).
    rewrite Hb3, Hkept by lia. apply (modifies_lookup _ _ _ _ D2). unfold in_range. lia.
  - exists l3, C3. intros r' [Hw' Hsp']. change (sc M3) with (sc (mk_machine m4 (sc M3) r')).
    apply (run_rep M3); [done | rewrite Hcur3 | done | by rewrite Hcur3].
    eapply modifies_mono; [|exact D4]. intros x Hx u Hu (lo2 & hi2 & HK2 & Hx2). unfold in_range in Hx.
    destruct (sr_disjoint _ _ _ _ Hrep3 _ _ _ _ _ _ Hu HK2 HK3); lia.
Qed.

(** ** Witness: three threads, the first at the end of its slice *)

Definition ex_apic : ref_apic 0x1000 := mk_ref_apic ∅ [TIMER_VECTOR] [] false 0.
Definition ex_handlers : handler_table := {[TIMER_VECTOR := h_timer_tick_handler]}.
Definition ex_last : machine := with_ticks ex_machine 9.
Definition ex_thread : cpu := mk_cpu ex_gprs 0x4000 0x08 0x202 0x10f8 0x10.
Definition ex_handler_regs : regs := Sched.ex_regs 0x1038.

Lemma ex_last_rep : sched_rep ex_last [1; 2; 3] ex_C ex_K.
Proof. apply with_ticks_rep, ex_rep. Qed.

(** The switch of the tick, and two yields back to the first thread. *)
Lemma ex_away m M2 :
  modifies (not_others ex_K 1) ex_stacks m →
  sched_tick (mk_machine m (sc ex_last) ex_handler_regs) 0x400 = Ok M2 →
  current (sc M2) = 2 ∧ ∃ M3, away 1 ex_K M2 ex_K M3 ∧ current (sc M3) = 1.
Proof.
  intros Hm Hd. assert (Hra : word64 0x400) by (unfold word64; lia).
  assert (Hrep : sched_rep (with_ticks (mk_machine m (sc ex_machine) ex_handler_regs) 10) [1; 2; 3] ex_C ex_K).
  { apply with_ticks_rep. apply (run_rep ex_machine _ _ _ m); [exact ex_rep | exact Hm | exact (ex_zero_frame 0x1038) |].
    exists 0x1000, 0x1100. split; [reflexivity | simpl; lia]. }
  change (switch_to_next (with_ticks (mk_machine m (sc ex_machine) ex_handler_regs) 10) 0x400 = Ok M2) in Hd.
  destruct (switch_to_next_spec _ _ _ _ 0x400 Hrep Hra) as (M2' & Hs & _ & _ & Hh & _ & Hc).
  rewrite Hd in Hs. injection Hs as <-. simpl in Hh. injection Hh as Hh. split; [done|].
  destruct Hc as [[[=] _]|(_ & _ & Hrep2)]. simpl in Hrep2.
  destruct (switch_to_next_spec _ _ _ _ 0x400 Hrep2 Hra) as (M3 & Hs3 & _ & _ & Hh3 & _ & Hc3).
  simpl in Hh3. injection Hh3 as Hh3. destruct Hc3 as [[[=] _]|(_ & _ & Hrep3)]. simpl in Hrep3.
  destruct (switch_to_next_spec _ _ _ _ 0x400 Hrep3 Hra) as (M4 & Hs4 & _ & _ & Hh4 & _).
  simpl in Hh4. injection Hh4 as Hh4. exists M4. split; [|done].
  apply (away_yield _ _ _ _ M3 0x400); [|congruence|done|exact Hs4].
  apply (away_yield _ _ _ _ M2 0x400); [apply away_start|congruence|done|exact Hs3].
Qed.

Lemma preemption_transparent_witness :
  ∃ m M2 M3, current (sc M2) = 2 ∧ away 1 ex_K M2 ex_K M3 ∧ current (sc M3) = 1 ∧
    interrupt (λ _ _, Ok m) 0x8000 ex_stacks ex_thread 0 None (irq 0) = Ok (m, ex_thread).
Proof.
  destruct (preemption_transparent 0x1000 ex_apic 0 ex_handlers ex_last [1; 2; 3] ex_C ex_K 1 0x1000 0x1100
    ex_thread 0 0x10f0 0x8000) as (m1 & f & D1 & _ & Hgo).
  - exact ex_last_rep.
  - reflexivity.
  - reflexivity.
  - reflexivity.
  - reflexivity.
  - lia.
  - repeat constructor; cbn; unfold word64; lia.
  - destruct (Hgo m1 ex_handler_regs 0x400) as (M2 & _ & Ht & Hback);
      [reflexivity | exact (ex_zero_frame 0x1038) | simpl; lia | unfold word64; lia |].
    destruct (ex_away m1 M2) as (Hc2 & M3 & Haway & Hc3).
    + eapply modifies_mono; [|exact D1]. intros x Hx u Hu (lo & hi & HK & Hx2). apply ex_K_lookup in HK.
      unfold in_range in Hx. lia.
    + exact Ht.
    + exists (mm M3), M2, M3. split; [exact Hc2|]. split; [exact Haway|]. split; [exact Hc3|].
      destruct (Hback ex_K M3 Haway Hc3) as (_ & Hret).
      destruct (Hret (mm M3) (λ _ _, Ok (mm M3)) ltac:(reflexivity) eq_refl) as (Hi & _). exact Hi.
Defined.
