(* ===== verification/Syscall.v ===== *)
(** * System calls and the way to ring 3 (kernel/arch/x86_64/cpu/syscall.c,
      syscall_entry.S)

    The entry code runs instruction by instruction between the processor's
    [syscall] and [sysretq] (SDM Vol. 2B); the two static words of the assembly
    file are memory at their addresses, and the C function it calls is an
    argument that keeps the ABI's promise. *)

From S2P Require Import Prelude Word Mem CString FrameAlloc Paging Vmm Io Stack Printf Console Serial Log Gdt IsrStubs.
From Stdlib Require Import Ascii.

(** A list of 64-bit words. *)
Ltac words64 := repeat (constructor; [first [assumption | unfold word64; lia]|]); constructor.

(** ** syscall.c *)

Definition IA32_EFER : Z := 0xc0000080.
Definition IA32_STAR : Z := 0xc0000081.
Definition IA32_LSTAR : Z := 0xc0000082.
Definition IA32_FMASK : Z := 0xc0000084.
Definition EFER_SCE : Z := Z.shiftl 1 0.
Definition FMASK_IF_TF : Z := 0x300.
Definition SYSCALL_KERNEL_STACK_PAGES : Z := 4.
Definition ENOSYS : Z := 38.

(** The format of the log line. *)
Definition fmt_enosys : list Z := lit "syscall: number %lu is not implemented (ENOSYS)".

(** The value is an [int64_t] in [%rax]; [fmt] is the address of the literal. *)
Definition syscall_dispatch {D : Type} `{PortIO D} (polls : nat) (fmt : Z) (st : log D) (syscall_number : Z)
  : res (Z * log D) :=
  st ← log_write polls st LOG_LEVEL_WARN fmt [syscall_number];
  Ok (u64 (- ENOSYS), st).

Section init.
Context {A D : Type} `{FrameAllocator A} `{Msr D}.
(** The addresses of the task-state segment, of [kernel_syscall_rsp] and of the
    entry code. *)
Context (tss kernel_syscall_rsp syscall_entry : Z).

(** Everything but the closing line of the log. *)
Definition syscall_setup (w : world A) (d : D) : res (world A * D) :=
  '(stack, w) ← vmm_alloc_guarded w SYSCALL_KERNEL_STACK_PAGES VMM_WRITABLE;
  if stack =? 0 then Panic "syscall: failed to allocate the kernel-entry stack"
  else
    let stack_top := u64 (stack + SYSCALL_KERNEL_STACK_PAGES * PAGE_SIZE) in
    m ← gdt_set_kernel_stack tss (w_mem w) stack_top;
    m ← store64 m kernel_syscall_rsp stack_top;
    let w := mk_world m (w_alloc w) (w_vmm w) (w_cr3 w) (w_invlpg w) (w_handlers w) in
    let efer := rdmsr d IA32_EFER in
    let d := wrmsr d IA32_EFER (Z.lor efer EFER_SCE) in
    let star := Z.lor (Z.shiftl GDT_KERNEL_DATA 48) (Z.shiftl GDT_KERNEL_CODE 32) in
    let d := wrmsr d IA32_STAR star in
    let d := wrmsr d IA32_LSTAR syscall_entry in
    let d := wrmsr d IA32_FMASK FMASK_IF_TF in
    Ok (w, d).

(** [fmt] is the address of the literal. *)
Definition fmt_syscall : list Z := lit "syscall: SYSCALL/SYSRET enabled, entry=%p".

Definition syscall_init {L : Type} `{PortIO L} (polls : nat) (fmt : Z) (w : world A) (d : D) (st : log L)
  : res (world A * D * log L) :=
  '(w, d) ← syscall_setup w d;
  st ← log_write polls st LOG_LEVEL_INFO fmt [syscall_entry];
  Ok (w, d, st).
End init.

(** ** syscall_entry.S *)

Definition set_rcx_r11 (g : gprs) (rcx r11 : Z) : gprs :=
  mk_gprs (g_rax g) (g_rbx g) rcx (g_rdx g) (g_rsi g) (g_rdi g) (g_rbp g) (g_r8 g) (g_r9 g) (g_r10 g) r11
    (g_r12 g) (g_r13 g) (g_r14 g) (g_r15 g).

Definition set_rdi (g : gprs) (rdi : Z) : gprs :=
  mk_gprs (g_rax g) (g_rbx g) (g_rcx g) (g_rdx g) (g_rsi g) rdi (g_rbp g) (g_r8 g) (g_r9 g) (g_r10 g) (g_r11 g)
    (g_r12 g) (g_r13 g) (g_r14 g) (g_r15 g).

Section entry.
(** The static words, the address after the call, and [syscall_dispatch] at
    the level of the registers. *)
Context (saved_user_rsp kernel_syscall_rsp ra : Z) (dispatch : mem → gprs → res (mem * gprs)).

(** Everything before [sysretq]: the registers and the stack pointer. *)
Definition syscall_entry_code (m : mem) (g : gprs) (rsp : Z) : res (mem * gprs * Z) :=
  m ← store64 m saved_user_rsp rsp;
  sp ← load64 m kernel_syscall_rsp;
  '(m, sp) ← push m sp (g_rcx g);
  '(m, sp) ← push m sp (g_r11 g);
  let g := set_rdi g (g_rax g) in
  '(m, sp) ← push m sp ra;
  '(m, g) ← dispatch m g;
  let sp := u64 (sp + 8) in
  '(r11, sp) ← pop m sp;
  '(rcx, sp) ← pop m sp;
  rsp ← load64 m saved_user_rsp;
  Ok (m, set_rcx_r11 g rcx r11, rsp).
End entry.

(** The low 16 bits of [%rax]; [mov $v, %ax] leaves the others alone. *)
Definition ax (g : gprs) : Z := Z.land (g_rax g) 0xffff.
Definition set_ax (g : gprs) (v : Z) : gprs :=
  mk_gprs (Z.lor (Z.land (g_rax g) (Z.lnot 0xffff)) v) (g_rbx g) (g_rcx g) (g_rdx g) (g_rsi g) (g_rdi g) (g_rbp g)
    (g_r8 g) (g_r9 g) (g_r10 g) (g_r11 g) (g_r12 g) (g_r13 g) (g_r14 g) (g_r15 g).

(** [mov %ax, %ds] and the same for [%es], [%fs] and [%gs]. *)
Definition set_data_segments (s : seg_regs) (selector : Z) : seg_regs :=
  mk_seg (gdtr_limit s) (gdtr_base s) (cs s) selector selector selector selector (ss s) (tr s).

(** [jump_to_ring3(entry, user_stack)], entered with the kernel's stack
    pointer. The code and stack selectors in ring 3 are those of [cpu], from the
    frame. *)
Definition jump_to_ring3 (m : mem) (g : gprs) (s : seg_regs) (rsp entry user_stack : Z) : res (cpu * seg_regs) :=
  let g := set_ax g 0x1b in
  let s := set_data_segments s (ax g) in
  '(m, sp) ← push_all m rsp [0x1b; user_stack; 0x202; 0x23; entry];
  c ← iretq m sp g;
  Ok (c, s).

(** ** The processor *)

(** A register file that keeps what is written. *)
Class MsrFile (D : Type) `{Msr D} := {
  msr_law d r v r' : rdmsr (wrmsr d r v) r' = if r' =? r then v else rdmsr d r';
}.

Section processor.
Context {D : Type} `{Msr D}.

Definition star_field (d : D) (shift : Z) : Z := rdmsr d IA32_STAR / 2 ^ shift mod 2 ^ 16.

(** [syscall], with [c_rip] at the next instruction; undefined when not
    enabled. *)
Definition cpu_syscall (d : D) (c : cpu) : res cpu :=
  if negb (Z.testbit (rdmsr d IA32_EFER) 0) then UB
  else Ok (mk_cpu (set_rcx_r11 (gp c) (c_rip c) (c_rflags c)) (rdmsr d IA32_LSTAR)
             (Z.land (star_field d 32) 0xfffc) (Z.land (c_rflags c) (Z.lnot (rdmsr d IA32_FMASK)))
             (c_rsp c) (star_field d 32 + 8)).

(** [sysretq]: the flags the user may set, bit 1 always. *)
Definition cpu_sysretq (d : D) (g : gprs) (rsp : Z) : cpu :=
  mk_cpu g (g_rcx g) (Z.lor (star_field d 48 + 16) 3) (Z.lor (Z.land (g_r11 g) 0x3c7fd7) 2) rsp
    (Z.lor (star_field d 48 + 8) 3).
End processor.

(** ** Lemmas *)

(** The System V ABI: what a C function leaves alone. *)
Definition callee_saved (g g' : gprs) : Prop :=
  g_rbx g' = g_rbx g ∧ g_rbp g' = g_rbp g ∧ g_r12 g' = g_r12 g ∧ g_r13 g' = g_r13 g ∧ g_r14 g' = g_r14 g ∧
  g_r15 g' = g_r15 g.

(** The machine after [syscall_init]. *)
Record syscall_ready {D : Type} `{Msr D} (d : D) (entry : Z) : Prop := {
  sy_efer : Z.testbit (rdmsr d IA32_EFER) 0 = true;
  sy_star : rdmsr d IA32_STAR = Z.lor (Z.shiftl GDT_KERNEL_DATA 48) (Z.shiftl GDT_KERNEL_CODE 32);
  sy_lstar : rdmsr d IA32_LSTAR = entry;
  sy_fmask : rdmsr d IA32_FMASK = FMASK_IF_TF;
}.

Lemma syscall_msrs {D : Type} `{MsrFile D} (d : D) entry :
  let d' := wrmsr (wrmsr (wrmsr (wrmsr d IA32_EFER (Z.lor (rdmsr d IA32_EFER) EFER_SCE)) IA32_STAR
    (Z.lor (Z.shiftl GDT_KERNEL_DATA 48) (Z.shiftl GDT_KERNEL_CODE 32))) IA32_LSTAR entry) IA32_FMASK FMASK_IF_TF in
  syscall_ready d' entry.
Proof.
  split; rewrite !msr_law; cbn [Z.eqb]; try reflexivity.
  change (IA32_EFER =? IA32_FMASK) with false. change (IA32_EFER =? IA32_LSTAR) with false.
  change (IA32_EFER =? IA32_STAR) with false. rewrite Z.eqb_refl. cbn iota. rewrite Z.lor_spec. apply orb_true_r.
Qed.

(** The selectors of [STAR] are those of gdt.h. *)
Lemma star_selectors {D : Type} `{Msr D} (d : D) entry :
  syscall_ready d entry →
  Z.land (star_field d 32) 0xfffc = GDT_KERNEL_CODE ∧ star_field d 32 + 8 = GDT_KERNEL_DATA ∧
  Z.lor (star_field d 48 + 16) 3 = Z.lor GDT_USER_CODE 3 ∧ Z.lor (star_field d 48 + 8) 3 = Z.lor GDT_USER_DATA 3.
Proof. intros Hs. unfold star_field. rewrite (sy_star _ _ Hs). by vm_compute. Qed.

Section roundtrip.
Context (saved_user_rsp kernel_syscall_rsp ra : Z) (dispatch : mem → gprs → res (mem * gprs)).

(** The entry code around a C function that keeps the stack below it, the saved
    stack pointer and the callee-saved registers. *)
Lemma syscall_entry_spec m g rsp top :
  mapped m saved_user_rsp 8 → word64 rsp →
  load64 m kernel_syscall_rsp = Ok top → 24 ≤ top < 2 ^ 64 → mapped m (top - 24) 24 →
  word64 (g_rcx g) → word64 (g_r11 g) → word64 ra →
  saved_user_rsp + 8 ≤ kernel_syscall_rsp ∨ kernel_syscall_rsp + 8 ≤ saved_user_rsp →
  saved_user_rsp + 8 ≤ top - 24 ∨ top ≤ saved_user_rsp →
  ∃ m1, modifies (λ x, in_range saved_user_rsp 8 x ∨ in_range (top - 24) 24 x) m m1 ∧
    ∀ m2 g2, dispatch m1 (set_rdi g (g_rax g)) = Ok (m2, g2) →
      (∀ x, in_range saved_user_rsp 8 x ∨ in_range (top - 16) 16 x → m2 !! x = m1 !! x) →
      syscall_entry_code saved_user_rsp kernel_syscall_rsp ra dispatch m g rsp =
        Ok (m2, set_rcx_r11 g2 (g_rcx g) (g_r11 g), rsp).
Proof.
  intros Hms Hrsp Hk Htop Hmk Hrcx Hr11 Hra Hd1 Hd2. unfold syscall_entry_code.
  destruct (store64_spec m saved_user_rsp rsp Hms Hrsp) as (m0 & -> & D0 & L0). cbn [mbind res_bind].
  rewrite (load64_modifies _ m m0 _ D0), Hk by (unfold in_range; lia). cbn [mbind res_bind].
  assert (Hm0 : mapped m0 (top - 24) 24) by (eapply modifies_mapped; [exact D0|exact Hmk]).
  destruct (push_all_spec [g_rcx g; g_r11 g; ra] m0 top []) as (m1 & Hp & Hs & D1);
    [simpl; lia | exact Hm0 | words64 | apply saved_nil|].
  change (8 * Z.of_nat (length [g_rcx g; g_r11 g; ra])) with 24 in *. simpl rev in Hs. rewrite app_nil_r in Hs.
  exists m1. split.
  { etransitivity; (eapply modifies_mono; [|eassumption]); intros x; tauto. }
  intros m2 g2 Hd Hag. cbn [push_all] in Hp.
  destruct (push m0 top (g_rcx g)) as [[ma spa]| | |]; try discriminate Hp. cbn [mbind res_bind] in Hp |- *.
  destruct (push ma spa (g_r11 g)) as [[mb spb]| | |]; try discriminate Hp. cbn [mbind res_bind] in Hp |- *.
  destruct (push mb spb ra) as [[mc spc]| | |]; try discriminate Hp. cbn [mbind res_bind] in Hp |- *.
  injection Hp as -> ->. rewrite Hd. cbn [mbind res_bind]. rewrite (u64_small (top - 24 + 8)) by lia.
  assert (Hs2 : saved_at m2 (top - 24 + 8) [g_r11 g; g_rcx g]).
  { intros i v Hi. rewrite <-(Hs (S i) v Hi). pose proof (lookup_lt_Some _ _ _ Hi) as Hl. simpl in Hl.
    replace (top - 24 + 8 + 8 * Z.of_nat i) with (top - 24 + 8 * Z.of_nat (S i)) by lia.
    apply load_le_agree. intros x Hx. apply Hag. right. unfold in_range in *. lia. }
  apply pop_spec in Hs2 as [P1 Hs3]; [|lia..]. rewrite P1. cbn [mbind res_bind].
  unfold pop. pose proof (Hs3 0%nat _ eq_refl) as P2. rewrite Z.mul_0_r, Z.add_0_r in P2. rewrite P2. cbn [mbind res_bind].
  assert (L2 : load64 m2 saved_user_rsp = Ok rsp).
  { rewrite <-L0. transitivity (load64 m1 saved_user_rsp).
    - apply load_le_agree. intros x Hx. apply Hag. by left.
    - apply (load64_modifies _ _ _ _ D1). unfold in_range. lia. }
  rewrite L2. reflexivity.
Qed.
End roundtrip.

(** ** Properties *)

(** C23: a system call from ring 3 and back. After [syscall_init]'s set-up, the
    processor enters the kernel's code and data segments with interrupts and
    single-stepping off; [syscall_dispatch] is called with the number from
    [%rax] on the kernel's own stack; and when it returns, keeping the stack
    above it and the registers the ABI protects, the user program continues
    behind its [syscall] in ring 3, with its stack pointer, its flags and the
    callee-saved registers as they were and the result in [%rax]. *)
Theorem syscall_roundtrip {D : Type} `{MsrFile D} saved_user_rsp kernel_syscall_rsp ra dispatch (d : D) entry m c top :
  syscall_ready d entry →
  c_cs c = Z.lor GDT_USER_CODE 3 → c_ss c = Z.lor GDT_USER_DATA 3 →
  c_rflags c = Z.lor (Z.land (c_rflags c) 0x3c7fd7) 2 →
  word64 (c_rip c) → word64 (c_rsp c) → word64 (c_rflags c) → word64 ra →
  mapped m saved_user_rsp 8 → load64 m kernel_syscall_rsp = Ok top → 24 ≤ top < 2 ^ 64 → mapped m (top - 24) 24 →
  saved_user_rsp + 8 ≤ kernel_syscall_rsp ∨ kernel_syscall_rsp + 8 ≤ saved_user_rsp →
  saved_user_rsp + 8 ≤ top - 24 ∨ top ≤ saved_user_rsp →
  ∃ k, cpu_syscall d c = Ok k ∧ c_rip k = entry ∧ c_cs k = GDT_KERNEL_CODE ∧ c_ss k = GDT_KERNEL_DATA ∧
    Z.testbit (c_rflags k) 9 = false ∧ Z.testbit (c_rflags k) 8 = false ∧
    ∃ m1, modifies (λ x, in_range saved_user_rsp 8 x ∨ in_range (top - 24) 24 x) m m1 ∧
      ∀ m2 g2, let g1 := set_rdi (gp k) (g_rax (gp c)) in
        dispatch m1 g1 = Ok (m2, g2) → callee_saved g1 g2 →
        (∀ x, in_range saved_user_rsp 8 x ∨ in_range (top - 16) 16 x → m2 !! x = m1 !! x) →
        ∃ g3 rsp, syscall_entry_code saved_user_rsp kernel_syscall_rsp ra dispatch m (gp k) (c_rsp k) = Ok (m2, g3, rsp) ∧
          let c' := cpu_sysretq d g3 rsp in
          c_rip c' = c_rip c ∧ c_cs c' = c_cs c ∧ c_ss c' = c_ss c ∧ c_rflags c' = c_rflags c ∧ c_rsp c' = c_rsp c ∧
          callee_saved (gp c) (gp c') ∧ g_rax (gp c') = g_rax g2.
Proof.
  intros Hr Hcs Hss Hfl Hrip Hrsp Hflw Hra Hms Hk Htop Hmk Hd1 Hd2.
  destruct (star_selectors d entry Hr) as (S1 & S2 & S3 & S4).
  unfold cpu_syscall. rewrite (sy_efer _ _ Hr), (sy_lstar _ _ Hr), (sy_fmask _ _ Hr), S1, S2. cbn [negb].
  eexists. split; [reflexivity|]. cbn [c_rip c_cs c_ss c_rflags c_rsp gp].
  split; [done|]. split; [done|]. split; [done|].
  split; [rewrite Z.land_spec; apply andb_false_r|]. split; [rewrite Z.land_spec; apply andb_false_r|].
  destruct (syscall_entry_spec saved_user_rsp kernel_syscall_rsp ra dispatch m (set_rcx_r11 (gp c) (c_rip c) (c_rflags c)) (c_rsp c) top)
    as (m1 & Hmod & Hback); [done..|].
  exists m1. split; [exact Hmod|]. intros m2 g2 Hd Hcal Hag.
  exists (set_rcx_r11 g2 (c_rip c) (c_rflags c)), (c_rsp c). split; [exact (Hback m2 g2 Hd Hag)|].
  cbn [cpu_sysretq c_rip c_cs c_ss c_rflags c_rsp gp set_rcx_r11 g_rcx g_r11 g_rax].
  rewrite S3, S4, Hcs, Hss. split_and!; [done..|by rewrite <-Hfl|done| |done]. exact Hcal.
Qed.

(** The general registers in ring 3: the selector is left in [%ax]. *)
Definition ring3_gprs (g : gprs) : gprs := set_ax g (Z.lor GDT_USER_DATA 3).

Lemma ax_set g v : 0 ≤ v < 2 ^ 16 → ax (set_ax g v) = v.
Proof.
  intros Hv. unfold ax, set_ax. cbn [g_rax]. rewrite Z.land_lor_distr_l, <-Z.land_assoc.
  change (Z.land (Z.lnot 0xffff) 0xffff) with 0. rewrite Z.land_0_r, Z.lor_0_l.
  change 0xffff with (Z.ones 16). by rewrite Z.land_ones, Z.mod_small by lia.
Qed.

(** [jump_to_ring3] lands at [entry] in the user's segments, on the user's
    stack, with interrupts on. *)
Lemma jump_to_ring3_spec m g s rsp entry user_stack :
  40 ≤ rsp < 2 ^ 64 → mapped m (rsp - 40) 40 → word64 entry → word64 user_stack →
  jump_to_ring3 m g s rsp entry user_stack =
    Ok (mk_cpu (ring3_gprs g) entry (Z.lor GDT_USER_CODE 3) 0x202 user_stack (Z.lor GDT_USER_DATA 3),
        set_data_segments s (Z.lor GDT_USER_DATA 3)).
Proof.
  intros Hr Hm He Hu. unfold jump_to_ring3. rewrite ax_set by lia.
  destruct (push_all_spec [0x1b; user_stack; 0x202; 0x23; entry] m rsp []) as (m1 & Hp & Hs & _);
    [simpl; lia | exact Hm | words64 | apply saved_nil|].
  rewrite Hp. cbn [mbind res_bind]. unfold iretq.
  destruct (pop_all_spec [entry; 0x23; 0x202; user_stack; 0x1b] m1 (rsp - 40) []) as [P _]; [simpl; lia|simpl; lia|exact Hs|].
  change (8 * Z.of_nat (length [0x1b; user_stack; 0x202; 0x23; entry])) with 40.
  change (length [entry; 0x23; 0x202; user_stack; 0x1b]) with 5%nat in P. rewrite P. reflexivity.
Qed.

(** The set-up on a machine where the guarded stack could be allocated: the
    stack of ring 0 is the same for interrupts and for system calls. *)
Lemma syscall_setup_spec {A D : Type} `{FrameAllocator A} `{MsrFile D} tss kernel_syscall_rsp entry (w w1 : world A) (d : D) stack :
  vmm_alloc_guarded w SYSCALL_KERNEL_STACK_PAGES VMM_WRITABLE = Ok (stack, w1) →
  0 < stack → stack + 16384 < 2 ^ 64 →
  mapped (w_mem w1) (tss + tss_rsp0) 8 → mapped (w_mem w1) kernel_syscall_rsp 8 →
  tss + tss_rsp0 + 8 ≤ kernel_syscall_rsp ∨ kernel_syscall_rsp + 8 ≤ tss + tss_rsp0 →
  ∃ w2 d2, syscall_setup tss kernel_syscall_rsp entry w d = Ok (w2, d2) ∧ syscall_ready d2 entry ∧
    load64 (w_mem w2) kernel_syscall_rsp = Ok (stack + 16384) ∧
    load64 (w_mem w2) (tss + tss_rsp0) = Ok (stack + 16384) ∧
    modifies (λ x, in_range (tss + tss_rsp0) 8 x ∨ in_range kernel_syscall_rsp 8 x) (w_mem w1) (w_mem w2) ∧
    w2 = set_mem w1 (w_mem w2).
Proof.
  intros Hal Hpos Hlt Hmt Hmk Hdis. unfold syscall_setup. rewrite Hal. cbn [mbind res_bind].
  rewrite (proj2 (Z.eqb_neq stack 0)) by lia. change (SYSCALL_KERNEL_STACK_PAGES * PAGE_SIZE) with 16384.
  rewrite u64_small by lia. unfold gdt_set_kernel_stack.
  destruct (store64_spec (w_mem w1) (tss + tss_rsp0) (stack + 16384) Hmt ltac:(lia)) as (m1 & -> & D1 & L1). cbn [mbind res_bind].
  destruct (store64_spec m1 kernel_syscall_rsp (stack + 16384)) as (m2 & -> & D2 & L2);
    [by eapply modifies_mapped | lia|]. cbn [mbind res_bind].
  eexists _, _. split; [reflexivity|]. cbn [w_mem]. split; [apply syscall_msrs|]. split; [exact L2|]. split.
  - rewrite (load64_modifies _ m1 m2 _ D2) by (unfold in_range; lia). exact L1.
  - split; [|done]. etransitivity; (eapply modifies_mono; [|eassumption]); intros x; tauto.
Qed.

(** [syscall_init] reports it: the machine is ready for system calls, and the
    log has gained the line with the entry point. *)
Theorem syscall_init_correct {A D L : Type} `{FrameAllocator A} `{MsrFile D} `{Uart L} tss kernel_syscall_rsp entry
    polls fmt (w w1 : world A) (d : D) (st : log L) scr stack :
  vmm_alloc_guarded w SYSCALL_KERNEL_STACK_PAGES VMM_WRITABLE = Ok (stack, w1) →
  0 < stack → stack + 16384 < 2 ^ 64 →
  mapped (w_mem w1) (tss + tss_rsp0) 8 → mapped (w_mem w1) kernel_syscall_rsp 8 →
  tss + tss_rsp0 + 8 ≤ kernel_syscall_rsp ∨ kernel_syscall_rsp + 8 ≤ tss + tss_rsp0 →
  (u_poll_bound < polls)%nat → tty_ok (l_tty st) scr →
  level_number LOG_LEVEL_INFO <? level_number (min_level st) = false →
  cstr (t_mem (l_tty st)) fmt fmt_syscall →
  (∀ x, in_range fmt (Z.of_nat (length fmt_syscall) + 1) x → ¬ tty_bytes (l_tty st) x) →
  ∃ w2 d2 st', syscall_init tss kernel_syscall_rsp entry polls fmt w d st = Ok (w2, d2, st') ∧
    syscall_ready d2 entry ∧ load64 (w_mem w2) kernel_syscall_rsp = Ok (stack + 16384) ∧
    load64 (w_mem w2) (tss + tss_rsp0) = Ok (stack + 16384) ∧
    u_line (device (t_serial (l_tty st'))) = u_line (device (t_serial (l_tty st))) ++
      (if serial_present (t_serial (l_tty st)) then crlf (log_line LOG_LEVEL_INFO (text no_strings fmt_syscall [entry])) else []).
Proof.
  intros Hal Hpos Hlt Hmt Hmk Hdis Hpolls Hok Hlev Hfmt Hoff.
  destruct (syscall_setup_spec tss kernel_syscall_rsp entry w w1 d stack Hal Hpos Hlt Hmt Hmk Hdis)
    as (w2 & d2 & E & Hready & L1 & L2 & _). unfold syscall_init. rewrite E. cbn [mbind res_bind].
  destruct (numeric_format_text fmt_syscall [entry] no_strings) as (ds & Hp & Hr); [by vm_compute|].
  pose proof (log_write_spec polls Hpolls st scr LOG_LEVEL_INFO fmt fmt_syscall ds no_strings [entry] _ Hok Hfmt Hoff
    ltac:(discriminate) Hp Hr) as Hw.
  rewrite Hlev in Hw. destruct Hw as (t' & -> & W). cbn [mbind res_bind].
  eexists w2, d2, _. split; [reflexivity|]. split_and!; [exact Hready | exact L1 | exact L2 | exact (wr_line _ _ _ _ _ W)].
Qed.

(** ** Witnesses: a call from 0x400000 with the kernel's stack top at 0x1100 *)

#[export] Instance msr_map : Msr (gmap Z Z) := {| rdmsr d r := default 0 (d !! r); wrmsr d r v := <[r := v]> d |}.

#[export, program] Instance msr_map_ok : MsrFile (gmap Z Z).
Next Obligation.
  intros d r v r'. cbn [rdmsr wrmsr msr_map]. destruct (Z.eqb_spec r' r) as [->|Hne].
  - by rewrite lookup_insert_eq.
  - by rewrite lookup_insert_ne.
Qed.

Definition ex_msrs : gmap Z Z :=
  wrmsr (wrmsr (wrmsr (wrmsr ∅ IA32_EFER (Z.lor (rdmsr ∅ IA32_EFER) EFER_SCE)) IA32_STAR
    (Z.lor (Z.shiftl GDT_KERNEL_DATA 48) (Z.shiftl GDT_KERNEL_CODE 32))) IA32_LSTAR 0x8000) IA32_FMASK FMASK_IF_TF.
Definition ex_call_mem : mem := <[0x1001 := 0x11]> (zeros 0x1000 256).
Definition ex_user : cpu := mk_cpu ex_gprs 0x400002 0x23 0x202 0x500ff8 0x1b.

Lemma ex_call_mapped a n : 0x1000 ≤ a → a + n ≤ 0x1100 → mapped ex_call_mem a n.
Proof.
  intros H1 H2 x Hx. unfold ex_call_mem. apply lookup_insert_is_Some'. right. apply (zeros_mapped 0x1000 256).
  unfold in_range in *. lia.
Qed.

Lemma syscall_roundtrip_witness :
  ∃ k m1, cpu_syscall ex_msrs ex_user = Ok k ∧
    ∃ g3 rsp, syscall_entry_code 0x1010 0x1000 0x9000 (λ m g, Ok (m, g)) ex_call_mem (gp k) (c_rsp k) = Ok (m1, g3, rsp) ∧
      c_rip (cpu_sysretq ex_msrs g3 rsp) = 0x400002 ∧ c_rsp (cpu_sysretq ex_msrs g3 rsp) = 0x500ff8.
Proof.
  destruct (syscall_roundtrip 0x1010 0x1000 0x9000 (λ m g, Ok (m, g)) ex_msrs 0x8000 ex_call_mem ex_user 0x1100)
    as (k & Hk & _ & _ & _ & _ & _ & m1 & _ & Hback).
  - exact (syscall_msrs ∅ 0x8000).
  - reflexivity.
  - reflexivity.
  - reflexivity.
  - unfold word64. cbn. lia.
  - unfold word64. cbn. lia.
  - unfold word64. cbn. lia.
  - unfold word64. lia.
  - apply ex_call_mapped; lia.
  - vm_compute. reflexivity.
  - lia.
  - apply ex_call_mapped; lia.
  - lia.
  - lia.
  - exists k, m1. split; [exact Hk|].
    destruct (Hback m1 (set_rdi (gp k) (g_rax (gp ex_user))) eq_refl) as (g3 & rsp & Hrun & H1 & _ & _ & _ & H5 & _).
    + repeat split.
    + intros x _. reflexivity.
    + exists g3, rsp. split; [exact Hrun|]. split; [exact H1 | exact H5].
Defined.
