(* ===== verification/BootConsole.v ===== *)
(** * The first output of the kernel (kernel/main.c, the start of kmain)

    The serial port, the framebuffer when the bootloader reports one, the
    banner on both. *)

From S2P Require Import Prelude Word Mem CString BootInfo Printf Console Io Serial Log.
From Stdlib Require Import Ascii.

(** ** kmain: the console *)

Definition banner : list Z :=
  lit " /$$$$$$            /$$" ++ [10] ++
  lit " /$$__  $$          |__/" ++ [10] ++
  lit "| $$  \ $$ /$$   /$$ /$$ /$$$$$$$" ++ [10] ++
  lit "| $$  | $$| $$  | $$| $$| $$__  $$" ++ [10] ++
  lit "| $$  | $$| $$  | $$| $$| $$  \ $$" ++ [10] ++
  lit "| $$/$$ $$| $$  | $$| $$| $$  | $$" ++ [10] ++
  lit "|  $$$$$$/|  $$$$$$/| $$| $$  | $$" ++ [10] ++
  lit " \____ $$$ \______/ |__/|__/  |__/" ++ [10] ++
  lit "      \__/" ++ [10].

Definition fmt_no_fb : list Z := lit "no framebuffer reported by the bootloader, serial only".

Section console.
Context {D : Type} `{PortIO D} (polls : nat) (rodata : list Z → Z).

(** [serial_present], the framebuffer's variables and the log's are the parts
    of [st]. *)
Definition boot_console (r : limine_responses) (st : log D) : res (log D) :=
  let s := serial_init (t_serial (l_tty st)) in
  let '(have_fb, f) :=
    match boot_get_framebuffer r with
    | Some fb_info => fb_init (t_fb (l_tty st)) (Some fb_info)
    | None => (false, t_fb (l_tty st))
    end in
  m ← (if (have_fb : bool) then fb_clear f (t_mem (l_tty st)) FB_BLACK else Ok (t_mem (l_tty st)));
  s ← serial_write polls s m (rodata banner);
  '(f, m) ← (if have_fb then fb_console_write f m (rodata banner) FB_GREEN FB_BLACK else Ok (f, m));
  let st := mk_log (min_level st) (current_fb_color st) (mk_tty s f m) in
  if negb have_fb then log_write polls st LOG_LEVEL_WARN (rodata fmt_no_fb) [] else Ok st.
End console.

(** ** Specification *)

(** The screen [fb_init] accepts, if any. *)
Definition boot_screen (r : limine_responses) : option boot_framebuffer :=
  i ← boot_get_framebuffer r; if address i =? 0 then None else Some i.

(** The bytes of the screen. *)
Definition screen_bytes (r : limine_responses) (x : Z) : Prop :=
  ∃ i, boot_screen r = Some i ∧ in_range (address i) (height i * pitch i) x.

Definition console_literals : list (list Z) := [banner; fmt_no_fb].

(** The console before anything is printed: a screen that is black from corner
    to corner, or none. *)
Definition fresh_tty {D} (r : limine_responses) (t : tty D) : Prop :=
  serial_present (t_serial t) = true ∧
  match boot_screen r with
  | Some i => t_fb t = init_state i
  | None => t_fb t = fb_bss
  end.

Definition fresh_screen (r : limine_responses) : term :=
  match boot_screen r with
  | Some i => term_blank (Z.to_nat (width i / 8)) (Z.to_nat (height i / 8))
  | None => mk_term [] 0 0
  end.

(** What is printed, in its colours. *)
Definition boot_banner (r : limine_responses) : list (Z * list Z) :=
  (FB_GREEN, banner) ::
  match boot_screen r with
  | Some _ => []
  | None => [log_piece LOG_LEVEL_WARN fmt_no_fb]
  end.

Section console_lemmas.
Context {D : Type} `{Uart D} (polls : nat) (Hpolls : (u_poll_bound < polls)%nat).

(** A string on both outputs, as [serial_write] and [fb_console_write] put it
    there. *)
Lemma banner_written t scr p l color :
  serial_ready (t_serial t) → (fb_is_available (t_fb t) = true → shows (t_fb t) (t_mem t) scr) → 
  cstr (t_mem t) p l → (∀ x, in_range p (Z.of_nat (length l) + 1) x → ¬ tty_bytes t x) →
  ∃ s f m, serial_write polls (t_serial t) (t_mem t) p = Ok s ∧
    (if fb_is_available (t_fb t) then fb_console_write (t_fb t) (t_mem t) p color FB_BLACK else Ok (t_fb t, t_mem t)) = Ok (f, m) ∧
    written color t scr l (mk_tty s f m).
Proof using Hpolls.
  intros Hs Hsh Hc Hd. pose proof (cstr_size _ _ _ Hc).
  destruct (serial_write_loop_spec polls Hpolls l (t_serial t) (t_mem t) p (mem_fuel (t_mem t)) Hs Hc) as (s & Hw & Hs' & Hl);
    [unfold mem_fuel; lia|].
  pose proof (sr_present _ Hs) as Hp. pose proof (sr_present _ Hs') as Hp'.
  destruct (fb_is_available (t_fb t)) eqn:Hav.
  - destruct (console_write_loop_spec l (t_fb t) (t_mem t) scr p color FB_BLACK (mem_fuel (t_mem t)) (Hsh eq_refl) Hc)
      as (a & b & m & Hcw & Hmod & Hshow); [unfold mem_fuel; lia | intros x Hx Hb; by apply (Hd x Hx) |].
    exists s, (set_cursor (t_fb t) a b), m. split; [exact Hw|]. split; [exact Hcw|].
    split; cbn [t_serial t_fb t_mem].
    + split; [by left|]. intros _. exact Hshow.
    + congruence.
    + by rewrite Hl, Hp.
    + by exists a, b.
    + eapply modifies_mono; [|exact Hmod]. by split.
  - exists s, (t_fb t), (t_mem t). split; [exact Hw|]. split; [done|]. split; cbn [t_serial t_fb t_mem].
    + split; [by left|]. cbn [t_fb]. intros Hc'. congruence.
    + congruence.
    + by rewrite Hl, Hp.
    + exists (cursor_col (t_fb t)), (cursor_row (t_fb t)). by destruct (t_fb t).
    + done.
Qed.

(** The screen is there and black, or there is none. *)
Lemma screen_start rodata r (s0 : serial D) m ls :
  serial_ready s0 →
  (∀ i, boot_screen r = Some i → mode_ok i ∧ mapped m (address i) (height i * pitch i)) →
  literals ls rodata m (screen_bytes r) →
  ∃ have f m1,
    match boot_get_framebuffer r with Some fb_info => fb_init fb_bss (Some fb_info) | None => (false, fb_bss) end = (have, f) ∧
    (if (have : bool) then fb_clear f m FB_BLACK else Ok m) = Ok m1 ∧
    have = fb_is_available f ∧ have = bool_decide (is_Some (boot_screen r)) ∧ fresh_tty r (mk_tty s0 f m1) ∧
    (fb_is_available f = true → shows f m1 (fresh_screen r)) ∧ literals ls rodata m1 (tty_bytes (mk_tty s0 f m1)).
Proof.
  intros Hs Hscr Hlits.
  unfold fresh_tty, fresh_screen, screen_bytes in *. cbn [t_serial t_fb t_mem].
  assert (Hnone : boot_screen r = None → literals ls rodata m (tty_bytes (mk_tty s0 fb_bss m)))
    by (intros _ l Hl; destruct (Hlits l Hl) as (? & ? & _); split; [done | split; [done | by intros x _ [[=] _]]]).
  unfold boot_screen in *. destruct (boot_get_framebuffer r) as [i|]; cbn [mbind option_bind] in *.
  2: { exists false, fb_bss, m. split_and!; try done; [exact (sr_present _ Hs) | by apply Hnone]. }
  cbn [fb_init]. destruct (Z.eqb_spec (address i) 0) as [Ha0|Ha0].
  { exists false, fb_bss, m. split_and!; try done; [exact (sr_present _ Hs) | by apply Hnone]. }
  destruct (Hscr i eq_refl) as [Hmode Hmap].
  destruct (fb_init_clear_correct fb_bss m (Some i) 0) as [_ Hclear].
  destruct (Hclear i eq_refl Hmode Hmap) as (_ & m1 & Hc & Hmod & _ & Hshow). cbn [fb_init] in *.
  rewrite (proj2 (Z.eqb_neq _ 0)) in * by done. cbn [snd] in *. fold (init_state i) in *.
  exists true, (init_state i), m1. split_and!; try done; [exact (sr_present _ Hs) | intros _; by apply Hshow |].
  intros l Hl. destruct (Hlits l Hl) as (? & Hcs & Hd).
  assert (Hd' : ∀ x, in_range (rodata l) (Z.of_nat (length l) + 1) x → ¬ fb_bytes (init_state i) x)
    by (intros x Hx Hb; apply (Hd x Hx); by exists i).
  split; [done | split; [| intros x Hx [_ Hb]; by apply (Hd' x)]].
  eapply cstr_modifies; [exact Hcs | exact Hmod |]. intros x Hx Ha. apply (Hd' x Hx).
  by apply (area_in_fb (init_state i) (init_state_ok i Hmode) _ _ Ha).
Qed.

Lemma boot_console_spec rodata r (st : log D) ls :
  t_fb (l_tty st) = fb_bss → level_number (min_level st) ≤ level_number LOG_LEVEL_WARN →
  (∀ i, boot_screen r = Some i → mode_ok i ∧ mapped (t_mem (l_tty st)) (address i) (height i * pitch i)) →
  literals ls rodata (t_mem (l_tty st)) (screen_bytes r) → console_literals ⊆ ls →
  ∃ st0 st', boot_console polls rodata r st = Ok st' ∧
    min_level st0 = min_level st ∧ fresh_tty r (l_tty st0) ∧
    u_line (device (t_serial (l_tty st0))) = u_line (device (t_serial (l_tty st))) ∧
    literals ls rodata (t_mem (l_tty st0)) (tty_bytes (l_tty st0)) ∧
    logged st0 (fresh_screen r) (boot_banner r) st'.
Proof using Hpolls.
  intros Hfb Hlev Hscr Hlits Hsub. unfold boot_console.
  destruct (serial_init_spec (t_serial (l_tty st))) as [Hs Hline].
  set (s0 := serial_init (t_serial (l_tty st))) in *.
  destruct (screen_start rodata r s0 (t_mem (l_tty st)) ls Hs Hscr Hlits)
    as (have & f & m & Hst & Hm & Hav & Hsc & Hfresh & Hsh & Hls).
  rewrite Hfb, Hst, Hm. cbn [mbind res_bind].
  set (t0 := mk_tty s0 f m) in *. set (st0 := mk_log (min_level st) (current_fb_color st) t0).
  destruct (Hls banner) as (_ & Hbc & Hbd); [apply Hsub; set_solver|].
  destruct (banner_written t0 (fresh_screen r) (rodata banner) banner FB_GREEN Hs Hsh Hbc Hbd) as (s1 & f1 & m1 & Hw & Hcw & W).
  cbn [t_serial t_fb t_mem t0] in Hw, Hcw. rewrite Hw. cbn [mbind res_bind]. rewrite Hav, Hcw. cbn [mbind res_bind].
  assert (Hok0 : tty_ok t0 (fresh_screen r)) by (split; [by left | exact Hsh]).
  set (st1 := mk_log (min_level st) (current_fb_color st) (mk_tty s1 f1 m1)).
  assert (L1 : logged st0 (fresh_screen r) [(FB_GREEN, banner)] st1).
  { split; [done|]. apply (printed_written t0 (fresh_screen r) [] t0); [by apply printed_nil | exact W]. }
  rewrite <-Hav. unfold boot_banner. rewrite Hsc. destruct (boot_screen r) as [i|]; cbn [negb].
  - rewrite bool_decide_eq_true_2 by done. by exists st0, st1.
  - rewrite bool_decide_eq_false_2 by (by intros []). cbn [negb].
    destruct (log_logged polls Hpolls rodata ls st0 (fresh_screen r) _ st1 LOG_LEVEL_WARN fmt_no_fb [] L1 Hls) as (st2 & Hw2 & L2);
      [apply Hsub; set_solver | by vm_compute | apply Z.ltb_ge; exact Hlev |].
    exists st0, st2. split; [exact Hw2|]. split_and!; [done | exact Hfresh | exact Hline | exact Hls |].
    replace (text no_strings fmt_no_fb []) with fmt_no_fb in L2 by (by vm_compute). exact L2.
Qed.
End console_lemmas.
