(* ===== verification/BootDevices.v ===== *)
(** * Interrupt controllers and drivers (kernel/main.c, the middle of kmain)

    [kmain] finds the I/O APIC through the ACPI tables, brings up both interrupt
    controllers, starts the timer, routes the keyboard and opens the system-call
    path: the components of Acpi.v, Madt.v, Lapic.v, Ioapic.v, Timer.v and
    Syscall.v on one machine. *)

From S2P Require Import Prelude Word Mem CString BootInfo FrameAlloc Paging Isr Vmm AddressSpace Demand Printf Console Io Serial Log.
From S2P Require Import Acpi Madt Gdt Ioapic Lapic Timer Syscall.
From Stdlib Require Import Ascii.

(** The local APIC and the model-specific registers belong to one processor:
    [lapic_init] uses both. *)
#[local] Instance pair_mmio {E G : Type} `{Mmio E} : Mmio (E * G) := {|
  read32 d a := let '(v, e) := read32 d.1 a in (v, (e, d.2));
  write32 d a v := (write32 d.1 a v, d.2);
|}.
#[local] Instance pair_msr {E G : Type} `{Msr G} : Msr (E * G) := {|
  rdmsr d r := rdmsr d.2 r;
  wrmsr d r v := (d.1, wrmsr d.2 r v);
|}.

(** ** kmain: the devices *)

Definition DEFAULT_IOAPIC_PHYS_BASE : Z := 0xfec00000.
Definition KEYBOARD_VECTOR : Z := 33.
Definition KEYBOARD_IRQ : Z := 1.

Definition fmt_madt : list Z := lit "acpi: madt found, %u enabled cpu(s)".
Definition fmt_no_madt : list Z := lit "acpi: no MADT, falling back to default IOAPIC base".

Definition set_handlers {A} (w : world A) (h : handler_table) : world A :=
  mk_world (w_mem w) (w_alloc w) (w_vmm w) (w_cr3 w) (w_invlpg w) h.

(** keyboard.c *)
Definition keyboard_init {A} (w : world A) : world A :=
  set_handlers w (interrupt_register_handler (w_handlers w) KEYBOARD_VECTOR h_keyboard_isr).

Section devices.
Context {A D E F G : Type} `{FrameAllocator A} `{PortIO D} `{Mmio E} `{PortIO E} `{Mmio F} `{Msr G}.
Context (polls fuel : nat) (rodata : list Z → Z).

(** [e] is the local APIC with the timer chip next to it, [f] the I/O APIC, [g]
    the model-specific registers. The bases of the two controllers are the
    virtual addresses [vmm_map_mmio] gave. *)
Definition boot_controllers (r : limine_responses) (w : world A) (e : E) (f : F) (g : G) (st : log D)
  : res (acpi * Z * Z * world A * E * F * G * log D) :=
  s ← acpi_init r (w_mem w);
  '(lapic, w, (e, g)) ← lapic_init w (e, g);
  '(found, madt) ← madt_parse s (w_mem w);
  st ← (if (found : bool) then log_write polls st LOG_LEVEL_INFO (rodata fmt_madt) [enabled_cpu_count madt]
        else log_write polls st LOG_LEVEL_WARN (rodata fmt_no_madt) []);
  let ioapic_phys_base := if found && have_ioapic madt then ioapic_address madt else DEFAULT_IOAPIC_PHYS_BASE in
  '(ioapic, w, f) ← ioapic_init w f ioapic_phys_base;
  Ok (s, lapic, ioapic, w, e, f, g, st).

(** From [timer_init] to [syscall_init]. *)
Definition boot_drivers (tss kernel_syscall_rsp syscall_entry lapic ioapic : Z) (w : world A) (e : E) (f : F) (g : G) (st : log D)
  : res (world A * E * F * G * log D) :=
  '(h, e, st) ← timer_init polls fuel lapic (rodata fmt_timer) (w_handlers w) e st;
  let w := keyboard_init (set_handlers w h) in
  let '(id, e) := lapic_get_id lapic e in
  let f := ioapic_set_irq ioapic f KEYBOARD_IRQ KEYBOARD_VECTOR (u8 id) false in
  '(w, g, st) ← syscall_init tss kernel_syscall_rsp syscall_entry polls (rodata fmt_syscall) w g st;
  Ok (w, e, f, g, st).
End devices.

(** ** Specification: the ACPI tables in memory *)

Record acpi_image := mk_image {
  im_rsdp_addr : Z;
  im_rsdp : list Z;
  im_root : list Z;
  im_table : Z → list Z;
}.

Definition im_width (im : acpi_image) : nat := if rsdp_v2 (im_rsdp im) then 8 else 4.
Definition im_root_addr (hhdm : Z) (im : acpi_image) : Z := acpi_phys_to_virt hhdm (rsdp_root (im_rsdp im)).1.1.
Definition im_entries (im : acpi_image) : list Z := root_entries (im_width im) (im_root im).

(** The tables are valid and their bytes are in memory. *)
Record acpi_valid (hhdm : Z) (im : acpi_image) (m : mem) : Prop := {
  av_rsdp : bytes_at m (im_rsdp_addr im) (im_rsdp im);
  av_len : length (im_rsdp im) = 36%nat;
  av_root : table_at m (im_root_addr hhdm im) (im_root im);
  av_root_len : (36 ≤ length (im_root im))%nat ∧ Z.of_nat (length (im_root im)) < 2 ^ 32;
  av_sums : rsdp_valid (im_rsdp im) && table_valid (rsdp_root (im_rsdp im)).2 (im_root im) = true;
  av_tables p : p ∈ im_entries im → table_at m (acpi_phys_to_virt hhdm p) (im_table im p);
}.

(** The bytes of the tables. *)
Definition acpi_bytes (hhdm : Z) (im : acpi_image) (x : Z) : Prop :=
  in_range (im_rsdp_addr im) (Z.of_nat (length (im_rsdp im))) x ∨
  in_range (im_root_addr hhdm im) (Z.of_nat (length (im_root im))) x ∨
  ∃ p, p ∈ im_entries im ∧ in_range (acpi_phys_to_virt hhdm p) (Z.of_nat (length (im_table im p))) x.

(** The first MADT of the root table, if any. *)
Definition im_madt (im : acpi_image) : option Z := head (filter (λ p, take 4 (im_table im p) = lit "APIC") (im_entries im)).

Definition madt_valid (hhdm : Z) (im : acpi_image) : Prop :=
  ∀ p, im_madt im = Some p → let t := im_table im p in
    acpi_phys_to_virt hhdm p ≠ 0 ∧ byte_sum t mod 256 = 0 ∧ (44 ≤ length t)%nat ∧ Forall is_byte t ∧
    Z.of_nat (length t) < 2 ^ 32 - 1 ∧ Forall entry_ok (madt_entries t).

Definition boot_madt (im : acpi_image) : option madt_info :=
  p ← im_madt im; Some (madt_summary (field 4 36 (im_table im p)) (madt_entries (im_table im p))).

(** The physical address of the I/O APIC that [kmain] uses. *)
Definition ioapic_phys (im : acpi_image) : Z :=
  match boot_madt im with
  | Some i => if have_ioapic i then ioapic_address i else DEFAULT_IOAPIC_PHYS_BASE
  | None => DEFAULT_IOAPIC_PHYS_BASE
  end.

(** The line about it. *)
Definition madt_piece (im : acpi_image) : Z * list Z :=
  match boot_madt im with
  | Some i => log_piece LOG_LEVEL_INFO (text no_strings fmt_madt [enabled_cpu_count i])
  | None => log_piece LOG_LEVEL_WARN fmt_no_madt
  end.

(** ** Lemmas: ACPI *)

Lemma bytes_at_keep m m' a l :
  bytes_at m a l → (∀ x, in_range a (Z.of_nat (length l)) x → m' !! x = m !! x) → bytes_at m' a l.
Proof.
  intros Hb Hk i b Hi. rewrite Hk; [by apply Hb|]. apply lookup_lt_Some in Hi. unfold in_range. lia.
Qed.

Lemma acpi_valid_keep hhdm im m m' :
  acpi_valid hhdm im m → (∀ x, acpi_bytes hhdm im x → m' !! x = m !! x) → acpi_valid hhdm im m'.
Proof.
  intros [H1 H2 (H3 & H3') H4 H5 H6] Hk. constructor; try done.
  - eapply bytes_at_keep; [exact H1|]. intros x Hx. apply Hk. by left.
  - split; [|done]. eapply bytes_at_keep; [exact H3|]. intros x Hx. apply Hk. by right; left.
  - intros p Hp. destruct (H6 p Hp) as [H7 H8]. split; [|done].
    eapply bytes_at_keep; [exact H7|]. intros x Hx. apply Hk. right; right. by exists p.
Qed.

(** What the search for the MADT finds after [acpi_init]. *)
Lemma boot_find_spec r hhdm im m :
  hhdm_response r = Some hhdm → rsdp_response r = Some (im_rsdp_addr im) → acpi_valid hhdm im m →
  ∃ s, acpi_init r m = Ok s ∧
    ∀ m', (∀ x, acpi_bytes hhdm im x → m' !! x = m !! x) →
      acpi_find_table s m' (lit "APIC") =
        match im_madt im with
        | Some p => if byte_sum (im_table im p) mod 256 =? 0 then Ok (acpi_phys_to_virt hhdm p)
                    else Panic (panicf "acpi: %s table checksum mismatch" [PStr (lit "APIC")])
        | None => Ok 0
        end.
Proof.
  intros Hh Hr Hv. pose proof Hv as [H1 H2 H3 [H4 H4'] H5 H6].
  pose proof (acpi_init_spec r hhdm m _ _ (im_root im) Hh Hr H1 H2) as Hi.
  rewrite (proj2 (acpi_error_none _ _) H5) in Hi.
  unfold im_root_addr in H3. destruct (rsdp_root (im_rsdp im)) as [[phys w] sg] eqn:Hroot. cbn [fst snd] in *.
  specialize (Hi (λ _, H3)).
  assert (Hw : w = Z.of_nat (im_width im)).
  { unfold im_width. unfold rsdp_root in Hroot. destruct (rsdp_v2 (im_rsdp im)); by injection Hroot as <- <- <-. }
  eexists. split; [exact Hi|]. intros m' Hk. set (s := mk_acpi _ _ _ _).
  pose proof (acpi_valid_keep _ _ _ _ Hv Hk) as [K1 _ K3 _ _ K6].
  unfold im_root_addr in K3. rewrite Hroot in K3. cbn [fst] in K3.
  assert (Hrep : acpi_rep s m' (im_width im) (im_root im)).
  { split; [done|]. split; [exact (proj1 K3)|]. split; [done|]. split; [done|].
    cbn [s root_entry_count]. rewrite u32_small by lia. by rewrite Hw. }
  exact (acpi_find_table_spec s m' _ _ (lit "APIC") (im_table im) Hrep eq_refl K6).
Qed.

(** What [acpi_init] and [madt_parse] find. *)
Lemma boot_acpi_spec r hhdm im m :
  hhdm_response r = Some hhdm → rsdp_response r = Some (im_rsdp_addr im) →
  acpi_valid hhdm im m → madt_valid hhdm im →
  ∃ s, acpi_init r m = Ok s ∧
    ∀ m', (∀ x, acpi_bytes hhdm im x → m' !! x = m !! x) →
      madt_parse s m' = Ok (match boot_madt im with Some i => (true, i) | None => (false, mk_madt 0 0 false 0 0) end).
Proof.
  intros Hh Hr Hv Hm. destruct (boot_find_spec r hhdm im m Hh Hr Hv) as (s & Hi & Hfind).
  exists s. split; [exact Hi|]. intros m' Hk. pose proof (Hfind m' Hk) as Hf. unfold boot_madt, madt_valid in *.
  destruct (im_madt im) as [p|] eqn:Hp; cbn [mbind option_bind].
  - destruct (Hm p eq_refl) as (M1 & M2 & M3 & M4 & M5 & M6). rewrite M2, Z.eqb_refl in Hf.
    destruct (madt_parse_spec s m' _ (im_table im p) Hf) as [_ Hok].
    apply Hok; [done | | done..]. apply (acpi_valid_keep _ _ _ _ Hv Hk).
    assert (Hin : p ∈ filter (λ p, take 4 (im_table im p) = lit "APIC") (im_entries im))
      by (unfold im_madt in Hp; destruct (filter _ _); [done | injection Hp as ->; left]).
    by apply list_elem_of_filter in Hin as [_ Hin].
  - destruct (madt_parse_spec s m' 0 [] Hf) as [Hno _]. by apply Hno.
Qed.

(** ** Lemmas: the machine's memory *)

Section growth.
Context {A : Type} `{FrameAllocator A}.
Implicit Types (w : world A) (T : gmap (list Z) Z).

(** Writing outside the manager's bytes. *)
Lemma grown_write P (X : Z → Prop) w T m :
  vmm_inv w T → modifies X (w_mem w) m → (∀ x, X x → ¬ vmm_bytes w T x) → grown P X w T (set_mem w m) T.
Proof.
  intros Hinv Hmod HX. destruct (outside_write w T m X Hinv Hmod HX) as (Hi & Hw & Ha & _ & Ho).
  constructor; try done.
  - by rewrite Ha.
  - intros x. unfold vmm_bytes. by rewrite Ha.
  - eapply modifies_mono; [|exact Hmod]. by right.
  - intros v Hs es. rewrite Hw. apply Hs.
Qed.

Lemma grown_handlers P X w T h : vmm_inv w T → grown P X w T (set_handlers w h) T.
Proof. intros [H1 H2 H3 H4 H5]. by constructor. Qed.

(** Bytes outside the manager's stay outside. *)
Lemma grown_outside P X w T w' T' (Y : Z → Prop) :
  grown P X w T w' T' → (∀ x, Y x → ¬ vmm_bytes w T x) → ∀ x, Y x → ¬ vmm_bytes w' T' x.
Proof. intros Hg HY x Hx Hv. by apply (HY x Hx), (gr_bytes _ _ _ _ _ _ Hg). Qed.

(** The page of a device register file. *)
Definition device_page w (virt phys : Z) : Prop :=
  ∃ es, length es = 3%nat ∧
    wwalk w virt = Some (es ++ [leaf_entry phys (Z.lor (Z.lor VMM_WRITABLE VMM_NO_CACHE) VMM_NO_EXECUTE)]).

Lemma device_page_kept P X w T w' T' virt phys :
  grown P X w T w' T' → ¬ P virt → device_page w virt phys → device_page w' virt phys.
Proof. intros Hg HP (es & Hl & Hes). exists es. by rewrite (gr_walk _ _ _ _ _ _ Hg). Qed.
End growth.

(** ** Lemmas: the controllers *)

Definition LAPIC_VADDR : Z := VMM_MMIO_VBASE.
Definition IOAPIC_VADDR : Z := VMM_MMIO_VBASE + PAGE_SIZE.
Definition mmio_pages (v : Z) : Prop := same_page LAPIC_VADDR v ∨ same_page IOAPIC_VADDR v.

Lemma lapic_ioapic_pages : ¬ same_page IOAPIC_VADDR LAPIC_VADDR.
Proof. unfold same_page. rewrite indices_inj. by vm_compute. Qed.

Section controllers.
Context {A D E F G : Type} `{FrameAllocator A} `{Uart D} `{Mmio E} `{Mmio F} `{!IoApicDev F IOAPIC_VADDR} `{Msr G}.
Context (polls : nat) (rodata : list Z → Z) (Hpolls : (u_poll_bound < polls)%nat).
Implicit Types (w : world A) (T : gmap (list Z) Z).

Lemma lapic_setup_pair base (e : E) (g : G) : lapic_setup base (e, g) = (lapic_setup base e, g).
Proof. reflexivity. Qed.

Lemma lapic_init_spec w T (e : E) (g : G) :
  vmm_inv w T → mmio_next_vaddr (w_vmm w) = LAPIC_VADDR → small_page w LAPIC_VADDR → (3 ≤ base.size (w_avail w))%nat →
  ∃ w' T', lapic_init w (e, g) =
      Ok (LAPIC_VADDR, w', (lapic_setup LAPIC_VADDR e,
        wrmsr g IA32_APIC_BASE_MSR (Z.lor (rdmsr g IA32_APIC_BASE_MSR) APIC_BASE_ENABLE))) ∧
    grown (same_page LAPIC_VADDR) (λ _, False) w T w' T' ∧ w_handlers w' = w_handlers w ∧
    dynamic_next_vaddr (w_vmm w') = dynamic_next_vaddr (w_vmm w) ∧ mmio_next_vaddr (w_vmm w') = IOAPIC_VADDR ∧
    device_page w' LAPIC_VADDR (Z.land (rdmsr g IA32_APIC_BASE_MSR) APIC_BASE_ADDR_MASK) ∧
    (base.size (w_avail w) ≤ base.size (w_avail w') + 3)%nat.
Proof.
  intros Hinv Hmm Hsm Hsz. unfold lapic_init. cbn [rdmsr wrmsr pair_msr fst snd].
  destruct (map_mmio_ok w T (Z.land (rdmsr g IA32_APIC_BASE_MSR) APIC_BASE_ADDR_MASK) Hinv)
    as (w' & T' & Hm & Hg & Hh & Hd & Hn & (es & Hl & Hes & _) & Hs).
  - rewrite Z.land_nonneg. by right.
  - by rewrite Hmm.
  - by rewrite Hmm.
  - by rewrite Hmm.
  - done.
  - rewrite Hmm in *. exists w', T'. rewrite Hm. cbn [mbind res_bind]. rewrite lapic_setup_pair.
    split_and!; [done | exact Hg | exact Hh | exact Hd | exact Hn | by exists es | exact Hs].
Qed.

Lemma ioapic_init_spec w T (f : F) phys :
  vmm_inv w T → 0 ≤ phys → mmio_next_vaddr (w_vmm w) = IOAPIC_VADDR → small_page w IOAPIC_VADDR → (3 ≤ base.size (w_avail w))%nat →
  ∃ w' T' f', ioapic_init w f phys = Ok (IOAPIC_VADDR, w', f') ∧
    grown (same_page IOAPIC_VADDR) (λ _, False) w T w' T' ∧ w_handlers w' = w_handlers w ∧
    dynamic_next_vaddr (w_vmm w') = dynamic_next_vaddr (w_vmm w) ∧
    device_page w' IOAPIC_VADDR phys ∧ io_max f' = io_max f ∧
    (∀ i, 0 ≤ i ≤ io_max f → route_of IOAPIC_VADDR f' i = mk_route 0 0 false false true 0) ∧
    (base.size (w_avail w) ≤ base.size (w_avail w') + 3)%nat.
Proof.
  intros Hinv Hp Hmm Hsm Hsz. unfold ioapic_init.
  destruct (map_mmio_ok w T phys Hinv Hp) as (w' & T' & Hm & Hg & Hh & Hd & _ & (es & Hl & Hes & _) & Hs).
  - by rewrite Hmm.
  - by rewrite Hmm.
  - by rewrite Hmm.
  - done.
  - rewrite Hmm in *. rewrite Hm. cbn [mbind res_bind].
    destruct (mask_all_spec IOAPIC_VADDR f) as (f' & -> & Hmax & Hr). cbn [mbind res_bind].
    exists w', T', f'. split_and!; [done | exact Hg | exact Hh | exact Hd | by exists es | exact Hmax | exact Hr | exact Hs].
Qed.

(** The controllers are up: the two pages are mapped, every local source and
    every line is masked, and the log has the line about the tables. *)
Lemma boot_controllers_spec r hhdm im w T (e : E) (f : F) (g : G) ls (st0 st : log D) scr out :
  hhdm_response r = Some hhdm → rsdp_response r = Some (im_rsdp_addr im) →
  acpi_valid hhdm im (w_mem w) → madt_valid hhdm im → (∀ x, acpi_bytes hhdm im x → ¬ vmm_bytes w T x) → 0 ≤ ioapic_phys im →
  vmm_inv w T → mmio_next_vaddr (w_vmm w) = LAPIC_VADDR → small_page w LAPIC_VADDR → small_page w IOAPIC_VADDR →
  (6 ≤ base.size (w_avail w))%nat →
  logged st0 scr out st → literals ls rodata (t_mem (l_tty st0)) (tty_bytes (l_tty st0)) → [fmt_madt; fmt_no_madt] ⊆ ls →
  level_number LOG_LEVEL_INFO <? level_number (min_level st0) = false →
  ∃ s w' T' f' st', boot_controllers polls rodata r w e f g st =
      Ok (s, LAPIC_VADDR, IOAPIC_VADDR, w', lapic_setup LAPIC_VADDR e, f',
          wrmsr g IA32_APIC_BASE_MSR (Z.lor (rdmsr g IA32_APIC_BASE_MSR) APIC_BASE_ENABLE), st') ∧
    grown mmio_pages (λ _, False) w T w' T' ∧ w_handlers w' = w_handlers w ∧
    dynamic_next_vaddr (w_vmm w') = dynamic_next_vaddr (w_vmm w) ∧ (base.size (w_avail w) ≤ base.size (w_avail w') + 6)%nat ∧
    device_page w' LAPIC_VADDR (Z.land (rdmsr g IA32_APIC_BASE_MSR) APIC_BASE_ADDR_MASK) ∧
    device_page w' IOAPIC_VADDR (ioapic_phys im) ∧ io_max f' = io_max f ∧
    (∀ i, 0 ≤ i ≤ io_max f → route_of IOAPIC_VADDR f' i = mk_route 0 0 false false true 0) ∧
    logged st0 scr (out ++ [madt_piece im]) st'.
Proof using All.
  intros Hh Hr Hv Hm Hbytes Hphys Hinv Hmm Hs1 Hs2 Hsz Hlg Hls Hin Hlev. unfold boot_controllers.
  destruct (boot_acpi_spec r hhdm im (w_mem w) Hh Hr Hv Hm) as (s & -> & Hparse). cbn [mbind res_bind].
  destruct (lapic_init_spec w T e g Hinv Hmm Hs1 ltac:(lia)) as (w1 & T1 & -> & G1 & Hh1 & Hd1 & Hm1 & D1 & Hz1).
  cbn [mbind res_bind].
  rewrite (Hparse (w_mem w1)) by (intros x Hx; apply (grown_byte _ _ _ _ _ _ _ G1); [by apply Hbytes | tauto]).
  destruct (ioapic_init_spec w1 T1 f (ioapic_phys im) (gr_inv _ _ _ _ _ _ G1) Hphys Hm1 (gr_small _ _ _ _ _ _ G1 _ Hs2) ltac:(lia))
    as (w2 & T2 & f2 & Hio & G2 & Hh2 & Hd2 & D2 & Hmax & Hrt & Hz2).
  assert (Hlog : ∃ st', (match boot_madt im with
      | Some i => log_write polls st LOG_LEVEL_INFO (rodata fmt_madt) [enabled_cpu_count i]
      | None => log_write polls st LOG_LEVEL_WARN (rodata fmt_no_madt) [] end) = Ok st' ∧ logged st0 scr (out ++ [madt_piece im]) st').
  { unfold madt_piece. destruct (boot_madt im) as [i|].
    - apply (log_logged polls Hpolls rodata ls st0 scr out st _ _ [_] Hlg Hls); [set_solver | by vm_compute | exact Hlev].
    - change fmt_no_madt with (text no_strings fmt_no_madt []) at 2.
      apply (log_logged polls Hpolls rodata ls st0 scr out st _ _ [] Hlg Hls); [set_solver | by vm_compute |].
      apply Z.ltb_ge in Hlev. apply Z.ltb_ge. cbn [level_number] in *. lia. }
  destruct Hlog as (st' & Hw & Hlg'). exists s, w2, T2, f2, st'. split; [|split_and!; try done].
  - unfold ioapic_phys in Hio. destruct (boot_madt im) as [i|]; cbn [mbind res_bind fst snd] in *; rewrite Hw; cbn [mbind res_bind andb];
      by rewrite Hio.
  - eapply grown_trans; (eapply grown_mono; [| |eassumption]); [by left | done | by right | done].
  - congruence.
  - congruence.
  - lia.
  - eapply device_page_kept; [exact G2 | exact lapic_ioapic_pages | exact D1].
Qed.
End controllers.

(** ** Lemmas: the drivers *)

(** The words [syscall_init] writes. *)
Definition stack_words (tss ksr x : Z) : Prop := in_range (tss + tss_rsp0) 8 x ∨ in_range ksr 8 x.

Lemma keyboard_init_handlers {A} (w : world A) : w_handlers (keyboard_init w) = <[KEYBOARD_VECTOR := h_keyboard_isr]> (w_handlers w).
Proof. reflexivity. Qed.

Section drivers.
Context {A D E F G : Type} `{FrameAllocator A} `{Uart D} `{Mmio E} `{!LocalApic E LAPIC_VADDR} `{PortIO E}
  `{!Pit E LAPIC_VADDR} `{Mmio F} `{!IoApicDev F IOAPIC_VADDR} `{MsrFile G}.
Context (polls fuel : nat) (rodata : list Z → Z) (Hpolls : (u_poll_bound < polls)%nat) (Hfuel : (pit_bound < fuel)%nat).
Implicit Types (w : world A) (T : gmap (list Z) Z).

(** The kernel stack of ring 0, in the task-state segment and in the word the
    entry code reads. *)
Lemma syscall_stack_spec tss ksr entry w T (g : G) :
  let base := dynamic_next_vaddr (w_vmm w) + PAGE_SIZE in
  vmm_inv w T → VMM_DYNAMIC_VBASE ≤ dynamic_next_vaddr (w_vmm w) → dynamic_next_vaddr (w_vmm w) mod PAGE_SIZE = 0 →
  base + 5 * PAGE_SIZE < 2 ^ 64 → (∀ k, 0 ≤ k < 4 → small_page w (base + k * PAGE_SIZE)) → (16 ≤ base.size (w_avail w))%nat →
  mapped (w_mem w) (tss + tss_rsp0) 8 → mapped (w_mem w) ksr 8 → tss + tss_rsp0 + 8 ≤ ksr ∨ ksr + 8 ≤ tss + tss_rsp0 →
  (∀ x, stack_words tss ksr x → ¬ vmm_bytes w T x) →
  ∃ w' T' g', syscall_setup tss ksr entry w g = Ok (w', g') ∧ syscall_ready g' entry ∧
    grown (guarded_pages base 4) (stack_words tss ksr) w T w' T' ∧ w_handlers w' = w_handlers w ∧
    load64 (w_mem w') ksr = Ok (base + 16384) ∧ load64 (w_mem w') (tss + tss_rsp0) = Ok (base + 16384) ∧
    dynamic_next_vaddr (w_vmm w') = base + 5 * PAGE_SIZE ∧ mmio_next_vaddr (w_vmm w') = mmio_next_vaddr (w_vmm w) ∧
    (base.size (w_avail w) ≤ base.size (w_avail w') + 16)%nat.
Proof.
  intros base Hinv Hb Hmod Hn Hsm Hsz Hmt Hmk Hdis Hout.
  destruct (guarded_ok w T SYSCALL_KERNEL_STACK_PAGES VMM_WRITABLE Hinv Hb Hmod)
    as (w1 & T1 & Hal & G1 & Hh1 & Hd1 & Hm1 & Hs1); [done | | exact Hsm | |].
  - unfold SYSCALL_KERNEL_STACK_PAGES. subst base. lia.
  - unfold SYSCALL_KERNEL_STACK_PAGES. lia.
  - fold base in Hal, G1, Hd1. unfold VMM_DYNAMIC_VBASE, PAGE_SIZE in *.
    destruct (syscall_setup_spec tss ksr entry w w1 g base Hal) as (w2 & g2 & Hset & Hrdy & L1 & L2 & Hmd & Hw2); try done.
    + subst base. lia.
    + lia.
    + eapply modifies_mapped; [exact (gr_mem _ _ _ _ _ _ G1) | done].
    + eapply modifies_mapped; [exact (gr_mem _ _ _ _ _ _ G1) | done].
    + pose proof (grown_outside _ _ _ _ _ _ _ G1 Hout) as Hout1.
      pose proof (grown_write (guarded_pages base 4) _ w1 T1 _ (gr_inv _ _ _ _ _ _ G1) Hmd Hout1) as G2. rewrite <-Hw2 in G2.
      exists w2, T1, g2. split_and!; try done.
      * eapply grown_trans; [eapply grown_mono; [| |exact G1] | exact G2]; done.
      * by rewrite Hw2.
      * rewrite Hw2. exact Hd1.
      * by rewrite Hw2.
      * destruct (outside_write w1 T1 _ _ (gr_inv _ _ _ _ _ _ G1) Hmd Hout1) as (_ & _ & Ha & _). rewrite Hw2, Ha. unfold SYSCALL_KERNEL_STACK_PAGES in Hs1. lia.
Qed.

(** What the drivers leave: both handlers registered, the timer running, the
    keyboard's line routed to this processor and the others as they were, the
    system-call registers and stack set, and two lines in the log. *)
Lemma boot_drivers_spec tss ksr entry w T (e : E) (f : F) (g : G) ls (st0 st : log D) scr out :
  let base := dynamic_next_vaddr (w_vmm w) + PAGE_SIZE in
  vmm_inv w T → VMM_DYNAMIC_VBASE ≤ dynamic_next_vaddr (w_vmm w) → dynamic_next_vaddr (w_vmm w) mod PAGE_SIZE = 0 →
  base + 5 * PAGE_SIZE < 2 ^ 64 → (∀ k, 0 ≤ k < 4 → small_page w (base + k * PAGE_SIZE)) → (16 ≤ base.size (w_avail w))%nat →
  mapped (w_mem w) (tss + tss_rsp0) 8 → mapped (w_mem w) ksr 8 → tss + tss_rsp0 + 8 ≤ ksr ∨ ksr + 8 ≤ tss + tss_rsp0 →
  (∀ x, stack_words tss ksr x → ¬ vmm_bytes w T x) → KEYBOARD_IRQ ≤ io_max f →
  logged st0 scr out st → literals ls rodata (t_mem (l_tty st0)) (tty_bytes (l_tty st0)) → [fmt_timer; fmt_syscall] ⊆ ls →
  level_number LOG_LEVEL_INFO <? level_number (min_level st0) = false →
  ∃ w' T' e' f' g' st' hz, boot_drivers polls fuel rodata tss ksr entry LAPIC_VADDR IOAPIC_VADDR w e f g st =
      Ok (w', e', f', g', st') ∧
    grown (guarded_pages base 4) (stack_words tss ksr) w T w' T' ∧
    w_handlers w' = <[KEYBOARD_VECTOR := h_keyboard_isr]> (<[TIMER_VECTOR := h_timer_tick_handler]> (w_handlers w)) ∧
    dynamic_next_vaddr (w_vmm w') = base + 5 * PAGE_SIZE ∧ mmio_next_vaddr (w_vmm w') = mmio_next_vaddr (w_vmm w) ∧
    (base.size (w_avail w) ≤ base.size (w_avail w') + 16)%nat ∧ measured (D := E) LAPIC_VADDR hz ∧
    la_reg e' LAPIC_REG_LVT_TIMER = TIMER_VECTOR + 2 ^ 17 ∧ la_reg e' LAPIC_REG_INITIAL_COUNT = hz / TIMER_FREQUENCY_HZ ∧
    (∀ x, x ∉ [LAPIC_REG_INITIAL_COUNT; LAPIC_REG_LVT_TIMER; LAPIC_REG_DIVIDE_CONFIG] → la_reg e' x = la_reg e x) ∧
    io_max f' = io_max f ∧
    route_of IOAPIC_VADDR f' KEYBOARD_IRQ = mk_route KEYBOARD_VECTOR 0 false false false (u8 (la_id (D := E) (base := LAPIC_VADDR))) ∧
    (∀ i, 0 ≤ i → i ≠ KEYBOARD_IRQ → route_of IOAPIC_VADDR f' i = route_of IOAPIC_VADDR f i) ∧
    syscall_ready g' entry ∧
    load64 (w_mem w') ksr = Ok (base + 16384) ∧ load64 (w_mem w') (tss + tss_rsp0) = Ok (base + 16384) ∧
    logged st0 scr (out ++ [log_piece LOG_LEVEL_INFO (text no_strings fmt_timer [hz; TIMER_FREQUENCY_HZ]);
                            log_piece LOG_LEVEL_INFO (text no_strings fmt_syscall [entry])]) st'.
Proof using All.
  intros base Hinv Hb Hmod Hn Hsm Hsz Hmt Hmk Hdis Hout Hmax Hlg Hls Hin Hlev. unfold boot_drivers.
  destruct (timer_init_spec LAPIC_VADDR polls fuel rodata ls (w_handlers w) e st0 st scr out Hpolls Hfuel Hlg Hls)
    as (e1 & st1 & hz & -> & Hmeas & Hlvt & Hic & Hregs & Hlg1); [set_solver | exact Hlev |]. cbn [mbind res_bind].
  unfold lapic_get_id, lapic_read. change (LAPIC_REG_ID / 4 * 4) with LAPIC_REG_ID.
  pose proof (la_id_law (base := LAPIC_VADDR) e1) as Hid. destruct (read32 e1 _) as [v e2]. destruct Hid as [Hid Hregs2].
  rewrite Z.shiftr_div_pow2, Hid by done.
  destruct (set_irq_spec IOAPIC_VADDR f KEYBOARD_IRQ KEYBOARD_VECTOR (u8 (la_id (D := E) (base := LAPIC_VADDR))) false)
    as (_ & Hmax' & Hr & Hro); [unfold KEYBOARD_IRQ in *; lia | by vm_compute | apply u8_range |].
  set (f' := ioapic_set_irq IOAPIC_VADDR f _ _ _ _) in *.
  set (w1 := keyboard_init (set_handlers w (<[TIMER_VECTOR := h_timer_tick_handler]> (w_handlers w)))).
  assert (G1 : grown (guarded_pages base 4) (stack_words tss ksr) w T w1 T)
    by apply (grown_handlers _ _ w T (w_handlers w1) Hinv).
  destruct (syscall_stack_spec tss ksr entry w1 T g (gr_inv _ _ _ _ _ _ G1) Hb Hmod Hn Hsm Hsz Hmt Hmk Hdis Hout)
    as (w2 & T2 & g2 & Hset & Hrdy & G2 & Hh & L1 & L2 & Hd & Hmm & Hs).
  unfold syscall_init. rewrite Hset. cbn [mbind res_bind].
  destruct (log_logged polls Hpolls rodata ls st0 scr _ st1 LOG_LEVEL_INFO fmt_syscall [entry] Hlg1 Hls)
    as (st2 & -> & Hlg2); [set_solver | by vm_compute | exact Hlev |]. cbn [mbind res_bind].
  exists w2, T2, e2, f', g2, st2, hz. rewrite <-app_assoc in Hlg2. split_and!; try done.
  - eapply grown_trans; [exact G1 | exact G2].
  - by rewrite Hregs2.
  - by rewrite Hregs2.
  - intros x Hx. rewrite Hregs2. by apply Hregs.
Qed.
End drivers.
