(* ===== verification/Main.v ===== *)
(** * Bring-up and the ring 3 demonstration (kernel/main.c)

    [kmain] calls the initialisers of the components one after another. Modelled
    are the three that build the kernel's memory, composed on one machine, and
    the demonstration thread that composes the allocator, the address space and
    the way to ring 3. *)

From S2P Require Import Prelude Word Mem Bitmap BootInfo FrameAlloc RefAlloc Pmm Paging Isr Vmm AddressSpace Heap.
From S2P Require Import Demand Stack Thread Gdt IsrStubs Syscall.

(** ** kmain: memory

    [m] is physical memory through the direct map, [mh] the heap's range as its
    users see it, [cr3] the page tables of the bootloader. The first store of
    [heap_init] takes a page fault (Heap.v). *)

Definition boot_memory {TR : Trap} (r : limine_responses) (m mh : mem) (cr3 : Z) (handlers : handler_table)
  : res (Z * world pmm * mem) :=
  '(s, m) ← pmm_init r pmm_bss m;
  w ← vmm_init (mk_world m s vmm_bss cr3 [] handlers) (boot_get_hhdm_offset r);
  heap_init w mh.

(** ** The ring 3 demonstration *)

Definition USER_CODE_VADDR : Z := 0x400000.
Definition USER_STACK_VADDR : Z := 0x500000.

Section ring3.
Context {A : Type} `{FrameAllocator A} {TR : Trap}.

(** [ring3_demo_thread] up to the jump: [false] when it gives up. The program
    is written through its user mapping. *)
Definition ring3_demo_setup (w : world A) : res (bool * world A) :=
  '(code_phys, w) ← pmm_alloc w;
  '(stack_phys, w) ← pmm_alloc w;
  if (code_phys =? 0) || (stack_phys =? 0) then Ok (false, w)
  else
    '(ok, w) ← vmm_map w USER_CODE_VADDR code_phys (Z.lor VMM_USER VMM_WRITABLE);
    if negb ok then Ok (false, w)
    else
      '(ok, w) ← vmm_map w USER_STACK_VADDR stack_phys (Z.lor (Z.lor VMM_USER VMM_WRITABLE) VMM_NO_EXECUTE);
      if negb ok then Ok (false, w)
      else
        w ← virt_store w USER_CODE_VADDR 0x0f;
        w ← virt_store w (USER_CODE_VADDR + 1) 0x05;
        w ← virt_store w (USER_CODE_VADDR + 2) 0xeb;
        w ← virt_store w (USER_CODE_VADDR + 3) 0xfe;
        Ok (true, w).

(** The thread's end: its registers, on its kernel stack [rsp] in [mk]. *)
Definition ring3_demo_jump (mk : mem) (g : gprs) (s : seg_regs) (rsp : Z) : res (cpu * seg_regs) :=
  jump_to_ring3 mk g s rsp USER_CODE_VADDR (USER_STACK_VADDR + PAGE_SIZE).
End ring3.

(** ** Specification *)

Section spec.
Context {A : Type} `{FrameAllocator A}.

(** The page of [v] is the frame [f], with these effective permissions. *)
Definition mapped_as (w : world A) (v f : Z) (user writable no_execute : bool) : Prop :=
  ∃ es, wwalk w v = Some es ∧ Z.land (List.last es 0) PTE_ADDR_MASK = f ∧
    eff_user es = user ∧ eff_writable es = writable ∧ eff_no_execute es = no_execute.
End spec.

(** No table of the bootloader on the way to [v] restricts what its entries
    allow. *)
Definition open_tables (hhdm : Z) (m : mem) (T : gmap (list Z) Z) (v : Z) : Prop :=
  ∀ q i r t e, indices v = q ++ i :: r → r ≠ [] → T !! q = Some t → load64 m (entry_at hhdm t i) = Ok e →
    has e PTE_PRESENT = true → Z.testbit e 1 = true ∧ Z.testbit e 2 = true ∧ Z.testbit e 63 = false.

(** ** Lemmas: the ring 3 demonstration *)

Section ring3_lemmas.
Context {A : Type} `{FrameAllocator A} {TR : Trap}.
Implicit Types (w : world A) (T : gmap (list Z) Z).

#[local] Opaque walk indices.

(** A store through a writable mapping of a frame of one's own. *)
Lemma virt_store_present w T v f user nx b :
  vmm_inv w T → mapped_as w v f user true nx → fa_managed (w_alloc w) (w_mem w) f → owned w T f →
  let w' := set_mem w (<[w_hhdm w + f + v mod PAGE_SIZE := b]> (w_mem w)) in
  virt_store w v b = Ok w' ∧ vmm_inv w' T ∧ (∀ u, wwalk w' u = wwalk w u) ∧ w_avail w' = w_avail w ∧
  (∀ q, fa_managed (w_alloc w') (w_mem w') q ↔ fa_managed (w_alloc w) (w_mem w) q) ∧
  (∀ q, owned w T q → owned w' T q).
Proof.
  intros Hinv (es & Hes & Hf & _ & Hwr & _) Hman Hown w'.
  pose proof (Z.mod_pos_bound v PAGE_SIZE ltac:(done)) as Hv.
  destruct (fa_managed_law _ _ _ (vi_alloc _ _ Hinv) Hman) as (_ & _ & _ & _ & Hm & _).
  set (a := w_hhdm w + f + v mod PAGE_SIZE) in *.
  assert (Ha : is_Some (w_mem w !! a)) by (apply Hm; unfold in_range, a, w_hhdm; lia).
  assert (Hmod : modifies (λ x, x = a) (w_mem w) (<[a := b]> (w_mem w))) by (by apply modifies_insert).
  destruct (outside_write w T _ _ Hinv Hmod) as (Hinv' & Hwalk & Hav & Hmm & _).
  { intros x ->. apply Hown. unfold frame_bytes, in_range, a. lia. }
  fold w' in Hinv', Hwalk, Hav, Hmm.
  split.
  - unfold virt_store, access_fuel. cbn [virt_access]. unfold page_access. rewrite Hes, Hwr. cbn [andb negb mbind res_bind].
    rewrite Hf. replace (w_hhdm w + (f + v mod PAGE_SIZE)) with a by lia. by rewrite store8_mapped.
  - split_and!; [exact Hinv' | exact Hwalk | exact Hav | exact Hmm |].
    intros q Hq x Hx. unfold vmm_bytes. rewrite Hav. by apply Hq.
Qed.

Lemma mapped_as_walk w w' v f user wr nx : (∀ u, wwalk w' u = wwalk w u) → mapped_as w v f user wr nx → mapped_as w' v f user wr nx.
Proof. intros Hw (es & Hes & ?). exists es. by rewrite Hw. Qed.

Lemma mapped_as_page w v u f user wr nx : indices u = indices v → mapped_as w v f user wr nx → mapped_as w u f user wr nx.
Proof. intros Hi (es & Hes & ?). exists es. split; [|done]. unfold wwalk in *. by rewrite Hi. Qed.

Lemma maps_to_as w T w' v f flags :
  maps_to w T w' v f flags → open_path w T v → 0 < f < 2 ^ 52 → f mod PAGE_SIZE = 0 →
  mapped_as w' v f (has flags VMM_USER) (has flags VMM_WRITABLE) (has flags VMM_NO_EXECUTE).
Proof.
  intros (es & _ & Hw & Hp) Ho Hf Hfa. destruct (Hp Ho) as (H1 & H2 & H3). eexists. split; [exact Hw|].
  rewrite List.last_last. destruct (leaf_entry_bits f flags ltac:(lia)) as (_ & _ & _ & _ & _ & ->).
  by rewrite aligned_masked by (done || lia).
Qed.

(** Four bytes from the start of a page. *)
Lemma store_program w T f user nx :
  vmm_inv w T → mapped_as w USER_CODE_VADDR f user true nx → fa_managed (w_alloc w) (w_mem w) f → owned w T f →
  ∃ w', (w ← virt_store w USER_CODE_VADDR 0x0f; w ← virt_store w (USER_CODE_VADDR + 1) 0x05;
         w ← virt_store w (USER_CODE_VADDR + 2) 0xeb; w ← virt_store w (USER_CODE_VADDR + 3) 0xfe; Ok (true, w)) = Ok (true, w') ∧
    vmm_inv w' T ∧ (∀ u, wwalk w' u = wwalk w u) ∧ w_avail w' = w_avail w ∧
    (∀ i b, [0x0f; 0x05; 0xeb; 0xfe] !! i = Some b → w_mem w' !! (w_hhdm w' + f + Z.of_nat i) = Some b) ∧
    modifies (frame_bytes (w_hhdm w) f) (w_mem w) (w_mem w') ∧ w_hhdm w' = w_hhdm w ∧ w_handlers w' = w_handlers w.
Proof.
  intros Hinv Hm Hman Hown.
  assert (Hpg : ∀ k, 0 ≤ k < 4 → indices (USER_CODE_VADDR + k) = indices USER_CODE_VADDR).
  { intros k Hk. apply indices_inj. unfold USER_CODE_VADDR. f_equal. dlia. }
  assert (Hoff : ∀ k, 0 ≤ k < 4 → (USER_CODE_VADDR + k) mod PAGE_SIZE = k)
    by (intros k Hk; unfold USER_CODE_VADDR, PAGE_SIZE; dlia).
  destruct (virt_store_present w T (USER_CODE_VADDR + 0) f user nx 0x0f Hinv) as (E0 & I0 & W0 & A0 & M0 & O0);
    [by apply (mapped_as_page w USER_CODE_VADDR); [apply Hpg; lia|] | done | done |].
  rewrite Hoff in * by lia. change (USER_CODE_VADDR + 0) with USER_CODE_VADDR in E0. rewrite E0. cbn [mbind res_bind]. clear E0.
  set (w0 := set_mem w _) in *. pose proof (mapped_as_walk _ _ _ _ _ _ _ W0 Hm) as Hm0.
  destruct (virt_store_present w0 T (USER_CODE_VADDR + 1) f user nx 0x05 I0) as (E1 & I1 & W1 & A1 & M1 & O1);
    [by apply (mapped_as_page w0 USER_CODE_VADDR); [apply Hpg; lia|] | by apply M0 | by apply O0 |].
  rewrite Hoff in * by lia. rewrite E1. cbn [mbind res_bind]. clear E1.
  set (w1 := set_mem w0 _) in *. pose proof (mapped_as_walk _ _ _ _ _ _ _ W1 Hm0) as Hm1.
  destruct (virt_store_present w1 T (USER_CODE_VADDR + 2) f user nx 0xeb I1) as (E2 & I2 & W2 & A2 & M2 & O2);
    [by apply (mapped_as_page w1 USER_CODE_VADDR); [apply Hpg; lia|] | by apply M1, M0 | by apply O1, O0 |].
  rewrite Hoff in * by lia. rewrite E2. cbn [mbind res_bind]. clear E2.
  set (w2 := set_mem w1 _) in *. pose proof (mapped_as_walk _ _ _ _ _ _ _ W2 Hm1) as Hm2.
  destruct (virt_store_present w2 T (USER_CODE_VADDR + 3) f user nx 0xfe I2) as (E3 & I3 & W3 & A3 & _ & _);
    [by apply (mapped_as_page w2 USER_CODE_VADDR); [apply Hpg; lia|] | by apply M2, M1, M0 | by apply O2, O1, O0 |].
  rewrite Hoff in * by lia. rewrite E3. cbn [mbind res_bind]. clear E3.
  set (w3 := set_mem w2 _) in *. exists w3.
  change (w_hhdm w3) with (w_hhdm w). change (w_hhdm w2) with (w_hhdm w) in *. change (w_hhdm w1) with (w_hhdm w) in *.
  change (w_hhdm w0) with (w_hhdm w) in *.
  split; [done|]. split; [exact I3|]. split; [intros u; by rewrite W3, W2, W1, W0|]. split; [by rewrite A3, A2, A1, A0|].
  split; [|split; [|by split]].
  - intros i b Hi. unfold w3, w2, w1, w0. cbn [set_mem w_mem].
    destruct i as [|[|[|[|i]]]]; try discriminate Hi; injection Hi as <-; cbn [Z.of_nat Pos.of_succ_nat Pos.succ];
      rewrite ?lookup_insert_ne by lia; apply lookup_insert_eq.
  - destruct (fa_managed_law _ _ _ (vi_alloc _ _ Hinv) Hman) as (_ & _ & _ & _ & Hmap & _).
    assert (Hin : ∀ k, 0 ≤ k < 4 → is_Some (w_mem w !! (w_hhdm w + f + k))).
    { intros k Hk. apply Hmap. unfold in_range, w_hhdm, PAGE_SIZE. lia. }
    assert (Hfr : ∀ k, 0 ≤ k < 4 → frame_bytes (w_hhdm w) f (w_hhdm w + f + k)) by (intros k Hk; unfold frame_bytes, in_range, PAGE_SIZE; lia).
    unfold w3, w2, w1, w0. cbn [set_mem w_mem]. split.
    + intros x. rewrite !lookup_insert_is_Some'. split; [|by auto].
      by intros [<-|[<-|[<-|[<-|Hx]]]]; [apply Hin; lia..|].
    + intros x Hx. assert (Hne : ∀ k, 0 ≤ k < 4 → w_hhdm w + f + k ≠ x) by (intros k Hk <-; by apply Hx, Hfr).
      by rewrite !lookup_insert_ne by (apply Hne; lia).
Qed.

Lemma user_pages_differ : indices USER_CODE_VADDR ≠ indices USER_STACK_VADDR.
Proof. rewrite indices_inj. by vm_compute. Qed.

(** Two fresh frames. *)
Lemma two_frames w T :
  vmm_inv w T →
  ∃ f g w1 w2, pmm_alloc w = Ok (f, w1) ∧ pmm_alloc w1 = Ok (g, w2) ∧
    (((f = 0 ∨ g = 0) ∧ extends w T w2 T ∧ (base.size (w_avail w) ≤ 1)%nat) ∨
     (f ∈ w_avail w ∧ 0 < f < 2 ^ 52 ∧ f mod PAGE_SIZE = 0 ∧ 0 < g < 2 ^ 52 ∧ g mod PAGE_SIZE = 0 ∧ f ≠ g ∧
      fa_managed (w_alloc w2) (w_mem w2) f ∧ fa_managed (w_alloc w2) (w_mem w2) g ∧
      owned w2 T f ∧ owned w2 T g ∧ filled (w_mem w2) (w_hhdm w2 + g) PAGE_SIZE 0 ∧
      extends w T w2 T ∧ (base.size (w_avail w) ≤ base.size (w_avail w2) + 2)%nat)).
Proof.
  intros Hinv. destruct (world_alloc_owned w T Hinv) as (f & w1 & E1 & [(-> & Hav & ->)|H1]).
  - destruct (world_alloc_owned w T Hinv) as (g & w2 & E2 & [(-> & _ & ->)|H2]).
    + exists 0, 0, w, w. split_and!; [done | done |]. left. split_and!; [by left | by apply extends_refl |]. rewrite Hav, size_empty. lia.
    + destruct H2 as (_ & _ & Hin & _). rewrite Hav in Hin. set_solver.
  - destruct H1 as (Hf & Hfa & Hin & Hman & Hex & Hav1 & _ & Hown & _).
    pose proof (size_take_one (w_avail w) f) as Hs1. rewrite <-Hav1 in Hs1.
    destruct (world_alloc_owned w1 T (xt_inv _ _ _ _ Hex)) as (g & w2 & E2 & [(-> & Hav & ->)|H2]).
    + exists f, 0, w1, w1. split_and!; [done | done |]. left.
      split_and!; [by right | exact Hex |]. rewrite Hav, size_empty in Hs1. lia.
    + destruct H2 as (Hg & Hga & Hin2 & Hman2 & Hex2 & Hav2 & _ & Hown2 & Hfill2).
      pose proof (size_take_one (w_avail w1) g) as Hs2. rewrite <-Hav2 in Hs2.
      pose proof (extends_trans _ _ _ _ _ _ Hex Hex2) as Hex12.
      exists f, g, w1, w2. split_and!; [done | done |]. right.
      split_and!; try done; try lia.
      * intros <-. rewrite Hav1 in Hin2. set_solver.
      * by apply (xt_managed _ _ _ _ Hex12).
      * by apply (xt_managed _ _ _ _ Hex2).
      * eapply owned_effect; [|exact Hown]. apply (extends_effect (λ _, False)). exact Hex2.
Qed.

(** What the user program finds. *)
Definition program_ready w' : Prop :=
  ∃ f g, f ≠ g ∧
    mapped_as w' USER_CODE_VADDR f true true false ∧ mapped_as w' USER_STACK_VADDR g true true true ∧
    (∀ i b, [0x0f; 0x05; 0xeb; 0xfe] !! i = Some b → w_mem w' !! (w_hhdm w' + f + Z.of_nat i) = Some b) ∧
    filled (w_mem w') (w_hhdm w' + g) PAGE_SIZE 0 ∧ f ∉ w_avail w' ∧ g ∉ w_avail w'.

Lemma ring3_demo_setup_spec w T :
  vmm_inv w T → small_page w USER_CODE_VADDR → small_page w USER_STACK_VADDR →
  open_path w T USER_CODE_VADDR → open_path w T USER_STACK_VADDR →
  ∃ ok w' T', ring3_demo_setup w = Ok (ok, w') ∧ vmm_inv w' T' ∧
    (if ok then program_ready w' else (base.size (w_avail w) < 8)%nat) ∧
    (∀ v, indices v ≠ indices USER_CODE_VADDR → indices v ≠ indices USER_STACK_VADDR → wwalk w' v = wwalk w v) ∧
    modifies (vmm_bytes w T) (w_mem w) (w_mem w') ∧ w_handlers w' = w_handlers w.
Proof.
  intros Hinv Hs1 Hs2 Ho1 Ho2. unfold ring3_demo_setup.
  destruct (two_frames w T Hinv) as (f & g & w1 & w2 & -> & E2 & Hfr). cbn [mbind res_bind]. rewrite E2. cbn [mbind res_bind]. clear E2.
  destruct Hfr as [(Hz & Hex & Hsz)|(Hfin & Hf & Hfa & Hg & Hga & Hfg & Mf & Mg & Of & Og & Fg & Hex & Hsz)].
  { replace ((f =? 0) || (g =? 0)) with true by (symmetry; apply orb_true_iff; rewrite !Z.eqb_eq; exact Hz).
    exists false, w2, T. split_and!; [done | apply Hex | lia | intros v _ _; apply (xt_walk _ _ _ _ Hex) | apply Hex | apply Hex]. }
  rewrite (proj2 (Z.eqb_neq f 0)), (proj2 (Z.eqb_neq g 0)) by lia. cbn [orb].
  destruct (vmm_map_spec w2 T USER_CODE_VADDR f (Z.lor VMM_USER VMM_WRITABLE) (xt_inv _ _ _ _ Hex)
    (extends_small_page _ _ _ _ _ Hex Hs1) ltac:(lia)) as (ok & w3 & T3 & -> & Hef3 & Hout3). cbn [mbind res_bind].
  assert (Hwk3 : ∀ v, indices v ≠ indices USER_CODE_VADDR → wwalk w3 v = wwalk w v)
    by (intros v Hv; rewrite (ef_walk _ _ _ _ _ Hef3 v Hv); apply (xt_walk _ _ _ _ Hex)).
  pose proof (effect_trans _ _ _ _ _ _ _ (extends_effect _ _ _ _ _ Hex) Hef3) as Hef03.
  destruct ok; cbn [negb].
  2: { destruct Hout3 as (_ & _ & _ & Hb). exists false, w3, T3. split_and!; [done | apply Hef3 | lia | auto | apply Hef03 | apply Hef03]. }
  destruct Hout3 as (Hm3 & _ & Hb3). pose proof (missing_le T USER_CODE_VADDR) as Hl3. pose proof (missing_le T3 USER_STACK_VADDR) as Hl4.
  destruct (vmm_map_spec w3 T3 USER_STACK_VADDR g (Z.lor (Z.lor VMM_USER VMM_WRITABLE) VMM_NO_EXECUTE) (ef_inv _ _ _ _ _ Hef3)
    ltac:(by apply (ef_small _ _ _ _ _ Hef3), (extends_small_page _ _ _ _ _ Hex)) ltac:(lia))
    as (ok & w4 & T4 & -> & Hef4 & Hout4). cbn [mbind res_bind].
  assert (Hwk4 : ∀ v, indices v ≠ indices USER_CODE_VADDR → indices v ≠ indices USER_STACK_VADDR → wwalk w4 v = wwalk w v)
    by (intros v Hv1 Hv2; rewrite (ef_walk _ _ _ _ _ Hef4 v Hv2); auto).
  assert (Hm04 : modifies (vmm_bytes w T) (w_mem w) (w_mem w4)).
  { etransitivity; [apply (ef_mem _ _ _ _ _ Hef03)|]. eapply modifies_mono; [|apply (ef_mem _ _ _ _ _ Hef4)].
    intros x. apply (ef_bytes _ _ _ _ _ Hef03). }
  assert (Hh04 : w_handlers w4 = w_handlers w)
    by (rewrite (ef_handlers _ _ _ _ _ Hef4); apply (ef_handlers _ _ _ _ _ Hef03)).
  destruct ok; cbn [negb].
  2: { destruct Hout4 as (_ & _ & _ & Hb). exists false, w4, T4. split_and!; [done | apply Hef4 | lia | auto | exact Hm04 | exact Hh04]. }
  destruct Hout4 as (Hm4 & _ & _).
  assert (Hop : ∀ v, open_path w T v → open_path w2 T v) by (intros v; by apply extends_open_path).
  pose proof (maps_to_as _ _ _ _ _ _ Hm3 (Hop _ Ho1) Hf Hfa) as As3.
  pose proof (maps_to_as _ _ _ _ _ _ Hm4 (ef_open _ _ _ _ _ Hef3 _ (Hop _ Ho2)) Hg Hga) as As4.
  assert (As3' : mapped_as w4 USER_CODE_VADDR f true true false).
  { destruct As3 as (es & Hes & He). exists es. split; [|exact He].
    rewrite (ef_walk _ _ _ _ _ Hef4); [exact Hes | exact user_pages_differ]. }
  pose proof (owned_effect _ _ _ _ _ _ Hef4 (owned_effect _ _ _ _ _ _ Hef3 Of)) as Of4.
  pose proof (owned_effect _ _ _ _ _ _ Hef4 (owned_effect _ _ _ _ _ _ Hef3 Og)) as Og4.
  pose proof (owned_filled _ _ _ _ _ _ _ Hef3 Og Fg) as Fg3.
  pose proof (owned_filled _ _ _ _ _ _ _ Hef4 (owned_effect _ _ _ _ _ _ Hef3 Og) Fg3) as Fg4.
  assert (Mf4 : fa_managed (w_alloc w4) (w_mem w4) f) by (by apply (ef_managed _ _ _ _ _ Hef4), (ef_managed _ _ _ _ _ Hef3)).
  destruct (store_program w4 T4 f true false (ef_inv _ _ _ _ _ Hef4) As3' Mf4 Of4) as (w5 & -> & I5 & W5 & A5 & B5 & D5 & H5 & G5).
  exists true, w5, T4. split_and!; [done | exact I5 | | intros v Hv1 Hv2; rewrite W5; auto | | by rewrite G5].
  2: { etransitivity; [exact Hm04|]. eapply modifies_mono; [|exact D5]. intros x Hx. right. left. exists f. split; [exact Hfin|].
    by rewrite (ef_hhdm _ _ _ _ _ Hef4), (ef_hhdm _ _ _ _ _ Hef03) in Hx. }
  exists f, g. split_and!; [done | by eapply mapped_as_walk | by eapply mapped_as_walk | exact B5 | | |].
  - intros x Hx. rewrite H5 in Hx. rewrite (modifies_lookup _ _ _ x D5); [by apply Fg4|].
    intros Hx'. apply Hfg. by apply (frames_disjoint (w_hhdm w4) f g x).
  - rewrite A5. by apply (owned_not_avail w4 T4).
  - rewrite A5. by apply (owned_not_avail w4 T4).
Qed.
End ring3_lemmas.

(** ** Lemmas: the kernel's memory *)

(** The page tables the bootloader hands over: a well-formed tree outside the
    usable memory, which maps nothing in the heap's range and restricts nothing
    there. *)
Record boot_tables (hhdm root : Z) (entries : list boot_memmap_entry) (m : mem) (T : gmap (list Z) Z) : Prop := {
  bt_ok : tables_ok hhdm root m T;
  bt_reserved p t : T !! p = Some t → t / PAGE_SIZE ∉ usable_frames entries;
  bt_unmapped v : in_range HEAP_VBASE HEAP_SIZE v → walk m hhdm root (indices v) = None;
  bt_open v : in_range HEAP_VBASE HEAP_SIZE v → open_tables hhdm m T v;
}.

#[local] Opaque walk indices.

(** The frame bitmap lies in usable memory. *)
Lemma bitmap_in_usable hhdm entries m s x :
  memmap_ok hhdm entries m →
  let n := ram_end entries / PAGE_SIZE in let bp := bitmap_place entries (bitmap_bytes n) in
  bp ≠ 0 → Pmm.bitmap s = hhdm + bp → frame_count s = n → bitmap_region s x →
  ∃ f, f ∈ usable_frames entries ∧ frame_bytes hhdm (f * PAGE_SIZE) x.
Proof.
  intros Hok n bp Hbp Hb Hn Hx. destruct (bitmap_place_spec _ _ Hbp) as (e & Hin & Hu & Hlen & Hbase).
  fold n in Hlen. fold n bp in Hbase. destruct (mm_aligned _ _ _ Hok e Hin Hu) as [Ha Hla].
  unfold bitmap_region, in_range in Hx. rewrite Hb, Hn in Hx.
  exists ((x - hhdm) / PAGE_SIZE). split.
  - apply elem_of_usable_frames. exists e. split; [done|]. apply elem_of_region_frames. split; [done|].
    unfold Pmm.end_, PAGE_SIZE in *. dlia.
  - unfold frame_bytes, in_range, PAGE_SIZE. dlia.
Qed.

Lemma bitmap_not_tables hhdm root entries m s T x :
  memmap_ok hhdm entries m → boot_tables hhdm root entries m T →
  let n := ram_end entries / PAGE_SIZE in let bp := bitmap_place entries (bitmap_bytes n) in
  bp ≠ 0 → Pmm.bitmap s = hhdm + bp → frame_count s = n → bitmap_region s x → ¬ table_bytes hhdm T x.
Proof.
  intros Hok Hbt n bp Hbp Hb Hn Hx (p & t & Hp & Ht).
  destruct (bitmap_in_usable hhdm entries m s x Hok Hbp Hb Hn Hx) as (f & Hf & Hfx).
  destruct (t_page _ _ _ _ (bt_ok _ _ _ _ _ Hbt) p t Hp) as (_ & Hta & _). apply (bt_reserved _ _ _ _ _ Hbt p t Hp).
  assert (Ht' : t = f * PAGE_SIZE)
    by (eapply (frames_disjoint hhdm); [exact Hta | by apply Z.mod_mul | exact Ht | exact Hfx]).
  rewrite Ht', Z.div_mul by done. exact Hf.
Qed.

(** The address space of the bootloader, with the frames of [pmm_init]. *)
Lemma boot_vmm_inv hhdm root entries m m' s T v cr3 il hs :
  memmap_ok hhdm entries m → boot_tables hhdm root entries m T → root = Z.land cr3 PTE_ADDR_MASK →
  let n := ram_end entries / PAGE_SIZE in let bp := bitmap_place entries (bitmap_bytes n) in
  bp ≠ 0 → pmm_inv s m' → Pmm.bitmap s = hhdm + bp → frame_count s = n → Pmm.hhdm_offset s = hhdm →
  free_set s m' ⊆ usable_frames entries → modifies (bitmap_region s) m m' → Vmm.hhdm_offset v = hhdm →
  let w := mk_world m' s v cr3 il hs in
  vmm_inv w T ∧ (∀ u, open_tables hhdm m T u → open_path w T u) ∧
  ∀ u, in_range HEAP_VBASE HEAP_SIZE u → wwalk w u = None ∧ open_path w T u.
Proof.
  intros Hok Hbt Hroot n bp Hbp Hinv Hb Hn Hh Hfree Hmod Hv w. pose proof Hbt as [Htab Hres Hun Hop].
  assert (Hw : w_hhdm w = hhdm) by exact Hh.
  assert (HX : ∀ x, bitmap_region s x → ¬ table_bytes hhdm T x)
    by (intros x; by apply (bitmap_not_tables hhdm root entries m s T x)).
  assert (Htab' : tables_ok hhdm root m' T) by (eapply tables_ok_modifies; [exact Htab | exact Hmod | exact HX]).
  split.
  - constructor; rewrite ?Hw; [exact Hinv | exact Hv | pose proof (mm_hhdm _ _ _ Hok); lia | |].
    + unfold w_root. simpl. by rewrite <-Hroot.
    + intros p t Hp. split.
      * unfold w_avail. simpl. unfold avail. rewrite elem_of_map. intros (f & -> & Hf).
        apply (Hres p _ Hp). rewrite Z.div_mul by done. by apply Hfree.
      * intros x Hx Hpr. apply (HX x Hpr). by exists p, t.
  - assert (Hopen : ∀ u, open_tables hhdm m T u → open_path w T u).
    { intros u Hu q i r t e Hidx Hr Hq He. apply (Hu q i r t e Hidx Hr Hq). rewrite <-He. unfold entry. rewrite Hw. simpl.
      destruct (indices_at _ _ _ _ Hidx) as [Hi _].
      symmetry. apply (load64_modifies _ _ _ _ Hmod). intros x Hx HXx. apply (HX x HXx). exists q, t.
      split; [done|]. eapply entry_in_frame; [exact Hi | exact Hx]. }
    split; [exact Hopen|]. intros u Hu. split; [|by apply Hopen, Hop].
    unfold wwalk, w_root. rewrite Hw. simpl. rewrite <-Hroot, <-(Hun u Hu).
    eapply walk_modifies; [exact Htab | exact Hmod | exact HX | apply indices_length | apply indices_range].
Qed.

(** Bytes of the machine that are neither usable memory nor tables of the
    bootloader. *)
Definition kept (hhdm : Z) (entries : list boot_memmap_entry) (T : gmap (list Z) Z) (x : Z) : Prop :=
  ¬ table_bytes hhdm T x ∧ ∀ f, f ∈ usable_frames entries → ¬ frame_bytes hhdm (f * PAGE_SIZE) x.

(** They are not the memory managers' business. *)
Lemma kept_outside hhdm entries m s T (w : world pmm) x :
  memmap_ok hhdm entries m →
  let n := ram_end entries / PAGE_SIZE in let bp := bitmap_place entries (bitmap_bytes n) in
  bp ≠ 0 → Pmm.bitmap s = hhdm + bp → frame_count s = n → Pmm.hhdm_offset s = hhdm →
  free_set s (w_mem w) ⊆ usable_frames entries → w_alloc w = s → kept hhdm entries T x →
  ¬ bitmap_region s x ∧ ¬ vmm_bytes w T x.
Proof.
  intros Hok n bp Hbp Hb Hn Hh Hfree Hs [Ht Hf].
  assert (Hreg : ¬ bitmap_region s x).
  { intros Hx. destruct (bitmap_in_usable hhdm entries m s x Hok Hbp Hb Hn Hx) as (f & Hin & Hfx). by apply (Hf f). }
  split; [exact Hreg|]. unfold vmm_bytes, w_hhdm, w_avail. rewrite Hs. cbn. rewrite Hh.
  intros [Hx|[(q & Hq & Hx)|Hx]]; [done | | done].
  unfold Pmm.avail in Hq. apply elem_of_map in Hq as (f & -> & Hin). apply (Hf f); [by apply Hfree | done].
Qed.

(** The frames [pmm_init] frees. *)
Definition boot_frames (entries : list boot_memmap_entry) : gset Z :=
  let n := ram_end entries / PAGE_SIZE in
  usable_frames entries ∖ bitmap_frames (bitmap_place entries (bitmap_bytes n)) (bitmap_bytes n) ∖ {[0]}.

(** The frames that the start of the heap takes from them: one for the first
    page, and one for each table missing on the way to it. *)
Definition heap_start_frames (T : gmap (list Z) Z) : nat := (1 + missing T HEAP_VBASE)%nat.

(** The frames left. *)
Definition boot_free (entries : list boot_memmap_entry) (T : gmap (list Z) Z) : nat :=
  (base.size (boot_frames entries) - heap_start_frames T)%nat.

(** The kernel's memory: the frames, the tables of the bootloader and those that
    the start of the heap added, the heap's range, and where the two bump
    allocators start. *)
Record memory_ready (hhdm : Z) (entries : list boot_memmap_entry) (cr3 : Z) (m mh : mem) (T : gmap (list Z) Z)
    (w : world pmm) (mh' : mem) (T' : gmap (list Z) Z) : Prop := {
  mr_avail : w_avail w ⊆ set_map (λ f, f * PAGE_SIZE) (boot_frames entries);
  mr_size : base.size (boot_frames entries) = (base.size (w_avail w) + heap_start_frames T)%nat;
  mr_tree : T ⊆ T';
  mr_walk v : indices v ≠ indices HEAP_VBASE → wwalk w v = walk m hhdm (Z.land cr3 PTE_ADDR_MASK) (indices v);
  mr_first : ∃ f, f ∈ boot_frames entries ∧ mapped_as w HEAP_VBASE (f * PAGE_SIZE) false true false ∧ f * PAGE_SIZE ∉ w_avail w;
  mr_open v : open_tables hhdm m T v → open_path w T' v;
  mr_handlers : w_handlers w = {[14 := h_page_fault_isr]};
  mr_heap : demand_inv w T' HEAP_VBASE (HEAP_VBASE + HEAP_SIZE);
  mr_zero v : in_range HEAP_VBASE HEAP_SIZE v → ¬ header_fields v → contents w v = 0;
  mr_view : filled mh HEAP_VBASE HEAP_SIZE 0 → ∀ v, in_range HEAP_VBASE HEAP_SIZE v → mh' !! v = Some (contents w v);
  mr_inv : vmm_inv w T';
  mr_dynamic : dynamic_next_vaddr (w_vmm w) = VMM_DYNAMIC_VBASE;
  mr_mmio : mmio_next_vaddr (w_vmm w) = VMM_MMIO_VBASE;
  mr_total : frame_count (w_alloc w) = ram_end entries / PAGE_SIZE;
  mr_total_range : 0 ≤ ram_end entries / PAGE_SIZE ≤ 2 ^ 40;
  mr_free : free_frames (w_alloc w) = Z.of_nat (base.size (w_avail w));
  mr_mem : modifies (λ x, ¬ kept hhdm entries T x) m (w_mem w);
  mr_kept x : kept hhdm entries T x → ¬ vmm_bytes w T' x;
}.

Lemma memory_free hhdm entries cr3 m mh T w mh' T' :
  memory_ready hhdm entries cr3 m mh T w mh' T' → base.size (w_avail w) = boot_free entries T.
Proof. intros Hr. unfold boot_free. rewrite (mr_size _ _ _ _ _ _ _ _ _ Hr). lia. Qed.

(** Neither walk nor small pages depend on what the heap faulted in. *)
Lemma heap_page_first v : in_range HEAP_VBASE PAGE_SIZE v → indices v = indices HEAP_VBASE.
Proof. unfold in_range, HEAP_VBASE, PAGE_SIZE. intros Hv. apply indices_inj. f_equal. dlia. Qed.

(** From [pmm_init]'s machine [w0], with the heap's range registered, to the
    machine that the first stores of the heap leave. *)
Lemma heap_started_ready hhdm entries cr3 m mh T w0 w1 T1 f mp mh' :
  demand_inv w0 T HEAP_VBASE (HEAP_VBASE + HEAP_SIZE) →
  (∀ u, in_range HEAP_VBASE HEAP_SIZE u → contents w0 u = 0) →
  w_avail w0 = set_map (λ f, f * PAGE_SIZE) (boot_frames entries) →
  (∀ v, wwalk w0 v = walk m hhdm (Z.land cr3 PTE_ADDR_MASK) (indices v)) →
  (∀ v, open_tables hhdm m T v → open_path w0 T v) →
  lazy_region_of w0 HEAP_VBASE = Some heap_region → open_path w0 T HEAP_VBASE →
  w_handlers w0 = {[14 := h_page_fault_isr]} →
  dynamic_next_vaddr (w_vmm w0) = VMM_DYNAMIC_VBASE → mmio_next_vaddr (w_vmm w0) = VMM_MMIO_VBASE →
  frame_count (w_alloc w0) = ram_end entries / PAGE_SIZE → 0 ≤ ram_end entries / PAGE_SIZE ≤ 2 ^ 40 →
  modifies (λ x, ¬ kept hhdm entries T x) m (w_mem w0) → (∀ x, kept hhdm entries T x → ¬ vmm_bytes w0 T x) →
  heap_started w0 T w1 T1 f mp mh mh' →
  memory_ready hhdm entries cr3 m mh T (set_mem w1 mp) mh' T1.
Proof.
  intros Hd0 Hz Hav Hwalk Hopen Hreg Ho Hh Hdyn Hmm Hfc Hrange Hmod Hkept [[frame Hpf] Hmaps Hef [Hin Hf] Hsz Hst (Kw & Ka & Ko) Hd Hc Hheap Hhdr].
  set (w := set_mem w1 mp) in *.
  constructor.
  - rewrite Ka. etransitivity; [apply (ef_avail _ _ _ _ _ Hef) | by rewrite Hav].
  - rewrite Ka. unfold heap_start_frames. rewrite Hav, frames_size in Hsz. lia.
  - apply (ef_tree _ _ _ _ _ Hef).
  - intros v Hv. rewrite Kw, <-Hwalk. by apply (ef_walk _ _ _ _ _ Hef).
  - pose proof Hin as Hin'. rewrite Hav in Hin'. apply elem_of_map in Hin' as (f0 & -> & Hf0). exists f0. split; [exact Hf0|].
    assert (Hman : fa_managed (w_alloc w0) (w_mem w0) (f0 * PAGE_SIZE))
      by (apply fa_avail_managed; [apply (vi_alloc _ _ (di_vmm _ _ _ _ Hd0)) | exact Hin]).
    destruct (fa_managed_law _ _ _ (vi_alloc _ _ (di_vmm _ _ _ _ Hd0)) Hman) as (Hr & Hra & _).
    destruct Hmaps as (r & Hr' & Hmaps). rewrite Hreg in Hr'. injection Hr' as <-. split.
    + apply (mapped_as_walk w1); [exact Kw|]. exact (maps_to_as _ _ _ _ _ _ Hmaps Ho Hr Hra).
    + destruct (frame_of_masked _ _ _ Hf) as (es & Hes & _).
      assert (HV : HEAP_VBASE ≤ HEAP_VBASE < HEAP_VBASE + HEAP_SIZE) by (unfold HEAP_SIZE; lia).
      destruct (di_frame _ _ _ _ Hd HEAP_VBASE es _ HV Hes Hf) as (_ & _ & Hown). exact (owned_not_avail _ _ _ Hown).
  - intros v Hv. by apply Ko, (ef_open _ _ _ _ _ Hef), Hopen.
  - by rewrite <-Hh, <-(ef_handlers _ _ _ _ _ Hef).
  - exact Hd.
  - intros v Hv Hn. rewrite Hc by done. rewrite decide_False by done. by apply Hz.
  - intros Hfill v Hv. rewrite Hc by done. case_decide as Hf'.
    + destruct (hi_mapped _ _ _ Hheap v Hv) as [b Hb]. by rewrite Hb.
    + rewrite (modifies_lookup _ _ _ v Hhdr Hf'), Hz by done. by apply Hfill.
  - apply Hd.
  - rewrite <-Hdyn. cbn. by rewrite (ef_vmm _ _ _ _ _ Hef).
  - rewrite <-Hmm. cbn. by rewrite (ef_vmm _ _ _ _ _ Hef).
  - change (w_alloc w) with (w_alloc w1).
    apply (page_fault_keeps (λ a, frame_count a = ram_end entries / PAGE_SIZE)) with (2 := Hpf); [|exact Hfc].
    intros a m0 r a' m1 Ha <-. by eapply pmm_alloc_frame_count.
  - exact Hrange.
  - pose proof (vi_alloc _ _ (di_vmm _ _ _ _ Hd)) as Hinv. cbn [fa_inv pmm_frame_allocator] in Hinv.
    unfold w_avail. cbn [fa_avail pmm_frame_allocator]. unfold Pmm.avail. rewrite frames_size. apply (inv_count _ _ Hinv).
  - etransitivity; [exact Hmod|]. etransitivity; [eapply modifies_mono; [|exact (ef_mem _ _ _ _ _ Hef)]|].
    + intros x Hx Hk. by apply (Hkept x).
    + eapply modifies_mono; [|exact Hst]. intros x Hx Hk. apply (Hkept x Hk). right. left. exists f. split; [done|].
      by rewrite <-(ef_hhdm _ _ _ _ _ Hef).
  - intros x Hk Hb. apply (Hkept x Hk), (ef_bytes _ _ _ _ _ Hef). unfold vmm_bytes in *. by rewrite Ka in Hb.
Qed.

Lemma boot_memory_spec {TR : Trap} r hhdm response m mh cr3 T :
  hhdm_response r = Some hhdm → memmap_response r = Some response →
  let entries := take 256 response in
  memmap_ok hhdm entries m → bitmap_place entries (bitmap_bytes (ram_end entries / PAGE_SIZE)) ≠ 0 →
  boot_tables hhdm (Z.land cr3 PTE_ADDR_MASK) entries m T →
  mapped mh HEAP_VBASE HEAP_SIZE → (4 ≤ base.size (boot_frames entries))%nat →
  ∃ (w : world pmm) mh' T', boot_memory r m mh cr3 ∅ = Ok (HEAP_VBASE, w, mh') ∧
    memory_ready hhdm entries cr3 m mh T w mh' T' ∧
    heap_inv HEAP_VBASE mh' [(HEAP_SIZE - sizeof_block_header, true)] ∧
    modifies (in_range HEAP_VBASE sizeof_block_header) mh mh'.
Proof.
  intros Hhd Hmm entries Hok Hbp Hbt Hmh Hfr. unfold boot_memory.
  pose proof (pmm_init_spec r hhdm response m Hhd Hmm Hok) as Hp. cbv zeta in Hp. fold entries in Hp.
  rewrite (proj2 (Z.eqb_neq _ 0)) in Hp by done.
  destruct Hp as (s & m' & -> & Hinv & Hn & Hb & Hh & _ & Hfree & Hmod). cbn [mbind res_bind].
  unfold vmm_init, boot_get_hhdm_offset. rewrite Hhd. cbn [deref mbind res_bind w_mem w_alloc w_vmm w_cr3 w_invlpg w_handlers].
  set (v0 := mk_vmm hhdm VMM_DYNAMIC_VBASE VMM_MMIO_VBASE (heap_region :: replicate 7 (mk_lazy_region 0 0 0 false))).
  match goal with |- context [heap_init ?w mh] => set (wi := w) end. set (w0 := set_vmm wi v0).
  destruct (boot_vmm_inv hhdm _ entries m m' s T v0 cr3 [] (w_handlers wi) Hok Hbt eq_refl Hbp Hinv Hb Hn Hh) as (HV & Hopen & Hrange);
    [rewrite Hfree; set_solver | exact Hmod | reflexivity |]. change (mk_world m' s v0 cr3 [] (w_handlers wi)) with w0 in HV, Hopen, Hrange.
  assert (Hlazy : ∀ p, in_range HEAP_VBASE HEAP_SIZE p → lazy_region_of w0 p = Some heap_region).
  { intros p Hp. unfold lazy_region_of, w0, v0, in_range in *. cbn [set_vmm w_vmm lazy_regions List.find].
    unfold in_lazy_region at 1, heap_region at 1 2 3. cbn [used start Vmm.end_].
    by rewrite (proj2 (Z.leb_le _ _)), (proj2 (Z.ltb_lt _ _)) by lia. }
  assert (H1 : in_range HEAP_VBASE HEAP_SIZE HEAP_VBASE) by (unfold in_range, HEAP_SIZE; lia).
  destruct (heap_demand w0 T HV Hrange Hlazy) as [Hd Hc].
  assert (Hav : w_avail w0 = set_map (λ f, f * PAGE_SIZE) (boot_frames entries)).
  { unfold w_avail. simpl. unfold Pmm.avail. by rewrite Hfree. }
  destruct (heap_init_spec wi w0 T mh eq_refl Hd (proj1 (Hrange _ H1))) as (w1 & T1 & f & mp & mh' & -> & Hst);
    [rewrite Hav, frames_size; exact Hfr | exact Hmh |].
  exists (set_mem w1 mp), mh', T1. split; [reflexivity|].
  assert (Hkept : ∀ x, kept hhdm entries T x → ¬ bitmap_region s x ∧ ¬ vmm_bytes w0 T x).
  { intros x Hk. eapply (kept_outside hhdm entries m s T w0 x Hok Hbp Hb Hn Hh); [|reflexivity | exact Hk].
    change (w_mem w0) with m'. rewrite Hfree. set_solver. }
  split; [|split; [apply (hs_heap _ _ _ _ _ _ _ _ Hst)|]].
  - apply (heap_started_ready hhdm entries cr3 m mh T w0 w1 T1 f mp mh'); try done.
    + intros v. unfold wwalk, w_root, w_hhdm. simpl. rewrite Hh.
      eapply walk_modifies; [apply (bt_ok _ _ _ _ _ Hbt) | exact Hmod | | apply indices_length | apply indices_range].
      intros x Hx. by apply (bitmap_not_tables hhdm (Z.land cr3 PTE_ADDR_MASK) entries m s T x).
    + exact (proj2 (Hrange _ H1)).
    + rewrite <-Hn. apply Hinv.
    + eapply modifies_mono; [|exact Hmod]. intros x Hx Hk. by destruct (Hkept x Hk).
    + intros x Hk. by apply Hkept.
  - eapply modifies_mono; [|exact (hs_header _ _ _ _ _ _ _ _ Hst)]. unfold header_fields, in_range, sizeof_block_header. lia.
Qed.

(** ** Properties *)

(** C9: the kernel's memory after the first three initialisers of [kmain]. For
    any well-formed memory map with room for the bitmap and four frames more, and
    page tables of the bootloader outside usable memory that leave the heap's
    range alone: the sequence [pmm_init], [vmm_init], [heap_init] returns. The
    heap's first header has then been stored through a page fault: its page is
    mapped, writable, to a usable frame of its own, and that frame and those of
    the tables missing on the way to it are exactly what is no longer available
    of the usable frames apart from frame 0 and the bitmap's; every other page
    translates as the bootloader's tables did; the page-fault handler is in
    place; the rest of the heap's range is zero-initialised demand-paged memory
    (Demand.v), and what the page tables show of the range is what the heap's
    users see; and the heap is one free block of the whole range. *)
Theorem boot_memory_correct {TR : Trap} r hhdm response m mh cr3 T :
  hhdm_response r = Some hhdm → memmap_response r = Some response →
  let entries := take 256 response in
  let n := ram_end entries / PAGE_SIZE in
  let bp := bitmap_place entries (bitmap_bytes n) in
  let usable := usable_frames entries ∖ bitmap_frames bp (bitmap_bytes n) ∖ {[0]} in
  memmap_ok hhdm entries m → bp ≠ 0 → (4 ≤ base.size usable)%nat →
  boot_tables hhdm (Z.land cr3 PTE_ADDR_MASK) entries m T →
  mapped mh HEAP_VBASE HEAP_SIZE →
  ∃ (w : world pmm) mh' T' f, boot_memory r m mh cr3 ∅ = Ok (HEAP_VBASE, w, mh') ∧
    vmm_inv w T' ∧ T ⊆ T' ∧
    f ∈ usable ∧ mapped_as w HEAP_VBASE (f * PAGE_SIZE) false true false ∧
    w_avail w ⊆ set_map (λ f, f * PAGE_SIZE) (usable ∖ {[f]}) ∧
    base.size usable = (base.size (w_avail w) + 1 + missing T HEAP_VBASE)%nat ∧
    (∀ v, indices v ≠ indices HEAP_VBASE → wwalk w v = walk m hhdm (Z.land cr3 PTE_ADDR_MASK) (indices v)) ∧
    w_handlers w !! 14 = Some h_page_fault_isr ∧
    demand_inv w T' HEAP_VBASE (HEAP_VBASE + HEAP_SIZE) ∧
    (∀ v, in_range HEAP_VBASE HEAP_SIZE v → ¬ header_fields v → contents w v = 0) ∧
    (filled mh HEAP_VBASE HEAP_SIZE 0 → ∀ v, in_range HEAP_VBASE HEAP_SIZE v → mh' !! v = Some (contents w v)) ∧
    heap_inv HEAP_VBASE mh' [(HEAP_SIZE - sizeof_block_header, true)].
Proof.
  intros Hhd Hmm entries n bp usable Hok Hbp Hfr Hbt Hmh.
  destruct (boot_memory_spec r hhdm response m mh cr3 T Hhd Hmm Hok Hbp Hbt Hmh Hfr) as (w & mh' & T' & Hb & Hr & Hheap & _).
  destruct (mr_first _ _ _ _ _ _ _ _ _ Hr) as (f & Hf & Hmap & Hna).
  exists w, mh', T', f. split_and!; [exact Hb | apply Hr | apply Hr | exact Hf | exact Hmap | | | apply Hr
    | by rewrite (mr_handlers _ _ _ _ _ _ _ _ _ Hr) | apply Hr | apply Hr | apply Hr | exact Hheap].
  - intros q Hq. pose proof (mr_avail _ _ _ _ _ _ _ _ _ Hr q Hq) as Hq'. apply elem_of_map in Hq' as (g & -> & Hg).
    apply elem_of_map. exists g. split; [done|]. apply elem_of_difference. split; [exact Hg|]. rewrite elem_of_singleton. by intros ->.
  - rewrite <-Nat.add_assoc. exact (mr_size _ _ _ _ _ _ _ _ _ Hr).
Qed.

(** C30: the ring 3 demonstration. With eight frames to spare the set-up
    succeeds, and it fails only for want of frames; then the thread continues
    in ring 3 with interrupts on, at the first byte of a page it may execute
    that starts with [syscall; jmp $], its stack pointer at the end of a
    zero-filled page it may read and write but not execute, with the user's data
    selector in every data segment register and in [%ax], whose upper bits and
    the other registers are those of the thread; both frames are its own, and
    no other page's translation has changed. *)
Theorem ring3_demo_correct {A} `{FrameAllocator A} {TR : Trap} (w : world A) T mk g s rsp :
  vmm_inv w T → small_page w USER_CODE_VADDR → small_page w USER_STACK_VADDR →
  open_path w T USER_CODE_VADDR → open_path w T USER_STACK_VADDR →
  40 ≤ rsp < 2 ^ 64 → mapped mk (rsp - 40) 40 →
  ∃ ok w' T', ring3_demo_setup w = Ok (ok, w') ∧ vmm_inv w' T' ∧
    (if ok then
       program_ready w' ∧
       ∃ c s', ring3_demo_jump mk g s rsp = Ok (c, s') ∧ c_rip c = USER_CODE_VADDR ∧ Z.land (c_cs c) 3 = 3 ∧
         c_rsp c = USER_STACK_VADDR + PAGE_SIZE ∧ Z.testbit (c_rflags c) 9 = true ∧
         c_ss c = Z.lor GDT_USER_DATA 3 ∧
         ds s' = Z.lor GDT_USER_DATA 3 ∧ es s' = Z.lor GDT_USER_DATA 3 ∧
         fs s' = Z.lor GDT_USER_DATA 3 ∧ gs s' = Z.lor GDT_USER_DATA 3 ∧
         gp c = set_ax g (Z.lor GDT_USER_DATA 3)
     else (base.size (w_avail w) < 8)%nat) ∧
    (∀ v, indices v ≠ indices USER_CODE_VADDR → indices v ≠ indices USER_STACK_VADDR → wwalk w' v = wwalk w v).
Proof.
  intros Hinv Hs1 Hs2 Ho1 Ho2 Hrsp Hmk.
  destruct (ring3_demo_setup_spec w T Hinv Hs1 Hs2 Ho1 Ho2) as (ok & w' & T' & Hr & Hinv' & Hok & Hw & _).
  exists ok, w', T'. split_and!; [exact Hr | exact Hinv' | | exact Hw]. destruct ok; [|exact Hok].
  split; [exact Hok|]. eexists _, _. split.
  - apply jump_to_ring3_spec; [exact Hrsp | exact Hmk | unfold word64, USER_CODE_VADDR; lia
      | unfold word64, USER_STACK_VADDR, PAGE_SIZE; lia].
  - by split_and!.
Qed.

(** ** Witnesses *)

Lemma ring3_demo_correct_witness :
  ∃ (w w' : world ref_alloc) mk g c s, ring3_demo_setup (TR := ref_trap) w = Ok (true, w') ∧ program_ready w' ∧
    ring3_demo_jump mk g ex_seg 0x1100 = Ok (c, s) ∧ c_rip c = 0x400000 ∧ ds s = 0x1b ∧ fs s = 0x1b ∧ ax (gp c) = 0x1b.
Proof.
  destruct ex_world as (w & T & Hinv & _ & Hsize & Hw & Ho). exists w.
  assert (Hsm : ∀ v, small_page w v) by (intros v es Hes; by rewrite Hw in Hes).
  destruct (ring3_demo_correct (TR := ref_trap) w T (zeros 0x1000 256) ex_gprs ex_seg 0x1100 Hinv (Hsm _) (Hsm _) (Ho _) (Ho _))
    as (ok & w' & T' & Hr & _ & Hok & _).
  - lia.
  - intros x Hx. apply (zeros_mapped 0x1000 256). unfold in_range in *. lia.
  - destruct ok.
    + destruct Hok as (Hp & c & s & Hj & Hrip & _ & _ & _ & _ & Hds & _ & Hfs & _ & Hgp). exists w', (zeros 0x1000 256), ex_gprs, c, s.
      split; [exact Hr|]. split; [exact Hp|]. split; [exact Hj|]. split; [exact Hrip|]. split; [exact Hds|]. split; [exact Hfs|].
      rewrite Hgp. vm_compute. reflexivity.
    + rewrite Hsize in Hok. lia.
Defined.

(** The memory map of Pmm.v, with a zeroed root table in the frame behind the
    usable memory. *)
Definition ex_boot_mem : mem := zeros (ex_hhdm + 0x1000) 0x8000.

Lemma ex_boot_tables : ∃ T, boot_tables ex_hhdm (Z.land 0x8000 PTE_ADDR_MASK) ex_map ex_boot_mem T.
Proof.
  destruct (empty_tables ex_hhdm 0x8000 ex_boot_mem) as (T & Hlook & Htab & Hwalk & Hentry).
  - intros x Hx. unfold ex_boot_mem, zeros. rewrite zeros_from_lookup, decide_True; [reflexivity|].
    unfold in_range, PAGE_SIZE, ex_hhdm in *. lia.
  - lia.
  - reflexivity.
  - unfold ex_hhdm. lia.
  - unfold ex_hhdm, PAGE_SIZE. lia.
  - exists T. change (Z.land 0x8000 PTE_ADDR_MASK) with 0x8000. constructor.
    + exact Htab.
    + intros p t [-> <-]%Hlook Hin. vm_compute in Hin. discriminate Hin.
    + intros v _. apply Hwalk.
    + intros v _ q i r t e Hidx Hr [-> <-]%Hlook He Hpr. rewrite indices_eq in Hidx. injection Hidx as <- _.
      rewrite Hentry in He by (apply Z.mod_pos_bound; lia). by injection He as <-.
Qed.

Lemma boot_memory_correct_witness :
  ∃ w mh' f, boot_memory (TR := ref_trap) ex_responses ex_boot_mem (zeros HEAP_VBASE HEAP_SIZE) 0x8000 ∅ = Ok (HEAP_VBASE, w, mh') ∧
    mapped_as w HEAP_VBASE (f * PAGE_SIZE) false true false ∧ mh' !! 0xffffffff90001000 = Some 0.
Proof.
  destruct ex_boot_tables as [T HT].
  destruct (boot_memory_correct (TR := ref_trap) ex_responses ex_hhdm ex_map ex_boot_mem (zeros HEAP_VBASE HEAP_SIZE) 0x8000 T)
    as (w & mh' & T' & f & Hb & _ & _ & _ & Hmap & _ & _ & _ & _ & _ & Hz & Hview & _).
  - reflexivity.
  - reflexivity.
  - destruct ex_map_ok as [H1 H2 H3 H4 _]. constructor; [exact H1 | exact H2 | exact H3 | exact H4 |].
    intros e He _. apply list_elem_of_singleton in He as ->. intros x Hx. apply (zeros_mapped (ex_hhdm + 0x1000) 0x8000).
    unfold in_range in *. cbn [base length_] in Hx. lia.
  - vm_compute. discriminate.
  - vm_compute. repeat constructor.
  - exact HT.
  - apply zeros_mapped.
  - exists w, mh', f. split; [exact Hb|]. split; [exact Hmap|].
    assert (Hv : in_range HEAP_VBASE HEAP_SIZE 0xffffffff90001000) by (unfold in_range, HEAP_VBASE, HEAP_SIZE; lia).
    rewrite <-(Hz _ Hv) by (unfold header_fields, in_range, HEAP_VBASE; lia). apply Hview; [|exact Hv].
    intros x Hx. unfold zeros. rewrite zeros_from_lookup, decide_True; [reflexivity|]. unfold in_range, HEAP_SIZE in *. lia.
Defined.
