(* ===== verification/Kmain.v ===== *)
(** * The kernel's start as a whole (kernel/main.c)

    [kmain] up to its first [sched_yield]: the console, the descriptor tables,
    the memory managers, the interrupt controllers, the drivers, the system-call
    path, the four threads. The theorem states the machine it leaves from the
    theorems of the components.

    The memory of the model is in three parts, which the kernel reaches through
    disjoint addresses: the console's (the screen and the string literals), the
    direct map and the static objects, and the heap's range with the threads'
    stacks. *)

From S2P Require Import Prelude Word Mem CString Bitmap BootInfo FrameAlloc Pmm Paging Isr Vmm AddressSpace Heap Demand.
From S2P Require Import Stack Spinlock Sched Thread Printf Acpi Madt Font Console Io Serial Log Gdt Idt Ioapic Lapic Timer Syscall.
From S2P Require Import BootConsole BootDevices Main.
From Stdlib Require Import Ascii.

(** ** kmain *)

Definition fmt_mm : list Z := lit "mm: %lu/%lu frames free (%lu MiB)".
Definition fmt_title : list Z := lit "Quin Kernel Template -- Inbora Studio".
Definition fmt_booted : list Z := lit "booted via Limine (UEFI)".

(** io.h, on the flags *)
Definition io_enable_interrupts (rflags : Z) : Z := Z.setbit rflags IF_BIT.

(** The addresses of the static objects and of the code. *)
Record symbols := mk_symbols {
  y_gdt : Z; y_tss : Z; y_idt : Z;
  y_isr_stub : Z → Z; y_irq_stub : Z → Z; y_isr_stub_spurious : Z;
  y_kernel_syscall_rsp : Z; y_syscall_entry : Z;
  y_bootstrap_thread : Z; y_thread_trampoline : Z;
  y_demo_thread : Z; y_ring3_demo_thread : Z;
  y_rodata : list Z → Z;
}.

Record kernel (D E F G : Type) := mk_kernel {
  k_log : log D;
  k_world : world pmm;
  k_machine : machine;
  k_free_list : Z;
  k_seg : seg_regs;
  k_idtr : Z * Z;
  k_tables : acpi;
  k_lapic_base : Z; k_lapic : E;
  k_ioapic_base : Z; k_ioapic : F;
  k_msr : G;
}.
Arguments mk_kernel {D E F G}.
Arguments k_log {D E F G}.
Arguments k_world {D E F G}.
Arguments k_machine {D E F G}.
Arguments k_free_list {D E F G}.
Arguments k_seg {D E F G}.
Arguments k_idtr {D E F G}.
Arguments k_tables {D E F G}.
Arguments k_lapic_base {D E F G}.
Arguments k_lapic {D E F G}.
Arguments k_ioapic_base {D E F G}.
Arguments k_ioapic {D E F G}.
Arguments k_msr {D E F G}.

Section kmain.
Context {D E F G : Type} `{PortIO D} `{Mmio E} `{PortIO E} `{Mmio F} `{Msr G} {TR : Trap}.
Context (polls fuel : nat) (y : symbols).

(** The line of the memory manager. *)
Definition log_memory (w : world pmm) (st : log D) : res (log D) :=
  log_write polls st LOG_LEVEL_INFO (y_rodata y fmt_mm)
    [pmm_free_frame_count (w_alloc w); pmm_total_frame_count (w_alloc w);
     u64 (pmm_free_frame_count (w_alloc w) * PAGE_SIZE) / (1024 * 1024)].

(** The four threads; [NULL] is the argument of the last. *)
Definition create_threads (fl : Z) (M : machine) (w : world pmm) : res (machine * world pmm) :=
  '(_, M, w) ← thread_create fl M w (y_thread_trampoline y) (y_demo_thread y) (y_rodata y (lit "A"));
  '(_, M, w) ← thread_create fl M w (y_thread_trampoline y) (y_demo_thread y) (y_rodata y (lit "B"));
  '(_, M, w) ← thread_create fl M w (y_thread_trampoline y) (y_demo_thread y) (y_rodata y (lit "C"));
  '(_, M, w) ← thread_create fl M w (y_thread_trampoline y) (y_ring3_demo_thread y) 0;
  Ok (M, w).

(** Everything before the loop of [sched_yield]. *)
Definition kmain_start (r : limine_responses) (m mh : mem) (cr3 : Z) (rgs : regs) (seg : seg_regs)
    (e : E) (f : F) (g : G) (st : log D) : res (kernel D E F G) :=
  st ← boot_console polls (y_rodata y) r st;
  '(m, seg) ← gdt_init (y_gdt y) (y_tss y) m seg;
  '(m, idtr) ← idt_init (y_idt y) (y_isr_stub y) (y_irq_stub y) (y_isr_stub_spurious y) m;
  '(fl, w, mh) ← boot_memory r m mh cr3 ∅;
  st ← log_memory w st;
  '(tables, lapic, ioapic, w, e, f, g, st) ← boot_controllers polls (y_rodata y) r w e f g st;
  s ← sched_init (y_bootstrap_thread y) (sched_bss (y_bootstrap_thread y));
  '(w, e, f, g, st) ← boot_drivers polls fuel (y_rodata y) (y_tss y) (y_kernel_syscall_rsp y) (y_syscall_entry y)
                        lapic ioapic w e f g st;
  let rgs := set_rf rgs (io_enable_interrupts (rf rgs)) in
  st ← log_write polls st LOG_LEVEL_INFO (y_rodata y fmt_title) [];
  st ← log_write polls st LOG_LEVEL_INFO (y_rodata y fmt_booted) [];
  '(M, w) ← create_threads fl (mk_machine mh s rgs) w;
  Ok (mk_kernel st w M fl seg idtr tables lapic e ioapic f g).
End kmain.

(** ** Specification: the threads

    The first allocations of the heap and of the dynamic range: thread [k] of
    the four has the object [boot_thread k] and the stack from [boot_stack (S
    k)]; [boot_stack 0] is the stack of system calls. *)

Definition boot_thread (k : nat) : Z := HEAP_VBASE + sizeof_block_header + Z.of_nat k * (sizeof_thread + sizeof_block_header).
Definition boot_heap (k : nat) : list block :=
  replicate k (sizeof_thread, false) ++
  [(HEAP_SIZE - sizeof_block_header - Z.of_nat k * (sizeof_thread + sizeof_block_header), true)].
Definition dynamic_at (k : nat) : Z := VMM_DYNAMIC_VBASE + 6 * Z.of_nat k * PAGE_SIZE.
Definition boot_stack (k : nat) : Z := dynamic_at k + PAGE_SIZE.
Definition boot_top (k : nat) : Z := boot_stack k + THREAD_STACK_PAGES * PAGE_SIZE.

(** What each thread starts with: its function and its argument. *)
Definition thread_context (y : symbols) (k : nat) : regs :=
  let '(entry, arg) :=
    match k with
    | 0%nat => (y_demo_thread y, y_rodata y (lit "A"))
    | 1%nat => (y_demo_thread y, y_rodata y (lit "B"))
    | 2%nat => (y_demo_thread y, y_rodata y (lit "C"))
    | _ => (y_ring3_demo_thread y, 0)
    end in
  new_context (y_thread_trampoline y) entry arg (boot_top (S k)).

Definition boot_contexts (y : symbols) : gmap Z regs := list_to_map ((λ k, (boot_thread k, thread_context y k)) <$> [3; 2; 1; 0]%nat).
Definition boot_stacks (y : symbols) (lo hi : Z) : gmap Z (Z * Z) :=
  list_to_map (((λ k, (boot_thread k, (boot_stack (S k), boot_top (S k)))) <$> [3; 2; 1; 0]%nat) ++ [(y_bootstrap_thread y, (lo, hi))]).
Definition boot_ring (y : symbols) : list Z := y_bootstrap_thread y :: (boot_thread <$> [3; 2; 1; 0]%nat).

(** The pages of the dynamic range that the start uses. *)
Definition dynamic_pages (v : Z) : Prop := ∃ j, 0 ≤ j < 30 ∧ same_page (VMM_DYNAMIC_VBASE + j * PAGE_SIZE) v.

(** ** Lemmas: the threads *)

Lemma boot_first_fit k :
  (k < 4)%nat → first_fit HEAP_VBASE sizeof_thread (boot_heap k) = Some (boot_thread k, boot_heap (S k)).
Proof. intros Hk. do 4 (destruct k as [|k]; [by vm_compute|]). lia. Qed.

Lemma dynamic_pages_out v :
  (v / PAGE_SIZE) mod 2 ^ 36 ∉ (λ j, (VMM_DYNAMIC_VBASE / PAGE_SIZE + j) mod 2 ^ 36) <$> seqZ 0 30 → ¬ dynamic_pages v.
Proof.
  intros Hv (j & Hj & Hs). apply Hv. apply list_elem_of_fmap. exists j. split; [|apply elem_of_seqZ; lia].
  unfold same_page in Hs. apply indices_inj in Hs. etransitivity; [exact Hs|].
  unfold PAGE_SIZE. by rewrite Z.div_add by done.
Qed.

Lemma guarded_dynamic k v : (k < 5)%nat → guarded_pages (boot_stack k) THREAD_STACK_PAGES v → dynamic_pages v.
Proof.
  intros Hk (i & Hi & Hs). exists (6 * Z.of_nat k + 1 + i). unfold THREAD_STACK_PAGES in Hi. split; [lia|].
  replace (VMM_DYNAMIC_VBASE + (6 * Z.of_nat k + 1 + i) * PAGE_SIZE) with (boot_stack k + i * PAGE_SIZE); [done|].
  unfold boot_stack, dynamic_at. lia.
Qed.

Section threads.
Context {A : Type} `{FrameAllocator A}.
Implicit Types (w : world A) (T : gmap (list Z) Z).

(** After [k] of the threads. *)
Record created (y : symbols) (rgs : regs) (k : nat) (M : machine) w T (l : list Z) (C : gmap Z regs) (K : gmap Z (Z * Z)) : Prop := {
  cr_env : thread_env HEAP_VBASE M w T (boot_heap k) l C K;
  cr_dynamic : dynamic_next_vaddr (w_vmm w) = dynamic_at (S k);
  cr_current : current (sc M) = y_bootstrap_thread y;
  cr_id : next_thread_id (sc M) = Z.of_nat k + 1;
  cr_regs : rg M = rgs;
}.

Lemma create_one y rgs k M w T l C K entry arg :
  created y rgs k M w T l C K → (k < 4)%nat →
  word64 (y_thread_trampoline y) → word64 entry → word64 arg → (16 ≤ base.size (w_avail w))%nat →
  ∃ M' w' T', thread_create HEAP_VBASE M w (y_thread_trampoline y) entry arg = Ok (boot_thread k, M', w') ∧
    created y rgs (S k) M' w' T' (y_bootstrap_thread y :: boot_thread k :: tail l)
      (<[boot_thread k := new_context (y_thread_trampoline y) entry arg (boot_top (S k))]> C)
      (<[boot_thread k := (boot_stack (S k), boot_top (S k))]> K) ∧
    grown dynamic_pages (λ _, False) w T w' T' ∧ w_handlers w' = w_handlers w ∧
    mmio_next_vaddr (w_vmm w') = mmio_next_vaddr (w_vmm w) ∧ (base.size (w_avail w) ≤ base.size (w_avail w') + 16)%nat.
Proof.
  intros [Henv Hdyn Hcur Hid Hrg] Hk Htr Hen Harg Hsz.
  assert (Hst : dynamic_next_vaddr (w_vmm w) + PAGE_SIZE = boot_stack (S k)) by by rewrite Hdyn.
  destruct (thread_create_ok HEAP_VBASE M w T (boot_heap k) l C K (y_thread_trampoline y) entry arg (boot_thread k) (boot_heap (S k)) Henv)
    as (M' & w' & T' & Hc & Hrg' & Hcur' & Hid' & Henv' & Hg & Hh & Hd & Hm & Hs); try done.
  - rewrite Hst. unfold boot_stack, dynamic_at, VMM_DYNAMIC_VBASE, THREAD_STACK_PAGES, PAGE_SIZE. lia.
  - by apply boot_first_fit.
  - rewrite Hst in Henv', Hg, Hd. rewrite Hcur in Henv', Hcur'. exists M', w', T'. split_and!; try done.
    + constructor; [exact Henv' | | exact Hcur' | | by rewrite Hrg'].
      * rewrite Hd. unfold boot_stack, dynamic_at, THREAD_STACK_PAGES. lia.
      * rewrite Hid', Hid, u64_small by lia. lia.
    + eapply grown_mono; [| |exact Hg]; [intros v; apply guarded_dynamic; lia | done].
Qed.

End threads.

Lemma create_threads_spec y rgs M (w : world pmm) T lo hi :
  created y rgs 0 M w T [y_bootstrap_thread y] ∅ {[y_bootstrap_thread y := (lo, hi)]} →
  word64 (y_thread_trampoline y) → word64 (y_demo_thread y) → word64 (y_ring3_demo_thread y) →
  (∀ l, l ∈ [lit "A"; lit "B"; lit "C"] → word64 (y_rodata y l)) → (64 ≤ base.size (w_avail w))%nat →
  ∃ M' w' T', create_threads y HEAP_VBASE M w = Ok (M', w') ∧
    created y rgs 4 M' w' T' (boot_ring y) (boot_contexts y) (boot_stacks y lo hi) ∧
    grown dynamic_pages (λ _, False) w T w' T' ∧ w_handlers w' = w_handlers w ∧
    mmio_next_vaddr (w_vmm w') = mmio_next_vaddr (w_vmm w) ∧ (base.size (w_avail w) ≤ base.size (w_avail w') + 64)%nat.
Proof.
  intros Hc0 Htr Hd Hr Hlit Hsz. unfold create_threads.
  destruct (create_one y rgs 0 M w T _ _ _ (y_demo_thread y) (y_rodata y (lit "A")) Hc0)
    as (M1 & w1 & T1 & -> & Hc1 & G1 & Hh1 & Hm1 & Hs1); [lia | done | done | apply Hlit; set_solver | lia |].
  cbn [mbind res_bind].
  destruct (create_one y rgs 1 M1 w1 T1 _ _ _ (y_demo_thread y) (y_rodata y (lit "B")) Hc1)
    as (M2 & w2 & T2 & -> & Hc2 & G2 & Hh2 & Hm2 & Hs2); [lia | done | done | apply Hlit; set_solver | lia |].
  cbn [mbind res_bind].
  destruct (create_one y rgs 2 M2 w2 T2 _ _ _ (y_demo_thread y) (y_rodata y (lit "C")) Hc2)
    as (M3 & w3 & T3 & -> & Hc3 & G3 & Hh3 & Hm3 & Hs3); [lia | done | done | apply Hlit; set_solver | lia |].
  cbn [mbind res_bind].
  destruct (create_one y rgs 3 M3 w3 T3 _ _ _ (y_ring3_demo_thread y) 0 Hc3)
    as (M4 & w4 & T4 & -> & Hc4 & G4 & Hh4 & Hm4 & Hs4); [lia | done | done | unfold word64; lia | lia |].
  cbn [mbind res_bind]. exists M4, w4, T4. split; [done|]. split; [exact Hc4|]. split.
  - eapply grown_trans; [exact G1|]. eapply grown_trans; [exact G2|]. by eapply grown_trans.
  - split_and!; [congruence | congruence | lia].
Qed.

(** The scheduler with the one thread the bootloader started. *)
Lemma sched_init_created y rgs mh (w : world pmm) T lo hi :
  heap_inv HEAP_VBASE mh [(HEAP_SIZE - sizeof_block_header, true)] → vmm_inv w T →
  dynamic_next_vaddr (w_vmm w) = dynamic_at 1 → (∀ v, dynamic_at 1 ≤ v < 2 ^ 64 → small_page w v) →
  0 ≤ lo → hi ≤ HEAP_VBASE → mapped mh lo (hi - lo) → lo + 56 ≤ rsp rgs ≤ hi → Forall word64 (frame rgs) →
  ¬ in_range HEAP_VBASE HEAP_SIZE (y_bootstrap_thread y) →
  ∃ s, sched_init (y_bootstrap_thread y) (sched_bss (y_bootstrap_thread y)) = Ok s ∧
    created y rgs 0 (mk_machine mh s rgs) w T [y_bootstrap_thread y] ∅ {[y_bootstrap_thread y := (lo, hi)]}.
Proof.
  intros Hheap Hinv Hdyn Hsm Hlo Hhi Hm Hrsp Hw Hboot. set (b := y_bootstrap_thread y) in *.
  unfold sched_init, thread_at, sched_bss. cbn [threads]. rewrite lookup_singleton_eq. cbn [deref mbind res_bind].
  eexists. split; [reflexivity|]. unfold HEAP_VBASE in Hhi.
  constructor; [|exact Hdyn | done | done | done]. constructor; rewrite ?Hdyn; try done.
  - constructor; cbn [sc mm rg threads current put_thread ready_lock]; try done.
    + split; [done|]. split; [apply NoDup_singleton|]. cbn. split; [|done]. eexists. split; [apply lookup_insert_eq | done].
    + intros t ->%list_elem_of_singleton. exists lo, hi. rewrite lookup_singleton_eq. split_and!; [done | done | lia | exact Hm].
    + intros t u lo1 hi1 lo2 hi2 Hne [<- _]%lookup_singleton_Some [<- _]%lookup_singleton_Some. done.
    + intros t th ->%list_elem_of_singleton Hne. by destruct Hne.
    + exists lo, hi. by rewrite lookup_singleton_eq.
  - intros t ->%list_elem_of_singleton. by right.
  - intros t lo1 hi1 [_ [= <- <-]]%lookup_singleton_Some. split; [by left|]. unfold dynamic_at, VMM_DYNAMIC_VBASE, PAGE_SIZE. lia.
Qed.

(** ** Specification: the machine the bootloader hands over *)

Definition apart (a n b k : Z) : Prop := a + n ≤ b ∨ b + k ≤ a.

Definition static_bytes (y : symbols) (x : Z) : Prop :=
  in_range (y_gdt y) sizeof_gdt x ∨ in_range (y_tss y) sizeof_tss x ∨ in_range (y_idt y) sizeof_idt x ∨
  in_range (y_kernel_syscall_rsp y) 8 x.

(** The static objects are separate and accessible, and the stubs are in the
    address space. *)
Record statics_ok (y : symbols) (m : mem) : Prop := {
  so_gdt : 0 ≤ y_gdt y ∧ mapped m (y_gdt y) sizeof_gdt;
  so_tss : 0 ≤ y_tss y < 2 ^ 64 ∧ mapped m (y_tss y) sizeof_tss;
  so_idt : mapped m (y_idt y) sizeof_idt;
  so_ksr : mapped m (y_kernel_syscall_rsp y) 8;
  so_gdt_tss : apart (y_gdt y) sizeof_gdt (y_tss y) sizeof_tss;
  so_gdt_idt : apart (y_gdt y) sizeof_gdt (y_idt y) sizeof_idt;
  so_tss_idt : apart (y_tss y) sizeof_tss (y_idt y) sizeof_idt;
  so_gdt_ksr : apart (y_gdt y) sizeof_gdt (y_kernel_syscall_rsp y) 8;
  so_tss_ksr : apart (y_tss y) sizeof_tss (y_kernel_syscall_rsp y) 8;
  so_idt_ksr : apart (y_idt y) sizeof_idt (y_kernel_syscall_rsp y) 8;
  so_stubs v h : 0 ≤ v < 256 → vector_stub (y_isr_stub y) (y_irq_stub y) (y_isr_stub_spurious y) v = Some h → 0 ≤ h < 2 ^ 64;
}.

(** What the memory managers need of it: a memory map with room for the bitmap,
    and page tables outside usable memory, away from the static objects. *)
Record memory_handed (y : symbols) (r : limine_responses) (hhdm : Z) (response : list boot_memmap_entry)
    (m : mem) (cr3 : Z) (T : gmap (list Z) Z) : Prop := {
  mh_hhdm : hhdm_response r = Some hhdm;
  mh_memmap : memmap_response r = Some response;
  mh_map : memmap_ok hhdm (take 256 response) m;
  mh_bitmap : bitmap_place (take 256 response) (bitmap_bytes (ram_end (take 256 response) / PAGE_SIZE)) ≠ 0;
  mh_tables : boot_tables hhdm (Z.land cr3 PTE_ADDR_MASK) (take 256 response) m T;
  mh_static_kept x : static_bytes y x → kept hhdm (take 256 response) T x;
}.

(** The bootloader's answers describe memory: a memory map with room for the
    bitmap, page tables outside usable memory that leave the kernel's ranges
    alone and use no large page there, valid ACPI tables; tables, ACPI and
    static objects are apart, and there are frames for what [kmain] maps. *)
Record bootloader_ok (y : symbols) (r : limine_responses) (im : acpi_image) (hhdm : Z) (response : list boot_memmap_entry)
    (m : mem) (cr3 : Z) (T : gmap (list Z) Z) : Prop := {
  bl_hhdm : hhdm_response r = Some hhdm;
  bl_memmap : memmap_response r = Some response;
  bl_rsdp : rsdp_response r = Some (im_rsdp_addr im);
  bl_map : memmap_ok hhdm (take 256 response) m;
  bl_bitmap : bitmap_place (take 256 response) (bitmap_bytes (ram_end (take 256 response) / PAGE_SIZE)) ≠ 0;
  bl_tables : boot_tables hhdm (Z.land cr3 PTE_ADDR_MASK) (take 256 response) m T;
  bl_small v es : VMM_DYNAMIC_VBASE ≤ v < 2 ^ 64 → walk m hhdm (Z.land cr3 PTE_ADDR_MASK) (indices v) = Some es → length es = 4%nat;
  bl_acpi : acpi_valid hhdm im m;
  bl_madt : madt_valid hhdm im;
  bl_ioapic : 0 ≤ ioapic_phys im;
  bl_acpi_kept x : acpi_bytes hhdm im x → kept hhdm (take 256 response) T x ∧ ¬ static_bytes y x;
  bl_static_kept x : static_bytes y x → kept hhdm (take 256 response) T x;
  bl_frames : (90 ≤ base.size (boot_frames (take 256 response)))%nat;
}.

(** What the processor finds in the tables, with this stack for ring 0. *)
Record processor_tables (y : symbols) (m : mem) (seg : seg_regs) : Prop := {
  pt_gdtr : gdtr_base seg = y_gdt y ∧ gdtr_limit seg = sizeof_gdt - 1;
  pt_segments : cs seg = GDT_KERNEL_CODE ∧ ss seg = GDT_KERNEL_DATA ∧ ds seg = GDT_KERNEL_DATA ∧ tr seg = GDT_TSS;
  pt_kernel_code : segment_descriptor m (y_gdt y + GDT_KERNEL_CODE) = Ok (flat_code 0);
  pt_kernel_data : segment_descriptor m (y_gdt y + GDT_KERNEL_DATA) = Ok (flat_data 0);
  pt_user_data : segment_descriptor m (y_gdt y + GDT_USER_DATA) = Ok (flat_data 3);
  pt_user_code : segment_descriptor m (y_gdt y + GDT_USER_CODE) = Ok (flat_code 3);
  pt_tss : system_descriptor m (y_gdt y + GDT_TSS) = Ok (mk_desc (y_tss y) (sizeof_tss - 1) 11 false 0 true false false false);
  pt_gates v : 0 ≤ v < 256 →
    gate_descriptor m (y_idt y + 16 * v) = Ok (expected_gate (y_isr_stub y) (y_irq_stub y) (y_isr_stub_spurious y) v);
}.

(** ** Lemmas: the descriptor tables *)

Lemma processor_tables_keep y m m' seg (X : Z → Prop) :
  processor_tables y m seg → modifies X m m' →
  (∀ x, in_range (y_gdt y) sizeof_gdt x ∨ in_range (y_idt y) sizeof_idt x → ¬ X x) → processor_tables y m' seg.
Proof.
  intros [H1 H2 H3 H4 H5 H6 H7 H8] Hm HX.
  assert (Hg : ∀ sel, 0 ≤ sel ≤ 32 → ∀ x, in_range (y_gdt y + sel) 8 x → ¬ X x)
    by (intros sel Hs x Hx; apply HX; left; unfold in_range, sizeof_gdt in *; lia).
  constructor; try done; unfold GDT_KERNEL_CODE, GDT_KERNEL_DATA, GDT_USER_DATA, GDT_USER_CODE, GDT_TSS in *;
    rewrite ?(segment_modifies X m m') by (done || (apply Hg; lia)); try done.
  - rewrite (system_modifies X m m'); [exact H7 | done |]. intros x Hx. apply HX. left. unfold in_range, sizeof_gdt in *. lia.
  - intros v Hv. rewrite (gate_modifies X m m'); [by apply H8 | done |].
    intros x Hx. apply HX. right. unfold in_range, sizeof_idt in *. lia.
Qed.

Lemma descriptors_spec y m seg :
  statics_ok y m →
  ∃ m1 seg' m2, gdt_init (y_gdt y) (y_tss y) m seg = Ok (m1, seg') ∧
    idt_init (y_idt y) (y_isr_stub y) (y_irq_stub y) (y_isr_stub_spurious y) m1 = Ok (m2, (sizeof_idt - 1, y_idt y)) ∧
    processor_tables y m2 seg' ∧ modifies (static_bytes y) m m2.
Proof.
  intros [[Hg0 Hg] [Ht0 Ht] Hi Hk A1 A2 A3 A4 A5 A6 Hst].
  destruct (gdt_init_spec (y_gdt y) (y_tss y) m seg Hg0 Ht0 Hg Ht A1) as (m1 & seg' & H1 & [] & D1).
  destruct (idt_init_spec (y_idt y) _ _ _ Hst m1) as (m2 & H2 & D2 & Hgates); [by eapply modifies_mapped|].
  exists m1, seg', m2. split; [exact H1|]. split; [exact H2|]. split.
  - assert (Hsel : ∀ sel, 0 ≤ sel ≤ 32 → ∀ x, in_range (y_gdt y + sel) 8 x → ¬ in_range (y_idt y) sizeof_idt x)
      by (unfold apart, in_range, sizeof_gdt, sizeof_idt in *; lia).
    constructor; try tauto; unfold GDT_KERNEL_CODE, GDT_KERNEL_DATA, GDT_USER_DATA, GDT_USER_CODE, GDT_TSS in *;
      rewrite ?(segment_modifies _ m1 m2 _ D2) by (apply Hsel; lia); try done.
    rewrite (system_modifies _ m1 m2 _ D2); [done|]. unfold apart, in_range, sizeof_gdt, sizeof_idt in *. lia.
  - etransitivity; (eapply modifies_mono; [|eassumption]); unfold static_bytes; tauto.
Qed.

(** The bootloader's tables after writes elsewhere. *)
Lemma open_tables_keep hhdm m m' T (X : Z → Prop) v :
  modifies X m m' → (∀ x, X x → ¬ table_bytes hhdm T x) → open_tables hhdm m T v → open_tables hhdm m' T v.
Proof.
  intros Hm HX Hv q i r t e Hidx Hr Hq He. apply (Hv q i r t e Hidx Hr Hq). rewrite <-He.
  destruct (indices_at _ _ _ _ Hidx) as [Hi _]. symmetry. apply (load64_modifies _ _ _ _ Hm). intros x Hx HXx.
  apply (HX x HXx). exists q, t. split; [done|]. eapply entry_in_frame; [exact Hi | exact Hx].
Qed.

Lemma boot_tables_keep hhdm root entries m m' T (X : Z → Prop) :
  boot_tables hhdm root entries m T → modifies X m m' → (∀ x, X x → ¬ table_bytes hhdm T x) →
  boot_tables hhdm root entries m' T ∧ ∀ v, walk m' hhdm root (indices v) = walk m hhdm root (indices v).
Proof.
  intros [H1 H2 H3 H4] Hm HX.
  assert (Hw : ∀ v, walk m' hhdm root (indices v) = walk m hhdm root (indices v))
    by (intros v; eapply walk_modifies; [exact H1 | exact Hm | exact HX | apply indices_length | apply indices_range]).
  split; [|exact Hw]. constructor; [by eapply tables_ok_modifies | done | intros v Hv; rewrite Hw; by apply H3 |].
  intros v Hv. eapply open_tables_keep; [exact Hm | exact HX | by apply H4].
Qed.

Lemma bootloader_memory y r im hhdm response m cr3 T :
  bootloader_ok y r im hhdm response m cr3 T → memory_handed y r hhdm response m cr3 T.
Proof. by intros [B1 B2 _ B4 B5 B6 _ _ _ _ _ B12 _]. Qed.

Lemma memmap_keep hhdm entries m m' (X : Z → Prop) : memmap_ok hhdm entries m → modifies X m m' → memmap_ok hhdm entries m'.
Proof. intros [M1 M2 M3 M4 M5] Hm. constructor; try done. intros e He Hu. eapply modifies_mapped; [exact Hm | by apply M5]. Qed.

Lemma memory_keep y r hhdm response m m' cr3 T :
  memory_handed y r hhdm response m cr3 T → modifies (static_bytes y) m m' →
  memory_handed y r hhdm response m' cr3 T ∧
  ∀ v, walk m' hhdm (Z.land cr3 PTE_ADDR_MASK) (indices v) = walk m hhdm (Z.land cr3 PTE_ADDR_MASK) (indices v).
Proof.
  intros [H1 H2 H3 H4 H5 H6] Hm.
  destruct (boot_tables_keep _ _ _ _ _ _ _ H5 Hm) as [H5' Hw]; [intros x Hx; by apply H6|].
  split; [|exact Hw]. constructor; try done. by eapply memmap_keep.
Qed.

Lemma bootloader_keep y r im hhdm response m m' cr3 T :
  bootloader_ok y r im hhdm response m cr3 T → modifies (static_bytes y) m m' → bootloader_ok y r im hhdm response m' cr3 T.
Proof.
  intros Hbl Hm. destruct (memory_keep _ _ _ _ _ _ _ _ (bootloader_memory _ _ _ _ _ _ _ _ Hbl) Hm) as [[_ _ M4 _ M6 _] Hw].
  destruct Hbl as [H1 H2 H3 H4 H5 H6 H7 H8 H9 H10 H11 H12 H13]. constructor; try done.
  - intros v es Hv. rewrite Hw. by apply H7.
  - eapply acpi_valid_keep; [exact H8|]. intros x Hx. apply (modifies_lookup _ _ _ _ Hm). by apply H11.
Qed.

(** The line of the memory manager. *)
Definition mm_args (free total : Z) : list Z := [free; total; free * PAGE_SIZE / (1024 * 1024)].

Lemma memory_args hhdm entries cr3 m mh T (w : world pmm) mh' T' :
  memory_ready hhdm entries cr3 m mh T w mh' T' →
  [pmm_free_frame_count (w_alloc w); pmm_total_frame_count (w_alloc w);
   u64 (pmm_free_frame_count (w_alloc w) * PAGE_SIZE) / (1024 * 1024)] =
  mm_args (Z.of_nat (boot_free entries T)) (ram_end entries / PAGE_SIZE).
Proof.
  intros Hr. unfold pmm_free_frame_count, pmm_total_frame_count, mm_args.
  rewrite (mr_free _ _ _ _ _ _ _ _ _ Hr), (mr_total _ _ _ _ _ _ _ _ _ Hr), (memory_free _ _ _ _ _ _ _ _ _ Hr).
  rewrite u64_small; [done|].
  pose proof (mr_total_range _ _ _ _ _ _ _ _ _ Hr) as Ht. pose proof (free_set_size (w_alloc w) (w_mem w)) as Hs.
  rewrite (mr_total _ _ _ _ _ _ _ _ _ Hr), <-frames_size in Hs. change (set_map _ _) with (w_avail w) in Hs.
  rewrite (memory_free _ _ _ _ _ _ _ _ _ Hr) in Hs. unfold PAGE_SIZE in *. lia.
Qed.

Definition boot_literals : list (list Z) :=
  console_literals ++ [fmt_mm; fmt_madt; fmt_no_madt; fmt_timer; fmt_syscall; fmt_title; fmt_booted; lit "A"; lit "B"; lit "C"].

(** The console's part of the machine. *)
Record console_ok {D} (y : symbols) (r : limine_responses) (st : log D) : Prop := {
  co_fb : t_fb (l_tty st) = fb_bss;
  co_level : level_number (min_level st) ≤ level_number LOG_LEVEL_INFO;
  co_screen i : boot_screen r = Some i → mode_ok i ∧ mapped (t_mem (l_tty st)) (address i) (height i * pitch i);
  co_literals : literals boot_literals (y_rodata y) (t_mem (l_tty st)) (screen_bytes r);
}.

(** The thread the bootloader started: its stack [lo, hi), below the heap's
    range, and its registers. *)
Record bootstrap_ok (y : symbols) (mh : mem) (rgs : regs) (lo hi : Z) : Prop := {
  bs_heap : mapped mh HEAP_VBASE HEAP_SIZE;
  bs_stack : 0 ≤ lo ∧ hi ≤ HEAP_VBASE ∧ mapped mh lo (hi - lo);
  bs_rsp : lo + 56 ≤ rsp rgs ≤ hi;
  bs_regs : Forall word64 (frame rgs);
  bs_thread : ¬ in_range HEAP_VBASE HEAP_SIZE (y_bootstrap_thread y);
  bs_code : word64 (y_thread_trampoline y) ∧ word64 (y_demo_thread y) ∧ word64 (y_ring3_demo_thread y);
}.

(** One of the literals. *)
Ltac literal_in := apply (bool_decide_unpack _); vm_compute; exact I.

Lemma literals_subset ls : bool_decide (Forall (λ l, l ∈ boot_literals) ls) = true → ls ⊆ boot_literals.
Proof. intros H%bool_decide_eq_true_1 l Hl. rewrite Forall_forall in H. by apply H. Qed.

(** What is printed: [free] and [total] frames, a timer of [hz] ticks per
    second. *)
Definition boot_output (y : symbols) (r : limine_responses) (im : acpi_image) (free total hz : Z) : list (Z * list Z) :=
  boot_banner r ++
  [log_piece LOG_LEVEL_INFO (text no_strings fmt_mm (mm_args free total));
   madt_piece im;
   log_piece LOG_LEVEL_INFO (text no_strings fmt_timer [hz; TIMER_FREQUENCY_HZ]);
   log_piece LOG_LEVEL_INFO (text no_strings fmt_syscall [y_syscall_entry y]);
   log_piece LOG_LEVEL_INFO fmt_title;
   log_piece LOG_LEVEL_INFO fmt_booted].

(** ** Lemmas: the first half *)

Lemma log_enabled {D} y r (st st0 : log D) :
  console_ok y r st → min_level st0 = min_level st → level_number LOG_LEVEL_INFO <? level_number (min_level st0) = false.
Proof. intros [_ Hl _ _] ->. by apply Z.ltb_ge. Qed.

(** Up to the memory manager's line. *)
Lemma start_memory {D} `{Uart D} {TR : Trap} polls y r hhdm response m mh cr3 T seg (st : log D) ls :
  (u_poll_bound < polls)%nat → literals ls (y_rodata y) (t_mem (l_tty st)) (screen_bytes r) → boot_literals ⊆ ls →
  console_ok y r st → statics_ok y m → memory_handed y r hhdm response m cr3 T →
  mapped mh HEAP_VBASE HEAP_SIZE → (4 ≤ base.size (boot_frames (take 256 response)))%nat →
  let entries := take 256 response in
  ∃ st0 st1 m1 seg' m2 w mh' T' st2, boot_console polls (y_rodata y) r st = Ok st1 ∧
    gdt_init (y_gdt y) (y_tss y) m seg = Ok (m1, seg') ∧
    idt_init (y_idt y) (y_isr_stub y) (y_irq_stub y) (y_isr_stub_spurious y) m1 = Ok (m2, (sizeof_idt - 1, y_idt y)) ∧
    boot_memory r m2 mh cr3 ∅ = Ok (HEAP_VBASE, w, mh') ∧ log_memory polls y w st1 = Ok st2 ∧
    processor_tables y (w_mem w) seg' ∧ modifies (static_bytes y) m m2 ∧
    memory_ready hhdm entries cr3 m2 mh T w mh' T' ∧
    heap_inv HEAP_VBASE mh' [(HEAP_SIZE - sizeof_block_header, true)] ∧ modifies (in_range HEAP_VBASE sizeof_block_header) mh mh' ∧
    min_level st0 = min_level st ∧ fresh_tty r (l_tty st0) ∧
    u_line (device (t_serial (l_tty st0))) = u_line (device (t_serial (l_tty st))) ∧
    literals ls (y_rodata y) (t_mem (l_tty st0)) (tty_bytes (l_tty st0)) ∧
    logged st0 (fresh_screen r) (boot_banner r ++ [log_piece LOG_LEVEL_INFO (text no_strings fmt_mm
      (mm_args (Z.of_nat (boot_free entries T)) (ram_end entries / PAGE_SIZE)))]) st2.
Proof.
  intros Hpolls Hls0 Hsub Hco Hso Hbl Hmh Hfr4 entries.
  destruct (boot_console_spec polls Hpolls (y_rodata y) r st ls) as (st0 & st1 & Hc & Hlv & Hfr & Hli & Hls & Hlg);
    [apply Hco | pose proof (co_level _ _ _ Hco); cbn [level_number] in *; lia | apply Hco | exact Hls0
    | intros l Hl; apply Hsub; revert l Hl; by apply literals_subset; vm_compute |].
  destruct (descriptors_spec y m seg Hso) as (m1 & seg' & m2 & Hg & Hi & Hpt & Hmod).
  destruct (memory_keep _ _ _ _ _ _ _ _ Hbl Hmod) as [[B1 B2 B4 B5 B6 B12] _].
  destruct (boot_memory_spec r hhdm response m2 mh cr3 T B1 B2 B4 B5 B6 Hmh Hfr4) as (w & mh' & T' & Hb & Hr & Hheap & Hhm).
  destruct (log_logged polls Hpolls (y_rodata y) ls st0 _ _ st1 LOG_LEVEL_INFO fmt_mm
    (mm_args (Z.of_nat (boot_free entries T)) (ram_end entries / PAGE_SIZE)) Hlg Hls) as (st2 & Hw & Hlg2);
    [apply Hsub; literal_in | by vm_compute | by eapply log_enabled |].
  exists st0, st1, m1, seg', m2, w, mh', T', st2.
  split; [exact Hc|]. split; [exact Hg|]. split; [exact Hi|]. split; [exact Hb|]. split.
  { unfold log_memory. by rewrite (memory_args _ _ _ _ _ _ _ _ _ Hr). }
  split.
  { eapply processor_tables_keep; [exact Hpt | exact (mr_mem _ _ _ _ _ _ _ _ _ Hr) |].
    intros x Hx Hk. apply Hk, B12. unfold static_bytes. tauto. }
  split; [exact Hmod|]. split; [exact Hr|]. split; [exact Hheap|]. split; [exact Hhm|].
  split; [exact Hlv|]. split; [exact Hfr|]. split; [exact Hli|]. split; [exact Hls | exact Hlg2].
Qed.

(** ** Lemmas: the second half *)

(** The controllers, the handlers, the devices and the way into the kernel. *)
Record devices_ready {E F G} `{Mmio E} `{!LocalApic E LAPIC_VADDR} `{Mmio F} `{!IoApicDev F IOAPIC_VADDR} `{Msr G}
    (y : symbols) (im : acpi_image) (apic_phys lines hz : Z) (w : world pmm) (e : E) (f : F) (g : G) : Prop := {
  dr_handlers : w_handlers w = <[KEYBOARD_VECTOR := h_keyboard_isr]> (<[TIMER_VECTOR := h_timer_tick_handler]> {[14 := h_page_fault_isr]});
  dr_lapic_page : device_page w LAPIC_VADDR apic_phys;
  dr_ioapic_page : device_page w IOAPIC_VADDR (ioapic_phys im);
  dr_enabled : la_reg e LAPIC_REG_SVR = 0x1ff;
  dr_timer : la_reg e LAPIC_REG_LVT_TIMER = TIMER_VECTOR + 2 ^ 17 ∧ la_reg e LAPIC_REG_INITIAL_COUNT = hz / TIMER_FREQUENCY_HZ;
  dr_keyboard : route_of IOAPIC_VADDR f KEYBOARD_IRQ =
    mk_route KEYBOARD_VECTOR 0 false false false (u8 (la_id (D := E) (base := LAPIC_VADDR)));
  dr_masked i : 0 ≤ i ≤ lines → i ≠ KEYBOARD_IRQ → route_of IOAPIC_VADDR f i = mk_route 0 0 false false true 0;
  dr_syscall : syscall_ready g (y_syscall_entry y);
  dr_stack : load64 (w_mem w) (y_kernel_syscall_rsp y) = Ok (boot_top 0) ∧
    load64 (w_mem w) (y_tss y + tss_rsp0) = Ok (boot_top 0);
}.

Lemma stack_words_static y m x : statics_ok y m → stack_words (y_tss y) (y_kernel_syscall_rsp y) x →
  static_bytes y x ∧ ¬ in_range (y_gdt y) sizeof_gdt x ∧ ¬ in_range (y_idt y) sizeof_idt x.
Proof.
  intros [_ _ _ _ A1 A2 A3 A4 A5 A6 _]. unfold stack_words, static_bytes, apart, in_range, tss_rsp0, sizeof_tss, sizeof_gdt, sizeof_idt in *.
  lia.
Qed.

Lemma mmio_not_dynamic v : v = LAPIC_VADDR ∨ v = IOAPIC_VADDR → ¬ dynamic_pages v.
Proof. intros Hv. apply dynamic_pages_out. destruct Hv as [-> | ->]; apply (bool_decide_unpack _); vm_compute; exact I. Qed.

(** The heap's pages are not in the ranges above it. *)
Lemma dynamic_not_heap v : VMM_DYNAMIC_VBASE ≤ v < 2 ^ 64 → indices v ≠ indices HEAP_VBASE.
Proof. intros Hv Hi%indices_inj. unfold VMM_DYNAMIC_VBASE, HEAP_VBASE, PAGE_SIZE in *. dlia. Qed.

(** What the memory managers left for the devices. *)
Lemma memory_facts y r im hhdm response m mh cr3 T (w : world pmm) mh' T' :
  bootloader_ok y r im hhdm response m cr3 T → memory_ready hhdm (take 256 response) cr3 m mh T w mh' T' →
  (∀ v, VMM_DYNAMIC_VBASE ≤ v < 2 ^ 64 → small_page w v) ∧ (86 ≤ base.size (w_avail w))%nat ∧ acpi_valid hhdm im (w_mem w) ∧
  (∀ x, acpi_bytes hhdm im x → ¬ vmm_bytes w T' x) ∧ ∀ x, static_bytes y x → ¬ vmm_bytes w T' x.
Proof.
  intros [_ _ _ _ _ _ B7 B8 _ _ B11 B12 B13] Hmr. split_and!.
  - intros v Hv es Hes. rewrite (mr_walk _ _ _ _ _ _ _ _ _ Hmr) in Hes by by apply dynamic_not_heap. by apply (B7 v).
  - rewrite (mr_size _ _ _ _ _ _ _ _ _ Hmr) in B13. unfold heap_start_frames in B13. pose proof (missing_le T HEAP_VBASE). lia.
  - eapply acpi_valid_keep; [exact B8|]. intros x Hx. apply (modifies_lookup _ _ _ _ (mr_mem _ _ _ _ _ _ _ _ _ Hmr)).
    intros Hk. by apply Hk, B11.
  - intros x Hx. by apply (mr_kept _ _ _ _ _ _ _ _ _ Hmr), B11.
  - intros x Hx. by apply (mr_kept _ _ _ _ _ _ _ _ _ Hmr), B12.
Qed.

(** The controllers and the drivers on the machine the memory managers left. *)
Lemma start_devices {D E F G} `{Uart D} `{Mmio E} `{!LocalApic E LAPIC_VADDR} `{PortIO E} `{!Pit E LAPIC_VADDR}
    `{Mmio F} `{!IoApicDev F IOAPIC_VADDR} `{MsrFile G} polls fuel y r im hhdm response m0 m mh cr3 T (w : world pmm) mh' T1
    (e : E) (f : F) (g : G) (st0 st : log D) scr out :
  (u_poll_bound < polls)%nat → (pit_bound < fuel)%nat → statics_ok y m0 → modifies (static_bytes y) m0 m →
  bootloader_ok y r im hhdm response m cr3 T → memory_ready hhdm (take 256 response) cr3 m mh T w mh' T1 → KEYBOARD_IRQ ≤ io_max f →
  logged st0 scr out st → literals boot_literals (y_rodata y) (t_mem (l_tty st0)) (tty_bytes (l_tty st0)) →
  level_number LOG_LEVEL_INFO <? level_number (min_level st0) = false →
  ∃ tables w1 e1 f1 g1 st1 w2 T2 e2 f2 g2 st2 hz,
    boot_controllers polls (y_rodata y) r w e f g st = Ok (tables, LAPIC_VADDR, IOAPIC_VADDR, w1, e1, f1, g1, st1) ∧
    boot_drivers polls fuel (y_rodata y) (y_tss y) (y_kernel_syscall_rsp y) (y_syscall_entry y) LAPIC_VADDR IOAPIC_VADDR w1 e1 f1 g1 st1 =
      Ok (w2, e2, f2, g2, st2) ∧
    grown (λ v, mmio_pages v ∨ dynamic_pages v) (stack_words (y_tss y) (y_kernel_syscall_rsp y)) w T1 w2 T2 ∧ measured (D := E) LAPIC_VADDR hz ∧
    devices_ready y im (Z.land (rdmsr g IA32_APIC_BASE_MSR) APIC_BASE_ADDR_MASK) (io_max f) hz w2 e2 f2 g2 ∧
    dynamic_next_vaddr (w_vmm w2) = dynamic_at 1 ∧ (base.size (w_avail w) ≤ base.size (w_avail w2) + 22)%nat ∧
    logged st0 scr (out ++ [madt_piece im; log_piece LOG_LEVEL_INFO (text no_strings fmt_timer [hz; TIMER_FREQUENCY_HZ]);
      log_piece LOG_LEVEL_INFO (text no_strings fmt_syscall [y_syscall_entry y])]) st2.
Proof.
  intros Hpolls Hfuel Hso Hm0 Hbl Hmr Hmax Hlg Hls Hlev.
  destruct (memory_facts _ _ _ _ _ _ _ _ _ _ _ _ Hbl Hmr) as (Hsm & Hsz & Hacpi & Hav & Hsv). pose proof Hbl as [B1 _ B3 _ _ _ _ _ B9 B10 _ _ _].
  destruct (boot_controllers_spec polls (y_rodata y) Hpolls r hhdm im w T1 e f g boot_literals st0 st scr out B1 B3 Hacpi B9 Hav B10)
    as (tables & w1 & T1' & f1 & st1 & Hc & G1 & Hh1 & Hd1 & Hs1 & P1 & P2 & Hmax1 & Hr1 & Hlg1);
    [apply Hmr | by apply Hmr | apply Hsm; unfold VMM_DYNAMIC_VBASE, LAPIC_VADDR, VMM_MMIO_VBASE; lia
    | apply Hsm; unfold VMM_DYNAMIC_VBASE, IOAPIC_VADDR, VMM_MMIO_VBASE, PAGE_SIZE; lia
    | lia | exact Hlg | exact Hls | by apply literals_subset; vm_compute | exact Hlev |].
  rewrite (mr_dynamic _ _ _ _ _ _ _ _ _ Hmr) in Hd1.
  assert (Hmap : ∀ a n, mapped m0 a n → mapped (w_mem w1) a n).
  { intros a n Ha. eapply modifies_mapped; [apply (gr_mem _ _ _ _ _ _ G1)|]. eapply modifies_mapped; [apply (mr_mem _ _ _ _ _ _ _ _ _ Hmr)|].
    by eapply modifies_mapped. }
  destruct (boot_drivers_spec polls fuel (y_rodata y) Hpolls Hfuel (y_tss y) (y_kernel_syscall_rsp y) (y_syscall_entry y) w1 T1'
    (lapic_setup LAPIC_VADDR e) f1 (wrmsr g IA32_APIC_BASE_MSR (Z.lor (rdmsr g IA32_APIC_BASE_MSR) APIC_BASE_ENABLE))
    boot_literals st0 st1 scr (out ++ [madt_piece im]) (gr_inv _ _ _ _ _ _ G1))
    as (w2 & T2 & e2 & f2 & g2 & st2 & hz & Hd & G2 & Hh2 & Hd2 & _ & Hs2 & Hmeas & R1 & R2 & R3 & Hmax2 & K1 & K2 & Hsy & L1 & L2 & Hlg2);
    [by rewrite Hd1 | by rewrite Hd1 | rewrite Hd1; by vm_compute
    | intros k Hk; apply (gr_small _ _ _ _ _ _ G1), Hsm; rewrite Hd1; unfold VMM_DYNAMIC_VBASE, PAGE_SIZE; lia | lia
    | apply Hmap; eapply mapped_sub; [exact (proj2 (so_tss _ _ Hso)) | unfold tss_rsp0; lia | unfold tss_rsp0, sizeof_tss; lia] | exact (Hmap _ _ (so_ksr _ _ Hso))
    | pose proof (so_tss_ksr _ _ Hso); unfold apart, tss_rsp0, sizeof_tss in *; lia
    | apply (grown_outside _ _ _ _ _ _ _ G1); intros x Hx; by apply Hsv, (stack_words_static y m0)
    | by rewrite Hmax1 | exact Hlg1 | exact Hls | by apply literals_subset; vm_compute | exact Hlev |].
  rewrite Hd1 in G2, Hd2, L1, L2.
  assert (Hgp : ∀ v, guarded_pages (VMM_DYNAMIC_VBASE + PAGE_SIZE) 4 v → dynamic_pages v)
    by (intros v; apply (guarded_dynamic 0); lia).
  exists tables, w1, (lapic_setup LAPIC_VADDR e), f1, (wrmsr g IA32_APIC_BASE_MSR (Z.lor (rdmsr g IA32_APIC_BASE_MSR) APIC_BASE_ENABLE)), st1, w2, T2, e2, f2, g2, st2, hz.
  split; [exact Hc|]. split; [exact Hd|].
  split; [eapply grown_trans; (eapply grown_mono; [| |eassumption]); [by left | done | intros v Hv; right; by apply Hgp | done] |].
  split; [exact Hmeas|]. split.
  { constructor; [rewrite Hh2, Hh1; by rewrite (mr_handlers _ _ _ _ _ _ _ _ _ Hmr) | | | | by split | exact K1 | | exact Hsy | by split].
    - eapply device_page_kept; [exact G2 | intros Hp; by apply (mmio_not_dynamic LAPIC_VADDR); [left | apply Hgp] | exact P1].
    - eapply device_page_kept; [exact G2 | intros Hp; by apply (mmio_not_dynamic IOAPIC_VADDR); [right | apply Hgp] | exact P2].
    - rewrite R3 by (apply (bool_decide_unpack _); by vm_compute). by apply lapic_setup_spec.
    - intros i Hi Hne. rewrite K2 by lia || done. by apply Hr1. }
  split; [exact Hd2|]. split; [lia|]. rewrite <-app_assoc in Hlg2. exact Hlg2.
Qed.

(** ** Specification: the machine [kmain] leaves *)

Record kernel_ready {D E F G} `{Mmio E} `{!LocalApic E LAPIC_VADDR} `{Mmio F} `{!IoApicDev F IOAPIC_VADDR} `{Msr G}
    (y : symbols) (im : acpi_image) (apic_phys lines hz : Z) (rgs : regs) (lo hi : Z) (k : kernel D E F G) (T : gmap (list Z) Z)
  : Prop := {
  kr_tables : processor_tables y (w_mem (k_world k)) (k_seg k) ∧ k_idtr k = (sizeof_idt - 1, y_idt y);
  kr_devices : devices_ready y im apic_phys lines hz (k_world k) (k_lapic k) (k_ioapic k) (k_msr k);
  kr_bases : k_lapic_base k = LAPIC_VADDR ∧ k_ioapic_base k = IOAPIC_VADDR;
  kr_threads : thread_env (k_free_list k) (k_machine k) (k_world k) T (boot_heap 4) (boot_ring y) (boot_contexts y) (boot_stacks y lo hi);
  kr_current : current (sc (k_machine k)) = y_bootstrap_thread y ∧ next_thread_id (sc (k_machine k)) = 5;
  kr_heap_page : ∃ f, mapped_as (k_world k) HEAP_VBASE f false true false;
  kr_interrupts : rg (k_machine k) = set_rf rgs (Z.setbit (rf rgs) IF_BIT);
}.

(** The page of the heap that the start has faulted in stays as it is. *)
Lemma heap_page_kept hhdm entries cr3 m mh T (w0 : world pmm) mh' T0 (w : world pmm) T' (X : Z → Prop) :
  memory_ready hhdm entries cr3 m mh T w0 mh' T0 → grown (λ v, mmio_pages v ∨ dynamic_pages v) X w0 T0 w T' →
  ∃ f, mapped_as w HEAP_VBASE f false true false.
Proof.
  intros Hmr Hg. destruct (mr_first _ _ _ _ _ _ _ _ _ Hmr) as (f & _ & (es & Hes & Hf) & _). exists (f * PAGE_SIZE), es.
  split; [|exact Hf]. rewrite (gr_walk _ _ _ _ _ _ Hg); [done|]. intros [[Hp|Hp]|Hp].
  - unfold same_page in Hp. rewrite indices_inj in Hp. by vm_compute in Hp.
  - unfold same_page in Hp. rewrite indices_inj in Hp. by vm_compute in Hp.
  - revert Hp. apply dynamic_pages_out, (bool_decide_unpack _). by vm_compute.
Qed.

(** That page is all of the heap the start uses: the threads' objects and the
    headers of all blocks lie in it. *)
Lemma boot_heap_page k x :
  (k ≤ 4)%nat → HEAP_VBASE ≤ x < boot_thread k → in_range HEAP_VBASE PAGE_SIZE x.
Proof.
  intros Hk Hx. unfold boot_thread, in_range, sizeof_thread, sizeof_block_header, HEAP_VBASE, PAGE_SIZE in *. lia.
Qed.

(** The tables and the devices after the threads' stacks have been mapped. *)
Lemma ready_grown {E F G} `{Mmio E} `{!LocalApic E LAPIC_VADDR} `{Mmio F} `{!IoApicDev F IOAPIC_VADDR} `{Msr G}
    y im apic_phys lines hz (w w' : world pmm) T T' (e : E) (f : F) (g : G) m0 seg :
  statics_ok y m0 → grown dynamic_pages (λ _, False) w T w' T' → w_handlers w' = w_handlers w →
  (∀ x, static_bytes y x → ¬ vmm_bytes w T x) →
  processor_tables y (w_mem w) seg → devices_ready y im apic_phys lines hz w e f g →
  processor_tables y (w_mem w') seg ∧ devices_ready y im apic_phys lines hz w' e f g.
Proof.
  intros Hso G1 Hh Hst Hpt [R1 R2 R3 R4 R5 R6 R7 R8 [R9 R10]]. pose proof (gr_mem _ _ _ _ _ _ G1) as Hm.
  assert (Hout : ∀ x, static_bytes y x → ¬ (vmm_bytes w T x ∨ False)) by (intros x Hx [Hv|[]]; by apply (Hst x Hx)).
  split.
  - eapply processor_tables_keep; [exact Hpt | exact Hm |]. intros x Hx. apply Hout. unfold static_bytes. tauto.
  - constructor; [by rewrite Hh | | | exact R4 | exact R5 | exact R6 | exact R7 | exact R8 | split].
    + eapply device_page_kept; [exact G1 | by apply mmio_not_dynamic; left | exact R2].
    + eapply device_page_kept; [exact G1 | by apply mmio_not_dynamic; right | exact R3].
    + rewrite (load64_modifies _ _ _ _ Hm); [exact R9|]. intros x Hx. apply Hout, (stack_words_static y m0); [done | by right].
    + rewrite (load64_modifies _ _ _ _ Hm); [exact R10|]. intros x Hx. apply Hout, (stack_words_static y m0); [done | by left].
Qed.

(** ** Properties *)

(** The kernel's memory from the bootloader's machine [m] on: [w0] is what the
    memory managers left, and the console's literals [ls] are still in
    place for what is printed from here on. *)
Record kernel_memory {D E F G : Type} (y : symbols) (r : limine_responses) (im : acpi_image) (hhdm : Z) (response : list boot_memmap_entry)
    (m mh : mem) (cr3 : Z) (T : gmap (list Z) Z) (k : kernel D E F G) (T' : gmap (list Z) Z)
    (m0 : mem) (w0 : world pmm) (mh0 : mem) (T0 : gmap (list Z) Z) : Prop := {
  km_bootloader : bootloader_ok y r im hhdm response m0 cr3 T;
  km_statics : modifies (static_bytes y) m m0;
  km_ready : memory_ready hhdm (take 256 response) cr3 m0 mh T w0 mh0 T0;
  km_grown : grown (λ v, mmio_pages v ∨ dynamic_pages v) (stack_words (y_tss y) (y_kernel_syscall_rsp y)) w0 T0 (k_world k) T';
  km_frames : (base.size (w_avail w0) ≤ base.size (w_avail (k_world k)) + 86)%nat;
  km_outside x : static_bytes y x → ¬ vmm_bytes (k_world k) T' x;
}.

(** The start, step by step. *)
Lemma kmain_run_spec {D E F G} `{Uart D} `{Mmio E} `{!LocalApic E LAPIC_VADDR} `{PortIO E} `{!Pit E LAPIC_VADDR}
    `{Mmio F} `{!IoApicDev F IOAPIC_VADDR} `{MsrFile G} {TR : Trap} polls fuel y r im hhdm response m mh cr3 T rgs lo hi seg
    (e : E) (f : F) (g : G) (st : log D) ls :
  (u_poll_bound < polls)%nat → (pit_bound < fuel)%nat →
  bootloader_ok y r im hhdm response m cr3 T → statics_ok y m → console_ok y r st → bootstrap_ok y mh rgs lo hi →
  KEYBOARD_IRQ ≤ io_max f → literals ls (y_rodata y) (t_mem (l_tty st)) (screen_bytes r) → boot_literals ⊆ ls →
  ∃ k T' st0 hz m0 w0 mh0 T0, kmain_start polls fuel y r m mh cr3 rgs seg e f g st = Ok k ∧
    kernel_ready y im (Z.land (rdmsr g IA32_APIC_BASE_MSR) APIC_BASE_ADDR_MASK) (io_max f) hz rgs lo hi k T' ∧
    measured (D := E) LAPIC_VADDR hz ∧ kernel_memory y r im hhdm response m mh cr3 T k T' m0 w0 mh0 T0 ∧
    min_level st0 = min_level st ∧ fresh_tty r (l_tty st0) ∧
    u_line (device (t_serial (l_tty st0))) = u_line (device (t_serial (l_tty st))) ∧
    literals ls (y_rodata y) (t_mem (l_tty st0)) (tty_bytes (l_tty st0)) ∧
    logged st0 (fresh_screen r)
      (boot_output y r im (Z.of_nat (boot_free (take 256 response) T)) (ram_end (take 256 response) / PAGE_SIZE) hz)
      (k_log k).
Proof.
  intros Hpolls Hfuel Hbl Hso Hco [Bh (Bl & Bt & Bm) Br Bg Bb (Bc1 & Bc2 & Bc3)] Hmax Hls0 Hsub. unfold kmain_start.
  destruct (start_memory polls y r hhdm response m mh cr3 T seg st ls Hpolls Hls0 Hsub Hco Hso (bootloader_memory _ _ _ _ _ _ _ _ Hbl) Bh ltac:(pose proof (bl_frames _ _ _ _ _ _ _ _ Hbl); lia))
    as (st0 & st1 & m1 & seg' & m2 & w & mh' & T1 & st2 & E1 & E2 & E3 & E4 & E5 & Hpt & Hmod & Hmr & Hheap & Hhm & Hlv & Hfr & Hli & Hls & Hlg).
  rewrite E1. cbn [mbind res_bind]. rewrite E2. cbn [mbind res_bind]. rewrite E3. cbn [mbind res_bind]. rewrite E4.
  cbn [mbind res_bind]. rewrite E5. cbn [mbind res_bind]. clear E1 E2 E3 E4 E5.
  pose proof (log_enabled y r st st0 Hco Hlv) as Hlev. pose proof (bootloader_keep _ _ _ _ _ _ _ _ _ Hbl Hmod) as Hbl2.
  destruct (start_devices polls fuel y r im hhdm response m m2 mh cr3 T w mh' T1 e f g st0 st2 _ _ Hpolls Hfuel Hso Hmod Hbl2 Hmr Hmax Hlg
    ltac:(intros l Hl; by apply Hls, Hsub) Hlev)
    as (tables & w1 & e1 & f1 & g1 & st3 & w2 & T2 & e2 & f2 & g2 & st4 & hz & -> & Hdrv & G2 & Hmeas & Hdev & Hdyn & Hs2 & Hlg4).
  cbn [mbind res_bind]. destruct (memory_facts _ _ _ _ _ _ _ _ _ _ _ _ Hbl2 Hmr) as (Hsm & Hsz & _ & _ & Hsv).
  set (rgs' := set_rf rgs (io_enable_interrupts (rf rgs))).
  destruct (sched_init_created y rgs' mh' w2 T2 lo hi Hheap (gr_inv _ _ _ _ _ _ G2) Hdyn) as (s & -> & Hcr);
    [intros v Hv; apply (gr_small _ _ _ _ _ _ G2), Hsm; unfold dynamic_at, PAGE_SIZE in Hv; lia | done | done
    | by eapply modifies_mapped | exact Br | exact Bg | exact Bb |].
  cbn [mbind res_bind]. rewrite Hdrv. cbn [mbind res_bind].
  destruct (log_logged polls Hpolls (y_rodata y) ls st0 _ _ st4 LOG_LEVEL_INFO fmt_title [] Hlg4 Hls)
    as (st5 & -> & Hlg5); [apply Hsub; literal_in | by vm_compute | exact Hlev |]. cbn [mbind res_bind].
  destruct (log_logged polls Hpolls (y_rodata y) ls st0 _ _ st5 LOG_LEVEL_INFO fmt_booted [] Hlg5 Hls)
    as (st6 & -> & Hlg6); [apply Hsub; literal_in | by vm_compute | exact Hlev |]. cbn [mbind res_bind].
  destruct (create_threads_spec y rgs' _ w2 T2 lo hi Hcr Bc1 Bc2 Bc3) as (M & w3 & T3 & Hc & [C1 C2 C3 C4 C5] & G3 & Hh3 & _ & Hs3);
    [intros l Hl; destruct (Hls l) as [Hw _]; [apply Hsub; revert l Hl; apply literals_subset; by vm_compute | unfold word64; lia] | lia |].
  fold rgs'. rewrite Hc. cbn [mbind res_bind].
  pose proof (grown_outside _ _ _ _ _ _ _ G2 Hsv) as Hsv2.
  destruct (ready_grown y im (Z.land (rdmsr g IA32_APIC_BASE_MSR) APIC_BASE_ADDR_MASK) (io_max f) hz w2 w3 T2 T3 e2 f2 g2 m seg'
    Hso G3 Hh3 Hsv2) as [Hpt' Hdev']; [| exact Hdev |].
  { eapply processor_tables_keep; [exact Hpt | exact (gr_mem _ _ _ _ _ _ G2) |].
    intros x Hx [Hv|Hv]; [apply (Hsv x); [unfold static_bytes; tauto | done] | by apply (stack_words_static y m) in Hv; [tauto|]]. }
  assert (Gall : grown (λ v, mmio_pages v ∨ dynamic_pages v) (stack_words (y_tss y) (y_kernel_syscall_rsp y)) w T1 w3 T3)
    by (eapply grown_trans; [exact G2 | eapply grown_mono; [| |exact G3]; [by right | by intros x []]]).
  eexists _, T3, st0, hz, m2, w, mh', T1. split; [reflexivity|]. split.
  { constructor; [by split | exact Hdev' | done | exact C1 | by split | by eapply heap_page_kept | exact C5]. }
  split; [exact Hmeas|]. split.
  { constructor; [exact Hbl2 | exact Hmod | exact Hmr | exact Gall | cbn [k_world]; lia | exact (grown_outside _ _ _ _ _ _ _ G3 Hsv2)]. }
  split; [exact Hlv|]. split; [exact Hfr|]. split; [exact Hli|]. split; [exact Hls|]. rewrite <-!app_assoc in Hlg6. exact Hlg6.
Qed.

Lemma kmain_spec {D E F G} `{Uart D} `{Mmio E} `{!LocalApic E LAPIC_VADDR} `{PortIO E} `{!Pit E LAPIC_VADDR}
    `{Mmio F} `{!IoApicDev F IOAPIC_VADDR} `{MsrFile G} {TR : Trap} polls fuel y r im hhdm response m mh cr3 T rgs lo hi seg
    (e : E) (f : F) (g : G) (st : log D) :
  (u_poll_bound < polls)%nat → (pit_bound < fuel)%nat →
  bootloader_ok y r im hhdm response m cr3 T → statics_ok y m → console_ok y r st → bootstrap_ok y mh rgs lo hi →
  KEYBOARD_IRQ ≤ io_max f →
  ∃ k T' st0 hz, kmain_start polls fuel y r m mh cr3 rgs seg e f g st = Ok k ∧
    kernel_ready y im (Z.land (rdmsr g IA32_APIC_BASE_MSR) APIC_BASE_ADDR_MASK) (io_max f) hz rgs lo hi k T' ∧
    measured (D := E) LAPIC_VADDR hz ∧ fresh_tty r (l_tty st0) ∧ u_line (device (t_serial (l_tty st0))) = u_line (device (t_serial (l_tty st))) ∧
    logged st0 (fresh_screen r)
      (boot_output y r im (Z.of_nat (boot_free (take 256 response) T)) (ram_end (take 256 response) / PAGE_SIZE) hz)
      (k_log k).
Proof.
  intros Hpolls Hfuel Hbl Hso Hco Hbs Hmax.
  destruct (kmain_run_spec polls fuel y r im hhdm response m mh cr3 T rgs lo hi seg e f g st boot_literals Hpolls Hfuel Hbl Hso Hco
    Hbs Hmax (co_literals _ _ _ Hco) (reflexivity _)) as (k & T' & st0 & hz & m0 & w0 & mh0 & T0 & ? & ? & ? & _ & _ & ? & ? & _ & ?).
  by exists k, T', st0, hz.
Qed.

(** C2: the start of the kernel as a whole, from the first instruction of
    [kmain] to its first [sched_yield]. On any machine that the bootloader hands
    over in order, it runs to the end without a fault and leaves: the
    processor's segments, its task and the gates of all stubs; the page-fault,
    timer and keyboard handlers; the pages of both interrupt controllers mapped
    uncached, the local APIC enabled with its timer running on vector 32 at the
    count for 1000 Hz, every line of the I/O APIC masked but the keyboard's,
    which goes to this processor; the registers and the stack of the system-call
    path; interrupts on; and a ring of the running thread and the four new ones,
    each suspended at the start of its function with its argument, on a stack of
    its own, with their objects in the heap's page that the first header's
    store has faulted in. The outputs have gained exactly the banner and the log
    lines of [boot_output], in this order: the number of free frames is that of
    the usable ones without frame 0, the bitmap's, the frame of that page and
    those of the page tables it needed ([boot_free]); the timer's line has the
    frequency the calibration measured ([measured]). *)
Theorem kmain_correct {D E F G} `{Uart D} `{Mmio E} `{!LocalApic E LAPIC_VADDR} `{PortIO E} `{!Pit E LAPIC_VADDR}
    `{Mmio F} `{!IoApicDev F IOAPIC_VADDR} `{MsrFile G} {TR : Trap} polls fuel y r im hhdm response m mh cr3 T rgs lo hi seg
    (e : E) (f : F) (g : G) (st : log D) :
  (u_poll_bound < polls)%nat → (pit_bound < fuel)%nat →
  bootloader_ok y r im hhdm response m cr3 T → statics_ok y m → console_ok y r st → bootstrap_ok y mh rgs lo hi →
  KEYBOARD_IRQ ≤ io_max f →
  ∃ k T' st0 hz, kmain_start polls fuel y r m mh cr3 rgs seg e f g st = Ok k ∧
    kernel_ready y im (Z.land (rdmsr g IA32_APIC_BASE_MSR) APIC_BASE_ADDR_MASK) (io_max f) hz rgs lo hi k T' ∧
    measured (D := E) LAPIC_VADDR hz ∧ fresh_tty r (l_tty st0) ∧ u_line (device (t_serial (l_tty st0))) = u_line (device (t_serial (l_tty st))) ∧
    logged st0 (fresh_screen r)
      (boot_output y r im (Z.of_nat (boot_free (take 256 response) T)) (ram_end (take 256 response) / PAGE_SIZE) hz)
      (k_log k).
Proof. apply kmain_spec. Qed.

(** ** Witness

    128 usable frames from 0x1000 on, an empty root table at 0x81000, the
    descriptor table at 0x82000, the ACPI tables of Acpi.v and the small
    objects in frame 0; the screen of Console.v; the devices of Serial.v,
    Lapic.v, Ioapic.v and Syscall.v. *)

Definition ex_rodata (ls : list (list Z)) (l : list Z) : Z := 0x10000 + 0x400 * Z.of_nat (default O (fst <$> list_find (l =.) ls)).

Definition ex_symbols (ls : list (list Z)) : symbols :=
  let a := ex_hhdm in
  mk_symbols (a + 0x600) (a + 0x700) (a + 0x82000) (λ v, 0xffffffff80010000 + 16 * v) (λ i, 0xffffffff80020000 + 16 * i) 0xffffffff80030000
    (a + 0x680) 0xffffffff80040000 0xffffffff80050000 0xffffffff80060000 0xffffffff80070000 0xffffffff80080000 (ex_rodata ls).

Definition ex_boot_map : list boot_memmap_entry := [mk_memmap_entry 0x1000 0x80000 BOOT_MEMMAP_USABLE].
Definition ex_answers : limine_responses :=
  mk_responses true (Some [ex_mode]) (Some ex_hhdm) (Some ex_boot_map) None (Some (ex_hhdm + 0x100)).
Definition ex_image : acpi_image := mk_image (ex_hhdm + 0x100) ex_rsdp ex_xsdt (λ _, ex_madt).
Definition ex_tables_mem : mem :=
  put_bytes (put_bytes (put_bytes ∅ (ex_hhdm + 0x100) ex_rsdp) (ex_hhdm + 0x200) ex_xsdt) (ex_hhdm + 0x300) ex_madt.
Definition ex_physical : mem := ex_tables_mem ∪ zeros ex_hhdm 0x83000.
Definition ex_heap_view : mem := zeros HEAP_VBASE HEAP_SIZE ∪ zeros 0x1000 0x1000.
Definition ex_console (ls : list (list Z)) : log ref_uart :=
  mk_log LOG_LEVEL_INFO 0 (mk_tty ex_serial fb_bss (foldr (λ l m, put_str m (ex_rodata ls l) l) (zeros 0x1000 256) ls)).
Definition ex_boot_regs : regs := mk_regs 0 0 0 0 0 0 0 0x1f00 0 0x2.

Lemma ex_physical_mapped a n : ex_hhdm ≤ a → a + n ≤ ex_hhdm + 0x83000 → mapped ex_physical a n.
Proof.
  intros H1 H2 x Hx. unfold ex_physical. destruct (ex_tables_mem !! x) as [b|] eqn:Hb.
  - exists b. by apply lookup_union_Some_l.
  - rewrite lookup_union_r by done. apply (zeros_mapped ex_hhdm 0x83000). unfold in_range in *. lia.
Qed.

Lemma ex_tables_low x b : ex_tables_mem !! x = Some b → ex_hhdm ≤ x < ex_hhdm + 0x400.
Proof.
  assert (Hall : map_Forall (λ x _, ex_hhdm ≤ x < ex_hhdm + 0x400) ex_tables_mem)
    by (apply (bool_decide_unpack _); vm_compute; exact I).
  apply Hall.
Qed.

Lemma ex_physical_bytes a l : bytes_at ex_tables_mem a l → bytes_at ex_physical a l.
Proof. intros Hb i b Hi. apply lookup_union_Some_l. by apply Hb. Qed.

Lemma ex_usable f : f ∈ usable_frames ex_boot_map → 1 ≤ f < 129.
Proof.
  intros (e & ->%list_elem_of_singleton & Hf)%elem_of_usable_frames. apply elem_of_region_frames in Hf as [_ Hf].
  unfold Pmm.end_ in Hf. cbn [BootInfo.base length_] in Hf. exact Hf.
Qed.

Lemma ex_statics ls : statics_ok (ex_symbols ls) ex_physical.
Proof.
  constructor; unfold apart; cbn [ex_symbols y_gdt y_tss y_idt y_kernel_syscall_rsp y_isr_stub y_irq_stub y_isr_stub_spurious];
    unfold sizeof_gdt, sizeof_tss, sizeof_idt, ex_hhdm; try (split; [lia|]); try (apply ex_physical_mapped; unfold ex_hhdm; lia); try lia.
  unfold vector_stub. intros v h Hv. destruct (Z.ltb_spec v 32), (Z.ltb_spec v 48), (Z.eqb_spec v 255); intros [= <-]; lia.
Qed.

Lemma ex_boot_map_ok : memmap_ok ex_hhdm ex_boot_map ex_physical.
Proof.
  assert (Hone : ∀ e, e ∈ ex_boot_map → e = mk_memmap_entry 0x1000 0x80000 BOOT_MEMMAP_USABLE)
    by (intros e He; by apply list_elem_of_singleton in He).
  constructor.
  - unfold ex_hhdm. lia.
  - intros e ->%Hone _. unfold Pmm.end_, ex_hhdm. simpl. lia.
  - intros e ->%Hone _. done.
  - intros [|i] [|j] e e' Hi Hj Hne; simpl in *; try done; by rewrite lookup_nil in Hi || rewrite lookup_nil in Hj.
  - intros e ->%Hone _. apply ex_physical_mapped; simpl; lia.
Qed.

Lemma ex_acpi_ok : acpi_valid ex_hhdm ex_image ex_physical ∧ madt_valid ex_hhdm ex_image.
Proof.
  assert (He : im_entries ex_image = [0x300]) by (vm_compute; reflexivity).
  split.
  - constructor.
    + apply ex_physical_bytes, bytes_check_sound. vm_compute. reflexivity.
    + vm_compute. reflexivity.
    + split; [apply ex_physical_bytes, bytes_check_sound; vm_compute; reflexivity | split; vm_compute; [lia | reflexivity]].
    + vm_compute. split; [lia | reflexivity].
    + vm_compute. reflexivity.
    + intros p Hp. rewrite He in Hp. apply list_elem_of_singleton in Hp as ->.
      split; [apply ex_physical_bytes, bytes_check_sound; vm_compute; reflexivity | split; vm_compute; [lia | reflexivity]].
  - intros p Hp. assert (Hp' : im_madt ex_image = Some 0x300) by (vm_compute; reflexivity).
    rewrite Hp' in Hp. injection Hp as <-. cbv zeta. cbn [ex_image im_table].
    split; [by vm_compute|]. split; [by vm_compute|]. split; [vm_compute; lia|]. split.
    + apply Forall_forall. intros b Hb. assert (Hall : forallb (λ b, (0 <=? b) && (b <? 256)) ex_madt = true) by (vm_compute; reflexivity).
      rewrite forallb_forall in Hall. rewrite list_elem_of_In in Hb. specialize (Hall b Hb). unfold is_byte. lia.
    + split; [by vm_compute|].
      assert (Hm : madt_entries ex_madt = [[0; 8; 0; 0; 1; 0; 0; 0]; [0; 8; 1; 1; 1; 0; 0; 0]; [0; 8; 2; 2; 0; 0; 0; 0];
        [2; 10; 0; 0; 2; 0; 0; 0; 0; 0]; [1; 12; 0; 0; 0; 0; 192; 254; 0; 0; 0; 0]]) by (vm_compute; reflexivity).
      rewrite Hm. repeat constructor; simpl; intros; try lia; discriminate.
Qed.

(** Where the tables and the static objects are. *)
Lemma ex_regions ls x :
  (acpi_bytes ex_hhdm ex_image x → ex_hhdm + 0x100 ≤ x < ex_hhdm + 0x400) ∧
  (static_bytes (ex_symbols ls) x → ex_hhdm + 0x600 ≤ x < ex_hhdm + 0x800 ∨ ex_hhdm + 0x82000 ≤ x < ex_hhdm + 0x83000).
Proof.
  assert (He : im_entries ex_image = [0x300]) by (vm_compute; reflexivity).
  assert (L1 : length ex_rsdp = 36%nat) by (vm_compute; reflexivity). assert (L2 : length ex_xsdt = 44%nat) by (vm_compute; reflexivity).
  assert (L3 : length ex_madt = 90%nat) by (vm_compute; reflexivity).
  assert (A2 : im_root_addr ex_hhdm ex_image = ex_hhdm + 0x200) by (vm_compute; reflexivity).
  assert (A3 : acpi_phys_to_virt ex_hhdm 0x300 = ex_hhdm + 0x300) by (vm_compute; reflexivity).
  unfold acpi_bytes, static_bytes. rewrite A2, He. unfold in_range.
  cbn [ex_image im_rsdp_addr im_rsdp im_root im_table ex_symbols y_gdt y_tss y_idt y_kernel_syscall_rsp].
  unfold sizeof_gdt, sizeof_tss, sizeof_idt. split; [|lia].
  intros [Hx|[Hx|(p & ->%list_elem_of_singleton & Hx)]]; rewrite ?A3, ?L1, ?L2, ?L3 in Hx; lia.
Qed.

Lemma ex_root : filled ex_physical (ex_hhdm + 0x81000) PAGE_SIZE 0.
Proof.
  intros x Hx. unfold ex_physical, in_range, PAGE_SIZE in *. destruct (ex_tables_mem !! x) as [b|] eqn:Hb.
  - apply ex_tables_low in Hb. unfold ex_hhdm in *. lia.
  - rewrite lookup_union_r by done. unfold zeros. rewrite zeros_from_lookup, decide_True; [done|]. unfold ex_hhdm, in_range in *. lia.
Qed.

Lemma ex_bootloader ls : ∃ T, bootloader_ok (ex_symbols ls) ex_answers ex_image ex_hhdm ex_boot_map ex_physical 0x81000 T ∧
  ∀ v, walk ex_physical ex_hhdm 0x81000 (indices v) = None ∧ open_tables ex_hhdm ex_physical T v.
Proof.
  destruct (empty_tables ex_hhdm 0x81000 ex_physical ex_root) as (T & Hlook & Htab & Hwalk & Hentry);
    [lia | done | unfold ex_hhdm; lia | unfold ex_hhdm, PAGE_SIZE; lia |].
  assert (Hkept : ∀ x, ex_hhdm ≤ x < ex_hhdm + 0x1000 ∨ ex_hhdm + 0x82000 ≤ x → kept ex_hhdm ex_boot_map T x).
  { intros x Hx. split.
    - intros (p & t & [-> <-]%Hlook & Ht). unfold frame_bytes, in_range, PAGE_SIZE in Ht. lia.
    - intros f Hf%ex_usable Ht. unfold frame_bytes, in_range, PAGE_SIZE in Ht. lia. }
  assert (Hopen : ∀ v, open_tables ex_hhdm ex_physical T v).
  { intros v q i r t e Hidx Hr [-> <-]%Hlook He Hpr. rewrite indices_eq in Hidx. injection Hidx as <- _.
    rewrite Hentry in He by (apply Z.mod_pos_bound; lia). by injection He as <-. }
  exists T. change (Z.land 0x81000 PTE_ADDR_MASK) with 0x81000. split; [|intros v; split; [apply Hwalk | apply Hopen]]. constructor.
  - done.
  - done.
  - done.
  - exact ex_boot_map_ok.
  - vm_compute. discriminate.
  - constructor; [exact Htab | | intros v _; apply Hwalk |].
    + intros p t [-> <-]%Hlook Hin. apply ex_usable in Hin. change (0x81000 / PAGE_SIZE) with 129 in Hin. lia.
    + intros v _. apply Hopen.
  - intros v es _ Hes. change (Z.land 0x81000 PTE_ADDR_MASK) with 0x81000 in Hes. by rewrite Hwalk in Hes.
  - apply ex_acpi_ok.
  - apply ex_acpi_ok.
  - vm_compute. discriminate.
  - intros x Hx%(ex_regions ls). split; [apply Hkept; left; lia|]. intros Hs%(ex_regions ls). unfold ex_hhdm in *. lia.
  - intros x Hx%(ex_regions ls). apply Hkept. lia.
  - apply Nat.leb_le. vm_compute. reflexivity.
Qed.

(** The literals [ls], one after the other behind the screen. *)
Definition ex_console_check (ls : list (list Z)) : bool :=
  let m := t_mem (l_tty (ex_console ls)) in
  forallb (λ x, bool_decide (is_Some (m !! x))) (seqZ 0x1000 256) &&
  forallb (λ l, (0x10000 <=? ex_rodata ls l) && (ex_rodata ls l <? 0x20000) && cstr_check m (ex_rodata ls l) l) ls.

Lemma ex_screen i : boot_screen ex_answers = Some i → i = ex_mode.
Proof. assert (Hs : boot_screen ex_answers = Some ex_mode) by (vm_compute; reflexivity). rewrite Hs. by intros [= ->]. Qed.

Lemma ex_console_literals ls :
  ex_console_check ls = true → literals ls (ex_rodata ls) (t_mem (l_tty (ex_console ls))) (screen_bytes ex_answers).
Proof.
  intros [_ Hall]%andb_true_iff l Hl. rewrite forallb_forall in Hall. rewrite list_elem_of_In in Hl. specialize (Hall l Hl).
  apply andb_true_iff in Hall as [[H1%Z.leb_le H2%Z.ltb_lt]%andb_true_iff H3]. split; [lia|]. split; [by apply cstr_check_sound|].
  intros x Hx (i & ->%ex_screen & Hb). change (height ex_mode * pitch ex_mode) with 256 in Hb. change (address ex_mode) with 0x1000 in Hb.
  unfold in_range in *. lia.
Qed.

Lemma ex_console_ok ls :
  ex_console_check ls = true → boot_literals ⊆ ls → console_ok (ex_symbols ls) ex_answers (ex_console ls).
Proof.
  intros Hc Hsub. constructor; [done | by vm_compute | | intros l Hl; by apply ex_console_literals, Hsub].
  apply andb_true_iff in Hc as [Hall _]. intros i ->%ex_screen. split; [exact ex_mode_ok|]. intros x Hx.
  rewrite forallb_forall in Hall. refine (bool_decide_eq_true_1 _ (Hall x _)). apply list_elem_of_In, elem_of_seqZ.
  change (height ex_mode * pitch ex_mode) with 256 in Hx. change (address ex_mode) with 0x1000 in Hx. unfold in_range in Hx. lia.
Qed.

Lemma ex_bootstrap ls : bootstrap_ok (ex_symbols ls) ex_heap_view ex_boot_regs 0x1000 0x2000.
Proof.
  assert (Hm : ∀ a n, mapped (zeros HEAP_VBASE HEAP_SIZE) a n ∨ mapped (zeros 0x1000 0x1000) a n → mapped ex_heap_view a n).
  { intros a n Ha x Hx. apply lookup_union_is_Some. destruct Ha as [Ha|Ha]; [left | right]; by apply Ha. }
  constructor.
  - apply Hm. left. apply zeros_mapped.
  - split; [lia|]. split; [unfold HEAP_VBASE; lia|]. apply Hm. right. apply zeros_mapped.
  - cbn. lia.
  - change (Forall word64 [0; 0; 0; 0; 0; 0; 0]). words64.
  - cbn. unfold in_range, HEAP_VBASE, HEAP_SIZE. lia.
  - cbn. unfold word64. lia.
Qed.

Lemma kmain_correct_witness :
  ∃ k, kmain_start (TR := ref_trap) 3 2 (ex_symbols boot_literals) ex_answers ex_physical ex_heap_view 0x81000 ex_boot_regs ex_seg
      (mk_ref_apic ∅ [] [] false 0 : ref_apic LAPIC_VADDR) (mk_ref_ioapic 0 ∅ : ref_ioapic IOAPIC_VADDR) (∅ : gmap Z Z) (ex_console boot_literals) = Ok k ∧
    current (sc (k_machine k)) = 0xffffffff80050000 ∧ next_thread_id (sc (k_machine k)) = 5.
Proof.
  destruct (ex_bootloader boot_literals) as (T & HT & _).
  destruct (kmain_correct (TR := ref_trap) 3 2 (ex_symbols boot_literals) ex_answers ex_image ex_hhdm ex_boot_map ex_physical ex_heap_view 0x81000 T ex_boot_regs
    0x1000 0x2000 ex_seg (mk_ref_apic ∅ [] [] false 0 : ref_apic LAPIC_VADDR) (mk_ref_ioapic 0 ∅ : ref_ioapic IOAPIC_VADDR) (∅ : gmap Z Z) (ex_console boot_literals))
    as (k & T' & st0 & hz & Hk & [_ _ _ _ Hc _ _] & _).
  - cbn. lia.
  - cbn. lia.
  - exact HT.
  - apply ex_statics.
  - apply ex_console_ok; [by vm_compute | done].
  - apply ex_bootstrap.
  - cbn. unfold KEYBOARD_IRQ. lia.
  - exists k. split; [exact Hk | exact Hc].
Defined.
