(* ===== verification/Entry.v ===== *)
(** * Control flow that does not return (kernel/arch/x86_64/boot/entry.c,
      cpu/halt.c, boot/qemu_exit.c, the check of boot/limine_requests.c and the
      threads of kernel/main.c)

    The entry point, [kmain] and the demonstration threads end in loops around
    [hlt]: they are interaction trees. What they call is a function on the
    machine's state, performed as one event; giving up the processor, the
    interrupt flag, waiting and the way to ring 3 are events of their own. *)

From ITree Require Import ITree.
From Paco Require Import paco.
From S2P Require Import Prelude Word Mem CString BootInfo FrameAlloc Pmm Paging Isr Vmm AddressSpace Demand Heap.
From S2P Require Import Stack Spinlock Sched Thread Printf Acpi Madt Font Console Io Serial Log Gdt Idt Ioapic Lapic Timer Syscall.
From S2P Require Import BootConsole BootDevices Main Kmain.
From Stdlib Require Import Ascii.

(** ** Events and programs *)

Variant machE (S : Type) : Type → Type :=
  | Do (X : Type) (f : S → res (X * S)) : machE S X
  | Yield : machE S unit
  | Cli : machE S unit
  | Hlt : machE S unit
  | Ring3 (entry user_stack : Z) : machE S Empty_set.
Arguments Do {S X}.
Arguments Yield {S}.
Arguments Cli {S}.
Arguments Hlt {S}.
Arguments Ring3 {S}.

(** A program that only changes the state. *)
Definition call {S} (f : S → res S) : itree (machE S) unit := ITree.trigger (Do (λ s, s ← f s; Ok (tt, s))).

(** [for (;;) __asm__ volatile("hlt");] *)
Definition hlt_forever {S} : itree (machE S) Empty_set :=
  ITree.iter (λ _ : unit, ITree.bind (ITree.trigger Hlt) (λ _, Ret (inl tt))) tt.

(** [for (;;) __asm__ volatile("cli; hlt");] *)
Definition cli_hlt_forever {S} : itree (machE S) Empty_set :=
  ITree.iter (λ _ : unit, ITree.bind (ITree.trigger Cli) (λ _, ITree.bind (ITree.trigger Hlt) (λ _, Ret (inl tt)))) tt.

(** halt.c *)
Definition kernel_halt {S} : itree (machE S) Empty_set := ITree.bind (ITree.trigger Cli) (λ _, hlt_forever).

(** [for (int i = 0; i < n; i++) body] *)
Definition loop {S} (n : Z) (body : Z → itree (machE S) unit) : itree (machE S) unit :=
  ITree.iter (λ i, if i <? n then ITree.bind (body i) (λ _, Ret (inl (i + 1))) else Ret (inr tt)) 0.

Definition DEMO_THREAD_ITERATIONS : Z := 3.
Definition QEMU_EXIT_SUCCESS : Z := 0x10.

(** qemu_exit.c *)
Definition qemu_debug_exit {D} `{PortIO D} (d : D) (code : Z) : D := outb d 0xf4 code.

(** ** The boot path *)

(** What the kernel is entered with. *)
Record boot_state (D E F G : Type) := mk_boot_state {
  b_mem : mem; b_heap : mem; b_cr3 : Z; b_regs : regs; b_seg : seg_regs;
  b_lapic : E; b_ioapic : F; b_msr : G; b_log : log D;
}.
Arguments mk_boot_state {D E F G}.
Arguments b_mem {D E F G}.
Arguments b_heap {D E F G}.
Arguments b_cr3 {D E F G}.
Arguments b_regs {D E F G}.
Arguments b_seg {D E F G}.
Arguments b_lapic {D E F G}.
Arguments b_ioapic {D E F G}.
Arguments b_msr {D E F G}.
Arguments b_log {D E F G}.

Inductive phase (D E F G : Type) :=
  | Booting (b : boot_state D E F G)
  | Running (k : kernel D E F G).
Arguments Booting {D E F G}.
Arguments Running {D E F G}.

Definition refused_message : list Z := lit "[PANIC] limine: bootloader does not support base revision 4" ++ [10].
Definition fmt_demo : list Z := lit "sched: thread %s, iteration %d".
Definition fmt_ring3 : list Z := lit "ring3 demo: jumping to ring 3 at 0x%lx".
Definition fmt_ring3_failed : list Z := lit "ring3 demo: failed to set up the demo mapping, skipping".

Section boot.
Context {D E F G : Type} `{PortIO D} `{Mmio E} `{PortIO E} `{Mmio F} `{Msr G} {TR : Trap}.
Context (polls fuel : nat) (y : symbols) (r : limine_responses).
Abbreviation program := (itree (machE (phase D E F G))).

(** The log of either phase. *)
Definition get_log (s : phase D E F G) : log D := match s with Booting b => b_log b | Running k => k_log k end.

Definition put_log (s : phase D E F G) (st : log D) : phase D E F G :=
  match s with
  | Booting b => Booting (mk_boot_state (b_mem b) (b_heap b) (b_cr3 b) (b_regs b) (b_seg b) (b_lapic b) (b_ioapic b) (b_msr b) st)
  | Running k => Running (mk_kernel st (k_world k) (k_machine k) (k_free_list k) (k_seg k) (k_idtr k) (k_tables k)
      (k_lapic_base k) (k_lapic k) (k_ioapic_base k) (k_ioapic k) (k_msr k))
  end.

Definition put_serial (st : log D) (s : serial D) : log D :=
  put_tty st (mk_tty s (t_fb (l_tty st)) (t_mem (l_tty st))).

Definition call_serial_write (str : Z) (s : phase D E F G) : res (phase D E F G) :=
  let st := get_log s in
  d ← serial_write polls (t_serial (l_tty st)) (t_mem (l_tty st)) str;
  Ok (put_log s (put_serial st d)).

Definition limine_requests_check : program unit :=
  if negb (base_revision_supported r) then
    ITree.bind (call (call_serial_write (y_rodata y refused_message)))
      (λ _, ITree.bind cli_hlt_forever (λ v : Empty_set, match v with end))
  else Ret tt.

(** The part of [kmain] in Kmain.v. *)
Definition call_kmain_start (s : phase D E F G) : res (phase D E F G) :=
  match s with
  | Booting b =>
      k ← kmain_start polls fuel y r (b_mem b) (b_heap b) (b_cr3 b) (b_regs b) (b_seg b) (b_lapic b) (b_ioapic b) (b_msr b) (b_log b);
      Ok (Running k)
  | Running _ => UB
  end.

Definition call_qemu_debug_exit (code : Z) (s : phase D E F G) : res (phase D E F G) :=
  let st := get_log s in let d := t_serial (l_tty st) in
  Ok (put_log s (put_serial st (mk_serial (serial_present d) (qemu_debug_exit (device d) code)))).

Definition kmain : program Empty_set :=
  ITree.bind (call call_kmain_start) (λ _,
  ITree.bind (loop DEMO_THREAD_ITERATIONS (λ _, ITree.trigger Yield)) (λ _,
  ITree.bind (call (call_qemu_debug_exit QEMU_EXIT_SUCCESS)) (λ _,
  kernel_halt))).

Definition kernel_entry : program Empty_set :=
  ITree.bind limine_requests_check (λ _,
  ITree.bind kmain (λ _,
  kernel_halt)).

(** ** The threads *)

Definition call_log (level : log_level) (fmt : list Z) (args : list Z) (s : phase D E F G) : res (phase D E F G) :=
  st ← log_write polls (get_log s) level (y_rodata y fmt) args;
  Ok (put_log s st).

(** [name] is the pointer. *)
Definition demo_thread (name : Z) : program Empty_set :=
  ITree.bind (loop DEMO_THREAD_ITERATIONS (λ i,
    ITree.bind (call (call_log LOG_LEVEL_INFO fmt_demo [name; i])) (λ _, ITree.trigger Yield))) (λ _,
  hlt_forever).

Definition call_ring3_setup (s : phase D E F G) : res (bool * phase D E F G) :=
  match s with
  | Booting _ => UB
  | Running k =>
      '(ok, w) ← ring3_demo_setup (k_world k);
      Ok (ok, Running (mk_kernel (k_log k) w (k_machine k) (k_free_list k) (k_seg k) (k_idtr k) (k_tables k)
        (k_lapic_base k) (k_lapic k) (k_ioapic_base k) (k_ioapic k) (k_msr k)))
  end.

Definition ring3_demo_thread : program Empty_set :=
  ITree.bind (ITree.trigger (Do call_ring3_setup)) (λ ok : bool,
  if ok then
    ITree.bind (call (call_log LOG_LEVEL_INFO fmt_ring3 [USER_CODE_VADDR])) (λ _,
    ITree.trigger (Ring3 USER_CODE_VADDR (USER_STACK_VADDR + PAGE_SIZE)))
  else
    ITree.bind (call (call_log LOG_LEVEL_WARN fmt_ring3_failed [])) (λ _,
    hlt_forever)).
End boot.

(** ** Running a program

    [yield] is what the rest of the machine does while the thread has given up
    the processor (Sched.v); the run ends where the thread waits for an
    interrupt, goes to ring 3 or returns, with what is left of the program. *)

Inductive stop := Idle | User (entry user_stack : Z) | Returned.

Section run.
Context {S R : Type} (yield : S → res S).

Fixpoint run (fuel : nat) (t : itree (machE S) R) (s : S) : res (stop * S * itree (machE S) R) :=
  match fuel with
  | O => Fuel
  | Datatypes.S fuel =>
      match observe t with
      | RetF x => Ok (Returned, s, Ret x)
      | TauF t => run fuel t s
      | VisF e k =>
          match e in machE _ X return (X → itree (machE S) R) → res (stop * S * itree (machE S) R) with
          | Do f => λ k, '(x, s) ← f s; run fuel (k x) s
          | Yield => λ k, s ← yield s; run fuel (k tt) s
          | Cli => λ k, run fuel (k tt) s
          | Hlt => λ k, Ok (Idle, s, k tt)
          | Ring3 entry user_stack => λ k, Ok (User entry user_stack, s, Vis (Ring3 entry user_stack) k)
          end k
      end
  end.

(** Nothing is left but waiting: the program does not return, does not give up
    the processor and does not touch the state, however often it is woken. *)
Definition idle_gen (r : itree (machE S) R → Prop) (t : itree (machE S) R) : Prop :=
  match observe t with
  | RetF _ => False
  | TauF t => r t
  | VisF e k =>
      match e in machE _ X return (X → itree (machE S) R) → Prop with
      | Cli => λ k, r (k tt)
      | Hlt => λ k, r (k tt)
      | _ => λ _, False
      end k
  end.

Lemma idle_gen_mon : monotone1 idle_gen.
Proof.
  intros t r r' Ht Hr. unfold idle_gen in *. destruct (observe t) as [x|t'|X e k]; [done | by apply Hr |].
  destruct e; try done; by apply Hr.
Qed.

Definition idle (t : itree (machE S) R) : Prop := paco1 idle_gen bot1 t.
End run.
#[export] Hint Resolve idle_gen_mon : paco.

Lemma idle_hlt {S} : idle (@hlt_forever S).
Proof.
  pcofix CIH. pfold. unfold idle_gen. cbn. left. pfold. unfold idle_gen. cbn. right. apply CIH.
Qed.

Lemma idle_cli_hlt {S} : idle (@cli_hlt_forever S).
Proof.
  pcofix CIH. pfold. unfold idle_gen. cbn. left. pfold. unfold idle_gen. cbn. left. pfold. unfold idle_gen. cbn. right. apply CIH.
Qed.

Lemma observe_bind {E R Q} (t : itree E R) (k : R → itree E Q) :
  observe (ITree.bind t k) =
    match observe t with
    | RetF x => observe (k x)
    | TauF t => TauF (ITree.bind t k)
    | VisF e h => VisF e (λ x, ITree.bind (h x) k)
    end.
Proof. unfold observe. cbn. unfold observe. by destruct (_observe t). Qed.

(** What follows an endless wait is never reached. *)
Lemma idle_bind {S R Q} (t : itree (machE S) R) (k : R → itree (machE S) Q) : idle t → idle (ITree.bind t k).
Proof.
  revert t. pcofix CIH. intros t Ht. punfold Ht. pfold. unfold idle_gen in *. rewrite observe_bind.
  destruct (observe t) as [x|t'|X e k']; [done | |].
  - right. apply CIH. pclearbot; exact Ht.
  - destruct e; cbn; try done; right; apply CIH; pclearbot; exact Ht.
Qed.

Lemma idle_run {S R} (yield : S → res S) fuel (t : itree (machE S) R) s w s' rest :
  idle t → run yield fuel t s = Ok (w, s', rest) → w = Idle ∧ s' = s ∧ idle rest.
Proof.
  revert t. induction fuel as [|fuel IH]; intros t Ht; [done|]. cbn [run]. punfold Ht. unfold idle_gen in Ht.
  destruct (observe t) as [x|t'|X e k]; [done | |].
  - apply IH. pclearbot; exact Ht.
  - destruct e; cbn in Ht; try done.
    + apply IH. pclearbot; exact Ht.
    + intros [= <- <- <-]. split_and!; [done | done |]. pclearbot; exact Ht.
Qed.

(** The run up to the next effect. *)
Ltac steps := lazy beta iota zeta delta [run observe _observe ITree.bind ITree.subst ITree.iter ITree.trigger call loop demo_thread ring3_demo_thread kernel_entry kmain
  limine_requests_check kernel_halt cli_hlt_forever hlt_forever negb DEMO_THREAD_ITERATIONS Nat.add Z.ltb Z.compare Z.add Pos.compare Pos.compare_cont Pos.add Pos.succ mbind res_bind].

(** ** Specification *)

Definition demo_line (name : list Z) (i : Z) : list Z :=
  lit "sched: thread " ++ name ++ lit ", iteration " ++ number_text false 10 i.

Section demo.
Context {D E F G : Type} `{Uart D} `{Mmio E} `{PortIO E} `{Mmio F} `{Msr G}.
Context (polls fuel : nat) (y : symbols) (Hpolls : (u_poll_bound < polls)%nat).
Abbreviation machine_state := (phase D E F G).

Lemma get_put_log (s : machine_state) st : get_log (put_log s st) = st.
Proof. by destruct s. Qed.

Lemma demo_render (nm : list Z) p i :
  0 ≤ i < 3 → 0 < p < 2 ^ 64 →
  ∃ ds, parse_format fmt_demo = Some ds ∧
    render (λ a, if a =? p then Some nm else None) ds [p; i] = Some (demo_line nm i).
Proof.
  intros Hi Hp. destruct (parse_format fmt_demo) as [ds|] eqn:Hd; [|vm_compute in Hd; discriminate].
  exists ds. split; [done|].
  assert (Hds : ds = (Text <$> lit "sched: thread ") ++ Spec false 0 false (ch "s") ::
    (Text <$> lit ", iteration ") ++ [Spec false 0 false (ch "d")])
    by (vm_compute in Hd; injection Hd as <-; reflexivity).
  rewrite Hds, render_texts. cbn [render]. change (takes_arg (ch "s")) with true. cbv iota.
  assert (Hs : render_conv (λ a, if a =? p then Some nm else None) false 0 false (ch "s") p = Some nm).
  { unfold render_conv. change ((ch "s" =? ch "d") || (ch "s" =? ch "i")) with false. change (ch "s" =? ch "u") with false.
    change ((ch "s" =? ch "x") || (ch "s" =? ch "X")) with false. change (ch "s" =? ch "p") with false. change (ch "s" =? ch "s") with true.
    cbv iota. rewrite u64_small by lia. rewrite (proj2 (Z.eqb_neq p 0)), Z.eqb_refl by lia. cbn [fmap option_fmap option_map].
    unfold pad_left. by replace (Z.to_nat (0 - Z.of_nat (length nm))) with 0%nat by lia. }
  rewrite Hs. cbn [mbind option_bind]. rewrite render_texts. cbn [render]. change (takes_arg (ch "d")) with true. cbv iota.
  assert (Hc : render_conv (λ a, if a =? p then Some nm else None) false 0 false (ch "d") i = Some (number_text false 10 i)).
  { assert (i = 0 ∨ i = 1 ∨ i = 2) as [-> | [-> | ->]] by lia; by vm_compute. }
  rewrite Hc. cbn [mbind option_bind fmap option_fmap option_map]. by rewrite app_nil_r.
Qed.

Lemma demo_log ls st0 scr out (s : machine_state) nm i :
  logged st0 scr out (get_log s) → literals ls (y_rodata y) (t_mem (l_tty st0)) (tty_bytes (l_tty st0)) →
  fmt_demo ∈ ls → nm ∈ ls → Z.of_nat (length nm) ≤ INT_MAX → 0 ≤ i < 3 →
  level_number LOG_LEVEL_INFO <? level_number (min_level st0) = false →
  ∃ s', call_log polls y LOG_LEVEL_INFO fmt_demo [y_rodata y nm; i] s = Ok s' ∧
    logged st0 scr (out ++ [log_piece LOG_LEVEL_INFO (demo_line nm i)]) (get_log s').
Proof using Hpolls.
  intros Hlg Hls Hf Hn Hlen Hi Hlev. destruct (Hls nm Hn) as (Hp & _).
  destruct (demo_render nm (y_rodata y nm) i Hi Hp) as (ds & Hd & Hr).
  destruct (log_logged_at polls Hpolls (y_rodata y) ls st0 scr out (get_log s) LOG_LEVEL_INFO fmt_demo [y_rodata y nm; i]
    (λ a, if a =? y_rodata y nm then Some nm else None) ds (demo_line nm i) Hlg Hls Hf) as (st' & Hw & Hlg'); [|done..|].
  - intros a l. destruct (Z.eqb_spec a (y_rodata y nm)) as [->|]; [|done]. by intros [= <-].
  - exists (put_log s st'). unfold call_log. rewrite Hw. cbn [mbind res_bind]. split; [done|]. by rewrite get_put_log.
Qed.
End demo.

(** C16: a demonstration thread. Whatever the other threads log while it has
    given up the processor, it logs its three lines with its name, numbered from
    0 and in this order, each before a yield, and then waits for interrupts for
    ever: what is left of it neither returns nor touches the state. *)
Theorem demo_thread_correct {D E F G : Type} `{Uart D} `{Mmio E} `{PortIO E} `{Mmio F} `{Msr G} polls y fuel
    (yield : phase D E F G → res (phase D E F G)) ls st0 scr out s nm :
  (u_poll_bound < polls)%nat → (16 ≤ fuel)%nat →
  (∀ s out, logged st0 scr out (get_log s) → ∃ s' others, yield s = Ok s' ∧ logged st0 scr (out ++ others) (get_log s')) →
  logged st0 scr out (get_log s) → literals ls (y_rodata y) (t_mem (l_tty st0)) (tty_bytes (l_tty st0)) →
  fmt_demo ∈ ls → nm ∈ ls → Z.of_nat (length nm) ≤ INT_MAX →
  level_number LOG_LEVEL_INFO <? level_number (min_level st0) = false →
  ∃ s' rest o0 o1 o2, run yield fuel (demo_thread polls y (y_rodata y nm)) s = Ok (Idle, s', rest) ∧ idle rest ∧
    let line i := [log_piece LOG_LEVEL_INFO (demo_line nm i)] in
    logged st0 scr (out ++ line 0 ++ o0 ++ line 1 ++ o1 ++ line 2 ++ o2) (get_log s').
Proof.
  intros Hpolls Hfuel Hy Hlg Hls Hf Hn Hlen Hlev.
  destruct (Nat.le_exists_sub 16 fuel Hfuel) as (k & -> & _). rewrite Nat.add_comm.
  destruct (demo_log polls y Hpolls ls st0 scr out s nm 0 Hlg Hls Hf Hn Hlen ltac:(lia) Hlev) as (s1 & E1 & L1).
  destruct (Hy s1 _ L1) as (s2 & o0 & Y1 & L2).
  destruct (demo_log polls y Hpolls ls st0 scr _ s2 nm 1 L2 Hls Hf Hn Hlen ltac:(lia) Hlev) as (s3 & E2 & L3).
  destruct (Hy s3 _ L3) as (s4 & o1 & Y2 & L4).
  destruct (demo_log polls y Hpolls ls st0 scr _ s4 nm 2 L4 Hls Hf Hn Hlen ltac:(lia) Hlev) as (s5 & E3 & L5).
  destruct (Hy s5 _ L5) as (s6 & o2 & Y3 & L6).
  exists s6. eexists. exists o0, o1, o2. split.
  - steps. rewrite E1. steps. rewrite Y1. steps. rewrite E2. steps. rewrite Y2. steps. rewrite E3. steps. rewrite Y3. steps. reflexivity.
  - split; [|cbv zeta; by rewrite <-!app_assoc in L6]. pfold. unfold idle_gen. cbn. left. exact idle_hlt.
Qed.

(** The message of the check is for a port that is not set up yet. *)
Lemma refused_write {D E F G : Type} `{PortIO D} polls (s : phase D E F G) p :
  cstr (t_mem (l_tty (get_log s))) p refused_message → serial_present (t_serial (l_tty (get_log s))) = false →
  call_serial_write polls p s = Ok s.
Proof.
  intros Hc Hp. unfold call_serial_write. rewrite (serial_write_absent _ _ _ _ _ Hc Hp). cbn [mbind res_bind].
  destruct s as [[? ? ? ? ? ? ? ? [? ? []]]|[[? ? []] ? ? ? ? ? ? ? ? ? ? ?]]; reflexivity.
Qed.

(** C15: the entry point never returns, and there are two ways it ends. If the
    bootloader supports the base revision, [kmain] runs: its start, three
    yields, the write to the debug-exit port, and then [kernel_halt] waits for
    ever. If not, the processor waits for ever in a state in
    which nothing has changed: the message of the refusal is given to a serial
    port that [serial_init] has not been called for, which prints nothing. *)
Theorem kernel_entry_correct {D E F G : Type} `{PortIO D} `{Mmio E} `{PortIO E} `{Mmio F} `{Msr G} {TR : Trap} polls fuel0 y r fuel
    (yield : phase D E F G → res (phase D E F G)) (b : boot_state D E F G) :
  (16 ≤ fuel)%nat →
  (base_revision_supported r = true → ∀ k s1 s2 s3,
     kmain_start polls fuel0 y r (b_mem b) (b_heap b) (b_cr3 b) (b_regs b) (b_seg b) (b_lapic b) (b_ioapic b) (b_msr b) (b_log b) = Ok k →
     yield (Running k) = Ok s1 → yield s1 = Ok s2 → yield s2 = Ok s3 →
     ∃ s4 rest, call_qemu_debug_exit QEMU_EXIT_SUCCESS s3 = Ok s4 ∧
       run yield fuel (kernel_entry polls fuel0 y r) (Booting b) = Ok (Idle, s4, rest) ∧ idle rest) ∧
  (base_revision_supported r = false →
     cstr (t_mem (l_tty (b_log b))) (y_rodata y refused_message) refused_message →
     serial_present (t_serial (l_tty (b_log b))) = false →
     ∃ rest, run yield fuel (kernel_entry polls fuel0 y r) (Booting b) = Ok (Idle, Booting b, rest) ∧ idle rest).
Proof.
  intros Hfuel. destruct (Nat.le_exists_sub 16 fuel Hfuel) as (n & -> & _). rewrite Nat.add_comm. split.
  - intros Hr k s1 s2 s3 Hk Y1 Y2 Y3. eexists. eexists. split; [reflexivity|]. split.
    + unfold kernel_entry, limine_requests_check. rewrite Hr. steps. unfold call_kmain_start. rewrite Hk. steps. rewrite Y1. steps. rewrite Y2. steps. rewrite Y3. steps.
      unfold call_qemu_debug_exit. steps. reflexivity.
    + pfold. unfold idle_gen. steps. left. apply idle_bind. exact idle_hlt.
  - intros Hr Hc Hp. eexists. split.
    + unfold kernel_entry, limine_requests_check. rewrite Hr. steps. rewrite (refused_write polls (Booting b) _ Hc Hp). steps. reflexivity.
    + pfold. unfold idle_gen. steps. left. apply idle_bind, idle_bind, idle_cli_hlt.
Qed.

(** The ring 3 thread: it leaves the kernel at the user program, or says why not
    and waits. *)
Lemma ring3_demo_thread_spec {D E F G : Type} `{PortIO D} `{Mmio E} `{PortIO E} `{Mmio F} `{Msr G} {TR : Trap} polls y fuel
    (yield : phase D E F G → res (phase D E F G)) s ok s1 s2 :
  (4 ≤ fuel)%nat → call_ring3_setup s = Ok (ok, s1) →
  (if ok : bool then call_log polls y LOG_LEVEL_INFO fmt_ring3 [USER_CODE_VADDR] s1
   else call_log polls y LOG_LEVEL_WARN fmt_ring3_failed [] s1) = Ok s2 →
  ∃ rest, run yield fuel (ring3_demo_thread polls y) s =
    Ok (if ok then User USER_CODE_VADDR (USER_STACK_VADDR + PAGE_SIZE) else Idle, s2, rest) ∧ (ok = false → idle rest).
Proof.
  intros Hfuel Hs Hl. destruct (Nat.le_exists_sub 4 fuel Hfuel) as (n & -> & _). rewrite Nat.add_comm. destruct ok; eexists.
  - split; [|done]. steps. rewrite Hs. steps. rewrite Hl. steps. reflexivity.
  - split; [steps; rewrite Hs; steps; rewrite Hl; steps; reflexivity|]. intros _. pfold. unfold idle_gen. steps. left. exact idle_hlt.
Qed.

(** ** Witnesses *)

Abbreviation ex_phase := (phase ref_uart (ref_apic LAPIC_VADDR) (ref_ioapic IOAPIC_VADDR) (gmap Z Z)).

Definition ex_boot_state : boot_state ref_uart (ref_apic LAPIC_VADDR) (ref_ioapic IOAPIC_VADDR) (gmap Z Z) :=
  mk_boot_state ex_physical ex_heap_view 0x81000 ex_boot_regs ex_seg (mk_ref_apic ∅ [] [] false 0) (mk_ref_ioapic 0 ∅) ∅ (ex_console boot_literals).

Lemma kernel_entry_correct_witness :
  ∃ (s : ex_phase) rest, run Ok 16 (kernel_entry (TR := ref_trap) 3 2 (ex_symbols boot_literals) ex_answers) (Booting ex_boot_state) = Ok (Idle, s, rest) ∧ idle rest.
Proof.
  destruct (ex_bootloader boot_literals) as (T & HT & _).
  destruct (kmain_spec (TR := ref_trap) 3 2 (ex_symbols boot_literals) ex_answers ex_image ex_hhdm ex_boot_map ex_physical ex_heap_view 0x81000 T ex_boot_regs
    0x1000 0x2000 ex_seg (b_lapic ex_boot_state) (b_ioapic ex_boot_state) (b_msr ex_boot_state) (ex_console boot_literals))
    as (k & T' & st0 & hz & Hk & _);
    [cbn; lia | cbn; lia | exact HT | apply ex_statics | apply ex_console_ok; [by vm_compute | done] | apply ex_bootstrap | cbn; unfold KEYBOARD_IRQ; lia |].
  destruct (kernel_entry_correct (TR := ref_trap) 3 2 (ex_symbols boot_literals) ex_answers 16 Ok ex_boot_state) as [Hok _]; [lia|].
  destruct (Hok eq_refl k (Running k) (Running k) (Running k) Hk eq_refl eq_refl eq_refl) as (s & rest & _ & Hr & Hi).
  exists s, rest. split; [exact Hr | exact Hi].
Defined.

Definition ex_demo_rodata (l : list Z) : Z := if bool_decide (l = lit "A") then 0x3000 else 0x2000.
Definition ex_demo_symbols : symbols :=
  mk_symbols 0 0 0 (λ _, 0) (λ _, 0) 0 0 0 0 0 0 0 ex_demo_rodata.
Definition ex_demo_log : log ref_uart :=
  mk_log LOG_LEVEL_INFO 0 (mk_tty (serial_init ex_serial) fb_bss (put_str (put_str ∅ 0x3000 (lit "A")) 0x2000 fmt_demo)).
Definition ex_demo_state : ex_phase :=
  Booting (mk_boot_state ∅ ∅ 0 ex_boot_regs ex_seg (mk_ref_apic ∅ [] [] false 0) (mk_ref_ioapic 0 ∅) ∅ ex_demo_log).

Lemma demo_thread_correct_witness :
  ∃ s' rest, run Ok 16 (demo_thread 3 ex_demo_symbols 0x3000) ex_demo_state = Ok (Idle, s', rest) ∧ idle rest.
Proof.
  destruct (demo_thread_correct 3 ex_demo_symbols 16 Ok [fmt_demo; lit "A"] ex_demo_log (mk_term [] 0 0) [] ex_demo_state (lit "A"))
    as (s' & rest & _ & _ & _ & Hr & Hi & _).
  - cbn. lia.
  - lia.
  - intros s out Hs. exists s, []. split; [done|]. by rewrite app_nil_r.
  - split; [done|]. apply printed_nil. split; [left; exact (proj1 (serial_init_spec ex_serial)) | intros [=]].
  - intros l Hl. assert (Hall : forallb (λ l, (0x2000 <=? ex_demo_rodata l) && (ex_demo_rodata l <? 0x4000) &&
      cstr_check (t_mem (l_tty ex_demo_log)) (ex_demo_rodata l) l) [fmt_demo; lit "A"] = true) by (vm_compute; reflexivity).
    rewrite forallb_forall in Hall. rewrite list_elem_of_In in Hl. specialize (Hall l Hl).
    apply andb_true_iff in Hall as [[H1%Z.leb_le H2%Z.ltb_lt]%andb_true_iff H3]. cbn [ex_demo_symbols y_rodata].
    split; [lia|]. split; [by apply cstr_check_sound|]. intros x _ [[=] _].
  - left.
  - right. left.
  - by vm_compute.
  - by vm_compute.
  - exists s', rest. split; [exact Hr | exact Hi].
Defined.
