(* ===== verification/System.v ===== *)
(** * The whole machine (kernel/main.c with everything it starts)

    One processor runs one thread at a time: a program of Entry.v in the kernel,
    or the demonstration program in ring 3. [sched_yield] and the timer's
    interrupt go through the scheduler of Sched.v on the machine's memory and
    registers, and what runs afterwards is found from the registers that
    [context_switch] restored. The executions here are those in which the
    processor reaches its next wait (an [hlt], a jump of the ring 3 program)
    before the next tick. *)

From ITree Require Import ITree.
From S2P Require Import Prelude Word Mem CString BootInfo FrameAlloc Pmm Paging Isr Vmm AddressSpace Demand Heap.
From S2P Require Import Stack Spinlock Sched Thread Printf Acpi Madt Font Console Io Serial Log Gdt Idt IsrStubs Ioapic Lapic Timer Syscall.
From S2P Require Import BootConsole BootDevices Main Kmain Entry.
From Stdlib Require Import Ascii.

(** ** The machine *)

Section system.
Context {D E F G : Type} `{PortIO D} `{Mmio E} `{PortIO E} `{Mmio F} `{Msr G} {TR : Trap}.
Context (polls fuel : nat) (y : symbols) (r : limine_responses).
(** The return addresses of the calls in [switch_to_next] and in
    [thread_trampoline]; how far below the top of its stack the C code called by
    an interrupt's stub is when it calls [context_switch]; the general-purpose
    registers at the jump to ring 3. *)
Context (ra ra_trampoline depth : Z) (ug : gprs).
Abbreviation state := (phase D E F G).
Abbreviation program := (itree (machE state) Empty_set).

(** What the processor executes: kernel code, or the ring 3 program with its
    instruction pointer and [%rax]. *)
Inductive code :=
  | Kernel (p : program)
  | User (rip rax : Z).

(** A thread that does not run: created and never run, inside [sched_yield], or
    interrupted with these registers. *)
Inductive task :=
  | Fresh
  | Yielded (p : program)
  | Interrupted (c : code) (g : regs).

Record config := mk_config {
  c_tasks : gmap Z task;
  c_ticks : Z;
  c_state : state;
  c_code : code;
}.

Definition put_machine (k : kernel D E F G) (M : machine) : kernel D E F G :=
  mk_kernel (k_log k) (k_world k) M (k_free_list k) (k_seg k) (k_idtr k) (k_tables k)
    (k_lapic_base k) (k_lapic k) (k_ioapic_base k) (k_ioapic k) (k_msr k).

Definition put_seg (k : kernel D E F G) (seg : seg_regs) : kernel D E F G :=
  mk_kernel (k_log k) (k_world k) (k_machine k) (k_free_list k) seg (k_idtr k) (k_tables k)
    (k_lapic_base k) (k_lapic k) (k_ioapic_base k) (k_ioapic k) (k_msr k).

Definition put_lapic (k : kernel D E F G) (e : E) : kernel D E F G :=
  mk_kernel (k_log k) (k_world k) (k_machine k) (k_free_list k) (k_seg k) (k_idtr k) (k_tables k)
    (k_lapic_base k) e (k_ioapic_base k) (k_ioapic k) (k_msr k).

Definition put_klog (k : kernel D E F G) (st : log D) : kernel D E F G :=
  mk_kernel st (k_world k) (k_machine k) (k_free_list k) (k_seg k) (k_idtr k) (k_tables k)
    (k_lapic_base k) (k_lapic k) (k_ioapic_base k) (k_ioapic k) (k_msr k).

(** The flags, in either phase. *)
Definition flags (s : state) : Z :=
  match s with Booting b => rf (b_regs b) | Running k => rf (rg (k_machine k)) end.

Definition put_flags (s : state) (f : Z) : state :=
  match s with
  | Booting b => Booting (mk_boot_state (b_mem b) (b_heap b) (b_cr3 b) (set_rf (b_regs b) f) (b_seg b)
      (b_lapic b) (b_ioapic b) (b_msr b) (b_log b))
  | Running k => let M := k_machine k in Running (put_machine k (mk_machine (mm M) (sc M) (set_rf (rg M) f)))
  end.

Definition running (s : state) : res (kernel D E F G) :=
  match s with Booting _ => UB | Running k => Ok k end.

(** ** Switching threads *)

(** The C functions that threads start in. *)
Definition entered (rip rdi : Z) : option program :=
  if rip =? y_demo_thread y then Some (demo_thread polls y rdi)
  else if rip =? y_ring3_demo_thread y then Some (ring3_demo_thread polls y)
  else None.

(** [context_switch] has returned into the current thread: the trampoline the
    first time, [switch_to_next] otherwise, and from there to the program that
    yielded or through [iretq] to what was interrupted. *)
Definition resume (k : kernel D E F G) (T : gmap Z task) : res (kernel D E F G * code) :=
  let M := k_machine k in
  match default Fresh (T !! current (sc M)) with
  | Fresh =>
      if rip (rg M) =? y_thread_trampoline y then
        '(m, g) ← thread_trampoline_code (mm M) (rg M) ra_trampoline;
        p ← deref (entered (rip g) (rdi g));
        Ok (put_machine k (mk_machine m (sc M) g), Kernel p)
      else UB
  | Yielded p => if rip (rg M) =? ra then Ok (k, Kernel p) else UB
  | Interrupted c g => if rip (rg M) =? ra then Ok (put_machine k (mk_machine (mm M) (sc M) g), c) else UB
  end.

(** The thread [t] has called the scheduler, which left [k]; [self] is where it
    is then, and [c] its code if it goes on at once. *)
Definition scheduled (k : kernel D E F G) (T : gmap Z task) (t : Z) (self : task) (c : code)
  : res (gmap Z task * kernel D E F G * code) :=
  if current (sc (k_machine k)) =? t then Ok (T, k, c)
  else
    let T := <[t := self]> T in
    '(k, c) ← resume k T; Ok (T, k, c).

Definition yield (k : kernel D E F G) (T : gmap Z task) (p : program) : res (gmap Z task * kernel D E F G * code) :=
  M ← sched_yield (k_machine k) ra;
  scheduled (put_machine k M) T (current (sc (k_machine k))) (Yielded p) (Kernel p).

(** The frame of a timer interrupt: the handler does not look at the registers
    in it. *)
Definition timer_frame : interrupt_frame := mk_frame 0 0 0 0 0 0 0 0 0 0 0 0 0 0 0 TIMER_VECTOR 0 0 0 0.

(** A tick: the handler runs with interrupts off, on the thread's stack or, from
    ring 3, on the one in the TSS (that its frame there brings everything back is
    Preempt.v). *)
Definition tick (k : kernel D E F G) (T : gmap Z task) (ticks : Z) (c : code)
  : res (gmap Z task * Z * kernel D E F G * code) :=
  let M := k_machine k in
  let g := rg M in
  rsp0 ← load64 (w_mem (k_world k)) (y_tss y + tss_rsp0);
  let sp := match c with User _ _ => rsp0 | Kernel _ => rsp g - rsp g mod 16 end in
  let gh := set_rsp (set_rf g (Z.clearbit (rf g) IF_BIT)) (sp - depth) in
  '(e, ticks, M') ← isr_dispatch (run_timer ra) (eoi_timer (k_lapic_base k)) (w_handlers (k_world k)) timer_frame
                     (k_lapic k, ticks, mk_machine (mm M) (sc M) gh);
  let k := put_lapic (put_machine k M') e in
  let back := put_machine k (mk_machine (mm M') (sc M') g) in
  if current (sc M') =? current (sc M) then Ok (T, ticks, back, c)
  else
    '(T, k, c) ← scheduled k T (current (sc M)) (Interrupted c g) c;
    Ok (T, ticks, k, c).

(** ** Ring 3 *)

(** [jump_to_ring3], on the thread's stack. The stack in the TSS, which the
    processor uses from here on, is pages that [vmm_alloc_guarded] cleared. *)
Definition enter_ring3 (k : kernel D E F G) (entry user_stack : Z) : res (kernel D E F G * code) :=
  let M := k_machine k in
  '(c, seg) ← jump_to_ring3 (mm M) ug (k_seg k) (rsp (rg M)) entry user_stack;
  rsp0 ← load64 (w_mem (k_world k)) (y_tss y + tss_rsp0);
  let size := SYSCALL_KERNEL_STACK_PAGES * PAGE_SIZE in
  Ok (put_seg (put_machine k (mk_machine (with_pages (mm M) (rsp0 - size) size) (sc M) (set_rf (rg M) (c_rflags c)))) seg,
      User (c_rip c) (g_rax (gp c))).

(** A byte of an executable user page. *)
Definition user_fetch (w : world pmm) (v : Z) : res Z :=
  es ← deref (wwalk w v);
  if eff_user es && negb (eff_no_execute es) then
    load8 (w_mem w) (w_hhdm w + (Z.land (List.last es 0) PTE_ADDR_MASK + v mod PAGE_SIZE))
  else UB.

Inductive instruction := Syscall | Jump (target : Z).

Definition decode (w : world pmm) (rip : Z) : res instruction :=
  a ← user_fetch w rip;
  b ← user_fetch w (rip + 1);
  if (a =? 0x0f) && (b =? 0x05) then Ok Syscall
  else if a =? 0xeb then Ok (Jump (rip + 2 + if b <? 128 then b else b - 256))
  else UB.

(** ** Steps

    [None]: the processor waits with interrupts off, for ever. *)

Definition kernel_step (x : config) (p : program) : res (option config) :=
  let '(mk_config T ticks s _) := x in
  match observe p with
  | RetF v => match v : Empty_set with end
  | TauF p => Ok (Some (mk_config T ticks s (Kernel p)))
  | VisF e h =>
      match e in machE _ X return (X → program) → res (option config) with
      | Do f => λ h, '(v, s) ← f s; Ok (Some (mk_config T ticks s (Kernel (h v))))
      | Yield => λ h, k ← running s;
          '(T, k, c) ← yield k T (h tt); Ok (Some (mk_config T ticks (Running k) c))
      | Cli => λ h, Ok (Some (mk_config T ticks (put_flags s (Z.clearbit (flags s) IF_BIT)) (Kernel (h tt))))
      | Hlt => λ h,
          if interrupts_enabled (flags s) then
            k ← running s;
            '(T, ticks, k, c) ← tick k T ticks (Kernel (h tt)); Ok (Some (mk_config T ticks (Running k) c))
          else Ok None
      | Ring3 entry user_stack => λ _, k ← running s;
          '(k, c) ← enter_ring3 k entry user_stack; Ok (Some (mk_config T ticks (Running k) c))
      end h
  end.

Definition user_step (x : config) (rip rax : Z) : res (option config) :=
  let '(mk_config T ticks s _) := x in
  k ← running s;
  i ← decode (k_world k) rip;
  match i with
  | Syscall =>
      '(v, st) ← syscall_dispatch polls (y_rodata y fmt_enosys) (k_log k) rax;
      Ok (Some (mk_config T ticks (Running (put_klog k st)) (User (rip + 2) v)))
  | Jump target =>
      if interrupts_enabled (flags s) then
        '(T, ticks, k, c) ← tick k T ticks (User target rax); Ok (Some (mk_config T ticks (Running k) c))
      else Ok None
  end.

Definition step (x : config) : res (option config) :=
  match c_code x with Kernel p => kernel_step x p | User rip rax => user_step x rip rax end.

Fixpoint run_system (n : nat) (x : config) : res state :=
  match n with
  | O => Fuel
  | S n => o ← step x; match o with Some x => run_system n x | None => Ok (c_state x) end
  end.

(** The bootloader jumps to [kernel_entry]. *)
Definition power_on (b : boot_state D E F G) : config :=
  mk_config ∅ 0 (Booting b) (Kernel (kernel_entry polls fuel y r)).
End system.

(** ** Lemmas: programs and executions *)

Section programs.
Context {D E F G : Type} `{PortIO D} `{Mmio E} `{PortIO E} `{Mmio F} `{Msr G} {TR : Trap}.
Context (polls fuel : nat) (y : symbols) (r : limine_responses).
Abbreviation program := (itree (machE (phase D E F G)) Empty_set).

(** The demonstration thread before its line [i], and after the [i]-th yield. *)
Definition demo_body (name : Z) (i : Z) : itree (machE (phase D E F G)) (Z + ()) :=
  if i <? DEMO_THREAD_ITERATIONS then
    ITree.bind (ITree.bind (call (call_log polls y LOG_LEVEL_INFO fmt_demo [name; i])) (λ _, ITree.trigger Yield)) (λ _, Ret (inl (i + 1)))
  else Ret (inr tt).
Definition demo_at (name i : Z) : program := ITree.bind (ITree.iter (demo_body name) i) (λ _, hlt_forever).
Definition demo_next (name i : Z) : program :=
  ITree.bind (ITree.bind (ITree.bind (Ret tt) (λ _, Ret (inl (i + 1))))
    (λ lr : Z + (), match lr with inl i => Tau (ITree.iter (demo_body name) i) | inr v => Ret v end)) (λ _, hlt_forever).

Lemma demo_thread_at name : demo_thread polls y name = demo_at name 0.
Proof. reflexivity. Qed.

Ltac observing := lazy beta iota zeta delta [observe _observe ITree.bind ITree.subst ITree.trigger ITree.iter call].

Lemma observe_iter {S I R} (body : I → itree S (I + R)) i :
  observe (ITree.iter body i) =
    observe (ITree.bind (body i) (λ lr, match lr with inl i => Tau (ITree.iter body i) | inr v => Ret v end)).
Proof. reflexivity. Qed.

Lemma demo_step name i :
  i < DEMO_THREAD_ITERATIONS →
  ∃ h h', observe (demo_at name i) = VisF (Do (λ s, s ← call_log polls y LOG_LEVEL_INFO fmt_demo [name; i] s; Ok (tt, s))) h ∧
    observe (h tt) = VisF Yield h' ∧ observe (h' tt) = TauF (demo_at name (i + 1)).
Proof.
  intros Hi. unfold demo_at. rewrite observe_bind, observe_iter, observe_bind. unfold demo_body at 1.
  rewrite (proj2 (Z.ltb_lt _ _)) by done. eexists _, _. split; [reflexivity|]. split; [observing; reflexivity|]. observing. reflexivity.
Qed.

(** The boot thread before its [i]-th yield. *)
Definition boot_body (i : Z) : itree (machE (phase D E F G)) (Z + ()) :=
  if i <? DEMO_THREAD_ITERATIONS then ITree.bind (ITree.trigger Yield) (λ _, Ret (inl (i + 1))) else Ret (inr tt).
Definition boot_at (i : Z) : program :=
  ITree.bind (ITree.bind (ITree.iter boot_body i)
    (λ _, ITree.bind (call (call_qemu_debug_exit QEMU_EXIT_SUCCESS)) (λ _, kernel_halt))) (λ _, kernel_halt).

Lemma entry_step :
  base_revision_supported r = true →
  ∃ h, observe (kernel_entry polls fuel y r) = VisF (Do (λ s, s ← call_kmain_start polls fuel y r s; Ok (tt, s))) h ∧
    observe (h tt) = observe (boot_at 0).
Proof.
  intros Hr. unfold kernel_entry, limine_requests_check, kmain. rewrite Hr. cbn [negb].
  eexists. split; [observing; reflexivity|]. observing. reflexivity.
Qed.

Lemma boot_step i :
  i < DEMO_THREAD_ITERATIONS →
  ∃ h, observe (boot_at i) = VisF Yield h ∧ observe (h tt) = TauF (boot_at (i + 1)).
Proof.
  intros Hi. unfold boot_at. rewrite !observe_bind, observe_iter, observe_bind. unfold boot_body at 1.
  rewrite (proj2 (Z.ltb_lt _ _)) by done. eexists. split; [reflexivity|]. observing. reflexivity.
Qed.

Lemma boot_end :
  ∃ h h' h'', observe (boot_at DEMO_THREAD_ITERATIONS) =
      VisF (Do (λ s, s ← call_qemu_debug_exit QEMU_EXIT_SUCCESS s; Ok (tt, s))) h ∧
    observe (h tt) = VisF Cli h' ∧ observe (h' tt) = VisF Hlt h''.
Proof.
  unfold boot_at. rewrite !observe_bind, observe_iter, observe_bind. unfold boot_body at 1. change (_ <? _) with false. cbv iota.
  unfold kernel_halt, hlt_forever. eexists _, _, _. split; [observing; reflexivity|]. split; [observing; reflexivity|]. observing. reflexivity.
Qed.

Lemma ring3_step :
  ∃ h h' h'', observe (ring3_demo_thread polls y : program) = VisF (Do call_ring3_setup) h ∧
    observe (h true) = VisF (Do (λ s, s ← call_log polls y LOG_LEVEL_INFO fmt_ring3 [USER_CODE_VADDR] s; Ok (tt, s))) h' ∧
    observe (h' tt) = VisF (Ring3 USER_CODE_VADDR (USER_STACK_VADDR + PAGE_SIZE)) h''.
Proof.
  unfold ring3_demo_thread. eexists _, _, _. split; [observing; reflexivity|]. split; [observing; reflexivity|]. observing. reflexivity.
Qed.
End programs.

(** ** Executions *)

Section executions.
Context {D E F G : Type} `{PortIO D} `{Mmio E} `{PortIO E} `{Mmio F} `{Msr G} {TR : Trap}.
Context (polls : nat) (y : symbols) (ra ra_trampoline depth : Z) (ug : gprs).
Implicit Types (x : config (D := D) (E := E) (F := F) (G := G)).

Definition moves x x' : Prop := step polls y ra ra_trampoline depth ug x = Ok (Some x').

Lemma run_rtc x x' :
  rtc moves x x' → step polls y ra ra_trampoline depth ug x' = Ok None →
  ∃ n, ∀ m, (n ≤ m)%nat → run_system polls y ra ra_trampoline depth ug m x = Ok (c_state x').
Proof.
  intros Hx Hend. induction Hx as [x|x x1 x2 Hm _ IH].
  - exists 1%nat. intros [|m] Hm; [lia|]. cbn [run_system]. by rewrite Hend.
  - destruct (IH Hend) as [n Hn]. exists (S n). intros [|m] Hle; [lia|]. cbn [run_system]. rewrite Hm. cbn [mbind res_bind].
    apply Hn. lia.
Qed.

(** A program counts by its next event. *)
Lemma moves_observe T ticks s p q x' :
  observe p = observe q → moves (mk_config T ticks s (Kernel p)) x' → moves (mk_config T ticks s (Kernel q)) x'.
Proof. intros Ho. unfold moves, step. cbn [c_code]. unfold kernel_step. by rewrite Ho. Qed.

Lemma moves_tau T ticks s p q : observe p = TauF q → moves (mk_config T ticks s (Kernel p)) (mk_config T ticks s (Kernel q)).
Proof. intros Ho. unfold moves, step. cbn [c_code]. unfold kernel_step. by rewrite Ho. Qed.

Lemma moves_do {X} T ticks s p (f : phase D E F G → res (X * phase D E F G)) h v s' :
  observe p = VisF (Do f) h → f s = Ok (v, s') → moves (mk_config T ticks s (Kernel p)) (mk_config T ticks s' (Kernel (h v))).
Proof. intros Ho Hf. unfold moves, step. cbn [c_code]. unfold kernel_step. rewrite Ho. by rewrite Hf. Qed.

Lemma moves_yield T ticks k p h T' k' c' :
  observe p = VisF Yield h → yield polls y ra ra_trampoline k T (h tt) = Ok (T', k', c') →
  moves (mk_config T ticks (Running k) (Kernel p)) (mk_config T' ticks (Running k') c').
Proof. intros Ho Hf. unfold moves, step. cbn [c_code]. unfold kernel_step. rewrite Ho. cbn [running mbind res_bind]. by rewrite Hf. Qed.
End executions.

(** ** Lemmas: a new stack

    The running thread moves to a stack of fresh pages. *)
Lemma sched_rep_new_stack M l C K lo hi g :
  sched_rep M l C K → 0 ≤ lo → hi < 2 ^ 64 →
  (∀ u lo' hi', u ≠ current (sc M) → K !! u = Some (lo', hi') → hi' ≤ lo ∨ hi ≤ lo') →
  Forall word64 (frame g) → lo + 56 ≤ rsp g ≤ hi →
  sched_rep (mk_machine (with_pages (mm M) lo (hi - lo)) (sc M) g) l C (<[current (sc M) := (lo, hi)]> K).
Proof.
  intros [Hring Hlock _ Hstk Hdis Hsv _] Hlo Hhi Hfar Hw Hsp. set (cur := current (sc M)) in *.
  assert (Hout : ∀ u lo' hi' z, u ≠ cur → K !! u = Some (lo', hi') → lo' ≤ z < hi' →
    with_pages (mm M) lo (hi - lo) !! z = mm M !! z).
  { intros u lo' hi' z Hu HK Hz. apply with_pages_out. specialize (Hfar u lo' hi' Hu HK). unfold in_range. lia. }
  constructor; cbn [mm sc rg]; try done.
  - intros u Hu. destruct (decide (u = cur)) as [->|Hne].
    + exists lo, hi. rewrite lookup_insert_eq. split_and!; try done. apply with_pages_mapped.
    + destruct (Hstk u Hu) as (lo' & hi' & HK & ? & ? & Hm). exists lo', hi'. rewrite lookup_insert_ne by done.
      split_and!; try done. intros z Hz. rewrite (Hout u lo' hi') by (done || (unfold in_range in Hz; lia)). by apply Hm.
  - intros u v lo1 hi1 lo2 hi2 Huv. rewrite !lookup_insert_Some.
    intros [[<- [= <- <-]]|[Hu HKu]] [[<- [= <- <-]]|[Hv HKv]]; [done | | | exact (Hdis u v _ _ _ _ Huv HKu HKv)].
    + specialize (Hfar v _ _ ltac:(congruence) HKv). lia.
    + specialize (Hfar u _ _ ltac:(congruence) HKu). lia.
  - intros u th Hu Hne Hth. destruct (Hsv u th Hu Hne Hth) as (c & lo' & hi' & HC & HK & [Hs Hr] & Hwc & H1 & H2).
    exists c, lo', hi'. rewrite lookup_insert_ne by (by apply not_eq_sym). split_and!; try done. split; [|done].
    intros j v Hj. rewrite <-(Hs j v Hj). apply load_le_agree. intros z Hz. apply lookup_lt_Some in Hj. simpl in Hj.
    apply (Hout u lo' hi'); [done | done | unfold in_range in Hz; lia].
  - exists lo, hi. fold cur. rewrite lookup_insert_eq. done.
Qed.

(** ** Specification: a machine that runs *)

Section alive.
Context {D E F G : Type} `{Uart D} `{Mmio E} `{PortIO E} `{Mmio F} `{Msr G} {TR : Trap}.
Context (polls : nat) (y : symbols) (ra ra_trampoline depth : Z) (ug : gprs).
Context (Hpolls : (u_poll_bound < polls)%nat) (Hra : word64 ra) (Hrat : word64 ra_trampoline)
  (Hdepth : 0 ≤ depth ≤ SYSCALL_KERNEL_STACK_PAGES * PAGE_SIZE - 56).
Context (st0 : log D) (scr : term).
Abbreviation program := (itree (machE (phase D E F G)) Empty_set).
Abbreviation mcode := (code (D := D) (E := E) (F := F) (G := G)).
Abbreviation mtask := (task (D := D) (E := E) (F := F) (G := G)).
Implicit Types (k : kernel D E F G) (c : mcode) (X : gmap Z mcode) (T : gmap Z mtask) (x : config (D := D) (E := E) (F := F) (G := G)).

(** The machine as the scheduler will see it: ring 3 code is on the stack in
    the TSS as soon as an interrupt arrives. *)
Definition seen k c : machine :=
  let M := k_machine k in
  match c with Kernel _ => M | User _ _ => mk_machine (mm M) (sc M) (set_rsp (rg M) (boot_top 0 - depth)) end.

(** What a waiting thread runs next, from the context it is suspended in. *)
Definition task_code (tk : mtask) (g : regs) : option mcode :=
  match tk with
  | Fresh => Kernel <$> entered polls y (r12 g) (r13 g)
  | Yielded p => Some (Kernel p)
  | Interrupted c _ => Some c
  end.

Definition task_ok (K : gmap Z (Z * Z)) (t : Z) (tk : mtask) (g : regs) : Prop :=
  match tk with
  | Fresh => ∃ entry arg lo top, g = new_context (y_thread_trampoline y) entry arg top ∧ K !! t = Some (lo, top) ∧ lo + 64 ≤ top
  | Yielded _ => rip g = ra
  | Interrupted (User _ _) g0 => rip g = ra ∧ Forall word64 (frame g0) ∧ interrupts_enabled (rf g0) = true ∧
      K !! t = Some (boot_stack 0, boot_top 0)
  | Interrupted (Kernel _) _ => False
  end.

Definition user_ok k c (K : gmap Z (Z * Z)) : Prop :=
  match c with
  | Kernel _ => True
  | User _ _ => interrupts_enabled (rf (rg (k_machine k))) = true ∧ K !! current (sc (k_machine k)) = Some (boot_stack 0, boot_top 0)
  end.

(** The context from which a thread goes on as [c]. *)
Lemma resume_spec k M T l C K g tk c :
  sched_rep M l C K → same_context g (rg M) → default Fresh (T !! current (sc M)) = tk →
  task_ok K (current (sc M)) tk g → task_code tk g = Some c →
  ∃ M', resume polls y ra ra_trampoline (put_machine k M) T = Ok (put_machine k M', c) ∧ sc M' = sc M ∧
    sched_rep (seen (put_machine k M') c) l C K ∧ user_ok (put_machine k M') c K.
Proof.
  intros Hrep [Hf Hsp] Htk Hok Hc. unfold resume. cbn [put_machine k_machine]. rewrite Htk.
  unfold frame in Hf. injection Hf as E15 E14 E13 E12 Ebx Ebp Eip.
  destruct tk as [|p|[p|ip ax] g0]; cbn [task_code task_ok] in *.
  - destruct Hok as (entry & arg & lo & top & -> & HK & Hlo). cbn [new_context rip r12 r13 rsp] in *.
    destruct (entered polls y entry arg) as [p|] eqn:Hen; [|done]. injection Hc as <-.
    rewrite <-Eip, Z.eqb_refl. unfold thread_trampoline_code. rewrite <-Hsp.
    destruct (ring_cons _ _ _ (sr_ring _ _ _ _ Hrep)) as [l' Hl'].
    destruct (sr_stack _ _ _ _ Hrep (current (sc M))) as (lo1 & hi1 & HK1 & Hl0 & Hh0 & Hm); [rewrite Hl'; left|].
    rewrite HK in HK1. injection HK1 as <- <-.
    destruct (push_spec (mm M) top ra_trampoline [] ltac:(lia)) as (m2 & Hp & _ & Hmod);
      [eapply mapped_sub; [exact Hm | lia | lia] | done | apply saved_nil |].
    rewrite Hp. cbn [mbind res_bind rip rdi]. rewrite <-E12, <-E13, Hen. cbn [deref mbind res_bind].
    eexists (mk_machine m2 (sc M) _). split; [reflexivity|]. split; [done|]. split; [|done].
    cbn [seen put_machine k_machine]. apply run_rep; [exact Hrep | | |].
    + eapply modifies_mono; [|exact Hmod]. intros z Hz u Hu (lo2 & hi2 & HK2 & Hz2). unfold in_range in Hz.
      destruct (sr_disjoint _ _ _ _ Hrep _ _ _ _ _ _ Hu HK2 HK); lia.
    + pose proof (sr_regs _ _ _ _ Hrep) as Hw. unfold frame in *. simpl. rewrite !Forall_cons in *.
      rewrite E12, E13. tauto.
    + exists lo, top. split; [done|]. cbn. lia.
  - injection Hc as <-. rewrite <-Eip, Hok, Z.eqb_refl. exists M. by destruct M.
  - done.
  - destruct Hok as (Hip & Hw & Hif & HK). injection Hc as <-. rewrite <-Eip, Hip, Z.eqb_refl.
    eexists (mk_machine (mm M) (sc M) g0). split; [reflexivity|]. split; [done|]. split; [|by split].
    cbn [seen put_machine k_machine mm sc rg]. apply run_rep; [exact Hrep | reflexivity | exact Hw |].
    exists (boot_stack 0), (boot_top 0). split; [done|]. cbn [set_rsp Sched.rsp].
    unfold boot_top, SYSCALL_KERNEL_STACK_PAGES, THREAD_STACK_PAGES in *. lia.
Qed.

(** The machine at work: [w] is the world, [l] the ring, [X] what the waiting
    threads will run, [out] what has been printed, [n] the ticks of the running
    thread's slice. *)
Record alive x k (w : world pmm) (l : list Z) X (out : list (Z * list Z)) (n : Z) (C : gmap Z regs) (K : gmap Z (Z * Z)) : Prop := {
  al_state : c_state x = Running k;
  al_world : k_world k = w;
  al_rep : sched_rep (seen k (c_code x)) l C K;
  al_tasks t : t ∈ tail l → ∃ g, C !! t = Some g ∧ task_ok K t (default Fresh (c_tasks x !! t)) g ∧
    task_code (default Fresh (c_tasks x !! t)) g = X !! t;
  al_slice : ticks_since_switch (sc (k_machine k)) = n;
  al_user : user_ok k (c_code x) K;
  al_stacks t lo hi : K !! t = Some (lo, hi) →
    (t = boot_thread 3 ∧ lo = boot_stack 0 ∧ hi = boot_top 0) ∨ hi ≤ boot_stack 0 ∨ boot_top 0 ≤ lo;
  al_log : logged st0 scr out (k_log k);
}.

Definition lives x (w : world pmm) (l : list Z) X out : Prop := ∃ k C K, alive x k w l X out 0 C K.

Lemma seen_parts k c : mm (seen k c) = mm (k_machine k) ∧ sc (seen k c) = sc (k_machine k).
Proof. by destruct c. Qed.

(** The scheduler is called on a machine [M0] like this one and switches from
    [t] to [u]. *)
Lemma scheduled_alive x k w t u l X out C K M0 self c' n :
  alive x k w (t :: u :: l) X out n C K → t ≠ u →
  sched_rep M0 (t :: u :: l) C K → task_ok K t self (set_rip (rg M0) ra) → X !! u = Some c' →
  ∃ M', switch_to_next M0 ra = Ok M' ∧ current (sc M') = u ∧
    ∀ k0 ct, k_world k0 = w → k_log k0 = k_log k →
    ∃ k' T', scheduled polls y ra ra_trampoline (put_machine k0 M') (c_tasks x) t self ct = Ok (T', k', c') ∧
      ∀ ticks cc, task_code self (set_rip (rg M0) ra) = Some cc →
        lives (mk_config T' ticks (Running k') c') w (u :: l ++ [t]) (<[t := cc]> X) out.
Proof.
  intros Hal Htu Hrep Hself Hu. pose proof (sr_ring _ _ _ _ Hrep) as [Hh [Hnd _]]. injection Hh as Hcur.
  apply NoDup_cons in Hnd as [Ht Hnd]. apply NoDup_cons in Hnd as [Hul _].
  destruct (switch_to_next_spec M0 _ C K ra Hrep Hra) as (M' & Hsw & Hz & _ & Hhead & _ & Hcase). exists M'. split; [exact Hsw|].
  cbn in Hhead. injection Hhead as Hcu. split; [done|]. rewrite <-Hcur in Hcase.
  destruct Hcase as [(Hl & _)|(Hne & (g & Hg & Hsame) & Hrep')]; [done|]. rewrite <-Hcu in Hg.
  destruct (al_tasks _ _ _ _ _ _ _ _ _ Hal u) as (g' & Hg' & Hok & Hcode); [left|]. rewrite Hg in Hg'. injection Hg' as <-.
  rewrite Hu in Hcode. intros k0 ct Hw0 Hl0.
  assert (HT : <[t := self]> (c_tasks x) !! current (sc M') = c_tasks x !! u) by (rewrite <-Hcu; by apply lookup_insert_ne).
  destruct (resume_spec k0 M' (<[t := self]> (c_tasks x)) _ _ K g (default Fresh (c_tasks x !! u)) c' Hrep' Hsame)
    as (M2 & Hres & Hsc & Hrep2 & Huser); [by rewrite HT | by rewrite <-Hcu | done |].
  exists (put_machine k0 M2), (<[t := self]> (c_tasks x)). split.
  { unfold scheduled. cbn [put_machine k_machine]. rewrite (proj2 (Z.eqb_neq _ _)) by done. rewrite Hres. reflexivity. }
  intros ticks cc Hcc. eexists _, _, K. constructor; cbn [c_state c_code c_tasks]; [reflexivity | exact Hw0 | exact Hrep2 | | | exact Huser
    | apply (al_stacks _ _ _ _ _ _ _ _ _ Hal) | cbn [put_machine k_log]; rewrite Hl0; apply Hal].
  - intros v Hv. cbn [tail] in Hv. destruct (decide (v = t)) as [->|Hvt].
    + rewrite !lookup_insert_eq. eexists. by split_and!.
    + rewrite !lookup_insert_ne by done. apply (al_tasks _ _ _ _ _ _ _ _ _ Hal). cbn [tail].
      apply elem_of_app in Hv as [Hv|Hv%list_elem_of_singleton]; [by right | done].
  - cbn [put_machine k_machine]. by rewrite Hsc.
Qed.

(** A thread of the kernel yields. *)
Lemma yield_alive x w t u l X out p h c' :
  lives x w (t :: u :: l) X out → t ≠ u → c_code x = Kernel p → observe p = VisF Yield h → X !! u = Some c' →
  ∃ x', moves polls y ra ra_trampoline depth ug x x' ∧ lives x' w (u :: l ++ [t]) (<[t := Kernel (h tt)]> X) out ∧ c_code x' = c'.
Proof.
  intros (k & C & K & Hal) Htu Hc Ho Hu. destruct x as [T ticks s c]. cbn [c_code] in Hc. subst c.
  pose proof (al_state _ _ _ _ _ _ _ _ _ Hal) as Hs. cbn [c_state] in Hs. subst s.
  destruct (scheduled_alive _ _ _ _ _ _ _ _ _ _ (k_machine k) (Yielded (h tt)) c' 0 Hal Htu (al_rep _ _ _ _ _ _ _ _ _ Hal)) as (M' & Hsw & _ & Hgo);
    [done | done |].
  destruct (Hgo k (Kernel (h tt)) (al_world _ _ _ _ _ _ _ _ _ Hal) eq_refl) as (k' & T' & Hsch & Hlive).
  pose proof (sr_ring _ _ _ _ (al_rep _ _ _ _ _ _ _ _ _ Hal)) as [Hh _]. injection Hh as Hcur. cbn [seen c_code] in Hcur.
  exists (mk_config T' ticks (Running k') c'). split; [|by split; [apply Hlive|]].
  eapply moves_yield; [exact Ho|]. unfold yield, sched_yield. rewrite Hsw. cbn [mbind res_bind]. rewrite <-Hcur. exact Hsch.
Qed.

(** A line of the log. *)
Lemma log_alive x w l X out p h level fmt args str_at ds o ls :
  lives x w l X out → c_code x = Kernel p →
  observe p = VisF (Do (λ s, s ← call_log polls y level fmt args s; Ok (tt, s))) h →
  literals ls (y_rodata y) (t_mem (l_tty st0)) (tty_bytes (l_tty st0)) → fmt ∈ ls →
  (∀ a s, str_at a = Some s → a = y_rodata y s ∧ s ∈ ls ∧ Z.of_nat (length s) ≤ INT_MAX) →
  parse_format fmt = Some ds → render str_at ds args = Some o →
  level_number level <? level_number (min_level st0) = false →
  ∃ x', moves polls y ra ra_trampoline depth ug x x' ∧ lives x' w l X (out ++ [log_piece level o]) ∧ c_code x' = Kernel (h tt).
Proof.
  intros (k & C & K & [Hs Hw Hrep Htk Hsl Hus Hst Hlg]) Hc Ho Hls Hin Hstr Hp Hr Hlev. destruct x as [T ticks s c].
  cbn [c_code c_state c_tasks] in *. subst c s.
  destruct (log_logged_at polls Hpolls (y_rodata y) ls st0 scr out (k_log k) level fmt args str_at ds o Hlg Hls Hin Hstr Hp Hr Hlev)
    as (st & Hwr & Hlg').
  exists (mk_config T ticks (Running (put_klog k st)) (Kernel (h tt))). split; [|split; [|done]].
  - apply (moves_do _ _ _ _ _ _ _ _ _ _ _ _ _ _ Ho). unfold call_log. cbn [get_log]. rewrite Hwr. reflexivity.
  - exists (put_klog k st), C, K. by constructor.
Qed.

(** A tick during the ring 3 program, which it is counted in or which it ends
    the slice of. *)
Definition in_handler k : machine :=
  let M := k_machine k in
  mk_machine (mm M) (sc M) (set_rsp (set_rf (rg M) (Z.clearbit (rf (rg M)) IF_BIT)) (boot_top 0 - depth)).

Lemma in_handler_rep x k w l X out n C K ip ax :
  alive x k w l X out n C K → c_code x = User ip ax → sched_rep (in_handler k) l C K.
Proof.
  intros [_ _ Hrep _ _ _ _ _] Hc. rewrite Hc in Hrep. cbn [seen] in Hrep.
  eapply (run_rep _ _ _ _ (mm (k_machine k)) (rg (in_handler k)) Hrep); cbn [mm sc rg]; [reflexivity | | exact (sr_rsp _ _ _ _ Hrep)].
  exact (sr_regs _ _ _ _ Hrep).
Qed.

Lemma tick_dispatch k w T ticks ip ax :
  k_world k = w → w_handlers w !! TIMER_VECTOR = Some h_timer_tick_handler → load64 (w_mem w) (y_tss y + tss_rsp0) = Ok (boot_top 0) →
  tick polls y ra ra_trampoline depth k T ticks (User ip ax) =
    (M' ← sched_tick (in_handler k) ra;
     let k' := put_lapic (put_machine k M') (lapic_send_eoi (k_lapic_base k) (k_lapic k)) in
     if current (sc M') =? current (sc (k_machine k))
     then Ok (T, u64 (ticks + 1), put_machine k' (mk_machine (mm M') (sc M') (rg (k_machine k))), User ip ax)
     else '(T, k, c) ← scheduled polls y ra ra_trampoline k' T (current (sc (k_machine k))) (Interrupted (User ip ax) (rg (k_machine k))) (User ip ax);
          Ok (T, u64 (ticks + 1), k, c)).
Proof.
  intros <- Hh Hs. unfold tick. rewrite Hs. cbn [mbind res_bind]. unfold isr_dispatch. cbn [timer_frame Frame.vector].
  change (negb (TIMER_VECTOR <? 256)) with false. change (TIMER_VECTOR <? 32) with false. cbv iota. rewrite Hh.
  cbn [eoi_timer mbind res_bind run_timer]. unfold timer_tick_handler. fold (in_handler k).
  by destruct (sched_tick (in_handler k) ra).
Qed.

Section user.
Context (w : world pmm) (Htimer : w_handlers w !! TIMER_VECTOR = Some h_timer_tick_handler)
  (Hrsp0 : load64 (w_mem w) (y_tss y + tss_rsp0) = Ok (boot_top 0)).

Lemma user_tick x k l X out n C K ip ax :
  alive x k w l X out n C K → c_code x = User ip ax → decode w ip = Ok (Jump ip) → 0 ≤ n < SCHED_TIME_SLICE_TICKS - 1 →
  ∃ x' k', moves polls y ra ra_trampoline depth ug x x' ∧ alive x' k' w l X out (n + 1) C K ∧ c_code x' = User ip ax.
Proof.
  intros Hal Hc Hd Hn. pose proof (in_handler_rep _ _ _ _ _ _ _ _ _ _ _ Hal Hc) as Hrep.
  destruct x as [T ticks s c]. cbn [c_code] in Hc. subst c. destruct Hal as [Hs Hw Hseen Htk Hsl [Hif Hus] Hst Hlg].
  cbn [c_state c_code c_tasks] in *. subst s.
  destruct (sched_tick_spec (in_handler k) l C K ra Hrep Hra) as (M' & Ht & Hm);
    [cbn [in_handler sc]; rewrite Hsl; unfold SCHED_TIME_SLICE_TICKS in *; lia|].
  cbn [in_handler sc] in Hm. rewrite Hsl, (proj2 (Z.eqb_neq _ _)) in Hm by lia. subst M'.
  eexists (mk_config T _ (Running _) _), _. split; [|split; [|reflexivity]].
  - unfold moves, step. cbn [c_code]. unfold user_step. cbn [running mbind res_bind]. rewrite Hw, Hd. cbn [mbind res_bind flags].
    rewrite Hif, (tick_dispatch k w) by done. rewrite Ht. cbn [mbind res_bind with_ticks in_handler sc current]. rewrite Z.eqb_refl. reflexivity.
  - constructor; cbn [c_state c_code c_tasks put_machine put_lapic k_world k_machine k_log]; try done.
    + apply (with_ticks_rep _ _ _ _ (n + 1)) in Hseen. exact Hseen.
Qed.

(** From a fresh slice to the switch. *)
Lemma user_slice x k l X out n C K ip ax :
  alive x k w l X out n C K → c_code x = User ip ax → decode w ip = Ok (Jump ip) → 0 ≤ n ≤ SCHED_TIME_SLICE_TICKS - 1 →
  ∃ x' k', rtc (moves polls y ra ra_trampoline depth ug) x x' ∧ alive x' k' w l X out (SCHED_TIME_SLICE_TICKS - 1) C K ∧ c_code x' = User ip ax.
Proof.
  intros Hal Hc Hd Hn. remember (Z.to_nat (SCHED_TIME_SLICE_TICKS - 1 - n)) as j eqn:Hj. revert x k n Hal Hc Hn Hj.
  induction j as [|j IH]; intros x k n Hal Hc Hn Hj.
  - replace n with (SCHED_TIME_SLICE_TICKS - 1) in Hal by lia. exists x, k. by split_and!.
  - destruct (user_tick x k l X out n C K ip ax Hal Hc Hd) as (x1 & k1 & Hm & Hal1 & Hc1); [lia|].
    destruct (IH x1 k1 (n + 1) Hal1 Hc1) as (x2 & k2 & Hm2 & Hal2 & Hc2); [lia | lia |].
    exists x2, k2. split_and!; [by eapply rtc_l | done | done].
Qed.

(** The ring 3 program jumps on the spot until its slice is over. *)
Lemma user_alive x t u l X out ip ax c' :
  lives x w (t :: u :: l) X out → t ≠ u → c_code x = User ip ax → decode w ip = Ok (Jump ip) → X !! u = Some c' →
  ∃ x', rtc (moves polls y ra ra_trampoline depth ug) x x' ∧ lives x' w (u :: l ++ [t]) (<[t := User ip ax]> X) out ∧ c_code x' = c'.
Proof.
  intros (k0 & C & K & Hal0) Htu Hc0 Hd Hu.
  destruct (user_slice x k0 _ X out 0 C K ip ax Hal0 Hc0 Hd) as (x1 & k & Hm1 & Hal & Hc); [unfold SCHED_TIME_SLICE_TICKS; lia|].
  pose proof (in_handler_rep _ _ _ _ _ _ _ _ _ _ _ Hal Hc) as Hrep. destruct x1 as [T ticks s c]. cbn [c_code] in Hc. subst c.
  pose proof Hal as [Hs Hw Hseen _ Hsl [Hif Hus] _ _]. cbn [c_state c_code c_tasks] in Hs, Hseen. subst s.
  pose proof (sr_ring _ _ _ _ Hseen) as [Hh _]. injection Hh as Hcur. cbn [seen sc] in Hcur.
  destruct (scheduled_alive _ _ _ _ _ _ _ _ _ _ (with_ticks (in_handler k) SCHED_TIME_SLICE_TICKS) (Interrupted (User ip ax) (rg (k_machine k))) c'
    _ Hal Htu (with_ticks_rep _ _ _ _ _ Hrep)) as (M' & Hsw & Hcu & Hgo); [| done |].
  { split; [done|]. split; [exact (sr_regs _ _ _ _ Hseen)|]. split; [done|]. by rewrite Hcur. }
  destruct (Hgo (put_lapic k (lapic_send_eoi (k_lapic_base k) (k_lapic k))) (User ip ax) Hw eq_refl) as (k' & T' & Hsch & Hlive).
  exists (mk_config T' (u64 (ticks + 1)) (Running k') c'). split; [|by split; [apply Hlive|]].
  eapply rtc_r; [exact Hm1|].
  unfold moves, step. cbn [c_code]. unfold user_step. cbn [running mbind res_bind]. rewrite Hw, Hd. cbn [mbind res_bind flags].
  rewrite Hif, (tick_dispatch k w) by done. unfold sched_tick. cbn [in_handler sc ticks_since_switch]. rewrite Hsl.
  change (SCHED_TIME_SLICE_TICKS <=? u64 (SCHED_TIME_SLICE_TICKS - 1 + 1)) with true. cbv iota.
  match goal with |- context [switch_to_next ?M0 ra] => change M0 with (with_ticks (in_handler k) SCHED_TIME_SLICE_TICKS) end.
  rewrite Hsw. cbn [mbind res_bind]. rewrite Hcu, <-Hcur, (proj2 (Z.eqb_neq _ _)) by done.
  change (put_lapic (put_machine k M') ?e) with (put_machine (put_lapic k e) M'). cbn [c_tasks] in Hsch. rewrite Hsch. reflexivity.
Qed.
End user.

(** The ring 3 program, as the processor reads it. *)
Lemma program_decodes w :
  program_ready w → decode w USER_CODE_VADDR = Ok Syscall ∧ decode w (USER_CODE_VADDR + 2) = Ok (Jump (USER_CODE_VADDR + 2)).
Proof.
  intros (f & g & _ & Hm & _ & Hb & _ & _ & _).
  assert (Hf : ∀ j b, [0x0f; 0x05; 0xeb; 0xfe] !! j = Some b → user_fetch w (USER_CODE_VADDR + Z.of_nat j) = Ok b).
  { intros j b Hj. pose proof (lookup_lt_Some _ _ _ Hj) as Hlt. cbn [length] in Hlt.
    destruct (mapped_as_page w USER_CODE_VADDR (USER_CODE_VADDR + Z.of_nat j) f true true false) as (es & Hes & Hla & Hu & _ & Hx);
      [apply indices_inj; unfold USER_CODE_VADDR; f_equal; dlia | exact Hm |].
    unfold user_fetch. rewrite Hes. cbn [deref mbind res_bind]. rewrite Hu, Hx, Hla. cbn [andb negb].
    replace ((USER_CODE_VADDR + Z.of_nat j) mod PAGE_SIZE) with (Z.of_nat j) by (unfold USER_CODE_VADDR, PAGE_SIZE; dlia).
    unfold load8. rewrite Z.add_assoc. by rewrite (Hb j b Hj). }
  unfold decode. pose proof (Hf 0%nat _ eq_refl) as H0'. pose proof (Hf 1%nat _ eq_refl) as H1'. pose proof (Hf 2%nat _ eq_refl) as H2'.
  pose proof (Hf 3%nat _ eq_refl) as H3'. 
  change (Z.of_nat 0) with 0 in H0'. change (Z.of_nat 1) with 1 in H1'. change (Z.of_nat 2) with 2 in H2'. change (Z.of_nat 3) with 3 in H3'.
  rewrite Z.add_0_r in H0'.
  rewrite H0', H1', H2'. cbn [mbind res_bind]. replace (USER_CODE_VADDR + 2 + 1) with (USER_CODE_VADDR + 3) by lia. rewrite H3'.
  cbn [mbind res_bind]. split; [done|]. done.
Qed.

End alive.
