(* ===== verification/SystemRun.v ===== *)
(** * A run of the whole machine (System.v)

    From the jump of the bootloader to [kernel_entry] to the last [hlt]: the
    kernel starts (Kmain.v), the boot thread, the ring 3 demonstration and the
    three demonstration threads take turns, and the machine waits for ever. *)

From ITree Require Import ITree.
From S2P Require Import Prelude Word Mem CString BootInfo FrameAlloc Pmm Paging Isr Vmm AddressSpace Demand Heap.
From S2P Require Import Stack Spinlock Sched Thread Printf Acpi Madt Font Console Io Serial Log Gdt Idt IsrStubs Ioapic Lapic Timer Syscall.
From S2P Require Import BootConsole BootDevices Main Kmain Entry System.
From Stdlib Require Import Ascii.

(** ** Lemmas: what the threads do when they run *)

Definition run_literals : list (list Z) := boot_literals ++ [fmt_demo; fmt_ring3; fmt_enosys].

(** ** Lemmas: the first slice *)

Lemma create_slice {A} `{FrameAllocator A} fl M (w : world A) tr entry arg t M' w' :
  thread_create fl M w tr entry arg = Ok (t, M', w') → ticks_since_switch (sc M') = ticks_since_switch (sc M).
Proof.
  unfold thread_create. intros H0. repeat through H0. case_match; [by injection H0 as _ <- _|].
  repeat through H0. case_match; repeat through H0; injection H0 as _ <- _; [done|]. by apply sched_add_slice in E3.
Qed.

Lemma create_threads_slice y fl M (w : world pmm) M' w' :
  create_threads y fl M w = Ok (M', w') → ticks_since_switch (sc M') = ticks_since_switch (sc M).
Proof.
  unfold create_threads. intros H0. repeat through H0. injection H0 as <- _.
  repeat match goal with HE : thread_create _ _ _ _ _ _ = _ |- _ => apply create_slice in HE end. congruence.
Qed.

Lemma kmain_slice {D E F G : Type} `{PortIO D} `{Mmio E} `{PortIO E} `{Mmio F} `{Msr G} {TR : Trap} polls fuel y r m mh cr3 rgs seg e f g (st : log D)
    (k : kernel D E F G) :
  kmain_start polls fuel y r m mh cr3 rgs seg e f g st = Ok k → ticks_since_switch (sc (k_machine k)) = 0.
Proof.
  unfold kmain_start. intros Hk. repeat through Hk. injection Hk as <-. cbn [k_machine].
  match goal with HE : create_threads _ _ _ _ = _ |- _ => apply create_threads_slice in HE; rewrite HE end. cbn [sc].
  match goal with HE : sched_init _ _ = _ |- _ => unfold sched_init in HE; repeat through HE; by injection HE as <- end.
Qed.

Lemma boot_thread_ne j j' : j ≠ j' → boot_thread j ≠ boot_thread j'.
Proof. unfold boot_thread, sizeof_thread, sizeof_block_header. lia. Qed.

#[local] Opaque boot_thread.

Section threads.
Context {D E F G : Type} `{Uart D} `{Mmio E} `{PortIO E} `{Mmio F} `{Msr G} {TR : Trap}.
Context (polls : nat) (y : symbols) (ra ra_trampoline depth : Z) (ug : gprs).
Context (Hpolls : (u_poll_bound < polls)%nat) (Hra : word64 ra) (Hrat : word64 ra_trampoline)
  (Hdepth : 0 ≤ depth ≤ SYSCALL_KERNEL_STACK_PAGES * PAGE_SIZE - 56).
Context (st0 : log D) (scr : term).
Abbreviation program := (itree (machE (phase D E F G)) Empty_set).
Abbreviation mcode := (code (D := D) (E := E) (F := F) (G := G)).
Implicit Types (k : kernel D E F G) (c : mcode) (X : gmap Z mcode) (x : config (D := D) (E := E) (F := F) (G := G)).
Abbreviation moves := (moves polls y ra ra_trampoline depth ug).
Abbreviation lives := (lives polls y ra depth st0 scr).
Abbreviation log_alive := (log_alive polls y ra ra_trampoline depth ug Hpolls st0 scr).
Abbreviation yield_alive := (yield_alive polls y ra ra_trampoline depth ug Hpolls Hra Hrat Hdepth st0 scr).
Abbreviation user_alive := (user_alive polls y ra ra_trampoline depth ug Hpolls Hra Hrat Hdepth st0 scr).
Abbreviation demo_at := (demo_at polls y (D := D) (E := E) (F := F) (G := G)).

(** ** Lemmas: the way to ring 3 *)

Section ring3.
Context (w : world pmm) (Hrsp0 : load64 (w_mem w) (y_tss y + tss_rsp0) = Ok (boot_top 0)).

(** The program is put in place: only the world changes. *)
Lemma setup_alive x w0 l X out p h :
  lives x w0 l X out → c_code x = Kernel p → observe p = VisF (Do call_ring3_setup) h → ring3_demo_setup w0 = Ok (true, w) →
  ∃ x', moves x x' ∧ lives x' w l X out ∧ c_code x' = Kernel (h true).
Proof.
  intros (k & C & K & [Hs Hw Hrep Htk Hsl Hus Hst Hlg]) Hc Ho Hset. destruct x as [T ticks s c].
  cbn [c_code c_state c_tasks] in *. subst c s.
  assert (Hcall : ∃ k', call_ring3_setup (Running k) = Ok (true, Running k') ∧ k_log k' = k_log k ∧ k_machine k' = k_machine k ∧ k_world k' = w)
    by (unfold call_ring3_setup; rewrite Hw, Hset; by eexists).
  destruct Hcall as (k' & Hcall & H1' & H2' & H3'). exists (mk_config T ticks (Running k') (Kernel (h true))). split; [|split].
  - exact (moves_do _ _ _ _ _ _ _ _ _ _ _ _ _ _ Ho Hcall).
  - exists k', C, K. unfold user_ok, seen in *. rewrite <-H1' in Hlg. rewrite <-H2' in Hrep, Hsl. constructor; cbn [c_state c_code c_tasks]; [reflexivity | exact H3' | exact Hrep | exact Htk | exact Hsl
      | exact I | exact Hst | exact Hlg].
  - reflexivity.
Qed.

(** The jump: from here on interrupts find the stack in the TSS. *)
Lemma enter_alive x t l X out p h entry us :
  lives x w (t :: l) X out → t = boot_thread 3 → c_code x = Kernel p → observe p = VisF (Ring3 entry us) h → word64 entry → word64 us →
  ∃ x', moves x x' ∧ lives x' w (t :: l) X out ∧ c_code x' = User entry (g_rax (ring3_gprs ug)).
Proof.
  intros (k & C & K & [Hs Hw Hrep Htk Hsl Hus Hst Hlg]) Ht Hc Ho Hen Hus0. destruct x as [T ticks s c].
  cbn [c_code c_state c_tasks seen] in *. subst c s. cbn [seen] in Hrep.
  pose proof (sr_ring _ _ _ _ Hrep) as [Hh [Hnd _]]. injection Hh as Hcur. apply NoDup_cons in Hnd as [Htl _].
  set (g := set_rsp (set_rf (rg (k_machine k)) 0x202) (boot_top 0 - depth)).
  assert (Htop : boot_top 0 = boot_stack 0 + SYSCALL_KERNEL_STACK_PAGES * PAGE_SIZE) by reflexivity. 
  assert (Hfar : ∀ u lo' hi', u ≠ current (sc (k_machine k)) → K !! u = Some (lo', hi') → hi' ≤ boot_stack 0 ∨ boot_top 0 ≤ lo').
  { intros u lo' hi' Hu HK. destruct (Hst u lo' hi' HK) as [(-> & _)|]; [by rewrite <-Hcur, Ht in Hu | done]. }
  pose proof (sched_rep_new_stack (k_machine k) (t :: l) C K (boot_stack 0) (boot_top 0) g Hrep ltac:(by vm_compute) ltac:(by vm_compute)
    Hfar (sr_regs _ _ _ _ Hrep) ltac:(cbn [g set_rsp Sched.rsp]; lia)) as Hrep'. rewrite <-Hcur in Hrep'.
  destruct (sr_rsp _ _ _ _ Hrep) as (lo & hi & HK & Hsp). rewrite <-Hcur in HK.
  destruct (sr_stack _ _ _ _ Hrep t ltac:(left)) as (lo1 & hi1 & HK1 & Hlo & Hhi & Hmap). rewrite HK in HK1. injection HK1 as <- <-.
  eexists. split; [|split].
  - unfold System.moves, step. cbn [c_code]. unfold kernel_step. rewrite Ho. cbn [running mbind res_bind]. unfold enter_ring3.
    rewrite jump_to_ring3_spec by (done || lia || (eapply mapped_sub; [exact Hmap | lia | lia])). cbn [mbind res_bind].
    rewrite Hw, Hrsp0. cbn [mbind res_bind]. reflexivity.
  - eexists _, C, (<[t := (boot_stack 0, boot_top 0)]> K). constructor; cbn [c_state c_code c_tasks put_seg put_machine k_machine k_log k_world seen mm sc rg].
    + reflexivity.
    + exact Hw.
    + exact Hrep'.
    + intros u Hu. cbn [tail] in Hu. assert (Hut : t ≠ u) by (intros ->; done). destruct (Htk u Hu) as (g0 & Hg & Hok & Hcode).
      exists g0. split_and!; [done | | done]. unfold task_ok in *. by rewrite lookup_insert_ne.
    + exact Hsl.
    + cbn [user_ok put_seg put_machine k_machine rg sc set_rf rf]. split; [by vm_compute|]. by rewrite <-Hcur, lookup_insert_eq.
    + intros u lo' hi'. rewrite lookup_insert_Some. intros [[<- [= <- <-]]|[_ HKu]]; [by left | by apply (Hst u)].
    + exact Hlg.
  - reflexivity.
Qed.
End ring3.

Context (ls : list (list Z)) (Hls : literals ls (y_rodata y) (t_mem (l_tty st0)) (tty_bytes (l_tty st0)))
  (Hlit : run_literals ⊆ ls) (Hlev : level_number LOG_LEVEL_INFO <? level_number (min_level st0) = false).

(** [p] is about to be [q]. *)
Definition becomes (p q : program) : Prop := observe p = observe q ∨ observe p = TauF q.

Lemma becomes_moves x w l X out p q :
  lives x w l X out → c_code x = Kernel p → becomes p q →
  ∃ x' q', rtc moves x x' ∧ lives x' w l X out ∧ c_code x' = Kernel q' ∧ observe q' = observe q.
Proof.
  intros Hl Hc [Ho|Ho]; [by exists x, p|]. destruct x as [T ticks s c]. cbn [c_code] in Hc. subst c.
  exists (mk_config T ticks s (Kernel q)), q. split; [apply rtc_once; by apply moves_tau|]. split; [|done].
  destruct Hl as (k & C & K & [? ? ? ? ? ? ? ?]). exists k, C, K. by constructor.
Qed.

(** A line without string arguments. *)
Lemma say_alive x w l X out p h level fmt args :
  lives x w l X out → c_code x = Kernel p → observe p = VisF (Do (λ s, s ← call_log polls y level fmt args s; Ok (tt, s))) h →
  fmt ∈ ls → numeric_format fmt (length args) = true → level_number level <? level_number (min_level st0) = false →
  ∃ x', moves x x' ∧ lives x' w l X (out ++ [log_piece level (text no_strings fmt args)]) ∧
    c_code x' = Kernel (h tt).
Proof.
  intros Hl Hc Ho Hin Hn Hlv. destruct (numeric_format_text fmt args no_strings Hn) as (ds & Hp & Hr).
  apply (log_alive x w l X out p h level fmt args no_strings ds _ ls Hl Hc Ho Hls Hin); [discriminate | done..].
Qed.

(** A demonstration thread: one line, one yield. *)
Lemma demo_turn x w t u l X out nm i p c' :
  lives x w (t :: u :: l) X out → t ≠ u → c_code x = Kernel p → becomes p (demo_at (y_rodata y nm) i) →
  0 ≤ i < DEMO_THREAD_ITERATIONS → nm ∈ ls → Z.of_nat (length nm) ≤ INT_MAX → X !! u = Some c' →
  ∃ x' p', rtc moves x x' ∧
    lives x' w (u :: l ++ [t]) (<[t := Kernel p']> X) (out ++ [log_piece LOG_LEVEL_INFO (demo_line nm i)]) ∧ c_code x' = c' ∧
    becomes p' (demo_at (y_rodata y nm) (i + 1)).
Proof.
  intros Hl Htu Hc Hp Hi Hnm Hlen Hu. destruct (becomes_moves _ _ _ _ _ _ _ Hl Hc Hp) as (x1 & q & M1 & L1 & C1 & Ho).
  destruct (demo_step (D := D) (E := E) (F := F) (G := G) polls y (y_rodata y nm) i) as (h & h' & O1 & O2 & O3); [lia|]. rewrite O1 in Ho.
  destruct (Hls nm Hnm) as (Hptr & _). unfold DEMO_THREAD_ITERATIONS in Hi.
  destruct (demo_render polls Hpolls nm (y_rodata y nm) i ltac:(lia) Hptr) as (ds & Hd & Hr).
  destruct (log_alive _ _ _ _ _ _ _ LOG_LEVEL_INFO fmt_demo _ (λ a, if a =? y_rodata y nm then Some nm else None) ds (demo_line nm i) ls L1 C1 Ho Hls)
    as (x2 & M2 & L2 & C2); [apply Hlit, elem_of_app; right; left | | exact Hd | exact Hr | exact Hlev |].
  { intros a s. destruct (Z.eqb_spec a (y_rodata y nm)) as [->|]; [|done]. by intros [= <-]. }
  destruct (yield_alive _ _ _ _ _ _ _ _ _ _ L2 Htu C2 O2 Hu) as (x3 & M3 & L3 & C3).
  exists x3, (h' tt). split; [|split; [exact L3 | split; [exact C3 | by right]]].
  etransitivity; [exact M1|]. eapply rtc_l; [exact M2|]. by apply rtc_once.
Qed.

(** The boot thread: one yield. *)
Lemma boot_turn x w t u l X out i p c' :
  lives x w (t :: u :: l) X out → t ≠ u → c_code x = Kernel p → becomes p (boot_at i) → i < DEMO_THREAD_ITERATIONS → X !! u = Some c' →
  ∃ x' p', rtc moves x x' ∧ lives x' w (u :: l ++ [t]) (<[t := Kernel p']> X) out ∧ c_code x' = c' ∧
    becomes p' (boot_at (i + 1)).
Proof.
  intros Hl Htu Hc Hp Hi Hu. destruct (becomes_moves _ _ _ _ _ _ _ Hl Hc Hp) as (x1 & q & M1 & L1 & C1 & Ho).
  destruct (boot_step (D := D) (E := E) (F := F) (G := G) i Hi) as (h & O1 & O2). rewrite O1 in Ho.
  destruct (yield_alive _ _ _ _ _ _ _ _ _ _ L1 Htu C1 Ho Hu) as (x2 & M2 & L2 & C2).
  exists x2, (h tt). split; [|split; [exact L2 | split; [exact C2 | by right]]].
  etransitivity; [exact M1|]. by apply rtc_once.
Qed.

(** A system call of the ring 3 program: there is none. *)
Lemma syscall_alive x w l X out ip ax :
  lives x w l X out → c_code x = User ip ax → decode w ip = Ok Syscall →
  ∃ x', moves x x' ∧ lives x' w l X (out ++ [log_piece LOG_LEVEL_WARN (text no_strings fmt_enosys [ax])]) ∧
    c_code x' = User (ip + 2) (u64 (- ENOSYS)).
Proof using Hpolls Hls Hlit Hlev.
  intros (k & C & K & [Hs Hw Hrep Htk Hsl Hus Hst Hlg]) Hc Hd. destruct x as [T ticks s c].
  cbn [c_code c_state c_tasks] in *. subst c s.
  destruct (log_logged polls Hpolls (y_rodata y) ls st0 scr out (k_log k) LOG_LEVEL_WARN fmt_enosys [ax] Hlg Hls) as (st & Hwr & Hlg');
    [apply Hlit, elem_of_app; right; right; right; left | by vm_compute | |].
  { apply Z.ltb_ge. apply Z.ltb_ge in Hlev. cbn [level_number] in *. lia. }
  exists (mk_config T ticks (Running (put_klog k st)) (User (ip + 2) (u64 (- ENOSYS)))). split; [|split; [|done]].
  - unfold System.moves, step. cbn [c_code]. unfold user_step. cbn [running mbind res_bind]. rewrite Hw, Hd. cbn [mbind res_bind].
    unfold syscall_dispatch. rewrite Hwr. reflexivity.
  - exists (put_klog k st), C, K. by constructor.
Qed.

(** The ring 3 thread, up to the jump on which its program stays. *)
Lemma ring3_alive x w0 w t l X out p :
  lives x w0 (t :: l) X out → t = boot_thread 3 → c_code x = Kernel p → observe p = observe (ring3_demo_thread polls y : program) →
  ring3_demo_setup w0 = Ok (true, w) → load64 (w_mem w) (y_tss y + tss_rsp0) = Ok (boot_top 0) → decode w USER_CODE_VADDR = Ok Syscall →
  ∃ x', rtc moves x x' ∧
    lives x' w (t :: l) X (out ++ [log_piece LOG_LEVEL_INFO (text no_strings fmt_ring3 [USER_CODE_VADDR]);
      log_piece LOG_LEVEL_WARN (text no_strings fmt_enosys [g_rax (ring3_gprs ug)])]) ∧
    c_code x' = User (USER_CODE_VADDR + 2) (u64 (- ENOSYS)).
Proof using Hpolls Hls Hlit Hlev Hdepth.
  intros Hl Ht Hc Hp Hset Hrsp Hd.
  destruct (ring3_step (D := D) (E := E) (F := F) (G := G) polls y) as (h & h' & h'' & O1 & O2 & O3). rewrite O1 in Hp.
  destruct (setup_alive w x w0 _ X out p h Hl Hc Hp Hset) as (x1 & M1 & L1 & C1).
  destruct (say_alive _ _ _ _ _ _ _ LOG_LEVEL_INFO fmt_ring3 _ L1 C1 O2) as (x2 & M2 & L2 & C2);
    [apply Hlit, elem_of_app; right; right; left | by vm_compute | exact Hlev |].
  destruct (enter_alive w Hrsp x2 t l X _ _ _ _ _ L2 Ht C2 O3 ltac:(done) ltac:(done)) as (x3 & M3 & L3 & C3).
  destruct (syscall_alive _ _ _ _ _ _ _ L3 C3 Hd) as (x4 & M4 & L4 & C4).
  exists x4. split; [|split; [by rewrite <-app_assoc in L4 | exact C4]].
  eapply rtc_l; [exact M1|]. eapply rtc_l; [exact M2|]. eapply rtc_l; [exact M3|]. by apply rtc_once.
Qed.

(** ** Lemmas: the turns of one round *)

Definition demo_names : list (list Z) := [lit "A"; lit "B"; lit "C"].

(** The demonstration threads are before their line [i]. *)
Definition demo_waits (X : gmap Z mcode) (j : nat) (nm : list Z) (i : Z) : Prop :=
  ∃ q, X !! boot_thread j = Some (Kernel q) ∧ becomes q (demo_at (y_rodata y nm) i).
Definition demos (X : gmap Z mcode) (i : Z) : Prop := ∀ j nm, demo_names !! j = Some nm → demo_waits X j nm i.

Definition round_lines (i : Z) : list (Z * list Z) :=
  (λ nm, log_piece LOG_LEVEL_INFO (demo_line nm i)) <$> [lit "C"; lit "B"; lit "A"].

(** The thread [j] says its line and goes to the end of the ring. *)
Lemma demo_next_turn x w u l X out i j nm c' :
  lives x w (boot_thread j :: u :: l) X out → boot_thread j ≠ u → X !! boot_thread j = Some (c_code x) → demo_waits X j nm i →
  demo_names !! j = Some nm → 0 ≤ i < DEMO_THREAD_ITERATIONS → X !! u = Some c' →
  ∃ x' X', rtc moves x x' ∧ lives x' w (u :: l ++ [boot_thread j]) X' (out ++ [log_piece LOG_LEVEL_INFO (demo_line nm i)]) ∧
    c_code x' = c' ∧ demo_waits X' j nm (i + 1) ∧ ∀ z, boot_thread j ≠ z → X' !! z = X !! z.
Proof using Hpolls Hra Hrat Hdepth Hls Hlit Hlev.
  intros Hl Hne Hc (p & Hp & Hbp) Hj Hi Hu. rewrite Hp in Hc. injection Hc as Hc.
  assert (Hall : Forall (λ l, l ∈ run_literals ∧ Z.of_nat (length l) ≤ INT_MAX) demo_names)
    by (apply (bool_decide_unpack _); vm_compute; exact I).
  apply list_elem_of_lookup_2 in Hj. destruct (proj1 (Forall_forall _ _) Hall nm Hj) as [Hin Hlen].
  destruct (demo_turn x w (boot_thread j) u l X out nm i p c' Hl Hne (eq_sym Hc) Hbp Hi (Hlit _ Hin) Hlen Hu) as (x' & q & M & L & C & Q).
  exists x', (<[boot_thread j := Kernel q]> X). split_and!; [exact M | exact L | exact C | |].
  - exists q. by rewrite lookup_insert_eq.
  - intros z Hz. by apply lookup_insert_ne.
Qed.

Lemma demo_waits_other X X' j j' nm i :
  (∀ z, boot_thread j ≠ z → X' !! z = X !! z) → j ≠ j' → demo_waits X j' nm i → demo_waits X' j' nm i.
Proof. intros HX Hj (q & Hq & Hb). exists q. by rewrite HX by by apply boot_thread_ne. Qed.

(** The three of them, in the ring's order. *)
Lemma demo_turns x w X out i c' :
  let t := boot_thread in let b := y_bootstrap_thread y in
  lives x w [t 2%nat; t 1%nat; t 0%nat; b; t 3%nat] X out → X !! t 2%nat = Some (c_code x) → demos X i →
  0 ≤ i < DEMO_THREAD_ITERATIONS → X !! b = Some c' → (∀ j, (j < 4)%nat → t j ≠ b) →
  ∃ x' X', rtc moves x x' ∧ lives x' w (boot_ring y) X' (out ++ round_lines i) ∧ c_code x' = c' ∧ demos X' (i + 1) ∧
    X' !! t 3%nat = X !! t 3%nat.
Proof using Hpolls Hra Hrat Hdepth Hls Hlit Hlev.
  intros t b Hl Hc Hd Hi Hb Hnb. pose proof (Hd 2%nat _ eq_refl) as W2. pose proof (Hd 1%nat _ eq_refl) as W1. pose proof (Hd 0%nat _ eq_refl) as W0.
  destruct W1 as (q1 & Hq1 & Hw1). destruct W0 as (q0 & Hq0 & Hw0).
  destruct (demo_next_turn x w _ _ X out i 2 _ _ Hl (boot_thread_ne 2 1 ltac:(done)) Hc W2 eq_refl Hi Hq1)
    as (x1 & X1 & M1 & L1 & C1 & V2 & K1). cbn [app] in L1.
  destruct (demo_next_turn x1 w _ _ X1 _ i 1 (lit "B") (Kernel q0) L1 (boot_thread_ne 1 0 ltac:(done)))
    as (x2 & X2 & M2 & L2 & C2 & V1 & K2); [rewrite C1, K1 by (apply boot_thread_ne; lia); exact Hq1
      | apply (demo_waits_other X X1 2 1 _ _ K1); [lia | exact (ex_intro _ q1 (conj Hq1 Hw1))]
      | reflexivity | exact Hi | rewrite K1 by (apply boot_thread_ne; lia); exact Hq0 |]. cbn [app] in L2.
  destruct (demo_next_turn x2 w _ _ X2 _ i 0 (lit "A") c' L2 (Hnb 0%nat ltac:(lia)))
    as (x3 & X3 & M3 & L3 & C3 & V0 & K3); [rewrite C2, K2, K1 by (apply boot_thread_ne; lia); exact Hq0
      | apply (demo_waits_other X1 X2 1 0 _ _ K2); [lia|]; apply (demo_waits_other X X1 2 0 _ _ K1); [lia | exact (ex_intro _ q0 (conj Hq0 Hw0))]
      | reflexivity | exact Hi | rewrite K2, K1 by (apply Hnb; lia); exact Hb |]. cbn [app] in L3.
  exists x3, X3. split; [by etransitivity; [exact M1|]; etransitivity|]. rewrite <-!app_assoc in L3. split; [exact L3|]. split; [exact C3|]. split.
  - intros [|[|[|j]]] nm Hj; try discriminate Hj; injection Hj as <-.
    + exact V0.
    + apply (demo_waits_other X2 X3 0 1 _ _ K3); [lia | exact V1].
    + apply (demo_waits_other X2 X3 0 2 _ _ K3); [lia|]. apply (demo_waits_other X1 X2 1 2 _ _ K2); [lia | exact V2].
  - rewrite K3, K2, K1 by (apply boot_thread_ne; lia). done.
Qed.

(** A round: the boot thread yields, the ring 3 thread goes on until a tick, and
    the demonstration threads say their lines. [o] is what the ring 3 thread
    prints before it jumps on the spot. *)
Lemma round_alive x w0 w X out o i p c3 ax :
  let t := boot_thread in let b := y_bootstrap_thread y in
  w_handlers w !! TIMER_VECTOR = Some h_timer_tick_handler → load64 (w_mem w) (y_tss y + tss_rsp0) = Ok (boot_top 0) →
  decode w (USER_CODE_VADDR + 2) = Ok (Jump (USER_CODE_VADDR + 2)) →
  lives x w0 (boot_ring y) X out → c_code x = Kernel p → becomes p (boot_at i) → 0 ≤ i < DEMO_THREAD_ITERATIONS →
  X !! t 3%nat = Some c3 → demos X i → (∀ j, (j < 4)%nat → t j ≠ b) →
  (∀ x l X, lives x w0 (t 3%nat :: l) X out → c_code x = c3 →
     ∃ x', rtc moves x x' ∧ lives x' w (t 3%nat :: l) X (out ++ o) ∧ c_code x' = User (USER_CODE_VADDR + 2) ax) →
  ∃ x' X' p', rtc moves x x' ∧ lives x' w (boot_ring y) X' (out ++ o ++ round_lines i) ∧ c_code x' = Kernel p' ∧ becomes p' (boot_at (i + 1)) ∧
    X' !! t 3%nat = Some (User (USER_CODE_VADDR + 2) ax) ∧ demos X' (i + 1).
Proof using Hpolls Hra Hrat Hdepth Hls Hlit Hlev.
  intros t b Htm Hrsp Hdec Hl Hc Hp Hi Ht3 Hd Hnb Hturn.
  destruct (boot_turn x w0 b (t 3%nat) _ X out i p c3 Hl (not_eq_sym (Hnb 3%nat ltac:(lia))) Hc Hp (proj2 Hi) Ht3)
    as (x1 & p' & M1 & L1 & C1 & Hp'). cbn [app] in L1.
  destruct (Hturn _ _ _ L1 C1) as (x2 & M2 & L2 & C2).
  assert (Hk : ∀ j, (j < 3)%nat → <[t 3%nat := User (USER_CODE_VADDR + 2) ax]> (<[b := Kernel p']> X) !! t j = X !! t j).
  { intros j Hj. rewrite !lookup_insert_ne; [done | apply not_eq_sym, Hnb; lia | apply boot_thread_ne; lia]. }
  destruct (Hd 2%nat _ eq_refl) as (q2 & Hq2 & _).
  destruct (user_alive w Htm Hrsp x2 _ (t 2%nat) _ _ _ _ _ (Kernel q2) L2 (boot_thread_ne 3 2 ltac:(done)) C2 Hdec)
    as (x3 & M3 & L3 & C3); [by rewrite lookup_insert_ne by (apply not_eq_sym, Hnb; lia)|]. cbn [app] in L3.
  destruct (demo_turns x3 w _ _ i (Kernel p') L3) as (x4 & X4 & M4 & L4 & C4 & D4 & K4);
    [by rewrite Hk, C3 by lia | | exact Hi | | exact Hnb |].
  { intros j nm Hj. destruct (Hd j nm Hj) as (q & Hq & Hbq). exists q. rewrite Hk by (by apply lookup_lt_Some in Hj). split; [exact Hq | exact Hbq]. }
  { rewrite lookup_insert_ne by (apply Hnb; lia). by rewrite lookup_insert_eq. }
  exists x4, X4, p'. split; [by etransitivity; [exact M1|]; etransitivity; [exact M2|]; etransitivity|].
  rewrite <-app_assoc in L4. split_and!; [exact L4 | exact C4 | exact Hp' | | exact D4]. etransitivity; [exact K4 | apply lookup_insert_eq].
Qed.

(** ** Lemmas: the run from the first yield *)

(** The boot thread after its last yield: the processor waits with interrupts
    off. *)
Lemma end_alive x w l X out p :
  lives x w l X out → c_code x = Kernel p → becomes p (boot_at DEMO_THREAD_ITERATIONS) →
  ∃ k s x', logged st0 scr out (k_log k) ∧ call_qemu_debug_exit QEMU_EXIT_SUCCESS (Running k) = Ok s ∧ rtc moves x x' ∧
    step polls y ra ra_trampoline depth ug x' = Ok None ∧ c_state x' = put_flags s (Z.clearbit (flags s) IF_BIT).
Proof.
  intros Hl Hc Hp. destruct (becomes_moves _ _ _ _ _ _ _ Hl Hc Hp) as (x1 & q & M1 & (k & C & K & Hal) & C1 & Ho).
  destruct (boot_end (D := D) (E := E) (F := F) (G := G)) as (h & h' & h'' & O1 & O2 & O3). rewrite O1 in Ho.
  pose proof (al_state _ _ _ _ _ _ _ _ _ _ _ _ _ _ _ Hal) as Hs. destruct x1 as [T ticks s c]. cbn [c_code c_state] in *. subst c s.
  eexists k, _, (mk_config T ticks _ (Kernel (h' tt))). split; [exact (al_log _ _ _ _ _ _ _ _ _ _ _ _ _ _ _ Hal)|].
  split; [reflexivity|]. split; [|split; [|reflexivity]].
  - etransitivity; [exact M1|]. eapply rtc_l; [eapply moves_do; [exact Ho | reflexivity]|]. apply rtc_once.
    unfold System.moves, step. cbn [c_code]. unfold kernel_step. rewrite O2. reflexivity.
  - unfold step. cbn [c_code]. unfold kernel_step. rewrite O3. cbn [put_flags flags put_log k_machine put_machine rg set_rf rf].
    unfold interrupts_enabled. by rewrite Z.clearbit_eq.
Qed.

(** All rounds. *)
Definition run_output : list (Z * list Z) :=
  [log_piece LOG_LEVEL_INFO (text no_strings fmt_ring3 [USER_CODE_VADDR]);
   log_piece LOG_LEVEL_WARN (text no_strings fmt_enosys [g_rax (ring3_gprs ug)])] ++ round_lines 0 ++ round_lines 1 ++ round_lines 2.

Lemma rounds_alive x w0 w X out p :
  let t := boot_thread in let b := y_bootstrap_thread y in
  w_handlers w !! TIMER_VECTOR = Some h_timer_tick_handler → load64 (w_mem w) (y_tss y + tss_rsp0) = Ok (boot_top 0) →
  ring3_demo_setup w0 = Ok (true, w) → program_ready w →
  lives x w0 (boot_ring y) X out → c_code x = Kernel p → becomes p (boot_at 0) →
  X !! t 3%nat = Some (Kernel (ring3_demo_thread polls y)) → demos X 0 → (∀ j, (j < 4)%nat → t j ≠ b) →
  ∃ k s x', logged st0 scr (out ++ run_output) (k_log k) ∧ call_qemu_debug_exit QEMU_EXIT_SUCCESS (Running k) = Ok s ∧ rtc moves x x' ∧
    step polls y ra ra_trampoline depth ug x' = Ok None ∧ c_state x' = put_flags s (Z.clearbit (flags s) IF_BIT).
Proof using Hpolls Hra Hrat Hdepth Hls Hlit Hlev.
  intros t b Htm Hrsp Hset Hpr Hl Hc Hp Ht3 Hd Hnb. destruct (program_decodes polls Hpolls w Hpr) as [Hsys Hjmp].
  destruct (round_alive x w0 w X out _ 0 p _ (u64 (- ENOSYS)) Htm Hrsp Hjmp Hl Hc Hp ltac:(done) Ht3 Hd Hnb
    (λ x l X H1 H2, ring3_alive x w0 w _ l X out _ H1 eq_refl H2 eq_refl Hset Hrsp Hsys))
    as (x1 & X1 & p1 & M1 & L1 & C1 & P1 & T1 & D1).
  assert (Hstay : ∀ out x l X, lives x w (t 3%nat :: l) X out → c_code x = User (USER_CODE_VADDR + 2) (u64 (- ENOSYS)) →
    ∃ x', rtc moves x x' ∧ lives x' w (t 3%nat :: l) X (out ++ []) ∧ c_code x' = User (USER_CODE_VADDR + 2) (u64 (- ENOSYS))).
  { intros o z l Z Hz Hcz. exists z. rewrite app_nil_r. split; [apply rtc_refl | split; [exact Hz | exact Hcz]]. }
  destruct (round_alive x1 w w X1 _ [] 1 p1 _ _ Htm Hrsp Hjmp L1 C1 P1 ltac:(done) T1 D1 Hnb (Hstay _))
    as (x2 & X2 & p2 & M2 & L2 & C2 & P2 & T2 & D2).
  destruct (round_alive x2 w w X2 _ [] 2 p2 _ _ Htm Hrsp Hjmp L2 C2 P2 ltac:(done) T2 D2 Hnb (Hstay _))
    as (x3 & X3 & p3 & M3 & L3 & C3 & P3 & _).
  destruct (end_alive x3 w _ X3 _ p3 L3 C3 P3) as (k & s & x4 & Hlg & Hex & M4 & Hend & Hst).
  exists k, s, x4. split; [|split; [exact Hex|]; split; [|by split]].
  - unfold run_output. rewrite <-!app_assoc in Hlg. exact Hlg.
  - etransitivity; [exact M1|]. etransitivity; [exact M2|]. by etransitivity.
Qed.
End threads.

(** ** Lemmas: the machine that [kmain_start] leaves is at work *)

Section start.
Context {D E F G : Type} `{Uart D} `{Mmio E} `{PortIO E} `{Mmio F} `{Msr G} {TR : Trap}.
Context (polls : nat) (y : symbols) (ra depth : Z) (st0 : log D) (scr : term).
Abbreviation mcode := (code (D := D) (E := E) (F := F) (G := G)).
Implicit Types (k : kernel D E F G) (X : gmap Z mcode).

(** What the new threads will run. *)
Definition thread_code (j : nat) : mcode :=
  Kernel match demo_names !! j with Some nm => demo_thread polls y (y_rodata y nm) | None => ring3_demo_thread polls y end.
Definition boot_codes : gmap Z mcode := list_to_map ((λ j, (boot_thread j, thread_code j)) <$> [3; 2; 1; 0]%nat).

Lemma boot_lookup {A} (f : nat → A) j l :
  NoDup l → j ∈ l → list_to_map (M := gmap Z A) ((λ j, (boot_thread j, f j)) <$> l) !! boot_thread j = Some (f j).
Proof.
  intros Hl Hj. apply elem_of_list_to_map_1.
  - rewrite <-list_fmap_compose. apply NoDup_fmap_2; [|done]. intros i i' E0. destruct (decide (i = i')); [done|].
    by destruct (boot_thread_ne i i').
  - apply list_elem_of_fmap. by exists j.
Qed.

Lemma boot_codes_at j : (j < 4)%nat → boot_codes !! boot_thread j = Some (thread_code j).
Proof.
  intros Hj. apply boot_lookup; [by apply (bool_decide_unpack _)|]. do 4 (destruct j as [|j]; [set_solver|]). lia.
Qed.

Lemma boot_contexts_at j : (j < 4)%nat → boot_contexts y !! boot_thread j = Some (thread_context y j).
Proof.
  intros Hj. apply boot_lookup; [by apply (bool_decide_unpack _)|]. do 4 (destruct j as [|j]; [set_solver|]). lia.
Qed.

Lemma boot_stacks_at lo hi j : (j < 4)%nat → boot_stacks y lo hi !! boot_thread j = Some (boot_stack (S j), boot_top (S j)).
Proof.
  intros Hj. unfold boot_stacks. rewrite list_to_map_app. apply lookup_union_Some_l.
  apply (boot_lookup (λ j, (boot_stack (S j), boot_top (S j)))); [by apply (bool_decide_unpack _)|].
  do 4 (destruct j as [|j]; [set_solver|]). lia.
Qed.

(** The stack of system calls is no thread's, and the bootloader's thread is
    below. *)
Lemma boot_stacks_apart lo hi t lo' hi' :
  hi ≤ HEAP_VBASE → boot_stacks y lo hi !! t = Some (lo', hi') → hi' ≤ boot_stack 0 ∨ boot_top 0 ≤ lo'.
Proof.
  intros Hhi Ht. apply elem_of_list_to_map_2 in Ht. apply elem_of_app in Ht as [Ht|Ht%list_elem_of_singleton].
  - apply list_elem_of_fmap in Ht as (j & [= -> -> ->] & _). right. unfold boot_top, boot_stack, dynamic_at, THREAD_STACK_PAGES, PAGE_SIZE. lia.
  - injection Ht as -> -> ->. left. unfold boot_stack, dynamic_at, HEAP_VBASE, VMM_DYNAMIC_VBASE, PAGE_SIZE in *. lia.
Qed.

Lemma start_alive k T lo hi p out :
  thread_env (k_free_list k) (k_machine k) (k_world k) T (boot_heap 4) (boot_ring y) (boot_contexts y) (boot_stacks y lo hi) →
  ticks_since_switch (sc (k_machine k)) = 0 → hi ≤ HEAP_VBASE → y_demo_thread y ≠ y_ring3_demo_thread y →
  logged st0 scr out (k_log k) →
  lives polls y ra depth st0 scr (mk_config ∅ 0 (Running k) (Kernel p)) (k_world k) (boot_ring y) boot_codes out.
Proof.
  intros Henv Hsl Hhi Hne Hlg. exists k, (boot_contexts y), (boot_stacks y lo hi).
  constructor; cbn [c_state c_code c_tasks]; [reflexivity | reflexivity | exact (te_sched _ _ _ _ _ _ _ _ Henv) | | exact Hsl | exact I | | exact Hlg].
  - intros t Ht. unfold boot_ring in Ht. cbn [tail] in Ht. apply list_elem_of_fmap in Ht as (j & -> & Hj).
    assert (Hlt : (j < 4)%nat) by (rewrite !elem_of_cons in Hj; lia || (rewrite elem_of_nil in Hj; lia)).
    exists (thread_context y j). rewrite boot_contexts_at, boot_codes_at, lookup_empty by done. split; [done|].
    do 4 (destruct j as [|j]; [cbn [default task_ok task_code thread_context new_context r12 r13]; split;
      [eexists _, _, _, _; split; [reflexivity|]; rewrite boot_stacks_at by lia; split; [reflexivity | unfold boot_top, THREAD_STACK_PAGES, PAGE_SIZE; lia]
      | unfold entered; rewrite ?Z.eqb_refl, ?(proj2 (Z.eqb_neq _ _)) by (by apply not_eq_sym); reflexivity]|]). lia.
  - intros t lo' hi' Ht. right. by eapply boot_stacks_apart.
Qed.

Lemma boot_demos : demos polls y boot_codes 0.
Proof.
  intros j nm Hj. pose proof (lookup_lt_Some _ _ _ Hj) as Hlt. cbn in Hlt. unfold demo_waits. rewrite boot_codes_at by lia.
  unfold thread_code. rewrite Hj. eexists. split; [reflexivity|]. left. apply f_equal, demo_thread_at.
Qed.
End start.

(** ** Lemmas: room for the user program *)

(** What the bootloader's tables must leave for the user program's two pages,
    and the frames it takes. *)
Record user_room (hhdm : Z) (response : list boot_memmap_entry) (m : mem) (cr3 : Z) (T : gmap (list Z) Z) : Prop := {
  ur_small v es : v ∈ [USER_CODE_VADDR; USER_STACK_VADDR] → walk m hhdm (Z.land cr3 PTE_ADDR_MASK) (indices v) = Some es → length es = 4%nat;
  ur_open v : v ∈ [USER_CODE_VADDR; USER_STACK_VADDR] → open_tables hhdm m T v;
  ur_frames : (98 ≤ base.size (boot_frames (take 256 response)))%nat;
}.

(** The user program's pages are not the heap's. *)
Lemma user_not_heap v : v ∈ [USER_CODE_VADDR; USER_STACK_VADDR] → indices v ≠ indices HEAP_VBASE.
Proof. rewrite indices_inj, !elem_of_cons, elem_of_nil. intros [->|[->|[]]]; by vm_compute. Qed.

Lemma user_setup {D E F G : Type} {TR : Trap} y r im hhdm response m mh cr3 T (k : kernel D E F G) T' m0 w0 mh0 T0 :
  kernel_memory y r im hhdm response m mh cr3 T k T' m0 w0 mh0 T0 → bootloader_ok y r im hhdm response m cr3 T →
  user_room hhdm response m cr3 T →
  ∃ w, ring3_demo_setup (k_world k) = Ok (true, w) ∧ program_ready w ∧ w_handlers w = w_handlers (k_world k) ∧
    ∀ x, static_bytes y x → w_mem w !! x = w_mem (k_world k) !! x.
Proof.
  intros [Hbl0 Hst Hmr Hgr Hfr Hout] Hbl [Hsm Hop Hsz].
  destruct (boot_tables_keep _ _ _ _ _ _ _ (bl_tables _ _ _ _ _ _ _ _ Hbl) Hst) as [_ Hwalk];
    [intros x Hx; by apply (bl_static_kept _ _ _ _ _ _ _ _ Hbl)|].
  assert (Hs : ∀ v, v ∈ [USER_CODE_VADDR; USER_STACK_VADDR] → small_page (k_world k) v).
  { intros v Hv. apply (gr_small _ _ _ _ _ _ Hgr). intros es Hes. rewrite (mr_walk _ _ _ _ _ _ _ _ _ Hmr), Hwalk in Hes by by apply user_not_heap.
    by apply (Hsm v). }
  assert (Ho : ∀ v, v ∈ [USER_CODE_VADDR; USER_STACK_VADDR] → open_path (k_world k) T' v).
  { intros v Hv. apply (gr_open _ _ _ _ _ _ Hgr), (mr_open _ _ _ _ _ _ _ _ _ Hmr). eapply open_tables_keep; [exact Hst | | by apply Hop].
    intros x Hx. by apply (bl_static_kept _ _ _ _ _ _ _ _ Hbl). }
  destruct (ring3_demo_setup_spec (k_world k) T' (gr_inv _ _ _ _ _ _ Hgr)) as (ok & w & T2 & Hset & _ & Hok & _ & Hmod & Hh);
    [apply Hs; left | apply Hs; right; left | apply Ho; left | apply Ho; right; left |].
  destruct ok.
  - exists w. split_and!; [done | exact Hok | exact Hh |]. intros x Hx. apply (modifies_lookup _ _ _ _ Hmod). by apply Hout.
  - rewrite (mr_size _ _ _ _ _ _ _ _ _ Hmr) in Hsz. unfold heap_start_frames in Hsz. pose proof (missing_le T HEAP_VBASE). lia.
Qed.

(** ** Lemmas: the run *)

(** A machine that the bootloader hands over in order, with room for the user
    program. *)
Record hand_over_ok {D E F G : Type} `{Uart D} `{Mmio F} `{!IoApicDev F IOAPIC_VADDR} (y : symbols) (r : limine_responses) (im : acpi_image) (hhdm : Z)
    (response : list boot_memmap_entry) (T : gmap (list Z) Z) (lo hi : Z) (b : boot_state D E F G) : Prop := {
  ho_revision : base_revision_supported r = true;
  ho_bootloader : bootloader_ok y r im hhdm response (b_mem b) (b_cr3 b) T;
  ho_room : user_room hhdm response (b_mem b) (b_cr3 b) T;
  ho_statics : statics_ok y (b_mem b);
  ho_console : console_ok y r (b_log b);
  ho_bootstrap : bootstrap_ok y (b_heap b) (b_regs b) lo hi;
  ho_ioapic : KEYBOARD_IRQ ≤ io_max (b_ioapic b);
  ho_literals : literals run_literals (y_rodata y) (t_mem (l_tty (b_log b))) (screen_bytes r);
  ho_threads : y_demo_thread y ≠ y_ring3_demo_thread y;
}.

Lemma system_run_spec {D E F G} `{Uart D} `{Mmio E} `{!LocalApic E LAPIC_VADDR} `{PortIO E} `{!Pit E LAPIC_VADDR}
    `{Mmio F} `{!IoApicDev F IOAPIC_VADDR} `{MsrFile G} {TR : Trap} polls fuel y r im hhdm response T lo hi ra ra_trampoline depth ug
    (b : boot_state D E F G) :
  hand_over_ok y r im hhdm response T lo hi b → (u_poll_bound < polls)%nat → (pit_bound < fuel)%nat →
  word64 ra → word64 ra_trampoline → 0 ≤ depth ≤ SYSCALL_KERNEL_STACK_PAGES * PAGE_SIZE - 56 →
  ∃ st0 hz k s, measured (D := E) LAPIC_VADDR hz ∧ fresh_tty r (l_tty st0) ∧ u_line (device (t_serial (l_tty st0))) = u_line (device (t_serial (l_tty (b_log b)))) ∧
    logged st0 (fresh_screen r)
      (boot_output y r im (Z.of_nat (boot_free (take 256 response) T)) (ram_end (take 256 response) / PAGE_SIZE) hz ++ run_output ug)
      (k_log k) ∧
    call_qemu_debug_exit QEMU_EXIT_SUCCESS (Running k) = Ok s ∧
    ∃ n, ∀ m, (n ≤ m)%nat →
      run_system polls y ra ra_trampoline depth ug m (power_on polls fuel y r b) = Ok (put_flags s (Z.clearbit (flags s) IF_BIT)).
Proof.
  intros [Hrev Hbl Hur Hso Hco Hbs Hmax Hlit Hne] Hpolls Hfuel Hra Hrat Hdepth.
  destruct (kmain_run_spec polls fuel y r im hhdm response (b_mem b) (b_heap b) (b_cr3 b) T (b_regs b) lo hi (b_seg b)
    (b_lapic b) (b_ioapic b) (b_msr b) (b_log b) run_literals Hpolls Hfuel Hbl Hso Hco Hbs Hmax Hlit)
    as (k & T' & st0 & hz & m0 & w0 & mh0 & T0 & Hk & Hkr & Hmeas & Hkm & Hlv & Hfr & Hli & Hls & Hlg); [intros l Hl; apply elem_of_app; by left|].
  destruct (user_setup _ _ _ _ _ _ _ _ _ _ _ _ _ _ _ Hkm Hbl Hur) as (w & Hset & Hpr & Hh & Hst).
  destruct (entry_step (D := D) (E := E) (F := F) (G := G) polls fuel y r Hrev) as (h & O1 & O2).
  assert (Hcall : call_kmain_start polls fuel y r (Booting b) = Ok (Running k)) by (unfold call_kmain_start; by rewrite Hk).
  set (out := boot_output _ _ _ _ _ _) in Hlg.
  pose proof (start_alive polls y ra depth st0 _ k T' lo hi (h tt) out (kr_threads _ _ _ _ _ _ _ _ _ _ Hkr)
    (kmain_slice _ _ _ _ _ _ _ _ _ _ _ _ _ _ Hk) (proj1 (proj2 (bs_stack _ _ _ _ _ Hbs))) Hne Hlg) as Hlive.
  assert (Hrsp : load64 (w_mem w) (y_tss y + tss_rsp0) = Ok (boot_top 0)).
  { destruct (dr_stack _ _ _ _ _ _ _ _ _ (kr_devices _ _ _ _ _ _ _ _ _ _ Hkr)) as [_ <-]. apply load_le_agree. intros x Hx. apply Hst.
    right. left. unfold in_range, tss_rsp0, sizeof_tss in *. lia. }
  destruct (rounds_alive (D := D) (E := E) (F := F) (G := G) polls y ra ra_trampoline depth ug Hpolls Hra Hrat Hdepth st0 (fresh_screen r)
    run_literals Hls (reflexivity _) (log_enabled y r _ st0 Hco Hlv) (mk_config ∅ 0 (Running k) (Kernel (h tt))) (k_world k) w
    (boot_codes polls y) out (h tt)) as (k' & s & x' & Hlg' & Hex & Hrun & Hend & Hfin);
    [| exact Hrsp | exact Hset | exact Hpr | exact Hlive | reflexivity | by left | exact (boot_codes_at (D := D) (E := E) (F := F) (G := G) polls y 3 ltac:(lia)) | apply boot_demos | |].
  { rewrite Hh, (dr_handlers _ _ _ _ _ _ _ _ _ (kr_devices _ _ _ _ _ _ _ _ _ _ Hkr)). by vm_compute. }
  { intros j Hj E0. apply (bs_thread _ _ _ _ _ Hbs). rewrite <-E0. do 4 (destruct j as [|j]; [by vm_compute|]). lia. }
  exists st0, hz, k', s. split; [exact Hmeas|]. split; [exact Hfr|]. split; [exact Hli|]. split; [exact Hlg'|]. split; [exact Hex|].
  rewrite <-Hfin. apply run_rtc; [|exact Hend]. eapply rtc_l; [|exact Hrun].
  eapply (moves_do _ _ _ _ _ _ _ _ _ _ _ _ _ _ O1). cbv beta. rewrite Hcall. reflexivity.
Qed.

(** ** The smoke test (tests/integration/smoke_test.sh)

    The script boots the kernel, and looks at the exit status of QEMU, which
    the debug-exit device makes of the code written to its port, and at what the
    serial port printed. *)

Definition qemu_exit_status (code : Z) : Z := 2 * code + 1.

Fixpoint grep (p l : list Z) : bool :=
  bool_decide (take (length p) l = p) || match l with [] => false | _ :: l => grep p l end.

Definition smoke_test (status : Z) (log : list Z) : bool := (status =? 33) && grep (lit "Quin Kernel Template") log.

Lemma grep_within p a l b : grep p l = true → grep p (a ++ l ++ b) = true.
Proof.
  intros Hl. induction a as [|c a IH]; cbn [app].
  - revert Hl. induction l as [|c l IH]; cbn [grep app]; rewrite !orb_true_iff, !bool_decide_eq_true.
    + intros [Hp|[=]]. destruct p; [|done]. destruct b; cbn [grep]; by rewrite bool_decide_true.
    + intros [Hp|Hg]; [left | right; by apply IH]. change (c :: l ++ b) with ((c :: l) ++ b). rewrite take_app_le; [done|].
      rewrite <-Hp. rewrite length_take. lia.
  - cbn [grep]. rewrite IH. apply orb_true_r.
Qed.

(** Whatever else is printed, the banner's line is. *)
Lemma boot_output_title y r im free total hz : ∃ a b, boot_output y r im free total hz = a ++ [log_piece LOG_LEVEL_INFO fmt_title] ++ b.
Proof. eexists (_ ++ [_; _; _; _]), [_]. unfold boot_output. rewrite <-app_assoc. reflexivity. Qed.

(** ** Properties *)


(** The smoke test passes on a machine with a serial port: when the run writes
    to the debug-exit port, the log holds the line it looks for. *)
Lemma smoke_test_passes {D E F G} `{Uart D} `{Mmio E} `{!LocalApic E LAPIC_VADDR} `{PortIO E} `{!Pit E LAPIC_VADDR}
    `{Mmio F} `{!IoApicDev F IOAPIC_VADDR} `{MsrFile G} {TR : Trap} polls fuel y r im hhdm response T lo hi ra ra_trampoline depth ug
    (b : boot_state D E F G) :
  hand_over_ok y r im hhdm response T lo hi b → (u_poll_bound < polls)%nat → (pit_bound < fuel)%nat →
  word64 ra → word64 ra_trampoline → 0 ≤ depth ≤ SYSCALL_KERNEL_STACK_PAGES * PAGE_SIZE - 56 →
  ∃ k s log, call_qemu_debug_exit QEMU_EXIT_SUCCESS (Running k) = Ok s ∧
    (∃ n, ∀ m, (n ≤ m)%nat →
      run_system polls y ra ra_trampoline depth ug m (power_on polls fuel y r b) = Ok (put_flags s (Z.clearbit (flags s) IF_BIT))) ∧
    u_line (device (t_serial (l_tty (k_log k)))) = u_line (device (t_serial (l_tty (b_log b)))) ++ log ∧
    (serial_present (t_serial (l_tty (k_log k))) = true → smoke_test (qemu_exit_status QEMU_EXIT_SUCCESS) log = true).
Proof.
  intros Hok Hpolls Hfuel Hra Hrat Hdepth.
  destruct (system_run_spec polls fuel y r im hhdm response T lo hi ra ra_trampoline depth ug b Hok Hpolls Hfuel Hra Hrat Hdepth)
    as (st0 & hz & k & s & _ & _ & Hline & [_ Hpr] & Hex & Hrun).
  exists k, s. eexists. split; [exact Hex|]. split; [exact Hrun|]. rewrite <-Hline. split; [apply Hpr|].
  rewrite (pr_present _ _ _ _ Hpr). intros ->.
  match goal with |- context [boot_output ?y ?r ?im ?f ?t ?h] => destruct (boot_output_title y r im f t h) as (oa & ob & ->) end.
  rewrite <-!app_assoc, !fmap_app, !concat_app, !crlf_app. unfold smoke_test. change (qemu_exit_status _ =? 33) with true. cbn [andb].
  apply grep_within. by vm_compute.
Qed.

(** ** Witness

    The machine of Kmain.v with the literals of the whole run; interrupts use
    512 bytes of their stack. *)

Definition ex_run_state : boot_state ref_uart (ref_apic LAPIC_VADDR) (ref_ioapic IOAPIC_VADDR) (gmap Z Z) :=
  mk_boot_state ex_physical ex_heap_view 0x81000 ex_boot_regs ex_seg (mk_ref_apic ∅ [] [] false 0) (mk_ref_ioapic 0 ∅) ∅ (ex_console run_literals).

Lemma ex_user_room T :
  (∀ v, walk ex_physical ex_hhdm 0x81000 (indices v) = None ∧ open_tables ex_hhdm ex_physical T v) →
  user_room ex_hhdm ex_boot_map ex_physical 0x81000 T.
Proof.
  intros HT. constructor.
  - intros v es _ Hes. change (Z.land 0x81000 PTE_ADDR_MASK) with 0x81000 in Hes. by rewrite (proj1 (HT v)) in Hes.
  - intros v _. apply HT.
  - apply Nat.leb_le. vm_compute. reflexivity.
Qed.

Lemma ex_hand_over T :
  bootloader_ok (ex_symbols run_literals) ex_answers ex_image ex_hhdm ex_boot_map ex_physical 0x81000 T →
  (∀ v, walk ex_physical ex_hhdm 0x81000 (indices v) = None ∧ open_tables ex_hhdm ex_physical T v) →
  hand_over_ok (ex_symbols run_literals) ex_answers ex_image ex_hhdm ex_boot_map T 0x1000 0x2000 ex_run_state.
Proof.
  intros HT Hroom. constructor.
  - reflexivity.
  - exact HT.
  - by apply ex_user_room.
  - apply ex_statics.
  - apply ex_console_ok; [by vm_compute | intros l Hl; apply elem_of_app; by left].
  - apply ex_bootstrap.
  - cbn. unfold KEYBOARD_IRQ. lia.
  - apply ex_console_literals. by vm_compute.
  - done.
Qed.

