(* ===== verification/BootErrors.v ===== *)
(** * What stops the kernel's start (kernel/main.c, pmm.c, acpi.c)

    The answers of the bootloader with which [kmain] ends in [panic]: no memory
    map, no room for the frame bitmap, no RSDP, or an ACPI table that is not what
    it should be. [boot_error] computes the message from the answers and the
    tables' bytes; the theorem is that the start ends with exactly this message,
    and that without one it runs to the end. *)

From S2P Require Import Prelude Word Mem CString Bitmap BootInfo FrameAlloc Pmm Paging Isr Vmm AddressSpace Heap Demand.
From S2P Require Import Stack IsrStubs Sched Thread Printf Acpi Madt Font Console Io Serial Log Gdt Idt Ioapic Lapic Timer Syscall.
From S2P Require Import BootConsole BootDevices Main Kmain Entry System SystemRun.

(** ** Specification: the first error *)

(** pmm.c: the first usable region of at least the bitmap's size holds it,
    unless it starts at address 0. *)
Definition memory_error (r : limine_responses) : option panic_call :=
  match memmap_response r with
  | None => Some (panic_text "pmm: bootloader did not answer the memory map request")
  | Some response =>
      let entries := take 256 response in
      let bytes := bitmap_bytes (ram_end entries / PAGE_SIZE) in
      let no_room := panicf "pmm: no usable region large enough for the frame bitmap (%lu bytes)" [PNum bytes] in
      match filter (can_hold bytes) entries with
      | [] => Some no_room
      | place :: _ => if base place =? 0 then Some no_room else None
      end
  end.

(** madt.c, for the first table of the root that is a MADT *)
Definition madt_error (im : acpi_image) : option panic_call :=
  p ← im_madt im;
  if byte_sum (im_table im p) mod 256 =? 0 then None
  else Some (panicf "acpi: %s table checksum mismatch" [PStr (lit "APIC")]).

(** acpi.c *)
Definition tables_error (r : limine_responses) (im : acpi_image) : option panic_call :=
  match rsdp_response r with
  | None => Some (panic_text "acpi: bootloader did not answer the RSDP request")
  | Some _ =>
      match acpi_error (im_rsdp im) (im_root im) with
      | Some msg => Some msg
      | None => madt_error im
      end
  end.

(** The memory managers start before the ACPI tables are read. *)
Definition boot_error (r : limine_responses) (im : acpi_image) : option panic_call :=
  match memory_error r with
  | Some msg => Some msg
  | None => tables_error r im
  end.

(** ** Specification: a machine that may have one of these errors *)

(** The tables as far as [acpi_init] and the search follow them: the RSDP's
    bytes; the root's when the RSDP is valid; the entries' when the root is. *)
Record acpi_present (hhdm : Z) (im : acpi_image) (m : mem) : Prop := {
  ap_rsdp : bytes_at m (im_rsdp_addr im) (im_rsdp im);
  ap_len : length (im_rsdp im) = 36%nat;
  ap_root : rsdp_valid (im_rsdp im) = true → table_at m (im_root_addr hhdm im) (im_root im);
  ap_valid : acpi_error (im_rsdp im) (im_root im) = None →
    ((36 ≤ length (im_root im))%nat ∧ Z.of_nat (length (im_root im)) < 2 ^ 32) ∧
    (∀ p, p ∈ im_entries im → table_at m (acpi_phys_to_virt hhdm p) (im_table im p));
}.

(** The rest of [bootloader_ok], as far as the start gets. *)
Record answers_ok (y : symbols) (r : limine_responses) (im : acpi_image) (hhdm : Z) (m : mem) (cr3 : Z) (T : gmap (list Z) Z) : Prop := {
  an_hhdm : hhdm_response r = Some hhdm;
  an_map response : memmap_response r = Some response → memmap_ok hhdm (take 256 response) m;
  an_memory response : memmap_response r = Some response → memory_error r = None →
    boot_tables hhdm (Z.land cr3 PTE_ADDR_MASK) (take 256 response) m T ∧
    (∀ x, static_bytes y x → kept hhdm (take 256 response) T x) ∧
    (∀ x, acpi_bytes hhdm im x → kept hhdm (take 256 response) T x ∧ ¬ static_bytes y x) ∧
    (∀ v es, VMM_DYNAMIC_VBASE ≤ v < 2 ^ 64 → walk m hhdm (Z.land cr3 PTE_ADDR_MASK) (indices v) = Some es → length es = 4%nat) ∧
    (90 ≤ base.size (boot_frames (take 256 response)))%nat;
  an_acpi a : rsdp_response r = Some a → a = im_rsdp_addr im ∧ acpi_present hhdm im m;
  an_madt p : boot_error r im = None → im_madt im = Some p → let t := im_table im p in
    acpi_phys_to_virt hhdm p ≠ 0 ∧ (44 ≤ length t)%nat ∧ Forall is_byte t ∧
    Z.of_nat (length t) < 2 ^ 32 - 1 ∧ Forall entry_ok (madt_entries t);
  an_ioapic : boot_error r im = None → 0 ≤ ioapic_phys im;
}.

(** ** Lemmas: the tables *)

Lemma acpi_present_keep hhdm im m m' :
  acpi_present hhdm im m → (∀ x, acpi_bytes hhdm im x → m' !! x = m !! x) → acpi_present hhdm im m'.
Proof.
  intros [H1 H2 H3 H4] Hk. constructor; [| exact H2 | |].
  - eapply bytes_at_keep; [exact H1|]. intros x Hx. apply Hk. by left.
  - intros Hv. destruct (H3 Hv) as [H5 H6]. split; [|exact H6].
    eapply bytes_at_keep; [exact H5|]. intros x Hx. apply Hk. by right; left.
  - intros Hv. destruct (H4 Hv) as [H5 H6]. split; [exact H5|]. intros p Hp. destruct (H6 p Hp) as [H7 H8]. split; [|exact H8].
    eapply bytes_at_keep; [exact H7|]. intros x Hx. apply Hk. right; right. by exists p.
Qed.

Lemma acpi_present_valid hhdm im m :
  acpi_present hhdm im m → acpi_error (im_rsdp im) (im_root im) = None → acpi_valid hhdm im m.
Proof.
  intros [H1 H2 H3 H4] Hn. destruct (H4 Hn) as [H5 H6]. pose proof (proj1 (acpi_error_none _ _) Hn) as Hv.
  constructor; try done. apply H3. by apply andb_true_iff in Hv as [? _].
Qed.

Lemma acpi_init_error r hhdm im m msg :
  hhdm_response r = Some hhdm → rsdp_response r = Some (im_rsdp_addr im) → acpi_present hhdm im m →
  acpi_error (im_rsdp im) (im_root im) = Some msg → acpi_init r m = Panic msg.
Proof.
  intros Hh Hr [H1 H2 H3 _] He. pose proof (acpi_init_spec r hhdm m _ _ (im_root im) Hh Hr H1 H2) as Hi. rewrite He in Hi.
  unfold im_root_addr in H3. destruct (rsdp_root (im_rsdp im)) as [[phys w] sg]. by apply Hi.
Qed.

(** ** Lemmas: the components *)

(** Where the bitmap goes decides. *)
Lemma memory_error_place r response :
  memmap_response r = Some response →
  let n := ram_end (take 256 response) / PAGE_SIZE in
  memory_error r = if bitmap_place (take 256 response) (bitmap_bytes n) =? 0 then Some (no_room_for n) else None.
Proof. intros Hmm. unfold memory_error, bitmap_place. rewrite Hmm. cbv zeta. by destruct (filter _ _). Qed.

Lemma boot_memory_error {TR : Trap} r hhdm m mh cr3 h msg :
  hhdm_response r = Some hhdm → (∀ response, memmap_response r = Some response → memmap_ok hhdm (take 256 response) m) →
  memory_error r = Some msg → boot_memory r m mh cr3 h = Panic msg.
Proof.
  intros Hh Hok. unfold boot_memory. destruct (memmap_response r) as [response|] eqn:Hmm.
  - rewrite (memory_error_place r response Hmm). pose proof (pmm_init_spec r hhdm response m Hh Hmm (Hok _ eq_refl)) as Hp. cbv zeta in Hp.
    destruct (_ =? 0); intros [= <-]. by rewrite Hp.
  - unfold memory_error. rewrite Hmm. intros [= <-]. unfold pmm_init, boot_get_hhdm_offset, boot_get_memmap. by rewrite Hh, Hmm.
Qed.

Section controllers.
Context {A D E F G : Type} `{FrameAllocator A} `{Uart D} `{Mmio E} `{Mmio F} `{Msr G} (polls : nat) (rodata : list Z → Z).

(** Reading the tables fails before the I/O APIC is touched. *)
Lemma boot_controllers_error r hhdm im (w : world A) T (e : E) (f : F) (g : G) (st : log D) msg :
  hhdm_response r = Some hhdm →
  (∀ a, rsdp_response r = Some a → a = im_rsdp_addr im ∧ acpi_present hhdm im (w_mem w)) →
  (∀ x, acpi_bytes hhdm im x → ¬ vmm_bytes w T x) →
  vmm_inv w T → mmio_next_vaddr (w_vmm w) = LAPIC_VADDR → small_page w LAPIC_VADDR → (3 ≤ base.size (w_avail w))%nat →
  tables_error r im = Some msg → boot_controllers polls rodata r w e f g st = Panic msg.
Proof.
  intros Hh Ha Hbytes Hinv Hmm Hsm Hsz He. unfold boot_controllers, tables_error in *.
  destruct (rsdp_response r) as [a|] eqn:Hr.
  2: { injection He as <-. unfold acpi_init, boot_get_hhdm_offset, boot_get_rsdp. by rewrite Hh, Hr. }
  destruct (Ha a eq_refl) as [-> Hp].
  destruct (acpi_error (im_rsdp im) (im_root im)) as [msg'|] eqn:Hae.
  { injection He as ->. by rewrite (acpi_init_error r hhdm im _ msg Hh Hr Hp Hae). }
  destruct (boot_find_spec r hhdm im (w_mem w) Hh Hr (acpi_present_valid _ _ _ Hp Hae)) as (s & -> & Hfind). cbn [mbind res_bind].
  destruct (lapic_init_spec w T e g Hinv Hmm Hsm Hsz) as (w1 & T1 & -> & G1 & _). cbn [mbind res_bind].
  pose proof (Hfind (w_mem w1)) as Hf. unfold madt_error in He. unfold madt_parse.
  destruct (im_madt im) as [p|]; cbn [mbind option_bind] in He; [|done]. destruct (_ =? 0); [done|]. injection He as <-.
  rewrite Hf by (intros x Hx; apply (grown_byte _ _ _ _ _ _ _ G1); [by apply Hbytes | tauto]). reflexivity.
Qed.
End controllers.

(** ** Lemmas: the start *)

Lemma answers_memory y r im hhdm response m cr3 T :
  answers_ok y r im hhdm m cr3 T → memmap_response r = Some response → memory_error r = None →
  memory_handed y r hhdm response m cr3 T.
Proof.
  intros Ha Hmm Hn. destruct (an_memory _ _ _ _ _ _ _ Ha _ Hmm Hn) as (H1 & H2 & _). constructor; try done.
  - exact (an_hhdm _ _ _ _ _ _ _ Ha).
  - by apply (an_map _ _ _ _ _ _ _ Ha).
  - rewrite (memory_error_place r response Hmm) in Hn. cbv zeta in Hn. intros H0. by rewrite H0 in Hn.
Qed.

(** Without an error the machine is one that the bootloader hands over in
    order. *)
Lemma answers_bootloader y r im hhdm m cr3 T :
  answers_ok y r im hhdm m cr3 T → boot_error r im = None →
  ∃ response, memmap_response r = Some response ∧ bootloader_ok y r im hhdm response m cr3 T.
Proof.
  intros Ha He. pose proof He as He'. unfold boot_error in He'. destruct (memory_error r) eqn:Hn; [done|].
  destruct (memmap_response r) as [response|] eqn:Hmm; [|unfold memory_error in Hn; by rewrite Hmm in Hn].
  exists response. split; [done|].
  destruct (answers_memory _ _ _ _ _ _ _ _ Ha Hmm Hn) as [M1 M2 M3 M4 M5 M6].
  destruct (an_memory _ _ _ _ _ _ _ Ha _ Hmm Hn) as (_ & _ & N1 & N2 & N3).
  unfold tables_error in He'. destruct (rsdp_response r) as [a|] eqn:Hr; [|done].
  destruct (an_acpi _ _ _ _ _ _ _ Ha a Hr) as [-> Hp].
  destruct (acpi_error _ _) eqn:Hae; [done|]. unfold madt_error in He'.
  constructor; try done; [by apply acpi_present_valid | | exact (an_ioapic _ _ _ _ _ _ _ Ha He)].
  intros p Hpm. destruct (an_madt _ _ _ _ _ _ _ Ha p He Hpm) as (K1 & K2 & K3 & K4 & K5). rewrite Hpm in He'. cbn [mbind option_bind] in He'.
  destruct (Z.eqb_spec (byte_sum (im_table im p) mod 256) 0) as [H0|]; [|done]. by split_and!.
Qed.

Section start.
Context {D E F G : Type} `{Uart D} `{Mmio E} `{!LocalApic E LAPIC_VADDR} `{PortIO E} `{!Pit E LAPIC_VADDR}
  `{Mmio F} `{!IoApicDev F IOAPIC_VADDR} `{MsrFile G} {TR : Trap}.
Context (polls fuel : nat) (Hpolls : (u_poll_bound < polls)%nat) (Hfuel : (pit_bound < fuel)%nat).

Lemma start_error y r im hhdm m mh cr3 T rgs lo hi seg (e : E) (f : F) (g : G) (st : log D) msg :
  answers_ok y r im hhdm m cr3 T → statics_ok y m → console_ok y r st → bootstrap_ok y mh rgs lo hi →
  boot_error r im = Some msg → kmain_start polls fuel y r m mh cr3 rgs seg e f g st = Panic msg.
Proof using All.
  intros Ha Hso Hco Hbs He. pose proof (co_literals _ _ _ Hco) as Hls0. unfold kmain_start. unfold boot_error in He.
  pose proof (an_hhdm _ _ _ _ _ _ _ Ha) as Hh. destruct (memory_error r) as [msg'|] eqn:Hn.
  - injection He as ->. destruct (descriptors_spec y m seg Hso) as (m1 & seg' & m2 & Hg & Hi & _ & Hmod).
    destruct (boot_console_spec polls Hpolls (y_rodata y) r st boot_literals) as (st0 & st1 & -> & _);
      [apply Hco | pose proof (co_level _ _ _ Hco); cbn [level_number] in *; lia | apply Hco | exact Hls0
      | by apply literals_subset; vm_compute |].
    cbn [mbind res_bind]. rewrite Hg. cbn [mbind res_bind]. rewrite Hi. cbn [mbind res_bind].
    rewrite (boot_memory_error r hhdm m2 mh cr3 ∅ msg Hh); [done | | exact Hn].
    intros response Hmm. eapply memmap_keep; [by apply (an_map _ _ _ _ _ _ _ Ha) | exact Hmod].
  - destruct (memmap_response r) as [response|] eqn:Hmm; [|unfold memory_error in Hn; by rewrite Hmm in Hn].
    pose proof (answers_memory _ _ _ _ _ _ _ _ Ha Hmm Hn) as Hmh.
    destruct (an_memory _ _ _ _ _ _ _ Ha _ Hmm Hn) as (_ & _ & N1 & N2 & N3).
    destruct (start_memory polls y r hhdm response m mh cr3 T seg st boot_literals Hpolls Hls0 (reflexivity _) Hco Hso Hmh
      (bs_heap _ _ _ _ _ Hbs) ltac:(lia))
      as (st0 & st1 & m1 & seg' & m2 & w & mh' & T1 & st2 & -> & E2 & E3 & E4 & E5 & _ & Hmod & Hmr & _).
    cbn [mbind res_bind]. rewrite E2. cbn [mbind res_bind]. rewrite E3. cbn [mbind res_bind]. rewrite E4.
    cbn [mbind res_bind]. rewrite E5. cbn [mbind res_bind]. clear E2 E3 E4 E5.
    rewrite (boot_controllers_error polls (y_rodata y) r hhdm im w T1 e f g st2 msg Hh); [done | | | | | | | exact He].
    + intros a Hr. destruct (an_acpi _ _ _ _ _ _ _ Ha a Hr) as [-> Hp]. split; [done|].
      eapply acpi_present_keep; [exact Hp|]. intros x Hx. destruct (N1 x Hx) as [Hk Hs].
      rewrite (modifies_lookup _ _ _ _ (mr_mem _ _ _ _ _ _ _ _ _ Hmr)) by (intros Hno; by apply Hno).
      by apply (modifies_lookup _ _ _ _ Hmod).
    + intros x Hx. by apply (mr_kept _ _ _ _ _ _ _ _ _ Hmr), N1.
    + apply Hmr.
    + by apply Hmr.
    + intros es Hes. rewrite (mr_walk _ _ _ _ _ _ _ _ _ Hmr) in Hes
        by (apply dynamic_not_heap; unfold VMM_DYNAMIC_VBASE, LAPIC_VADDR, VMM_MMIO_VBASE; lia).
      destruct (memory_keep _ _ _ _ _ _ _ _ Hmh Hmod) as [_ Hw]. rewrite Hw in Hes. revert Hes. apply N2.
      unfold VMM_DYNAMIC_VBASE, LAPIC_VADDR, VMM_MMIO_VBASE. lia.
    + rewrite (mr_size _ _ _ _ _ _ _ _ _ Hmr) in N3. unfold heap_start_frames in N3. pose proof (missing_le T HEAP_VBASE). lia.
Qed.
End start.

(** ** Properties *)

(** C3: which answers of the bootloader stop the kernel. On a machine that is in
    order apart from them, [boot_error] decides what the start does: if the
    memory map is missing, if it has no room for the frame bitmap, if there is no
    RSDP, if the RSDP's signature or checksum, the root table's or the MADT's
    checksum is wrong, the start ends in [panic] with the message of the first of
    these that the code comes to, whatever the later ones are; and if nothing is
    wrong, it runs to the end. The run of the whole machine from power-on ends
    with the same message after its first step. *)
Theorem boot_errors_correct {D E F G} `{Uart D} `{Mmio E} `{!LocalApic E LAPIC_VADDR} `{PortIO E} `{!Pit E LAPIC_VADDR}
    `{Mmio F} `{!IoApicDev F IOAPIC_VADDR} `{MsrFile G} {TR : Trap} polls fuel y r im hhdm T lo hi ra ra_trampoline depth ug
    (b : boot_state D E F G) :
  (u_poll_bound < polls)%nat → (pit_bound < fuel)%nat →
  answers_ok y r im hhdm (b_mem b) (b_cr3 b) T → statics_ok y (b_mem b) → console_ok y r (b_log b) →
  bootstrap_ok y (b_heap b) (b_regs b) lo hi → KEYBOARD_IRQ ≤ io_max (b_ioapic b) →
  match boot_error r im with
  | Some msg => call_kmain_start polls fuel y r (Booting b) = Panic msg ∧
      (base_revision_supported r = true →
       ∀ n, run_system polls y ra ra_trampoline depth ug (S n) (power_on polls fuel y r b) = Panic msg)
  | None => ∃ k, call_kmain_start polls fuel y r (Booting b) = Ok (Running k)
  end.
Proof.
  intros Hpolls Hfuel Ha Hso Hco Hbs Hmax. unfold call_kmain_start. destruct (boot_error r im) as [msg|] eqn:He.
  - assert (Hk : call_kmain_start polls fuel y r (Booting b) = Panic msg)
      by (unfold call_kmain_start; by erewrite start_error).
    split; [exact Hk|]. intros Hrev n. destruct (entry_step (D := D) (E := E) (F := F) (G := G) polls fuel y r Hrev) as (h & Ho & _).
    cbn [run_system]. unfold power_on, step. cbn [c_code]. unfold kernel_step. rewrite Ho. cbn [c_state].
    rewrite Hk. reflexivity.
  - destruct (answers_bootloader _ _ _ _ _ _ _ Ha He) as (response & _ & Hbl).
    destruct (kmain_spec polls fuel y r im hhdm response (b_mem b) (b_heap b) (b_cr3 b) T (b_regs b) lo hi (b_seg b)
      (b_lapic b) (b_ioapic b) (b_msr b) (b_log b) Hpolls Hfuel Hbl Hso Hco Hbs Hmax) as (k & _ & _ & _ & -> & _).
    by exists k.
Qed.

(** ** Witness

    The machine of SystemRun.v with a bootloader that finds no ACPI tables. *)

Definition ex_no_rsdp : limine_responses := mk_responses true (Some [ex_mode]) (Some ex_hhdm) (Some ex_boot_map) None None.

Lemma ex_answers_ok ls T :
  bootloader_ok (ex_symbols ls) ex_answers ex_image ex_hhdm ex_boot_map ex_physical 0x81000 T →
  answers_ok (ex_symbols ls) ex_no_rsdp ex_image ex_hhdm ex_physical 0x81000 T.
Proof.
  intros [_ _ _ B4 _ B6 B7 _ _ _ B11 B12 B13].
  assert (He : boot_error ex_no_rsdp ex_image = Some (panic_text "acpi: bootloader did not answer the RSDP request")) by (by vm_compute).
  constructor.
  - reflexivity.
  - intros response [= <-]. exact B4.
  - intros response [= <-] _. split; [exact B6|]. split; [exact B12|]. split; [exact B11|]. split; [exact B7 | exact B13].
  - intros a [=].
  - intros p Hn. exfalso. rewrite He in Hn. discriminate Hn.
  - intros Hn. exfalso. rewrite He in Hn. discriminate Hn.
Qed.

Lemma boot_errors_correct_witness :
  run_system (TR := ref_trap) 3 (ex_symbols run_literals) 0xffffffff80060010 0xffffffff80060020 512 ex_gprs 1
    (power_on (TR := ref_trap) 3 2 (ex_symbols run_literals) ex_no_rsdp ex_run_state) =
  Panic "acpi: bootloader did not answer the RSDP request".
Proof.
  destruct (ex_bootloader run_literals) as (T & HT & _).
  pose proof (boot_errors_correct (TR := ref_trap) 3 2 (ex_symbols run_literals) ex_no_rsdp ex_image ex_hhdm T 0x1000 0x2000
    0xffffffff80060010 0xffffffff80060020 512 ex_gprs ex_run_state) as H.
  assert (He : boot_error ex_no_rsdp ex_image = Some (panic_text "acpi: bootloader did not answer the RSDP request")) by (vm_compute; reflexivity).
  rewrite He in H. destruct H as [_ H].
  - cbn. lia.
  - cbn. lia.
  - exact (ex_answers_ok run_literals T HT).
  - apply ex_statics.
  - assert (Hc : console_ok (ex_symbols run_literals) ex_answers (ex_console run_literals))
      by (apply ex_console_ok; [vm_compute; reflexivity | intros l Hl; apply elem_of_app; by left]).
    destruct Hc as [C1 C2 C3 C4]. constructor; [exact C1 | exact C2 | exact C3 | exact C4].
  - apply ex_bootstrap.
  - cbn. unfold KEYBOARD_IRQ. lia.
  - exact (H eq_refl 0%nat).
Defined.
